(** * MVLBIM data migration: a shallow embedding of the migration toolkit

    The migration, validation, batch-processing and reconciliation classes of
    the migration design (RIBCandyMigrator, ExcelMigrationEngine,
    BatchProcessor, MigrationMonitor, DataValidationEngine,
    DataReconciliationEngine) and the cost-item schema of the shared
    validation package, embedded as Rocq functions.

    Conventions of the embedding.
    - An [async] method is a computation in the monad [Eff]: it threads an
      opaque world [W] (databases, queues, the clock), may reject with any
      value ([JsError]), and records every awaited helper call with its
      outcome in a trace.  Helpers whose bodies are not part of the sources
      are section variables of type [Async W A]: they may change the world
      and may reject, so every statement holds for all their behaviours.
      A helper runs to completion when it is called: the interleaving of
      promises that are pending at the same time is not modelled, and no
      statement says which of several rejections [Promise.all] reports.
    - A number that is only stored and compared is given by the value it
      denotes ([Num]: NaN, an infinity or a rational; the two zeros are one
      value).  Where the sources compute with numbers, the arithmetic is that
      of binary64 floating-point numbers ([float]).
    - A string is the sequence of its UTF-16 code units, one character of
      the Rocq string per code unit: strings with a code unit above 255 are
      outside the model.
    - JavaScript objects used as bags of fields are finite maps from field
      names to values. *)

From Stdlib Require Import QArith ZArith Ascii String Floats Uint63.
From stdpp Require Import gmap strings list.

Local Open Scope string_scope.
Local Open Scope list_scope.
Local Open Scope stdpp_scope.
Set Warnings "-clear-no-such-hyp".


(* ===================================================================== *)
(** ** JavaScript values *)
(* ===================================================================== *)

(** The value of a JavaScript number that the code stores or compares:
    NaN, a signed infinity, or the rational that a finite number denotes.
    Comparing such values is exact; nothing is computed with them. *)
Inductive Num : Type :=
  | NaN
  | Inf (negative : bool)
  | Fin (q : Q).

Definition num_of_Z (z : Z) : Num := Fin (inject_Z z).

(** The binary64 number of a length or a count: exact below 2^53, and the
    lengths of JavaScript arrays are below 2^32. *)
Definition float_of_nat (n : nat) : float :=
  PrimFloat.of_uint63 (Uint63.of_Z (Z.of_nat n)).

(** [a <= 0], false on NaN as every comparison with NaN is. *)
Definition num_le_zero (a : Num) : bool :=
  match a with
  | NaN => false
  | Inf s => s
  | Fin q => Qle_bool q 0
  end.

(** The primitive values; [JStr s] is the string whose code units are the
    characters of [s]. *)
Inductive JsValue : Type :=
  | JUndefined
  | JNull
  | JBool (b : bool)
  | JNum (n : Num)
  | JStr (s : string).

(** An object as a bag of named fields ([record], [RawRecord]). *)
Abbreviation JsObject := (gmap string JsValue).

(** Truthiness of an optional number, for [x || dflt]: [undefined], [0] and
    [NaN] are falsy. *)
Definition or_default (x : option Z) (dflt : Z) : Z :=
  match x with
  | None => dflt
  | Some z => if Z.eqb z 0 then dflt else z
  end.

(* ===================================================================== *)
(** ** Issues and thrown errors *)
(* ===================================================================== *)

Inductive Severity : Type := SevError | SevWarning.

(** One validation issue: [{ severity, message, record }], with the optional
    [field] and [code] of the schema layer. *)
Record Issue : Type := mkIssue {
  severity : Severity;
  issue_message : string;
  issue_record : option JsObject;
  issue_field : option string;
  issue_code : option string
}.

(** A thrown or rejected value.  Any value can be thrown and a promise can
    reject with any value: an [Error] object ([new Error(message)];
    [MigrationError(message, errors)] carries the issue list it was built
    with), another object, given by what its [message] property reads
    ([undefined] when it has none), or a primitive value, [null] and
    [undefined] among them. *)
Inductive JsError : Type :=
  | mkError (message : string) (error_issues : list Issue)
  | ThrownObject (message : JsValue)
  | ThrownValue (v : JsValue).

(** Whether the thrown value is [null] or [undefined]: the values of which
    no property can be read. *)
Definition nullish (e : JsError) : bool :=
  match e with
  | ThrownValue (JUndefined | JNull) => true
  | _ => false
  end.

(** [error.message], for a value that is not nullish: a primitive has no
    such property. *)
Definition message_of (e : JsError) : JsValue :=
  match e with
  | mkError message _ => JStr message
  | ThrownObject message => message
  | ThrownValue _ => JUndefined
  end.

(** The [TypeError] that reading property [prop] of [null] or [undefined]
    throws. *)
Definition cannot_read (v : JsValue) (prop : string) : JsError :=
  mkError ("Cannot read properties of "
           +:+ (match v with JNull => "null" | _ => "undefined" end)
           +:+ " (reading '" +:+ prop +:+ "')") [].

(** The [TypeError] of evaluating [error.message] on a nullish [error]. *)
Definition message_type_error (e : JsError) : JsError :=
  cannot_read (match e with ThrownValue v => v | _ => JUndefined end) "message".

(* ===================================================================== *)
(** ** The effect monad of the [async] methods *)
(* ===================================================================== *)

(** How an awaited promise settles. *)
Inductive Outcome (A : Type) : Type :=
  | Resolved (a : A)
  | Rejected (e : JsError).
Arguments Resolved {A} a.
Arguments Rejected {A} e.

Definition is_resolved {A} (o : Outcome A) : bool :=
  match o with Resolved _ => true | Rejected _ => false end.

Definition outcome_error {A} (o : Outcome A) : option JsError :=
  match o with Resolved _ => None | Rejected e => Some e end.

(** A helper whose body lies outside the sources. *)
Definition Async (W A : Type) : Type := W -> Outcome A * W.

(** A computation over world [W] that logs events of type [Ev]. *)
Definition Eff (W Ev A : Type) : Type := W -> Outcome A * W * list Ev.

Section Monad.
Context {W Ev : Type}.

Definition ret {A} (a : A) : Eff W Ev A := fun w => (Resolved a, w, []).

Definition throw {A} (e : JsError) : Eff W Ev A := fun w => (Rejected e, w, []).

Definition bind {A B} (m : Eff W Ev A) (k : A -> Eff W Ev B) : Eff W Ev B :=
  fun w =>
    match m w with
    | (Resolved a, w1, t1) =>
        let '(o, w2, t2) := k a w1 in (o, w2, t1 ++ t2)
    | (Rejected e, w1, t1) => (Rejected e, w1, t1)
    end.

(** [try { m } catch (e) { handler e }]. *)
Definition try_catch {A} (m : Eff W Ev A) (handler : JsError -> Eff W Ev A)
  : Eff W Ev A :=
  fun w =>
    match m w with
    | (Resolved a, w1, t1) => (Resolved a, w1, t1)
    | (Rejected e, w1, t1) =>
        let '(o, w2, t2) := handler e w1 in (o, w2, t1 ++ t2)
    end.

(** Awaiting a helper: the call and how it settled are logged. *)
Definition call {A} (ev : Outcome A -> Ev) (h : Async W A) : Eff W Ev A :=
  fun w => let '(o, w1) := h w in (o, w1, [ev o]).

(** Starting a promise without awaiting it yet: it never throws here. *)
Definition start {A} (m : Eff W Ev A) : Eff W Ev (Outcome A) :=
  fun w => let '(o, w1, t1) := m w in (Resolved o, w1, t1).

(** Evaluating [error.message] on a caught value: a [TypeError] is thrown
    when the value is [null] or [undefined]. *)
Definition read_message (error : JsError) : Eff W Ev JsValue :=
  if nullish error then throw (message_type_error error)
  else ret (message_of error).

(** Reading the world synchronously ([new Date()], a getter). *)
Definition peek {A} (f : W -> A) : Eff W Ev A := fun w => (Resolved (f w), w, []).

(** A synchronous helper that updates the world ([generateId()]). *)
Definition sync {A} (f : W -> A * W) : Eff W Ev A :=
  fun w => let '(a, w1) := f w in (Resolved a, w1, []).

(** What [Promise.all] settles to once its promises have: the values when
    all resolved, a rejection otherwise.  The model takes the first
    rejection in array order, where the language takes the one that settled
    first; the statements below do not depend on which it is. *)
Fixpoint collect {A} (os : list (Outcome A)) : Outcome (list A) :=
  match os with
  | [] => Resolved []
  | Resolved a :: rest =>
      match collect rest with
      | Resolved l => Resolved (a :: l)
      | Rejected e => Rejected e
      end
  | Rejected e :: _ => Rejected e
  end.

Fixpoint start_all {A} (ms : list (Eff W Ev A)) : Eff W Ev (list (Outcome A)) :=
  match ms with
  | [] => ret []
  | m :: rest =>
      bind (start m) (fun o => bind (start_all rest) (fun os => ret (o :: os)))
  end.

(** [await Promise.all([m1, ..., mn])]: every promise is started, in array
    order, before any is awaited; the result rejects when one of them does.
    In the model a promise has run to completion when the next one is
    started: the calls of different promises are not interleaved in the
    log, and every promise has settled when the result does. *)
Definition promise_all {A} (ms : list (Eff W Ev A)) : Eff W Ev (list A) :=
  bind (start_all ms) (fun os => fun w => (collect os, w, [])).

Definition outcome_of {A} (r : Outcome A * W * list Ev) : Outcome A := r.1.1.
Definition world_of {A} (r : Outcome A * W * list Ev) : W := r.1.2.
Definition trace_of {A} (r : Outcome A * W * list Ev) : list Ev := r.2.
End Monad.

Notation "'let!' x ':=' m 'in' k" := (bind m (fun x => k))
  (at level 10, x pattern, m at level 100, k at level 200).
Notation "m ';;!' k" := (bind m (fun _ => k))
  (at level 100, k at level 200, right associativity).

(** The monad's equations, as rewriting rules for the proofs below. *)
Section MonadLaws.
Context {W Ev : Type}.
Implicit Types w : W.

Lemma bind_resolved {A B} (m : Eff W Ev A) (k : A -> Eff W Ev B) w a w1 t1 :
  m w = (Resolved a, w1, t1) ->
  bind m k w = (outcome_of (k a w1), world_of (k a w1), t1 ++ trace_of (k a w1)).
Proof.
  intros Hm. unfold bind. rewrite Hm.
  destruct (k a w1) as [[o w2] t2]. reflexivity.
Qed.

Lemma bind_rejected {A B} (m : Eff W Ev A) (k : A -> Eff W Ev B) w e w1 t1 :
  m w = (Rejected e, w1, t1) -> bind m k w = (Rejected e, w1, t1).
Proof. intros Hm. unfold bind. rewrite Hm. reflexivity. Qed.

Lemma call_run {A} (ev : Outcome A -> Ev) (h : Async W A) w o w1 :
  h w = (o, w1) -> call ev h w = (o, w1, [ev o]).
Proof. intros Hh. unfold call. rewrite Hh. reflexivity. Qed.

Lemma bind_call_resolved {A B} (ev : Outcome A -> Ev) (h : Async W A)
    (k : A -> Eff W Ev B) w a w1 :
  h w = (Resolved a, w1) ->
  bind (call ev h) k w
  = (outcome_of (k a w1), world_of (k a w1), ev (Resolved a) :: trace_of (k a w1)).
Proof.
  intros Hh. erewrite bind_resolved by (apply call_run; exact Hh). reflexivity.
Qed.

Lemma bind_call_rejected {A B} (ev : Outcome A -> Ev) (h : Async W A)
    (k : A -> Eff W Ev B) w e w1 :
  h w = (Rejected e, w1) ->
  bind (call ev h) k w = (Rejected e, w1, [ev (Rejected e)]).
Proof.
  intros Hh. erewrite bind_rejected by (apply call_run; exact Hh). reflexivity.
Qed.

Lemma outcome_of_triple {A} (o : Outcome A) w (t : list Ev) : outcome_of (o, w, t) = o.
Proof. reflexivity. Qed.
Lemma world_of_triple {A} (o : Outcome A) w (t : list Ev) : world_of (o, w, t) = w.
Proof. reflexivity. Qed.
Lemma trace_of_triple {A} (o : Outcome A) w (t : list Ev) : trace_of (o, w, t) = t.
Proof. reflexivity. Qed.

Lemma outcome_of_ret {A} (a : A) w : outcome_of (ret (Ev := Ev) a w) = Resolved a.
Proof. reflexivity. Qed.
Lemma world_of_ret {A} (a : A) w : world_of (ret (Ev := Ev) a w) = w.
Proof. reflexivity. Qed.
Lemma trace_of_ret {A} (a : A) w : trace_of (ret (Ev := Ev) a w) = [].
Proof. reflexivity. Qed.

Lemma bind_assoc {A B C} (m : Eff W Ev A) (k : A -> Eff W Ev B)
    (k' : B -> Eff W Ev C) w :
  bind m (fun a => bind (k a) k') w = bind (bind m k) k' w.
Proof.
  unfold bind. destruct (m w) as [[[a|e] w1] t1]; [|reflexivity].
  destruct (k a w1) as [[[b|e] w2] t2]; [|reflexivity].
  destruct (k' b w2) as [[o w3] t3]. rewrite app_assoc. reflexivity.
Qed.

Lemma try_catch_resolved {A} (m : Eff W Ev A) handler w a w1 t1 :
  m w = (Resolved a, w1, t1) -> try_catch m handler w = (Resolved a, w1, t1).
Proof. intros Hm. unfold try_catch. rewrite Hm. reflexivity. Qed.

Lemma try_catch_rejected {A} (m : Eff W Ev A) handler w e w1 t1 :
  m w = (Rejected e, w1, t1) ->
  try_catch m handler w
  = (outcome_of (handler e w1), world_of (handler e w1),
     t1 ++ trace_of (handler e w1)).
Proof.
  intros Hm. unfold try_catch. rewrite Hm.
  destruct (handler e w1) as [[o w2] t2]. reflexivity.
Qed.

Lemma bind_sync {A B} (g : W -> A * W) (k : A -> Eff W Ev B) w a w1 :
  g w = (a, w1) -> bind (sync g) k w = k a w1.
Proof.
  intros Hg. unfold bind, sync. rewrite Hg.
  destruct (k a w1) as [[o w2] t2]. reflexivity.
Qed.

Lemma bind_peek {A B} (g : W -> A) (k : A -> Eff W Ev B) w :
  bind (peek g) k w = k (g w) w.
Proof.
  unfold bind, peek. destruct (k (g w) w) as [[o w2] t2]. reflexivity.
Qed.

Lemma triple_eta {A} (r : Outcome A * W * list Ev) :
  r = (outcome_of r, world_of r, trace_of r).
Proof. destruct r as [[o w] t]. reflexivity. Qed.
End MonadLaws.

(** Computations that resolve without touching the world or the log. *)
Section Pure.
Context {W Ev : Type}.

Definition pure_at {A} (m : Eff W Ev A) (a : A) : Prop :=
  ∀ w, m w = (Resolved a, w, []).

Lemma pure_ret {A} (a : A) : pure_at (ret a) a.
Proof. intros w. reflexivity. Qed.

Lemma pure_bind {A B} (m : Eff W Ev A) (k : A -> Eff W Ev B) a b :
  pure_at m a -> pure_at (k a) b -> pure_at (bind m k) b.
Proof.
  intros Hm Hk w. unfold bind. rewrite Hm, Hk. reflexivity.
Qed.

Lemma collect_resolved {A} (l : list A) : collect (map Resolved l) = Resolved l.
Proof. induction l as [|a l IH]; simpl; [|rewrite IH]; reflexivity. Qed.

Lemma start_all_pure {A} (ms : list (Eff W Ev A)) (l : list A) :
  Forall2 pure_at ms l -> pure_at (start_all ms) (map Resolved l).
Proof.
  induction 1 as [|m a ms l Hm _ IH]; [apply pure_ret|].
  intros w. simpl. unfold bind at 1, start. rewrite Hm.
  unfold bind at 1. rewrite IH. reflexivity.
Qed.

Lemma promise_all_pure {A} (ms : list (Eff W Ev A)) (l : list A) :
  Forall2 pure_at ms l -> pure_at (promise_all ms) l.
Proof.
  intros H w. unfold promise_all, bind.
  rewrite (start_all_pure _ _ H), collect_resolved. reflexivity.
Qed.

Lemma bind_pure {A B} (m : Eff W Ev A) (k : A -> Eff W Ev B) a w :
  pure_at m a -> bind m k w = k a w.
Proof.
  intros Hm. unfold bind. rewrite Hm.
  destruct (k a w) as [[o w2] t2]. reflexivity.
Qed.
End Pure.

(** Two properties of computations that compose along the monad: what the
    logged events look like, and what part of the world stays as it was. *)
Section Frames.
Context {W Ev D : Type}.
Variable P : Ev -> Prop.
Variable f : W -> D.

Definition respects {A} (m : Eff W Ev A) : Prop :=
  ∀ w, Forall P (trace_of (m w)) ∧ f (world_of (m w)) = f w.

Lemma respects_ret {A} (a : A) : respects (ret a).
Proof. intros w. split; [constructor | reflexivity]. Qed.

Lemma respects_throw {A} e : respects (throw (A := A) e).
Proof. intros w. split; [constructor | reflexivity]. Qed.

Lemma respects_peek {A} (g : W -> A) : respects (peek g).
Proof. intros w. split; [constructor | reflexivity]. Qed.

Lemma respects_sync {A} (g : W -> A * W) :
  (∀ w, f (g w).2 = f w) -> respects (sync g).
Proof.
  intros Hg w. specialize (Hg w). unfold sync.
  destruct (g w) as [a w1]. split; [constructor | exact Hg].
Qed.

Lemma respects_call {A} (ev : Outcome A -> Ev) (h : Async W A) :
  (∀ o, P (ev o)) -> (∀ w, f (h w).2 = f w) -> respects (call ev h).
Proof.
  intros Hev Hh w. specialize (Hh w). unfold call.
  destruct (h w) as [o w1]. split; [repeat constructor; apply Hev | exact Hh].
Qed.

Lemma respects_bind {A B} (m : Eff W Ev A) (k : A -> Eff W Ev B) :
  respects m -> (∀ a, respects (k a)) -> respects (bind m k).
Proof.
  intros Hm Hk w. unfold bind. destruct (Hm w) as [Ht Hw].
  destruct (m w) as [[[a|e] w1] t1]; [|split; assumption].
  destruct (Hk a w1) as [Ht2 Hw2].
  destruct (k a w1) as [[o w2] t2]. unfold trace_of, world_of in *. simpl in *.
  split; [apply Forall_app; split; assumption | congruence].
Qed.

Lemma respects_start {A} (m : Eff W Ev A) : respects m -> respects (start m).
Proof.
  intros Hm w. unfold start. specialize (Hm w).
  destruct (m w) as [[o w1] t1]. exact Hm.
Qed.

Lemma respects_start_all {A} (ms : list (Eff W Ev A)) :
  Forall respects ms -> respects (start_all ms).
Proof.
  induction 1 as [|m ms Hm _ IH]; simpl; [apply respects_ret|].
  apply respects_bind; [apply respects_start, Hm|]. intros o.
  apply respects_bind; [exact IH|]. intros os. apply respects_ret.
Qed.

Lemma respects_promise_all {A} (ms : list (Eff W Ev A)) :
  Forall respects ms -> respects (promise_all ms).
Proof.
  intros H. unfold promise_all. apply respects_bind.
  - apply respects_start_all, H.
  - intros os w. split; [constructor | reflexivity].
Qed.
End Frames.

Ltac run_simpl :=
  rewrite ?outcome_of_triple, ?world_of_triple, ?trace_of_triple,
    ?outcome_of_ret, ?world_of_ret, ?trace_of_ret.
(** Membership in an explicit event list, case by case: the cases left are
    those where the event can be the one looked for. *)
Ltac mem_cases H :=
  repeat (apply elem_of_cons in H as [H|H]; [try discriminate H|]);
  try (apply elem_of_nil in H; contradiction).

(** Membership of a given event in an explicit list. *)
Ltac in_list :=
  simpl; repeat first [apply list_elem_of_here | apply list_elem_of_further].

Ltac run_simpl_in H :=
  rewrite ?outcome_of_triple, ?world_of_triple, ?trace_of_triple,
    ?outcome_of_ret, ?world_of_ret, ?trace_of_ret in H.

(* ===================================================================== *)
(** ** DataValidationEngine *)
(* ===================================================================== *)

Module Validator.

(** [data.records]: the only part of [data: any] the engine itself reads. *)
Record Data : Type := mkData { records : list JsObject }.

(** What [validateSchema], [validateBusinessRules] and
    [validateCrossReferences] resolve to. *)
Record LayerResult : Type := mkLayer {
  layer_errors : list Issue;
  layer_warnings : list Issue
}.

(** [QualityCheck]: one quality check's outcome. *)
Record QualityCheck : Type := mkCheck {
  checkType : string;
  check_warnings : list Issue;
  check_statistics : gmap string float
}.

Record QualityCheckResult : Type := mkQuality {
  quality_warnings : list Issue;
  quality_statistics : gmap string float
}.

Record ValidationResult : Type := mkResult {
  isValid : bool;
  errors : list Issue;
  warnings : list Issue;
  statistics : gmap string float
}.

(** The element pushed on [duplicates]. *)
Record Duplicate : Type := mkDuplicate {
  dup_record : JsObject;
  duplicateKey : string;
  dup_message : string
}.

(** The awaited helper calls of the engine, each with how it settled. *)
Inductive Call : Type :=
  | ValidateSchema (o : Outcome LayerResult)
  | ValidateBusinessRules (o : Outcome LayerResult)
  | CheckDataCompleteness (o : Outcome QualityCheck)
  | CheckDataConsistency (o : Outcome QualityCheck)
  | CheckValueRanges (o : Outcome QualityCheck)
  | CheckReferentialIntegrity (o : Outcome QualityCheck)
  | ValidateCrossReferences (o : Outcome LayerResult).

(** The validation layer a logged call belongs to. *)
Inductive Layer : Type := SchemaLayer | BusinessLayer | QualityLayer | CrossRefLayer.

Definition layer_of (c : Call) : Layer :=
  match c with
  | ValidateSchema _ => SchemaLayer
  | ValidateBusinessRules _ => BusinessLayer
  | CheckDataCompleteness _ | CheckDataConsistency _
  | CheckValueRanges _ | CheckReferentialIntegrity _ => QualityLayer
  | ValidateCrossReferences _ => CrossRefLayer
  end.

Section Engine.
Context {W : Type}.
(** [ValidationSchema] and the type of its [businessRules] field. *)
Context {ValidationSchema Rules : Type}.
Variable businessRules : ValidationSchema -> Rules.
(** Methods of the engine that the sources call but do not define. *)
Variable validateSchema : Data -> ValidationSchema -> Async W LayerResult.
Variable validateBusinessRules : Data -> Rules -> Async W LayerResult.
Variable validateCrossReferences : Data -> Async W LayerResult.
Variable checkDataCompleteness : Data -> Async W QualityCheck.
Variable checkDataConsistency : Data -> Async W QualityCheck.
Variable checkValueRanges : Data -> Async W QualityCheck.
Variable checkReferentialIntegrity : Data -> Async W QualityCheck.
Variable generateRecordKey : JsObject -> string.
Variable aggregateStatistics : list QualityCheck -> gmap string float.

(** One iteration of the [for ... of data.records] loop. *)
Definition dup_step (st : list Duplicate * gset string) (record : JsObject)
  : list Duplicate * gset string :=
  let '(duplicates, seen) := st in
  let key := generateRecordKey record in
  let duplicates' :=
    if decide (key ∈ seen)
    then duplicates ++
         [mkDuplicate record key ("Duplicate record found: " +:+ key)]
    else duplicates in
  (duplicates', {[ key ]} ∪ seen).

Definition find_duplicates (rs : list JsObject) : list Duplicate :=
  (fold_left dup_step rs ([], ∅)).1.

Definition duplicate_warning (d : Duplicate) : Issue :=
  mkIssue SevWarning (dup_message d) (Some (dup_record d)) None None.

(** [(duplicates.length / data.records.length) * 100], in binary64. *)
Definition duplicate_percentage (total dups : nat) : float :=
  PrimFloat.mul (PrimFloat.div (float_of_nat dups) (float_of_nat total)) 100.

Definition duplicate_statistics (total dups : nat) : gmap string float :=
  <[ "totalRecords" := float_of_nat total ]>
  (<[ "duplicateCount" := float_of_nat dups ]>
  (<[ "duplicatePercentage" := duplicate_percentage total dups ]>
   ∅)).

Definition checkForDuplicates_pure (data : Data) : QualityCheck :=
  let duplicates := find_duplicates (records data) in
  mkCheck "duplicates"
    (map duplicate_warning duplicates)
    (duplicate_statistics (length (records data)) (length duplicates)).

Definition checkForDuplicates (data : Data) : Eff W Call QualityCheck :=
  ret (checkForDuplicates_pure data).

Definition performQualityChecks (data : Data) : Eff W Call QualityCheckResult :=
  let checks :=
    [ checkForDuplicates data;
      call CheckDataCompleteness (checkDataCompleteness data);
      call CheckDataConsistency (checkDataConsistency data);
      call CheckValueRanges (checkValueRanges data);
      call CheckReferentialIntegrity (checkReferentialIntegrity data) ] in
  let! results := promise_all checks in
  ret (mkQuality (concat (map check_warnings results))
                 (aggregateStatistics results)).

Definition push_errors (r : ValidationResult) (es : list Issue) : ValidationResult :=
  mkResult (isValid r) (errors r ++ es) (warnings r) (statistics r).
Definition push_warnings (r : ValidationResult) (ws : list Issue) : ValidationResult :=
  mkResult (isValid r) (errors r) (warnings r ++ ws) (statistics r).
Definition set_statistics (r : ValidationResult) (st : gmap string float) : ValidationResult :=
  mkResult (isValid r) (errors r) (warnings r) st.
Definition set_isValid (r : ValidationResult) (b : bool) : ValidationResult :=
  mkResult b (errors r) (warnings r) (statistics r).

Definition validateMigrationData (data : Data) (schema : ValidationSchema)
  : Eff W Call ValidationResult :=
  let results := mkResult true [] [] ∅ in
  (* Schema validation *)
  let! schemaResult := call ValidateSchema (validateSchema data schema) in
  let results := push_errors results (layer_errors schemaResult) in
  let results := push_warnings results (layer_warnings schemaResult) in
  (* Business rule validation *)
  let! businessResult :=
    call ValidateBusinessRules (validateBusinessRules data (businessRules schema)) in
  let results := push_errors results (layer_errors businessResult) in
  let results := push_warnings results (layer_warnings businessResult) in
  (* Data quality checks *)
  let! qualityResult := performQualityChecks data in
  let results := push_warnings results (quality_warnings qualityResult) in
  let results := set_statistics results (quality_statistics qualityResult) in
  (* Cross-reference validation *)
  let! crossRefResult := call ValidateCrossReferences (validateCrossReferences data) in
  let results := push_errors results (layer_errors crossRefResult) in
  let results := set_isValid results (bool_decide (length (errors results) = 0)) in
  ret results.
End Engine.
End Validator.

Module DuplicateFacts.
Import Validator.

Section Duplicates.
Variable generateRecordKey : JsObject -> string.
Implicit Types (rs : list JsObject) (acc : list Duplicate) (seen : gset string).

Local Abbreviation step := (dup_step generateRecordKey).
Local Abbreviation keys rs := (map generateRecordKey rs).

(** Occurrences of key [k], among keys and among reported duplicates. *)
Definition occurrences (k : string) (ks : list string) : nat :=
  length (filter (λ k', k' = k) ks).
Definition reported (k : string) (ds : list Duplicate) : nat :=
  length (filter (λ d, duplicateKey d = k) ds).

Lemma dup_step_seen acc seen r :
  (step (acc, seen) r).2 = {[ generateRecordKey r ]} ∪ seen.
Proof. reflexivity. Qed.

(** The loop invariant on [seen]: it holds the keys met so far. *)
Lemma fold_seen rs acc seen :
  (fold_left step rs (acc, seen)).2 = list_to_set (keys rs) ∪ seen.
Proof.
  revert acc seen. induction rs as [|r rs IH]; intros acc seen; simpl.
  - set_solver.
  - destruct (step (acc, seen) r) as [acc' seen'] eqn:Hstep.
    rewrite IH. pose proof (dup_step_seen acc seen r) as Hs.
    rewrite Hstep in Hs. simpl in Hs. subst seen'. set_solver.
Qed.

(** The loop invariant on the counters: every record either enlarges
    [seen] or is pushed on [duplicates]. *)
Lemma fold_count rs acc seen :
  length (fold_left step rs (acc, seen)).1
    + size (list_to_set (keys rs) ∪ seen)
  = length acc + length rs + size seen.
Proof.
  revert acc seen. induction rs as [|r rs IH]; intros acc seen; simpl.
  - replace (∅ ∪ seen) with seen by set_solver. lia.
  - set (k := generateRecordKey r).
    replace ({[k]} ∪ list_to_set (keys rs) ∪ seen)
      with (list_to_set (keys rs) ∪ ({[k]} ∪ seen)) by set_solver.
    destruct (decide (k ∈ seen)) as [Hin|Hout].
    + rewrite IH, length_app. simpl.
      replace ({[k]} ∪ seen) with seen by set_solver. lia.
    + rewrite IH. rewrite size_union by set_solver.
      rewrite size_singleton. lia.
Qed.

Lemma reported_app k ds1 ds2 :
  reported k (ds1 ++ ds2) = reported k ds1 + reported k ds2.
Proof. unfold reported. rewrite filter_app, length_app. reflexivity. Qed.

Lemma reported_single k d :
  reported k [d] = if decide (duplicateKey d = k) then 1 else 0.
Proof.
  unfold reported. rewrite filter_cons.
  destruct (decide (duplicateKey d = k)); reflexivity.
Qed.

Lemma occurrences_cons k k' ks :
  occurrences k (k' :: ks)
  = (if decide (k' = k) then 1 else 0) + occurrences k ks.
Proof.
  unfold occurrences. rewrite filter_cons.
  destruct (decide (k' = k)); reflexivity.
Qed.

(** Per key: an occurrence is reported exactly when the key was seen
    before it. *)
Lemma fold_reported k rs acc seen :
  reported k (fold_left step rs (acc, seen)).1
  = reported k acc
    + (if decide (k ∈ seen) then occurrences k (keys rs)
       else pred (occurrences k (keys rs))).
Proof.
  revert acc seen. induction rs as [|r rs IH]; intros acc seen; simpl.
  - destruct (decide (k ∈ seen)); unfold occurrences; simpl; lia.
  - remember (generateRecordKey r) as k' eqn:Hk'.
    rewrite IH, occurrences_cons. clear IH.
    destruct (decide (k' = k)) as [Heq|Hne].
    + subst k'. rewrite Heq.
      rewrite (decide_True (P := k ∈ {[k]} ∪ seen)) by set_solver.
      destruct (decide (k ∈ seen)).
      * rewrite reported_app, reported_single. simpl.
        rewrite decide_True by reflexivity. lia.
      * simpl. lia.
    + assert (Hiff : k ∈ {[k']} ∪ seen ↔ k ∈ seen) by set_solver.
      assert (Hacc : reported k
                (if decide (k' ∈ seen)
                 then acc ++ [mkDuplicate r k' ("Duplicate record found: " +:+ k')]
                 else acc) = reported k acc).
      { destruct (decide (k' ∈ seen)); [|reflexivity].
        rewrite reported_app, reported_single. simpl.
        rewrite decide_False by exact Hne. lia. }
      rewrite Hacc.
      destruct (decide (k ∈ seen)) as [Hin|Hout].
      * rewrite decide_True by (apply Hiff; exact Hin). reflexivity.
      * rewrite decide_False by (rewrite Hiff; exact Hout). reflexivity.
Qed.

Lemma size_keys_le rs :
  (size (list_to_set (keys rs) : gset string) ≤ length rs)%nat.
Proof.
  pose proof (fold_count rs [] ∅) as H.
  rewrite size_empty, (right_id_L ∅ (∪)) in H. cbn [length] in H. lia.
Qed.

Lemma find_duplicates_length rs :
  length (find_duplicates generateRecordKey rs)
  = length rs - size (list_to_set (keys rs) : gset string).
Proof.
  unfold find_duplicates.
  pose proof (fold_count rs [] ∅) as H.
  rewrite size_empty, (right_id_L ∅ (∪)) in H. cbn [length] in H. lia.
Qed.

Lemma find_duplicates_le rs :
  (length (find_duplicates generateRecordKey rs) ≤ length rs)%nat.
Proof. rewrite find_duplicates_length. lia. Qed.

Lemma duplicate_warnings_severity ds :
  Forall (λ i, severity i = SevWarning) (map duplicate_warning ds).
Proof.
  induction ds as [|d ds IH]; simpl; constructor; [reflexivity | exact IH].
Qed.

(** *** Which occurrences are flagged *)

(** The entry pushed on [duplicates] for the record at position [i]. *)
Definition flags (rs : list JsObject) (i : nat) (d : Duplicate) : Prop :=
  rs !! i = Some (dup_record d)
  ∧ duplicateKey d = generateRecordKey (dup_record d)
  ∧ dup_message d = "Duplicate record found: " +:+ duplicateKey d.

(** The key of the record at position [i] is the key of an earlier
    record. *)
Definition occurred_before (rs : list JsObject) (i : nat) : Prop :=
  ∃ r, rs !! i = Some r ∧ generateRecordKey r ∈ keys (take i rs).

Lemma keys_snoc pre r :
  ({[ generateRecordKey r ]} ∪ list_to_set (keys pre) : gset string)
  = list_to_set (keys (pre ++ [r])).
Proof. rewrite map_app. simpl. set_solver. Qed.

(** The loop invariant on positions: from the records [pre] already
    visited, the loop over [rs] pushes one entry for every position whose
    key was met before, in the order of the positions. *)
Lemma fold_positions rs pre acc :
  ∃ ps ds,
    (fold_left step rs (acc, list_to_set (keys pre))).1 = acc ++ ds
    ∧ Forall2 (flags (pre ++ rs)) ps ds
    ∧ ps `sublist_of` seq (length pre) (length rs)
    ∧ ∀ i, i ∈ ps ↔ (length pre <= i)%nat ∧ occurred_before (pre ++ rs) i.
Proof.
  revert pre acc. induction rs as [|r rs IH]; intros pre acc.
  - exists [], []. rewrite app_nil_r. simpl.
    split; [reflexivity|]. split; [constructor|]. split; [constructor|].
    intros i. split; [intros Hi; inversion Hi|].
    intros [Hle (r & Hr & _)]. rewrite ?app_nil_r in Hr.
    apply lookup_lt_Some in Hr. lia.
  - cbn [fold_left dup_step].
    rewrite keys_snoc.
    assert (Hall : (pre ++ [r]) ++ rs = pre ++ r :: rs)
      by (rewrite <- app_assoc; reflexivity).
    assert (Hhere : (pre ++ r :: rs) !! length pre = Some r)
      by (rewrite lookup_app_r by lia; rewrite Nat.sub_diag; reflexivity).
    assert (Hbefore : take (length pre) (pre ++ r :: rs) = pre)
      by (rewrite take_app_length; reflexivity).
    destruct (decide (generateRecordKey r ∈ (list_to_set (keys pre) : gset string)))
      as [Hin|Hout].
    + destruct (IH (pre ++ [r])
                   (acc ++ [mkDuplicate r (generateRecordKey r)
                              ("Duplicate record found: " +:+ generateRecordKey r)]))
        as (ps & ds & Hfold & Hflags & Hsub & Hiff).
      rewrite Hall in Hflags, Hiff. rewrite length_app in Hsub, Hiff. simpl in Hsub, Hiff.
      exists (length pre :: ps), (mkDuplicate r (generateRecordKey r)
                 ("Duplicate record found: " +:+ generateRecordKey r) :: ds).
      split; [rewrite Hfold, <- app_assoc; reflexivity|].
      split; [constructor; [|exact Hflags]; repeat split; exact Hhere|].
      split.
      { cbn [length seq]. replace (length pre + 1)%nat with (S (length pre)) in Hsub by lia.
        apply sublist_skip. exact Hsub. }
      intros i. rewrite elem_of_cons, Hiff. split.
      * intros [->|[Hle Hocc]]; [|split; [lia | exact Hocc]].
        split; [lia|]. exists r. split; [exact Hhere|].
        rewrite Hbefore. apply elem_of_list_to_set in Hin. exact Hin.
      * intros [Hle Hocc].
        destruct (decide (i = length pre)) as [->|Hne]; [left; reflexivity|].
        right. split; [lia | exact Hocc].
    + destruct (IH (pre ++ [r]) acc) as (ps & ds & Hfold & Hflags & Hsub & Hiff).
      rewrite Hall in Hflags, Hiff. rewrite length_app in Hsub, Hiff. simpl in Hsub, Hiff.
      exists ps, ds.
      split; [exact Hfold|]. split; [exact Hflags|].
      split.
      { cbn [length seq]. replace (length pre + 1)%nat with (S (length pre)) in Hsub by lia.
        apply sublist_cons. exact Hsub. }
      intros i. rewrite Hiff. split.
      * intros [Hle Hocc]. split; [lia | exact Hocc].
      * intros [Hle (r' & Hr' & Hk)].
        destruct (decide (i = length pre)) as [->|Hne].
        -- exfalso. rewrite Hhere in Hr'. injection Hr' as <-.
           rewrite Hbefore in Hk. apply Hout, elem_of_list_to_set, Hk.
        -- split; [lia|]. exists r'. split; assumption.
Qed.

(** The positions flagged by [find_duplicates]: exactly those whose key
    occurred before, in increasing order. *)
Lemma find_duplicates_positions rs :
  ∃ ps,
    Forall2 (flags rs) ps (find_duplicates generateRecordKey rs)
    ∧ ps `sublist_of` seq 0 (length rs)
    ∧ ∀ i, i ∈ ps ↔ occurred_before rs i.
Proof.
  destruct (fold_positions rs [] []) as (ps & ds & Hfold & Hflags & Hsub & Hiff).
  exists ps. unfold find_duplicates. simpl in Hfold. rewrite Hfold.
  split; [exact Hflags|]. split; [exact Hsub|].
  intros i. rewrite Hiff. simpl. split; [intros [_ H]; exact H|].
  intros H. split; [lia | exact H].
Qed.

(** The first record with a given key is at a position that did not occur
    before. *)
Lemma first_occurrence_not_before rs i r :
  rs !! i = Some r ->
  (∀ j r', (j < i)%nat -> rs !! j = Some r' ->
           generateRecordKey r' ≠ generateRecordKey r) ->
  ¬ occurred_before rs i.
Proof.
  intros Hr Hfirst (r0 & Hr0 & Hk). rewrite Hr in Hr0. injection Hr0 as <-.
  apply list_elem_of_fmap in Hk as (r' & Heq & Hin).
  apply list_elem_of_lookup in Hin as [j Hj].
  pose proof (lookup_lt_Some _ _ _ Hj) as Hlt. rewrite length_take in Hlt.
  rewrite lookup_take_lt in Hj by lia.
  apply (Hfirst j r'); [lia | exact Hj | symmetry; exact Heq].
Qed.

(** C10. Batch duplicate detection flags every occurrence of a composite
    natural key except its first one, and nothing else: the warnings are
    those of the records whose key is the key of an earlier record, in
    record order, so the first record with a key is never flagged.  Their
    number is the record count minus the number of distinct keys (per key:
    its occurrences minus one), each is reported at warning severity with
    the message 'Duplicate record found: ' and the key, and
    [duplicatePercentage] is [duplicateCount / totalRecords * 100] as
    binary64 arithmetic computes it (NaN on an empty record list). *)
Theorem checkForDuplicates_flags_all_but_first {W : Type} (w : W) (data : Data) :
  let rs := records data in
  let dups := find_duplicates generateRecordKey rs in
  let distinct := size (list_to_set (keys rs) : gset string) in
  let duplicateCount := length rs - distinct in
  ∃ check : QualityCheck,
    checkForDuplicates generateRecordKey data w = (Resolved check, w, [])
    ∧ checkType check = "duplicates"
    ∧ check_warnings check = map duplicate_warning dups
    ∧ (∃ positions,
         Forall2 (flags rs) positions dups
         ∧ positions `sublist_of` seq 0 (length rs)
         ∧ (∀ i, i ∈ positions ↔ occurred_before rs i)
         ∧ (∀ i r, rs !! i = Some r ->
                   (∀ j r', (j < i)%nat -> rs !! j = Some r' ->
                            generateRecordKey r' ≠ generateRecordKey r) ->
                   i ∉ positions))
    ∧ length (check_warnings check) = duplicateCount
    ∧ (∀ k, reported k dups = pred (occurrences k (keys rs)))
    ∧ Forall (λ i, severity i = SevWarning) (check_warnings check)
    ∧ Forall2 (λ d i, issue_message i = dup_message d
                      ∧ issue_record i = Some (dup_record d))
              dups (check_warnings check)
    ∧ check_statistics check !! "totalRecords" = Some (float_of_nat (length rs))
    ∧ check_statistics check !! "duplicateCount" = Some (float_of_nat duplicateCount)
    ∧ check_statistics check !! "duplicatePercentage"
      = Some (PrimFloat.mul
                (PrimFloat.div (float_of_nat duplicateCount)
                               (float_of_nat (length rs))) 100)
    ∧ (rs = [] -> check_statistics check !! "duplicatePercentage" = Some nan).
Proof.
  intros rs dups distinct duplicateCount.
  assert (Hlen : length dups = duplicateCount)
    by apply find_duplicates_length.
  exists (checkForDuplicates_pure generateRecordKey data).
  split; [reflexivity|]. split; [reflexivity|].
  unfold checkForDuplicates_pure, duplicate_statistics, duplicate_percentage.
  cbn [check_warnings check_statistics].
  fold rs. fold dups. rewrite Hlen.
  split; [reflexivity|].
  split.
  { destruct (find_duplicates_positions rs) as (ps & Hflags & Hsub & Hiff).
    exists ps. split; [exact Hflags|]. split; [exact Hsub|]. split; [exact Hiff|].
    intros i r Hr Hfirst Hin. apply Hiff in Hin.
    exact (first_occurrence_not_before rs i r Hr Hfirst Hin). }
  split; [rewrite length_map; exact Hlen|].
  split.
  { intros k. unfold dups, find_duplicates.
    rewrite fold_reported. rewrite decide_False by set_solver.
    unfold reported. reflexivity. }
  split; [apply duplicate_warnings_severity|].
  split.
  { apply Forall2_fmap_r, Forall_Forall2_diag, Forall_forall.
    intros d _. split; reflexivity. }
  split; [reflexivity|]. split; [reflexivity|].
  split.
  - rewrite !lookup_insert_ne by discriminate. rewrite lookup_insert_eq. reflexivity.
  - intros Hnil.
    rewrite !lookup_insert_ne by discriminate. rewrite lookup_insert_eq.
    unfold duplicateCount. rewrite Hnil. vm_compute. reflexivity.
Qed.
End Duplicates.

(** Three records, the first and the last sharing a key: only the last one
    is reported. *)
Definition key_of_code (r : JsObject) : string :=
  match r !! "code" with Some (JStr c) => c | _ => "" end.
Definition item (code : string) (qty : Z) : JsObject :=
  <[ "code" := JStr code ]> (<[ "quantity" := JNum (num_of_Z qty) ]> ∅).

Example duplicates_of_three :
  map dup_record (find_duplicates key_of_code [item "A1" 1; item "B2" 2; item "A1" 3])
  = [item "A1" 3].
Proof. vm_compute. reflexivity. Qed.
End DuplicateFacts.

Module ValidatorFacts.
Import Validator.

Section Runs.
Context {W ValidationSchema Rules : Type}.
Variable businessRules : ValidationSchema -> Rules.
Variable validateSchema : Data -> ValidationSchema -> Async W LayerResult.
Variable validateBusinessRules : Data -> Rules -> Async W LayerResult.
Variable validateCrossReferences : Data -> Async W LayerResult.
Variable checkDataCompleteness : Data -> Async W QualityCheck.
Variable checkDataConsistency : Data -> Async W QualityCheck.
Variable checkValueRanges : Data -> Async W QualityCheck.
Variable checkReferentialIntegrity : Data -> Async W QualityCheck.
Variable generateRecordKey : JsObject -> string.
Variable aggregateStatistics : list QualityCheck -> gmap string float.

Local Abbreviation quality :=
  (performQualityChecks checkDataCompleteness checkDataConsistency
     checkValueRanges checkReferentialIntegrity generateRecordKey
     aggregateStatistics).
Local Abbreviation validate :=
  (validateMigrationData businessRules validateSchema validateBusinessRules
     validateCrossReferences checkDataCompleteness checkDataConsistency
     checkValueRanges checkReferentialIntegrity generateRecordKey
     aggregateStatistics).

(** The four awaited quality checks, in array order, with their outcomes. *)
Definition quality_events (o1 o2 o3 o4 : Outcome QualityCheck) : list Call :=
  [CheckDataCompleteness o1; CheckDataConsistency o2;
   CheckValueRanges o3; CheckReferentialIntegrity o4].

(** Every quality check is started, whatever the others do; the layer
    resolves exactly when all of them do. *)
Lemma performQualityChecks_run data w :
  ∃ o1 o2 o3 o4 w',
    trace_of (quality data w) = quality_events o1 o2 o3 o4
    ∧ world_of (quality data w) = w'
    ∧ outcome_of (quality data w)
      = match collect [Resolved (checkForDuplicates_pure generateRecordKey data);
                       o1; o2; o3; o4] with
        | Resolved results =>
            Resolved (mkQuality (concat (map check_warnings results))
                                (aggregateStatistics results))
        | Rejected e => Rejected e
        end.
Proof.
  unfold performQualityChecks, promise_all, start_all, checkForDuplicates,
    bind, start, call, ret.
  destruct (checkDataCompleteness data w) as [o1 w1].
  destruct (checkDataConsistency data w1) as [o2 w2].
  destruct (checkValueRanges data w2) as [o3 w3].
  destruct (checkReferentialIntegrity data w3) as [o4 w4].
  exists o1, o2, o3, o4, w4. cbn -[collect].
  destruct (collect _) as [results|e]; auto.
Qed.

(** The result assembled from what the layers resolved to. *)
Definition assemble (sr br : LayerResult) (results : list QualityCheck)
    (cr : LayerResult) : ValidationResult :=
  let es := layer_errors sr ++ layer_errors br ++ layer_errors cr in
  mkResult (bool_decide (length es = 0)) es
    (layer_warnings sr ++ layer_warnings br ++ concat (map check_warnings results))
    (aggregateStatistics results).

(** The shapes a run of [validateMigrationData] on [data] can take: the
    first rejecting layer ends it, otherwise all four layers run. *)
Inductive run_shape (data : Data) : Outcome ValidationResult -> list Call -> Prop :=
  | schema_rejects e :
      run_shape data (Rejected e) [ValidateSchema (Rejected e)]
  | business_rejects sr e :
      run_shape data (Rejected e)
        [ValidateSchema (Resolved sr); ValidateBusinessRules (Rejected e)]
  | quality_rejects sr br o1 o2 o3 o4 e :
      collect [Resolved (checkForDuplicates_pure generateRecordKey data);
               o1; o2; o3; o4] = Rejected e ->
      run_shape data (Rejected e)
        (ValidateSchema (Resolved sr) :: ValidateBusinessRules (Resolved br)
           :: quality_events o1 o2 o3 o4)
  | crossref_rejects sr br c1 c2 c3 c4 e :
      run_shape data (Rejected e)
        (ValidateSchema (Resolved sr) :: ValidateBusinessRules (Resolved br)
           :: quality_events (Resolved c1) (Resolved c2) (Resolved c3) (Resolved c4)
           ++ [ValidateCrossReferences (Rejected e)])
  | all_resolve sr br c1 c2 c3 c4 cr :
      run_shape data
        (Resolved (assemble sr br
                     [checkForDuplicates_pure generateRecordKey data; c1; c2; c3; c4]
                     cr))
        (ValidateSchema (Resolved sr) :: ValidateBusinessRules (Resolved br)
           :: quality_events (Resolved c1) (Resolved c2) (Resolved c3) (Resolved c4)
           ++ [ValidateCrossReferences (Resolved cr)]).

Lemma collect_all_resolved {A} (os : list (Outcome A)) (l : list A) :
  collect os = Resolved l -> os = map Resolved l.
Proof.
  revert l. induction os as [|[a|e] os IH]; intros l H; simpl in H.
  - injection H as <-. reflexivity.
  - destruct (collect os) as [l'|e'] eqn:Hc; [|discriminate].
    injection H as <-. simpl. f_equal. apply IH. reflexivity.
  - discriminate.
Qed.

Lemma validateMigrationData_run_shape data schema w :
  run_shape data (outcome_of (validate data schema w))
                 (trace_of (validate data schema w)).
Proof.
  unfold validateMigrationData.
  destruct (validateSchema data schema w) as [[sr|e] w1] eqn:Hs.
  2:{ erewrite bind_call_rejected by exact Hs. apply schema_rejects. }
  erewrite bind_call_resolved by exact Hs. run_simpl.
  destruct (validateBusinessRules data (businessRules schema) w1)
    as [[br|e] w2] eqn:Hb.
  2:{ erewrite bind_call_rejected by exact Hb. apply business_rejects. }
  erewrite bind_call_resolved by exact Hb. run_simpl.
  destruct (performQualityChecks_run data w2)
    as (o1 & o2 & o3 & o4 & w3 & Ht & Hw & Ho).
  destruct (quality data w2) as [[oq wq] tq] eqn:Hq.
  rewrite trace_of_triple in Ht. rewrite world_of_triple in Hw.
  rewrite outcome_of_triple in Ho. subst tq wq.
  destruct (collect _) as [results|e] eqn:Hc in Ho; subst oq.
  2:{ erewrite bind_rejected by exact Hq. run_simpl.
      apply quality_rejects. exact Hc. }
  apply collect_all_resolved in Hc.
  destruct results as [|d [|c1 [|c2 [|c3 [|c4 [|? ?]]]]]]; try discriminate Hc.
  injection Hc as Hd -> -> -> ->.
  erewrite bind_resolved by exact Hq. run_simpl.
  destruct (validateCrossReferences data w3) as [[cr|e] w4] eqn:Hx.
  2:{ erewrite bind_call_rejected by exact Hx. run_simpl.
      apply crossref_rejects. }
  erewrite bind_call_resolved by exact Hx. run_simpl.
  subst d. pose proof (all_resolve data sr br c1 c2 c3 c4 cr) as Hfinal.
  match goal with
  | |- run_shape _ (Resolved ?r) _ =>
      replace r with
        (assemble sr br
           [checkForDuplicates_pure generateRecordKey data; c1; c2; c3; c4] cr)
  end.
  - exact Hfinal.
  - unfold assemble, set_isValid, push_errors, push_warnings, set_statistics.
    cbn [isValid errors warnings statistics quality_warnings quality_statistics].
    rewrite !app_nil_l, <- !app_assoc. reflexivity.
Qed.

(** A validation that resolves awaited all seven helpers, each on [data]
    and from the world the one before left, and all of them resolved; the
    result is assembled from what they resolved to. *)
Lemma validateMigrationData_resolved data schema w res :
  outcome_of (validate data schema w) = Resolved res ->
  ∃ sr br c1 c2 c3 c4 cr w1 w2 w3 w4 w5 w6 w7,
    validateSchema data schema w = (Resolved sr, w1)
    ∧ validateBusinessRules data (businessRules schema) w1 = (Resolved br, w2)
    ∧ checkDataCompleteness data w2 = (Resolved c1, w3)
    ∧ checkDataConsistency data w3 = (Resolved c2, w4)
    ∧ checkValueRanges data w4 = (Resolved c3, w5)
    ∧ checkReferentialIntegrity data w5 = (Resolved c4, w6)
    ∧ validateCrossReferences data w6 = (Resolved cr, w7)
    ∧ validate data schema w
      = (Resolved (assemble sr br
                     [checkForDuplicates_pure generateRecordKey data;
                      c1; c2; c3; c4] cr),
         w7,
         ValidateSchema (Resolved sr) :: ValidateBusinessRules (Resolved br)
           :: quality_events (Resolved c1) (Resolved c2) (Resolved c3) (Resolved c4)
           ++ [ValidateCrossReferences (Resolved cr)]).
Proof.
  unfold validateMigrationData, performQualityChecks, promise_all, start_all,
    checkForDuplicates, bind, start, call, ret, outcome_of.
  destruct (validateSchema data schema w) as [[sr|e] w1] eqn:H1;
    [|intros H; discriminate H].
  destruct (validateBusinessRules data (businessRules schema) w1)
    as [[br|e] w2] eqn:H2; [|intros H; discriminate H].
  destruct (checkDataCompleteness data w2) as [o1 w3] eqn:H3.
  destruct (checkDataConsistency data w3) as [o2 w4] eqn:H4.
  destruct (checkValueRanges data w4) as [o3 w5] eqn:H5.
  destruct (checkReferentialIntegrity data w5) as [o4 w6] eqn:H6.
  destruct o1 as [c1|e]; [|intros H; discriminate H].
  destruct o2 as [c2|e]; [|intros H; discriminate H].
  destruct o3 as [c3|e]; [|intros H; discriminate H].
  destruct o4 as [c4|e]; [|intros H; discriminate H].
  cbn.
  destruct (validateCrossReferences data w6) as [[cr|e] w7] eqn:H7;
    [|intros H; discriminate H].
  intros _. exists sr, br, c1, c2, c3, c4, cr, w1, w2, w3, w4, w5, w6, w7.
  repeat (split; [first [reflexivity | assumption]|]).
  unfold assemble, set_isValid, push_errors, push_warnings, set_statistics.
  cbn [isValid errors warnings statistics quality_warnings quality_statistics
       fst snd].
  rewrite !app_nil_l, <- !app_assoc. reflexivity.
Qed.
End Runs.
End ValidatorFacts.

(* ===================================================================== *)
(** ** The shared validation package: [createCostItemSchema] *)
(* ===================================================================== *)

Module Schema.

(** An issue as the schema library reports it. *)
Record ZodIssue : Type := mkZodIssue {
  code : string;
  path : list string;
  zod_message : string
}.

(** The refinements used by the cost-item schema. *)
Inductive StringCheck : Type :=
  | Min (n : nat) (msg : string)      (* .min(n, msg) *)
  | Cuid (msg : string).              (* .cuid(msg) *)
Inductive NumberCheck : Type :=
  | Positive (msg : string).          (* .positive(msg) *)

Inductive ZodType : Type :=
  | ZString (checks : list StringCheck)
  | ZNumber (checks : list NumberCheck)
  | ZEnum (values : list string).

Record ZodField : Type := mkField {
  key : string;
  type_of : ZodType;
  optional : bool
}.

Definition required (k : string) (t : ZodType) : ZodField := mkField k t false.
Definition opt (k : string) (t : ZodType) : ZodField := mkField k t true.

(** [createCostItemSchema = z.object({ ... })], field by field. *)
Definition createCostItemSchema : list ZodField :=
  [ required "name" (ZString [Min 1 "Cost item name is required"]);
    opt "description" (ZString []);
    opt "code" (ZString []);
    required "type" (ZEnum ["MATERIAL"; "LABOR"; "EQUIPMENT"; "SUBCONTRACTOR"; "OTHER"]);
    required "quantity" (ZNumber [Positive "Quantity must be positive"]);
    required "unit" (ZString [Min 1 "Unit is required"]);
    required "unitCost" (ZNumber [Positive "Unit cost must be positive"]);
    required "categoryId" (ZString [Cuid "Invalid category ID"]);
    opt "phaseId" (ZString [Cuid "Invalid phase ID"]);
    opt "notes" (ZString []) ].

Section Parse.
(** The library's cuid pattern test. *)
Variable is_cuid : string -> bool.

Definition string_check (p : list string) (s : string) (c : StringCheck)
  : list ZodIssue :=
  match c with
  | Min n msg =>
      if (String.length s <? n)%nat then [mkZodIssue "too_small" p msg] else []
  | Cuid msg =>
      if is_cuid s then [] else [mkZodIssue "invalid_string" p msg]
  end.

(** [.positive(msg)] is [.gt(0)]: the issue is raised when [value <= 0]. *)
Definition number_check (p : list string) (n : Num) (c : NumberCheck)
  : list ZodIssue :=
  match c with
  | Positive msg =>
      if num_le_zero n then [mkZodIssue "too_small" p msg] else []
  end.

Definition type_name (v : JsValue) : string :=
  match v with
  | JUndefined => "undefined"
  | JNull => "null"
  | JBool _ => "boolean"
  | JNum NaN => "nan"
  | JNum _ => "number"
  | JStr _ => "string"
  end.

Definition invalid_type (p : list string) (expected : string) (v : JsValue)
  : ZodIssue :=
  mkZodIssue "invalid_type" p
    (match v with
     | JUndefined => "Required"
     | _ => "Expected " +:+ expected +:+ ", received " +:+ type_name v
     end).

(** The library's [joinValues]: the options of an enumeration, quoted. *)
Definition join_values (values : list string) : string :=
  String.concat " | " (map (λ v, "'" +:+ v +:+ "'") values).

Definition invalid_enum_value (p : list string) (values : list string)
    (received : string) : ZodIssue :=
  mkZodIssue "invalid_enum_value" p
    ("Invalid enum value. Expected " +:+ join_values values
     +:+ ", received '" +:+ received +:+ "'").

Definition parse_value (p : list string) (t : ZodType) (v : JsValue)
  : list ZodIssue :=
  match t, v with
  | ZString checks, JStr s => concat (map (string_check p s) checks)
  | ZString _, _ => [invalid_type p "string" v]
  | ZNumber _, JNum NaN => [invalid_type p "number" v]
  | ZNumber checks, JNum n => concat (map (number_check p n) checks)
  | ZNumber _, _ => [invalid_type p "number" v]
  | ZEnum values, JStr s =>
      if bool_decide (s ∈ values) then [] else [invalid_enum_value p values s]
  | ZEnum values, _ => [invalid_type p (join_values values) v]
  end.

(** A missing key reads as [undefined]; an optional field accepts it. *)
Definition parse_field (input : JsObject) (f : ZodField) : list ZodIssue :=
  let v := default JUndefined (input !! key f) in
  match v with
  | JUndefined =>
      if optional f then [] else [invalid_type [key f] "" JUndefined]
  | _ => parse_value [key f] (type_of f) v
  end.

(** [schema.safeParse(input)]: the issues of all fields, in shape order;
    success means there is none. *)
Definition issues_of (schema : list ZodField) (input : JsObject) : list ZodIssue :=
  concat (map (parse_field input) schema).

Definition safeParse_success (schema : list ZodField) (input : JsObject) : bool :=
  bool_decide (issues_of schema input = []).
End Parse.
End Schema.

(* ===================================================================== *)
(** ** ExcelMigrationEngine *)
(* ===================================================================== *)

Module Excel.

(** One entry of [ExcelTemplate.fields]. *)
Record TemplateField : Type := mkTemplateField {
  name : string;
  aliases : list string;
  required : bool;
  dataType : option string
}.

Record ValidationRule : Type := mkRule { field : string; rule : string }.

Record ExcelTemplate : Type := mkTemplate {
  template_name : string;
  description : string;
  fields : list TemplateField;
  validationRules : list ValidationRule
}.

(** [boqTemplate], the standard bill-of-quantities template. *)
Definition boqTemplate : ExcelTemplate :=
  mkTemplate "Standard BOQ Template" "Standard Bill of Quantities format"
    [ mkTemplateField "item_code" ["code"; "item no"; "item number"] true None;
      mkTemplateField "description" ["desc"; "item description"] true None;
      mkTemplateField "unit" ["uom"; "unit of measure"] true None;
      mkTemplateField "quantity" ["qty"; "amount"] true (Some "number");
      mkTemplateField "rate" ["unit rate"; "price"] true (Some "currency");
      mkTemplateField "amount" ["total"; "total amount"] false (Some "currency") ]
    [ mkRule "quantity" "positive_number";
      mkRule "rate" "positive_currency";
      mkRule "item_code" "unique_within_sheet" ].

(** What [findBestMatch] resolves to when a field is accepted. *)
Record Match : Type := mkMatch { match_name : string; match_confidence : Q }.

(** *** Header matching *)

(** Modelled from the spec: the definitions from here to [findBestMatch]
    spell out the matching rule of section 4.2, which the sources call
    through [findBestMatch] and define nowhere. *)

(** Modelled from the spec: white space, as trimming sees it. *)
Definition is_space (c : ascii) : bool :=
  let n := nat_of_ascii c in
  ((n =? 32) || ((9 <=? n) && (n <=? 13)))%nat.

(** Modelled from the spec: case folding of one character. *)
Definition lower (c : ascii) : ascii :=
  let n := nat_of_ascii c in
  if ((65 <=? n) && (n <=? 90))%nat then ascii_of_nat (n + 32) else c.

(** Modelled from the spec: leading white space removed. *)
Fixpoint drop_spaces (l : list ascii) : list ascii :=
  match l with
  | c :: l' => if is_space c then drop_spaces l' else l
  | [] => []
  end.

(** Modelled from the spec: white space removed at both ends. *)
Definition trim (l : list ascii) : list ascii :=
  rev (drop_spaces (rev (drop_spaces l))).

(** Modelled from the spec: headers are compared trimmed and
    case-folded. *)
Definition normalize (s : string) : list ascii :=
  map lower (trim (list_ascii_of_string s)).

(** Modelled from the spec: the edit distance between two character
    lists, the measure behind the "normalized string-similarity". *)
Fixpoint edit_distance (a b : list ascii) : nat :=
  match a with
  | [] => length b
  | x :: a' =>
      (fix inner (b : list ascii) : nat :=
         match b with
         | [] => S (length a')
         | y :: b' =>
             Nat.min (Nat.min (S (edit_distance a' b)) (S (inner b')))
                     ((if Ascii.eqb x y then 0 else 1) + edit_distance a' b')
         end) b
  end.

(** Modelled from the spec: the edit distance scaled to a similarity, 1
    for equal lists, 0 for lists with nothing in common. *)
Definition edit_similarity (a b : list ascii) : Q :=
  match Nat.max (length a) (length b) with
  | O => 1
  | S m => 1 - (Z.of_nat (edit_distance a b) # Pos.of_succ_nat m)
  end.

(** Modelled from the spec: "default 0.6". *)
Definition DEFAULT_MIN_CONFIDENCE : Q := 6 # 10.

Section Matching.
(** The similarity measure and the acceptance threshold are configuration. *)
Variable similarity : list ascii -> list ascii -> Q.
Variable minConfidence : Q.

(** Modelled from the spec: an exact alias match. *)
Definition is_exact (header : string) (alias : string) : bool :=
  bool_decide (normalize header = normalize alias).

(** Modelled from the spec: a field one of whose aliases matches
    exactly. *)
Definition has_exact_alias (header : string) (f : TemplateField) : bool :=
  existsb (is_exact header) (aliases f).

(** Modelled from the spec: the candidates of the fuzzy pass, every alias
    of every field, in declared order, with its score. *)
Definition candidates (header : string) (fs : list TemplateField) : list Match :=
  f ← fs;
  (λ alias, mkMatch (name f) (similarity (normalize header) (normalize alias)))
    <$> aliases f.

(** Modelled from the spec: the best candidate; among equal scores the
    first declared one wins. *)
Fixpoint best (cs : list Match) : option Match :=
  match cs with
  | [] => None
  | c :: rest =>
      match best rest with
      | Some c' =>
          if Qle_bool (match_confidence c') (match_confidence c)
          then Some c else Some c'
      | None => Some c
      end
  end.

(** Modelled from the spec: [findBestMatch] is called by [analyzeSheet]
    and defined nowhere in the sources.  Section 4.2: "exact alias match
    (confidence 1.0) takes priority; otherwise a normalized
    string-similarity match against aliases (confidence in [0,1)) is
    used, and a match is accepted only above a configurable minimum
    confidence (default 0.6)".  Ties go to the first rule in declared
    order, the tie-break the design notes suggest. *)
Definition findBestMatch (header : string) (fs : list TemplateField)
  : option Match :=
  match List.find (has_exact_alias header) fs with
  | Some f => Some (mkMatch (name f) 1)
  | None =>
      match best (candidates header fs) with
      | Some c =>
          if Qle_bool (match_confidence c) minConfidence then None else Some c
      | None => None
      end
  end.
End Matching.

(** *** Sheets and workbooks *)

Record HeaderRow : Type := mkHeaderRow { values : list string; number : Z }.
Record DataRange : Type := mkRange { startRow : Z; endRow : Z }.

Record ColumnMapping (DataType : Type) : Type := mkColumn {
  excelColumn : nat;
  excelHeader : string;
  templateField : option string;
  confidence : Q;
  column_dataType : DataType
}.
Arguments mkColumn {DataType}.
Arguments excelColumn {DataType}.
Arguments excelHeader {DataType}.
Arguments templateField {DataType}.
Arguments confidence {DataType}.
Arguments column_dataType {DataType}.

Record SheetMapping (DataType : Type) : Type := mkSheetMapping {
  sheetName : string;
  headerRow : Z;
  dataRange : DataRange;
  columnMappings : list (ColumnMapping DataType);
  recordCount : Z
}.
Arguments mkSheetMapping {DataType}.
Arguments sheetName {DataType}.
Arguments headerRow {DataType}.
Arguments dataRange {DataType}.
Arguments columnMappings {DataType}.
Arguments recordCount {DataType}.

Record DataMapping (DataType : Type) : Type := mkDataMapping {
  sheets : list (SheetMapping DataType);
  mapping_confidence : Q
}.
Arguments mkDataMapping {DataType}.
Arguments sheets {DataType}.
Arguments mapping_confidence {DataType}.

(** [validatedData] is a validation result: the engine reads its
    [isValid], [errors] and [warnings]. *)
Abbreviation Validated := Validator.ValidationResult.
Abbreviation isValid := Validator.isValid.
Abbreviation errors := Validator.errors.
Abbreviation warnings := Validator.warnings.

Record ImportResult : Type := mkImportResult { count : Z }.

(** The two shapes of the engine's [MigrationResult]. *)
Inductive MigrationResult (Suggestions Summary : Type) : Type :=
  | StatusError (errors : list Issue) (suggestions : Suggestions)
  | StatusSuccess (recordsImported : Z) (warnings : list Issue) (summary : Summary).
Arguments StatusError {Suggestions Summary}.
Arguments StatusSuccess {Suggestions Summary}.

Definition status {S1 S2} (r : MigrationResult S1 S2) : string :=
  match r with
  | StatusError _ _ => "error"
  | StatusSuccess _ _ _ => "success"
  end.

Section Engine.
Context {W : Type}.
Context {Workbook Sheet DataType Extracted Suggestions Summary : Type}.
(** Accessors of the workbook objects. *)
Variable worksheets : Workbook -> list Sheet.
Variable sheet_name : Sheet -> string.
(** Synchronous methods the sources call but do not define. *)
Variable findHeaderRow : Sheet -> HeaderRow.
Variable identifyDataRange : Sheet -> HeaderRow -> DataRange.
Variable calculateMappingConfidence : list (SheetMapping DataType) -> Q.
Variable generateMappingSuggestions : Workbook -> ExcelTemplate -> Suggestions.
Variable generateImportSummary : ImportResult -> Summary.
(** [inferDataType] samples the cells of one column; no statement below
    depends on what it answers. *)
Variable inferDataType : Sheet -> nat -> DataRange -> DataType.
(** The matcher's configuration. *)
Variable similarity : list ascii -> list ascii -> Q.
Variable minConfidence : Q.
(** Awaited methods the sources call but do not define. *)
Variable loadExcelFile : string -> Async W Workbook.
Variable getTemplate : string -> Async W ExcelTemplate.
Variable extractDataFromExcel : Workbook -> DataMapping DataType -> Async W Extracted.
Variable validateExtractedData : Extracted -> ExcelTemplate -> Async W Validated.
Variable importData : Extracted -> string -> Async W ImportResult.

(** The awaited helper calls, with their arguments and outcomes. *)
Inductive Call : Type :=
  | LoadExcelFile (filePath : string) (o : Outcome Workbook)
  | GetTemplate (templateType : string) (o : Outcome ExcelTemplate)
  | ExtractDataFromExcel (o : Outcome Extracted)
  | ValidateExtractedData (extracted : Extracted) (o : Outcome Validated)
  | ImportData (extracted : Extracted) (templateType : string)
               (o : Outcome ImportResult).

(** The body of the [headerRow.values.map(async (header, index) => ...)]
    callback. *)
Definition mapColumn (sheet : Sheet) (template : ExcelTemplate)
    (range : DataRange) (index : nat) (header : string)
  : Eff W Call (ColumnMapping DataType) :=
  let! templateField :=
    ret (findBestMatch similarity minConfidence header (fields template)) in
  ret (mkColumn index header
         (match_name <$> templateField)
         (match templateField with
          | Some m => if Qeq_bool (match_confidence m) 0 then 0
                      else match_confidence m
          | None => 0
          end)
         (inferDataType sheet index range)).

Definition analyzeSheet (sheet : Sheet) (template : ExcelTemplate)
  : Eff W Call (SheetMapping DataType) :=
  let headerRow := findHeaderRow sheet in
  let dataRange := identifyDataRange sheet headerRow in
  let! columnMappings :=
    promise_all (imap (mapColumn sheet template dataRange) (values headerRow)) in
  ret (mkSheetMapping (sheet_name sheet) (number headerRow) dataRange
         columnMappings (endRow dataRange - startRow dataRange + 1)).

(** The [for (const sheet of sheets)] loop of [detectDataStructure]. *)
Fixpoint analyzeSheets (todo : list Sheet) (template : ExcelTemplate)
    (done : list (SheetMapping DataType))
  : Eff W Call (list (SheetMapping DataType)) :=
  match todo with
  | [] => ret done
  | sheet :: rest =>
      let! sheetMapping := analyzeSheet sheet template in
      analyzeSheets rest template (done ++ [sheetMapping])
  end.

Definition detectDataStructure (workbook : Workbook) (template : ExcelTemplate)
  : Eff W Call (DataMapping DataType) :=
  let! sheets := analyzeSheets (worksheets workbook) template [] in
  ret (mkDataMapping sheets (calculateMappingConfidence sheets)).

Definition migrateExcelWorkbook (filePath templateType : string)
  : Eff W Call (MigrationResult Suggestions Summary) :=
  let! workbook := call (LoadExcelFile filePath) (loadExcelFile filePath) in
  let! template := call (GetTemplate templateType) (getTemplate templateType) in
  (* Detect data structure and mapping *)
  let! dataMapping := detectDataStructure workbook template in
  (* Extract and transform data *)
  let! extractedData :=
    call ExtractDataFromExcel (extractDataFromExcel workbook dataMapping) in
  let! validatedData :=
    call (ValidateExtractedData extractedData)
         (validateExtractedData extractedData template) in
  if negb (isValid validatedData) then
    ret (StatusError (errors validatedData)
           (generateMappingSuggestions workbook template))
  else
    (* Import data *)
    let! importResult :=
      call (ImportData extractedData templateType)
           (importData extractedData templateType) in
    ret (StatusSuccess (count importResult) (warnings validatedData)
           (generateImportSummary importResult)).
End Engine.
End Excel.

Module MatchingFacts.
Import Excel.

(** *** The edit distance as a similarity *)

Lemma edit_distance_nil_r a : edit_distance a [] = length a.
Proof. destruct a; reflexivity. Qed.

Lemma edit_distance_cons x a y b :
  edit_distance (x :: a) (y :: b)
  = Nat.min (Nat.min (S (edit_distance a (y :: b))) (S (edit_distance (x :: a) b)))
            ((if Ascii.eqb x y then 0 else 1) + edit_distance a b).
Proof. reflexivity. Qed.

Lemma edit_distance_le_max a b :
  (edit_distance a b ≤ Nat.max (length a) (length b))%nat.
Proof.
  revert b. induction a as [|x a IHa]; intros b.
  - simpl. lia.
  - induction b as [|y b IHb].
    + rewrite edit_distance_nil_r. lia.
    + rewrite edit_distance_cons. specialize (IHa b).
      destruct (Ascii.eqb x y); simpl length; lia.
Qed.

Lemma edit_distance_zero a b : edit_distance a b = 0%nat -> a = b.
Proof.
  revert b. induction a as [|x a IHa]; intros b H.
  - destruct b; [reflexivity | discriminate].
  - destruct b as [|y b]; [discriminate|].
    rewrite edit_distance_cons in H.
    destruct (Ascii.eqb x y) eqn:Hxy.
    + apply Ascii.eqb_eq in Hxy. subst y. f_equal. apply IHa. lia.
    + lia.
Qed.

(** Distinct lists score in [0,1); equal lists score 1. *)
Lemma edit_similarity_range a b :
  a ≠ b -> (0 <= edit_similarity a b)%Q ∧ (edit_similarity a b < 1)%Q.
Proof.
  intros Hne. unfold edit_similarity.
  pose proof (edit_distance_le_max a b) as Hle.
  assert (Hpos : (edit_distance a b ≠ 0)%nat)
    by (intros H0; apply Hne, edit_distance_zero, H0).
  destruct (Nat.max (length a) (length b)) as [|m]; [lia|].
  unfold Qle, Qlt, Qminus, Qplus, Qopp. simpl.
  rewrite ?Pos2Z.inj_mul, ?Zpos_P_of_succ_nat. split; nia.
Qed.

Lemma edit_distance_refl a : edit_distance a a = 0%nat.
Proof.
  induction a as [|x a IH]; [reflexivity|].
  rewrite edit_distance_cons, Ascii.eqb_refl, IH. lia.
Qed.

Lemma edit_similarity_refl a : (edit_similarity a a == 1)%Q.
Proof.
  unfold edit_similarity. rewrite edit_distance_refl.
  destruct (Nat.max _ _); [reflexivity|]. unfold Qeq. simpl. lia.
Qed.

(** *** The matching rule *)

Section Rule.
Variable similarity : list ascii -> list ascii -> Q.
Variable minConfidence : Q.
Implicit Types (header : string) (fs : list TemplateField) (c m : Match).

Local Abbreviation find_best := (findBestMatch similarity minConfidence).
Local Abbreviation cands := (candidates similarity).

Lemma best_none cs : best cs = None -> cs = [].
Proof.
  destruct cs as [|c rest]; [reflexivity|]. simpl.
  destruct (best rest) as [c'|]; [|discriminate].
  destruct (Qle_bool _ _); discriminate.
Qed.

(** [best] returns a candidate that no other candidate beats. *)
Lemma best_is_maximal cs m :
  best cs = Some m ->
  m ∈ cs ∧ ∀ c, c ∈ cs -> (match_confidence c <= match_confidence m)%Q.
Proof.
  revert m. induction cs as [|c0 rest IH]; intros m H; [discriminate|].
  simpl in H. destruct (best rest) as [c'|] eqn:Hrest.
  - destruct (IH c' eq_refl) as [Hin Hmax].
    destruct (Qle_bool (match_confidence c') (match_confidence c0)) eqn:Hcmp;
      injection H as <-.
    + apply Qle_bool_iff in Hcmp. split; [left|].
      intros c Hc. apply elem_of_cons in Hc as [->|Hc]; [apply Qle_refl|].
      eapply Qle_trans; [apply Hmax, Hc | exact Hcmp].
    + assert (Hlt : (match_confidence c0 < match_confidence c')%Q).
      { apply Qnot_le_lt. intros Hle. apply Qle_bool_iff in Hle. congruence. }
      split; [right; exact Hin|].
      intros c Hc. apply elem_of_cons in Hc as [->|Hc];
        [apply Qlt_le_weak, Hlt | apply Hmax, Hc].
  - injection H as <-. apply best_none in Hrest. subst rest.
    split; [left|]. intros c Hc. apply elem_of_cons in Hc as [->|Hc];
      [apply Qle_refl | inversion Hc].
Qed.

(** An exact alias match wins with confidence 1, whatever the scores. *)
Lemma findBestMatch_exact header fs f :
  List.find (has_exact_alias header) fs = Some f ->
  find_best header fs = Some (mkMatch (name f) 1).
Proof. intros H. unfold findBestMatch. rewrite H. reflexivity. Qed.

(** Without an exact alias, an accepted match is a best-scoring
    candidate strictly above the threshold. *)
Lemma findBestMatch_fuzzy header fs m :
  List.find (has_exact_alias header) fs = None ->
  find_best header fs = Some m ->
  m ∈ cands header fs
  ∧ (minConfidence < match_confidence m)%Q
  ∧ ∀ c, c ∈ cands header fs -> (match_confidence c <= match_confidence m)%Q.
Proof.
  intros Hnone H. unfold findBestMatch in H. rewrite Hnone in H.
  destruct (best (cands header fs)) as [c|] eqn:Hbest; [|discriminate].
  destruct (Qle_bool (match_confidence c) minConfidence) eqn:Hcmp; [discriminate|].
  injection H as <-. destruct (best_is_maximal _ _ Hbest) as [Hin Hmax].
  split; [exact Hin|]. split; [|exact Hmax].
  apply Qnot_le_lt. intros Hle. apply Qle_bool_iff in Hle. congruence.
Qed.

(** Without an exact alias, a header is rejected exactly when no
    candidate scores above the threshold. *)
Lemma findBestMatch_rejects header fs :
  List.find (has_exact_alias header) fs = None ->
  find_best header fs = None
  <-> ∀ c, c ∈ cands header fs -> (match_confidence c <= minConfidence)%Q.
Proof.
  intros Hnone. unfold findBestMatch. rewrite Hnone.
  destruct (best (cands header fs)) as [m|] eqn:Hbest.
  - destruct (best_is_maximal _ _ Hbest) as [Hin Hmax].
    destruct (Qle_bool (match_confidence m) minConfidence) eqn:Hcmp.
    + split; [|reflexivity]. intros _ c Hc. apply Qle_bool_iff in Hcmp.
      eapply Qle_trans; [apply Hmax, Hc | exact Hcmp].
    + split; [discriminate|]. intros Hall. apply Hall, Qle_bool_iff in Hin.
      congruence.
  - apply best_none in Hbest. rewrite Hbest. split; [|reflexivity].
    intros _ c Hc. inversion Hc.
Qed.

(** In the fuzzy pass every candidate compares two distinct normalized
    strings. *)
Lemma candidates_not_exact header fs c :
  List.find (has_exact_alias header) fs = None ->
  c ∈ cands header fs ->
  ∃ alias, normalize header ≠ normalize alias
           ∧ match_confidence c = similarity (normalize header) (normalize alias).
Proof.
  intros Hnone Hc. unfold candidates in Hc.
  apply list_elem_of_bind in Hc as (f & Hc & Hf).
  apply list_elem_of_fmap in Hc as (alias & -> & Ha).
  exists alias. split; [|reflexivity].
  apply list_elem_of_In in Hf. eapply find_none in Hnone; [|exact Hf].
  unfold has_exact_alias in Hnone.
  intros Heq. apply not_true_iff_false in Hnone. apply Hnone.
  apply existsb_exists. exists alias. split; [apply list_elem_of_In, Ha|].
  unfold is_exact. apply bool_decide_eq_true. exact Heq.
Qed.
End Rule.
End MatchingFacts.

Module ExcelFacts.
Import Excel.

Section Runs.
Context {W Workbook Sheet DataType Extracted Suggestions Summary : Type}.
Variable worksheets : Workbook -> list Sheet.
Variable sheet_name : Sheet -> string.
Variable findHeaderRow : Sheet -> HeaderRow.
Variable identifyDataRange : Sheet -> HeaderRow -> DataRange.
Variable calculateMappingConfidence : list (SheetMapping DataType) -> Q.
Variable generateMappingSuggestions : Workbook -> ExcelTemplate -> Suggestions.
Variable generateImportSummary : ImportResult -> Summary.
Variable inferDataType : Sheet -> nat -> DataRange -> DataType.
Variable similarity : list ascii -> list ascii -> Q.
Variable minConfidence : Q.
Variable loadExcelFile : string -> Async W Workbook.
Variable getTemplate : string -> Async W ExcelTemplate.
Variable extractDataFromExcel : Workbook -> DataMapping DataType -> Async W Extracted.
Variable validateExtractedData : Extracted -> ExcelTemplate -> Async W Validated.
Variable importData : Extracted -> string -> Async W ImportResult.

Local Abbreviation Ev := (Call (Workbook := Workbook) (Extracted := Extracted)).
Local Abbreviation map_column :=
  (mapColumn (W := W) (Workbook := Workbook) (Extracted := Extracted)
     inferDataType similarity minConfidence).
Local Abbreviation analyze :=
  (analyzeSheet (W := W) (Workbook := Workbook) (Extracted := Extracted)
     sheet_name findHeaderRow identifyDataRange inferDataType
     similarity minConfidence).
Local Abbreviation analyze_all :=
  (analyzeSheets (W := W) (Workbook := Workbook) (Extracted := Extracted)
     sheet_name findHeaderRow identifyDataRange inferDataType
     similarity minConfidence).
Local Abbreviation detect :=
  (detectDataStructure (W := W) (Extracted := Extracted)
     worksheets sheet_name findHeaderRow identifyDataRange
     calculateMappingConfidence inferDataType similarity minConfidence).
Local Abbreviation migrate :=
  (migrateExcelWorkbook worksheets sheet_name findHeaderRow identifyDataRange
     calculateMappingConfidence generateMappingSuggestions generateImportSummary
     inferDataType similarity minConfidence
     loadExcelFile getTemplate extractDataFromExcel validateExtractedData
     importData).

(** The column mapping computed for one header cell. *)
Definition column_of (sheet : Sheet) (template : ExcelTemplate)
    (range : DataRange) (index : nat) (header : string)
  : ColumnMapping DataType :=
  let found := findBestMatch similarity minConfidence header (fields template) in
  mkColumn index header (match_name <$> found)
    (match found with
     | Some m => if Qeq_bool (match_confidence m) 0 then 0 else match_confidence m
     | None => 0
     end)
    (inferDataType sheet index range).

Definition sheet_mapping_of (sheet : Sheet) (template : ExcelTemplate)
  : SheetMapping DataType :=
  let hr := findHeaderRow sheet in
  let range := identifyDataRange sheet hr in
  mkSheetMapping (sheet_name sheet) (number hr) range
    (imap (column_of sheet template range) (values hr))
    (endRow range - startRow range + 1).

Lemma mapColumn_pure sheet template range index header :
  pure_at (map_column sheet template range index header)
          (column_of sheet template range index header).
Proof. intros w. reflexivity. Qed.

Lemma imap_pure {A B} (f : nat -> A -> Eff W Ev B) (g : nat -> A -> B) l :
  (∀ i a, pure_at (f i a) (g i a)) -> Forall2 pure_at (imap f l) (imap g l).
Proof.
  revert f g. induction l as [|a l IH]; intros f g H; simpl; constructor.
  - apply H.
  - apply IH. intros i b. apply H.
Qed.

(** Matching the headers of a sheet neither awaits a helper nor fails. *)
Lemma analyzeSheet_pure sheet template :
  pure_at (analyze sheet template) (sheet_mapping_of sheet template).
Proof.
  unfold analyzeSheet. eapply pure_bind; [|apply pure_ret].
  apply promise_all_pure, imap_pure. intros i h. apply mapColumn_pure.
Qed.

Lemma analyzeSheets_pure todo template done :
  pure_at (analyze_all todo template done)
          (done ++ map (λ sh, sheet_mapping_of sh template) todo).
Proof.
  revert done. induction todo as [|sheet rest IH]; intros done; simpl.
  - rewrite app_nil_r. apply pure_ret.
  - eapply pure_bind; [apply analyzeSheet_pure|].
    replace (done ++ sheet_mapping_of sheet template
               :: map (λ sh, sheet_mapping_of sh template) rest)
      with ((done ++ [sheet_mapping_of sheet template])
              ++ map (λ sh, sheet_mapping_of sh template) rest)
      by (rewrite <- app_assoc; reflexivity).
    apply IH.
Qed.

Definition data_mapping_of (workbook : Workbook) (template : ExcelTemplate)
  : DataMapping DataType :=
  let sheets := map (λ sh, sheet_mapping_of sh template) (worksheets workbook) in
  mkDataMapping sheets (calculateMappingConfidence sheets).

Lemma detectDataStructure_pure workbook template :
  pure_at (detect workbook template) (data_mapping_of workbook template).
Proof.
  unfold detectDataStructure. eapply pure_bind; [apply analyzeSheets_pure|].
  apply pure_ret.
Qed.

(** The shapes a run of [migrateExcelWorkbook] can take. *)
Inductive run_shape (filePath templateType : string)
  : Outcome (MigrationResult Suggestions Summary) -> list Ev -> Prop :=
  | load_rejects e :
      run_shape filePath templateType (Rejected e)
        [LoadExcelFile filePath (Rejected e)]
  | template_rejects wb e :
      run_shape filePath templateType (Rejected e)
        [LoadExcelFile filePath (Resolved wb);
         GetTemplate templateType (Rejected e)]
  | extract_rejects wb tpl e :
      run_shape filePath templateType (Rejected e)
        [LoadExcelFile filePath (Resolved wb);
         GetTemplate templateType (Resolved tpl);
         ExtractDataFromExcel (Rejected e)]
  | validate_rejects wb tpl ext e :
      run_shape filePath templateType (Rejected e)
        [LoadExcelFile filePath (Resolved wb);
         GetTemplate templateType (Resolved tpl);
         ExtractDataFromExcel (Resolved ext);
         ValidateExtractedData ext (Rejected e)]
  | invalid_data wb tpl ext v :
      isValid v = false ->
      run_shape filePath templateType
        (Resolved (StatusError (errors v) (generateMappingSuggestions wb tpl)))
        [LoadExcelFile filePath (Resolved wb);
         GetTemplate templateType (Resolved tpl);
         ExtractDataFromExcel (Resolved ext);
         ValidateExtractedData ext (Resolved v)]
  | import_rejects wb tpl ext v e :
      isValid v = true ->
      run_shape filePath templateType (Rejected e)
        [LoadExcelFile filePath (Resolved wb);
         GetTemplate templateType (Resolved tpl);
         ExtractDataFromExcel (Resolved ext);
         ValidateExtractedData ext (Resolved v);
         ImportData ext templateType (Rejected e)]
  | imported wb tpl ext v res :
      isValid v = true ->
      run_shape filePath templateType
        (Resolved (StatusSuccess (count res) (warnings v)
                     (generateImportSummary res)))
        [LoadExcelFile filePath (Resolved wb);
         GetTemplate templateType (Resolved tpl);
         ExtractDataFromExcel (Resolved ext);
         ValidateExtractedData ext (Resolved v);
         ImportData ext templateType (Resolved res)].

Lemma migrateExcelWorkbook_run_shape filePath templateType w :
  run_shape filePath templateType
    (outcome_of (migrate filePath templateType w))
    (trace_of (migrate filePath templateType w)).
Proof.
  unfold migrateExcelWorkbook.
  destruct (loadExcelFile filePath w) as [[wb|e] w1] eqn:H1.
  2:{ erewrite bind_call_rejected by exact H1. apply load_rejects. }
  erewrite bind_call_resolved by exact H1. run_simpl.
  destruct (getTemplate templateType w1) as [[tpl|e] w2] eqn:H2.
  2:{ erewrite bind_call_rejected by exact H2. apply template_rejects. }
  erewrite bind_call_resolved by exact H2. run_simpl.
  rewrite (bind_pure _ _ _ _ (detectDataStructure_pure wb tpl)).
  destruct (extractDataFromExcel wb (data_mapping_of wb tpl) w2)
    as [[ext|e] w3] eqn:H3.
  2:{ erewrite bind_call_rejected by exact H3. apply extract_rejects. }
  erewrite bind_call_resolved by exact H3. run_simpl.
  destruct (validateExtractedData ext tpl w3) as [[v|e] w4] eqn:H4.
  2:{ erewrite bind_call_rejected by exact H4. apply validate_rejects. }
  erewrite bind_call_resolved by exact H4. run_simpl.
  destruct (isValid v) eqn:Hv; cbn [negb].
  - destruct (importData ext templateType w4) as [[res|e] w5] eqn:H5.
    2:{ erewrite bind_call_rejected by exact H5. run_simpl.
        apply import_rejects. exact Hv. }
    erewrite bind_call_resolved by exact H5. run_simpl.
    apply imported. exact Hv.
  - run_simpl. apply invalid_data. exact Hv.
Qed.

(** The import gate: [importData] is awaited only after a validation
    that answered [isValid], and it is handed the extracted dataset as
    it is, never a part of it. *)
Lemma import_needs_valid_data filePath templateType w ext' tt o :
  ImportData ext' tt o ∈ trace_of (migrate filePath templateType w) ->
  ∃ v, ValidateExtractedData ext' (Resolved v)
         ∈ trace_of (migrate filePath templateType w)
       ∧ isValid v = true
       ∧ ExtractDataFromExcel (Resolved ext')
           ∈ trace_of (migrate filePath templateType w).
Proof.
  intros Hin.
  pose proof (migrateExcelWorkbook_run_shape filePath templateType w) as Hs.
  destruct Hs as [ | | | | |wb tpl ext0 v0 e Hv0|wb tpl ext0 v0 res Hv0];
    mem_cases Hin; injection Hin as -> -> ->;
    (exists v0; split; [|split; [exact Hv0|]]);
    repeat first [apply list_elem_of_here | apply list_elem_of_further].
Qed.

Lemma invalid_data_not_imported filePath templateType w ext v :
  ValidateExtractedData ext (Resolved v)
    ∈ trace_of (migrate filePath templateType w) ->
  isValid v = false ->
  (∀ ext' tt o,
     ImportData ext' tt o ∉ trace_of (migrate filePath templateType w))
  ∧ ∃ sugg, outcome_of (migrate filePath templateType w)
            = Resolved (StatusError (errors v) sugg).
Proof.
  intros Hin Hv.
  pose proof (migrateExcelWorkbook_run_shape filePath templateType w) as Hs.
  destruct Hs as [ | | | |wb tpl ext0 v0 Hv0|wb tpl ext0 v0 e Hv0
                 |wb tpl ext0 v0 res Hv0];
    mem_cases Hin; injection Hin as -> ->; try congruence.
  split; [|eexists; reflexivity].
  intros ext' tt o Hin'. mem_cases Hin'.
Qed.

(** The validation of a run in which the four calls before the gate
    resolve is in the log. *)
Lemma validation_is_logged filePath templateType w wb w1 tpl w2 ext w3 v w4 :
  loadExcelFile filePath w = (Resolved wb, w1) ->
  getTemplate templateType w1 = (Resolved tpl, w2) ->
  extractDataFromExcel wb (data_mapping_of wb tpl) w2 = (Resolved ext, w3) ->
  validateExtractedData ext tpl w3 = (Resolved v, w4) ->
  ValidateExtractedData ext (Resolved v)
    ∈ trace_of (migrate filePath templateType w).
Proof.
  intros H1 H2 H3 H4. unfold migrateExcelWorkbook.
  erewrite bind_call_resolved by exact H1. run_simpl.
  erewrite bind_call_resolved by exact H2. run_simpl.
  rewrite (bind_pure _ _ _ _ (detectDataStructure_pure wb tpl)).
  erewrite bind_call_resolved by exact H3. run_simpl.
  erewrite bind_call_resolved by exact H4. run_simpl.
  do 3 apply list_elem_of_further. apply list_elem_of_here.
Qed.

(** A validation in the log is what [validateExtractedData] resolved to on
    that dataset. *)
Lemma logged_validation filePath templateType w ext v :
  ValidateExtractedData ext (Resolved v)
    ∈ trace_of (migrate filePath templateType w) ->
  ∃ tpl w3 w4, validateExtractedData ext tpl w3 = (Resolved v, w4).
Proof.
  unfold migrateExcelWorkbook.
  destruct (loadExcelFile filePath w) as [[wb|e] w1] eqn:H1.
  2:{ erewrite bind_call_rejected by exact H1. run_simpl.
      intros Hin. mem_cases Hin. }
  erewrite bind_call_resolved by exact H1. run_simpl.
  destruct (getTemplate templateType w1) as [[tpl|e] w2] eqn:H2.
  2:{ erewrite bind_call_rejected by exact H2. run_simpl.
      intros Hin. mem_cases Hin. }
  erewrite bind_call_resolved by exact H2. run_simpl.
  rewrite (bind_pure _ _ _ _ (detectDataStructure_pure wb tpl)).
  destruct (extractDataFromExcel wb (data_mapping_of wb tpl) w2)
    as [[ext0|e] w3] eqn:H3.
  2:{ erewrite bind_call_rejected by exact H3. run_simpl.
      intros Hin. mem_cases Hin. }
  erewrite bind_call_resolved by exact H3. run_simpl.
  destruct (validateExtractedData ext0 tpl w3) as [[v0|e] w4] eqn:H4.
  2:{ erewrite bind_call_rejected by exact H4. run_simpl.
      intros Hin. mem_cases Hin. }
  erewrite bind_call_resolved by exact H4. run_simpl.
  assert (Hfound : ∀ t,
            ValidateExtractedData ext (Resolved v)
              ∈ LoadExcelFile filePath (Resolved wb)
                :: GetTemplate templateType (Resolved tpl)
                :: ExtractDataFromExcel (Resolved ext0)
                :: ValidateExtractedData ext0 (Resolved v0) :: t ->
            (∀ c, c ∈ t -> ∃ d tt o, c = ImportData d tt o) ->
            ∃ tpl w3 w4, validateExtractedData ext tpl w3 = (Resolved v, w4)).
  { intros t Hin Ht.
    do 3 (apply elem_of_cons in Hin as [Hin|Hin]; [discriminate Hin|]).
    apply elem_of_cons in Hin as [Hin|Hin].
    - injection Hin as -> ->. exists tpl, w3, w4. exact H4.
    - destruct (Ht _ Hin) as (d & tt & o & Hc). discriminate Hc. }
  destruct (isValid v0) eqn:Hv; cbn [negb].
  - destruct (importData ext0 templateType w4) as [[res|e] w5] eqn:H5.
    + erewrite bind_call_resolved by exact H5. run_simpl.
      intros Hin. apply (Hfound _ Hin). intros c Hc. mem_cases Hc.
      eexists _, _, _. exact Hc.
    + erewrite bind_call_rejected by exact H5. run_simpl.
      intros Hin. apply (Hfound _ Hin). intros c Hc. mem_cases Hc.
      eexists _, _, _. exact Hc.
  - run_simpl. intros Hin. apply (Hfound _ Hin). intros c Hc. mem_cases Hc.
Qed.

(** A migration that answers 'success' imported a dataset. *)
Lemma successful_run_imported filePath templateType w count ws summary :
  outcome_of (migrate filePath templateType w)
  = Resolved (StatusSuccess count ws summary) ->
  ∃ ext res, ImportData ext templateType (Resolved res)
               ∈ trace_of (migrate filePath templateType w).
Proof.
  intros Ho.
  pose proof (migrateExcelWorkbook_run_shape filePath templateType w) as Hs.
  rewrite Ho in Hs. remember (Resolved (StatusSuccess count ws summary)) as o.
  destruct Hs as [| | | | | |wb tpl ext v res Hv]; try discriminate Heqo.
  exists ext, res. in_list.
Qed.

(** A run extracts one dataset. *)
Lemma extraction_is_unique filePath templateType w ext1 ext2 :
  ExtractDataFromExcel (Resolved ext1)
    ∈ trace_of (migrate filePath templateType w) ->
  ExtractDataFromExcel (Resolved ext2)
    ∈ trace_of (migrate filePath templateType w) ->
  ext1 = ext2.
Proof.
  intros Hin1 Hin2.
  pose proof (migrateExcelWorkbook_run_shape filePath templateType w) as Hs.
  destruct Hs; mem_cases Hin1; mem_cases Hin2; congruence.
Qed.
End Runs.
End ExcelFacts.

(* ===================================================================== *)
(** ** RIBCandyMigrator *)
(* ===================================================================== *)

Module RIBCandy.

(** The three SQL statements of [extractBOQFromRIBCandy], by the table
    they select from ([project_boq_headers], [boq_items] ordered by
    [sequence_number], [item_resource_breakdown]), each filtered by
    [proj_id = ?]. *)
Inductive Query : Type := boqHeaderQuery | boqItemsQuery | resourceBreakdownQuery.

Record RIBCandyBOQ : Type := mkSourceBoq {
  header : option JsObject;           (* [header[0]] *)
  items : list JsObject;
  resourceBreakdown : list JsObject
}.

(** [validateBOQData] resolves to a validation result, of which the
    migrator reads [isValid], [errors] and [warnings]. *)
Abbreviation BoqValidation := Validator.ValidationResult.
Abbreviation isValid := Validator.isValid.
Abbreviation errors := Validator.errors.
Abbreviation warnings := Validator.warnings.

(** What [importBOQ] resolves to. *)
Record BoqImport : Type := mkBoqImport { itemCount : Z }.

(** The two shapes of the migrator's [MigrationResult]; [error] is what
    [error.message] read. *)
Inductive MigrationResult (Log : Type) : Type :=
  | StatusSuccess (recordsMigrated : Z) (validationErrors : list Issue)
                  (migrationLog : Log)
  | StatusError (error : JsValue) (migrationLog : Log).
Arguments StatusSuccess {Log}.
Arguments StatusError {Log}.

Definition status {Log} (r : MigrationResult Log) : string :=
  match r with
  | StatusSuccess _ _ _ => "success"
  | StatusError _ _ => "error"
  end.

Section Migrator.
Context {W Log Boq : Type}.
(** Collaborators the sources call but do not define. *)
Variable ribCandyDb_query : Query -> string -> Async W (list JsObject).
Variable validateBOQData : Boq -> Async W BoqValidation.
Variable importBOQ : Boq -> Async W BoqImport.
(** [transformBOQStructure].  Its body in the sources awaits inside a
    callback that is not [async], which the language does not accept, so
    nothing is read off that body: like the methods the sources do not
    define, the transformation is any awaited helper, with a result of any
    type [Boq]. *)
Variable transformBOQStructure : RIBCandyBOQ -> Async W Boq.
(** [this.generateMigrationLog()]: a synchronous method, which may throw
    like every call. *)
Variable generateMigrationLog : Async W Log.

(** The helper calls of the migrator, each with how it settled. *)
Inductive Call : Type :=
  | DbQuery (q : Query) (param : string) (o : Outcome (list JsObject))
  | TransformBOQStructure (sourceBoq : RIBCandyBOQ) (o : Outcome Boq)
  | ValidateBOQData (boq : Boq) (o : Outcome BoqValidation)
  | ImportBOQ (boq : Boq) (o : Outcome BoqImport)
  | GenerateMigrationLog (o : Outcome Log).

Definition extractBOQFromRIBCandy (projectId : string)
  : Eff W Call RIBCandyBOQ :=
  let run q := call (DbQuery q projectId) (ribCandyDb_query q projectId) in
  let! results :=
    promise_all [run boqHeaderQuery; run boqItemsQuery; run resourceBreakdownQuery] in
  match results with
  | [header; items; resources] => ret (mkSourceBoq (head header) items resources)
  | _ => ret (mkSourceBoq None [] [])
  end.

(** The [try] block of [migrateBOQData]. *)
Definition attempt (projectId : string) : Eff W Call (MigrationResult Log) :=
  (* Extract BOQ structure from RIB Candy *)
  let! sourceBoq := extractBOQFromRIBCandy projectId in
  (* Transform to MVLBIM structure *)
  let! transformedBoq :=
    call (TransformBOQStructure sourceBoq) (transformBOQStructure sourceBoq) in
  (* Validate transformed data *)
  let! validationResult :=
    call (ValidateBOQData transformedBoq) (validateBOQData transformedBoq) in
  (* [MigrationError] is not defined in the sources: it is taken to be an
     [Error] whose message is its first argument. *)
  (if negb (isValid validationResult)
   then throw (mkError "BOQ validation failed" (errors validationResult))
   else ret tt) ;;!
  (* Import into MVLBIM *)
  let! importResult :=
    call (ImportBOQ transformedBoq) (importBOQ transformedBoq) in
  let! log := call GenerateMigrationLog generateMigrationLog in
  ret (StatusSuccess (itemCount importResult) (warnings validationResult) log).

(** The [catch] block: the object literal reads [error.message] before it
    calls [generateMigrationLog]. *)
Definition recover (error : JsError) : Eff W Call (MigrationResult Log) :=
  let! message := read_message error in
  let! log := call GenerateMigrationLog generateMigrationLog in
  ret (StatusError message log).

Definition migrateBOQData (projectId : string)
  : Eff W Call (MigrationResult Log) :=
  try_catch (attempt projectId) recover.
End Migrator.
End RIBCandy.

Module RIBFacts.
Import RIBCandy.

Section Runs.
Context {W Log Boq D : Type}.
Variable ribCandyDb_query : Query -> string -> Async W (list JsObject).
Variable validateBOQData : Boq -> Async W BoqValidation.
Variable importBOQ : Boq -> Async W BoqImport.
Variable transformBOQStructure : RIBCandyBOQ -> Async W Boq.
Variable generateMigrationLog : Async W Log.
(** The destination store, as a view of the world. *)
Variable dest : W -> D.

Local Abbreviation Ev := (Call (Log := Log) (Boq := Boq)).
Local Abbreviation extract :=
  (extractBOQFromRIBCandy (Log := Log) (Boq := Boq) ribCandyDb_query).
Local Abbreviation try_block :=
  (attempt ribCandyDb_query validateBOQData importBOQ transformBOQStructure
     generateMigrationLog).
Local Abbreviation catch_block :=
  (recover (Boq := Boq) generateMigrationLog).
Local Abbreviation migrate :=
  (migrateBOQData ribCandyDb_query validateBOQData importBOQ
     transformBOQStructure generateMigrationLog).

(** The error a logged call was rejected with. *)
Definition rejection (ev : Ev) : option JsError :=
  match ev with
  | DbQuery _ _ o => outcome_error o
  | TransformBOQStructure _ o => outcome_error o
  | ValidateBOQData _ o => outcome_error o
  | ImportBOQ _ o => outcome_error o
  | GenerateMigrationLog o => outcome_error o
  end.

Definition is_query (ev : Ev) : Prop :=
  match ev with DbQuery _ _ _ => True | _ => False end.

(** Every step before the import only reads the destination store. *)
Definition import_alone_writes : Prop :=
  (∀ q p w, dest (ribCandyDb_query q p w).2 = dest w)
  ∧ (∀ sb w, dest (transformBOQStructure sb w).2 = dest w)
  ∧ (∀ boq w, dest (validateBOQData boq w).2 = dest w)
  ∧ (∀ w, dest (generateMigrationLog w).2 = dest w).

(** The extraction issues its three queries and nothing else; it rejects
    with the error of one that rejected. *)
Lemma extract_facts pid w :
  let r := extract pid w in
  Forall is_query (trace_of r)
  ∧ (∀ e, outcome_of r = Rejected e ->
          ∃ c, c ∈ trace_of r ∧ rejection c = Some e)
  ∧ (∀ sb, outcome_of r = Resolved sb ->
           Forall (λ c, rejection c = None) (trace_of r))
  ∧ ((∀ q p w', dest (ribCandyDb_query q p w').2 = dest w') ->
     dest (world_of r) = dest w).
Proof.
  unfold extractBOQFromRIBCandy, promise_all, start_all, bind, start, call, ret.
  pose proof (λ H : ∀ q p w', dest (ribCandyDb_query q p w').2 = dest w',
                H boqHeaderQuery pid w) as H1.
  destruct (ribCandyDb_query boqHeaderQuery pid w) as [o1 w1].
  pose proof (λ H : ∀ q p w', dest (ribCandyDb_query q p w').2 = dest w',
                H boqItemsQuery pid w1) as H2.
  destruct (ribCandyDb_query boqItemsQuery pid w1) as [o2 w2].
  pose proof (λ H : ∀ q p w', dest (ribCandyDb_query q p w').2 = dest w',
                H resourceBreakdownQuery pid w2) as H3.
  destruct (ribCandyDb_query resourceBreakdownQuery pid w2) as [o3 w3].
  simpl in H1, H2, H3.
  destruct o1 as [h|e1], o2 as [i|e2], o3 as [r|e3];
    cbn -[elem_of];
    (split; [repeat first [apply List.Forall_cons | apply List.Forall_nil | exact I]|]);
    (split; [intros e He;
             first [discriminate He
                   |injection He as <-;
                    first [eexists (DbQuery boqHeaderQuery pid (Rejected _));
                           split; [solve [in_list] | reflexivity]
                          |eexists (DbQuery boqItemsQuery pid (Rejected _));
                           split; [solve [in_list] | reflexivity]
                          |eexists (DbQuery resourceBreakdownQuery pid (Rejected _));
                           split; [solve [in_list] | reflexivity]]]|]);
    (split; [intros sb Hsb; try discriminate Hsb;
             repeat first [apply List.Forall_cons | apply List.Forall_nil
                          | reflexivity]|]);
    intros H; rewrite (H3 H), (H2 H), (H1 H); reflexivity.
Qed.

(** *** The [catch] block *)

(** What the [catch] block does with the caught value [e], from world [w]. *)
Inductive handled (e : JsError) (w : W)
  : Outcome (MigrationResult Log) -> W -> list Ev -> Prop :=
  | handled_nullish :
      nullish e = true ->
      handled e w (Rejected (message_type_error e)) w []
  | handled_log_rejects e' w' :
      nullish e = false ->
      generateMigrationLog w = (Rejected e', w') ->
      handled e w (Rejected e') w' [GenerateMigrationLog (Rejected e')]
  | handled_answers log w' :
      nullish e = false ->
      generateMigrationLog w = (Resolved log, w') ->
      handled e w (Resolved (StatusError (message_of e) log)) w'
        [GenerateMigrationLog (Resolved log)].

Lemma recover_run e w :
  handled e w (outcome_of (catch_block e w)) (world_of (catch_block e w))
              (trace_of (catch_block e w)).
Proof.
  unfold recover, read_message. destruct (nullish e) eqn:Hn.
  - erewrite bind_rejected by reflexivity. run_simpl. apply handled_nullish, Hn.
  - erewrite bind_resolved by reflexivity. run_simpl. cbn [app].
    destruct (generateMigrationLog w) as [[log|e'] w'] eqn:Hl.
    + erewrite bind_call_resolved by exact Hl. run_simpl.
      apply handled_answers; assumption.
    + erewrite bind_call_rejected by exact Hl. run_simpl.
      apply handled_log_rejects; assumption.
Qed.

(** *** The [try] block *)

(** The shapes a run of the [try] block from world [w] can take: the
    outcome, the final world and the logged calls after those of the
    extraction. *)
Inductive attempted (pid : string) (w : W)
  : Outcome (MigrationResult Log) -> W -> list Ev -> Prop :=
  | extract_rejects e w1 t :
      extract pid w = (Rejected e, w1, t) ->
      attempted pid w (Rejected e) w1 t
  | transform_rejects sb e w1 w2 t :
      extract pid w = (Resolved sb, w1, t) ->
      transformBOQStructure sb w1 = (Rejected e, w2) ->
      attempted pid w (Rejected e) w2
        (t ++ [TransformBOQStructure sb (Rejected e)])
  | validate_rejects sb boq e w1 w2 w3 t :
      extract pid w = (Resolved sb, w1, t) ->
      transformBOQStructure sb w1 = (Resolved boq, w2) ->
      validateBOQData boq w2 = (Rejected e, w3) ->
      attempted pid w (Rejected e) w3
        (t ++ [TransformBOQStructure sb (Resolved boq);
               ValidateBOQData boq (Rejected e)])
  | invalid_boq sb boq v w1 w2 w3 t :
      extract pid w = (Resolved sb, w1, t) ->
      transformBOQStructure sb w1 = (Resolved boq, w2) ->
      validateBOQData boq w2 = (Resolved v, w3) ->
      isValid v = false ->
      attempted pid w
        (Rejected (mkError "BOQ validation failed" (errors v))) w3
        (t ++ [TransformBOQStructure sb (Resolved boq);
               ValidateBOQData boq (Resolved v)])
  | import_rejects sb boq v e w1 w2 w3 w4 t :
      extract pid w = (Resolved sb, w1, t) ->
      transformBOQStructure sb w1 = (Resolved boq, w2) ->
      validateBOQData boq w2 = (Resolved v, w3) ->
      isValid v = true ->
      importBOQ boq w3 = (Rejected e, w4) ->
      attempted pid w (Rejected e) w4
        (t ++ [TransformBOQStructure sb (Resolved boq);
               ValidateBOQData boq (Resolved v);
               ImportBOQ boq (Rejected e)])
  | log_rejects sb boq v r e w1 w2 w3 w4 w5 t :
      extract pid w = (Resolved sb, w1, t) ->
      transformBOQStructure sb w1 = (Resolved boq, w2) ->
      validateBOQData boq w2 = (Resolved v, w3) ->
      isValid v = true ->
      importBOQ boq w3 = (Resolved r, w4) ->
      generateMigrationLog w4 = (Rejected e, w5) ->
      attempted pid w (Rejected e) w5
        (t ++ [TransformBOQStructure sb (Resolved boq);
               ValidateBOQData boq (Resolved v);
               ImportBOQ boq (Resolved r);
               GenerateMigrationLog (Rejected e)])
  | migrated sb boq v r log w1 w2 w3 w4 w5 t :
      extract pid w = (Resolved sb, w1, t) ->
      transformBOQStructure sb w1 = (Resolved boq, w2) ->
      validateBOQData boq w2 = (Resolved v, w3) ->
      isValid v = true ->
      importBOQ boq w3 = (Resolved r, w4) ->
      generateMigrationLog w4 = (Resolved log, w5) ->
      attempted pid w
        (Resolved (StatusSuccess (itemCount r) (warnings v) log)) w5
        (t ++ [TransformBOQStructure sb (Resolved boq);
               ValidateBOQData boq (Resolved v);
               ImportBOQ boq (Resolved r);
               GenerateMigrationLog (Resolved log)]).

Lemma attempt_run pid w :
  attempted pid w (outcome_of (try_block pid w)) (world_of (try_block pid w))
                  (trace_of (try_block pid w)).
Proof.
  unfold attempt.
  destruct (extract pid w) as [[[sb|e] w1] t] eqn:He.
  2:{ erewrite bind_rejected by exact He. run_simpl.
      apply extract_rejects. exact He. }
  erewrite bind_resolved by exact He. run_simpl.
  destruct (transformBOQStructure sb w1) as [[boq|e] w2] eqn:Ht.
  2:{ erewrite bind_call_rejected by exact Ht. run_simpl.
      eapply transform_rejects; eassumption. }
  erewrite bind_call_resolved by exact Ht. run_simpl.
  destruct (validateBOQData boq w2) as [[v|e] w3] eqn:Hv.
  2:{ erewrite bind_call_rejected by exact Hv. run_simpl.
      eapply validate_rejects; eassumption. }
  erewrite bind_call_resolved by exact Hv. run_simpl.
  destruct (isValid v) eqn:Hvalid; cbn [negb].
  2:{ erewrite bind_rejected by reflexivity. run_simpl.
      eapply invalid_boq; eassumption. }
  rewrite (bind_pure _ _ tt) by apply pure_ret.
  destruct (importBOQ boq w3) as [[r|e] w4] eqn:Hi.
  2:{ erewrite bind_call_rejected by exact Hi. run_simpl.
      eapply import_rejects; eassumption. }
  erewrite bind_call_resolved by exact Hi. run_simpl.
  destruct (generateMigrationLog w4) as [[log|e] w5] eqn:Hl.
  2:{ erewrite bind_call_rejected by exact Hl. run_simpl.
      eapply log_rejects; eassumption. }
  erewrite bind_call_resolved by exact Hl. run_simpl.
  eapply migrated; eassumption.
Qed.

(** *** The whole method *)

(** A run of [migrateBOQData] is a run of its [try] block, followed by the
    [catch] block when that rejected. *)
Inductive run_shape (pid : string) (w : W)
  : Outcome (MigrationResult Log) -> W -> list Ev -> Prop :=
  | run_returns res w1 t :
      attempted pid w (Resolved res) w1 t ->
      run_shape pid w (Resolved res) w1 t
  | run_catches e w1 t o w2 t' :
      attempted pid w (Rejected e) w1 t ->
      handled e w1 o w2 t' ->
      run_shape pid w o w2 (t ++ t').

Lemma migrateBOQData_run_shape pid w :
  run_shape pid w (outcome_of (migrate pid w)) (world_of (migrate pid w))
                  (trace_of (migrate pid w)).
Proof.
  unfold migrateBOQData.
  pose proof (attempt_run pid w) as Ha.
  destruct (try_block pid w) as [[[res|e] w1] t] eqn:Hb; run_simpl_in Ha.
  - erewrite try_catch_resolved by exact Hb. run_simpl.
    apply run_returns. exact Ha.
  - erewrite try_catch_rejected by exact Hb. run_simpl.
    eapply run_catches; [exact Ha | apply recover_run].
Qed.

(** The result of the [catch] block once [error.message] is read: the
    'error' result when [generateMigrationLog] returned, its exception
    otherwise. *)
Definition answer (e : JsError) (o : Outcome Log)
  : Outcome (MigrationResult Log) :=
  match o with
  | Resolved log => Resolved (StatusError (message_of e) log)
  | Rejected e' => Rejected e'
  end.

(** What the [try] block throws after the calls [t]: the error of a call
    that rejected, or the validation error after a validation that is not
    valid. *)
Definition thrown_after (t : list Ev) (e : JsError) : Prop :=
  (∃ c, c ∈ t ∧ rejection c = Some e)
  ∨ (∃ boq v, last t = Some (ValidateBOQData boq (Resolved v))
              ∧ isValid v = false
              ∧ e = mkError "BOQ validation failed" (errors v)).

(** The calls the [try] block awaits one after the other. *)
Definition is_step (c : Ev) : Prop :=
  match c with
  | TransformBOQStructure _ _ | ValidateBOQData _ _ | ImportBOQ _ _ => True
  | _ => False
  end.

Lemma handled_answer e w o w' t :
  handled e w o w' t ->
  if nullish e then t = [] ∧ w' = w ∧ o = Rejected (message_type_error e)
  else ∃ ol, t = [GenerateMigrationLog ol] ∧ o = answer e ol
             ∧ generateMigrationLog w = (ol, w').
Proof.
  intros [Hn|e' w1 Hn Hl|log w1 Hn Hl]; rewrite Hn.
  - repeat split.
  - exists (Rejected e'). repeat split. exact Hl.
  - exists (Resolved log). repeat split. exact Hl.
Qed.

(** The rejected call among the last calls of a trace. *)
Tactic Notation "pick_nth" integer(n) :=
  eexists; split;
  [apply elem_of_app; right; do n apply list_elem_of_further;
   apply list_elem_of_here
  |reflexivity].
Ltac pick_rejected :=
  first [pick_nth 0 | pick_nth 1 | pick_nth 2 | pick_nth 3].

Lemma step_not_query (c : Ev) : is_step c -> is_query c -> False.
Proof. destruct c; simpl; tauto. Qed.

Lemma queries_resolved t :
  Forall is_query t -> Forall (λ c : Ev, rejection c = None) t ->
  Forall (λ c : Ev, is_query c ∧ rejection c = None) t.
Proof.
  intros H1 H2. rewrite Forall_forall in *. intros c Hc. split; auto.
Qed.

(** A call among those of a [try] block, of which the first are the
    queries [Hq] speaks of: it is one of the calls listed after them. *)
Ltac call_cases Hq Hin :=
  first
    [exfalso; exact (Hq _ Hin)
    |apply elem_of_app in Hin as [Hin|Hin];
     [exfalso; exact (Hq _ Hin) | mem_cases Hin]].

(** A step that rejected is the last call of the [try] block. *)
Ltac step_cases Hq c Hin Hstep Hr :=
  apply elem_of_app in Hin as [Hin|Hin];
  [exfalso; exact (step_not_query _ Hstep (Hq _ Hin))|];
  mem_cases Hin; subst c; simpl in Hr;
  first
    [discriminate Hr
    |exfalso; exact Hstep
    |injection Hr as <-; split;
     [reflexivity
     |first [eexists; reflexivity
            |eexists (_ ++ [_]); rewrite <- app_assoc; reflexivity
            |eexists (_ ++ [_; _]); rewrite <- app_assoc; reflexivity
            |eexists (_ ++ [_; _; _]); rewrite <- app_assoc; reflexivity]]].

(** The calls and the outcome of a [try] block that throws. *)
Lemma attempted_throws pid w e w1 t :
  attempted pid w (Rejected e) w1 t ->
  thrown_after t e
  ∧ (∀ c e0, c ∈ t -> is_step c -> rejection c = Some e0 ->
             e0 = e ∧ ∃ t0, t = t0 ++ [c])
  ∧ (∀ boq v, ValidateBOQData boq (Resolved v) ∈ t -> isValid v = false ->
              (∀ b o, ImportBOQ b o ∉ t)
              ∧ e = mkError "BOQ validation failed" (errors v)
              ∧ (∃ t0, t = t0 ++ [ValidateBOQData boq (Resolved v)])
              ∧ (import_alone_writes -> dest w1 = dest w))
  ∧ (∀ b o, ImportBOQ b o ∈ t ->
            ∃ v, ValidateBOQData b (Resolved v) ∈ t ∧ isValid v = true).
Proof.
  intros Ha. pose proof (extract_facts pid w) as Hx.
  remember (Rejected e) as o eqn:Ho.
  destruct Ha as
      [e0 w1 t He
      |sb e0 w1 w2 t He Ht
      |sb boq e0 w1 w2 w3 t He Ht Hv
      |sb boq v w1 w2 w3 t He Ht Hv Hvalid
      |sb boq v e0 w1 w2 w3 w4 t He Ht Hv Hvalid Hi
      |sb boq v r e0 w1 w2 w3 w4 w5 t He Ht Hv Hvalid Hi Hl
      |sb boq v r log w1 w2 w3 w4 w5 t He Ht Hv Hvalid Hi Hl];
    try discriminate Ho; injection Ho as <-;
    rewrite He in Hx; simpl in Hx; destruct Hx as (Hq & Hrej & Hres & Hdest);
    rewrite Forall_forall in Hq.
  - (* a query rejected *)
    split; [left; apply Hrej; reflexivity|].
    split; [intros c e1 Hin Hstep _; exfalso;
            exact (step_not_query _ Hstep (Hq _ Hin))|].
    split; intros ? ? Hin; exfalso; exact (Hq _ Hin).
  - (* the transformation rejected *)
    split; [left; pick_rejected|].
    split; [intros c e1 Hin Hstep Hr; step_cases Hq c Hin Hstep Hr|].
    split; intros ? ? Hin; call_cases Hq Hin.
  - (* the validation rejected *)
    split; [left; pick_rejected|].
    split; [intros c e1 Hin Hstep Hr; step_cases Hq c Hin Hstep Hr|].
    split; intros ? ? Hin; call_cases Hq Hin.
  - (* the validation answered that the BOQ is not valid *)
    split; [right; exists boq, v; rewrite last_app; repeat split; exact Hvalid|].
    split; [intros c e1 Hin Hstep Hr; step_cases Hq c Hin Hstep Hr|].
    split; intros b v0 Hin; call_cases Hq Hin.
    injection Hin as <- <-. intros _.
    split; [intros b' o' Hin'; call_cases Hq Hin'|].
    split; [reflexivity|].
    split; [exists (t ++ [TransformBOQStructure sb (Resolved b)]);
            rewrite <- app_assoc; reflexivity|].
    intros (Hro & Htr & Hval & _).
    specialize (Hval b w2). rewrite Hv in Hval.
    specialize (Htr sb w1). rewrite Ht in Htr. simpl in Hval, Htr.
    rewrite Hval, Htr. apply Hdest, Hro.
  - (* the import rejected *)
    split; [left; pick_rejected|].
    split; [intros c e1 Hin Hstep Hr; step_cases Hq c Hin Hstep Hr|].
    split; intros b v0 Hin; call_cases Hq Hin.
    + injection Hin as <- <-. congruence.
    + injection Hin as <- <-. exists v. split; [|exact Hvalid].
      apply elem_of_app. right. in_list.
  - (* the migration log threw after the import *)
    split; [left; pick_rejected|].
    split; [intros c e1 Hin Hstep Hr; step_cases Hq c Hin Hstep Hr|].
    split; intros b v0 Hin; call_cases Hq Hin.
    + injection Hin as <- <-. congruence.
    + injection Hin as <- <-. exists v. split; [|exact Hvalid].
      apply elem_of_app. right. in_list.
Qed.

(** The calls and the result of a [try] block that returns. *)
Lemma attempted_returns pid w res w1 t :
  attempted pid w (Resolved res) w1 t ->
  ∃ t0 sb boq v r log,
    t = t0 ++ [TransformBOQStructure sb (Resolved boq);
               ValidateBOQData boq (Resolved v);
               ImportBOQ boq (Resolved r);
               GenerateMigrationLog (Resolved log)]
    ∧ Forall (λ c, is_query c ∧ rejection c = None) t0
    ∧ isValid v = true
    ∧ res = StatusSuccess (itemCount r) (warnings v) log.
Proof.
  intros Ha. pose proof (extract_facts pid w) as Hx.
  remember (Resolved res) as o eqn:Ho.
  destruct Ha as
      [| | | | |
      |sb boq v r log w1 w2 w3 w4 w5 t He Ht Hv Hvalid Hi Hl];
    try discriminate Ho. injection Ho as <-.
  rewrite He in Hx. simpl in Hx. destruct Hx as (Hq & _ & Hres & _).
  exists t, sb, boq, v, r, log.
  split; [reflexivity|]. split; [|split; [exact Hvalid | reflexivity]].
  apply queries_resolved; [exact Hq | eapply Hres; reflexivity].
Qed.

(** The [catch] block awaits nothing but the migration log. *)
Lemma handled_calls e w o w' t c :
  handled e w o w' t -> c ∈ t -> ∃ ol, c = GenerateMigrationLog ol.
Proof.
  intros [Hn|e' w1 Hn Hl|log w1 Hn Hl] Hin; mem_cases Hin;
    eexists; exact Hin.
Qed.

(** After a validation that is not valid, [importBOQ] is not called. *)
Lemma invalid_boq_not_imported pid w boq v :
  ValidateBOQData boq (Resolved v) ∈ trace_of (migrate pid w) ->
  isValid v = false ->
  ∀ b o, ImportBOQ b o ∉ trace_of (migrate pid w).
Proof.
  intros Hin Hinvalid b oi Hb.
  pose proof (migrateBOQData_run_shape pid w) as Hshape.
  destruct (migrate pid w) as [[out wf] tr].
  unfold outcome_of, world_of, trace_of in *. cbn [fst snd] in *.
  destruct Hshape as [res w1 t Ha|e w1 t o w2 t' Ha Hh].
  - apply attempted_returns in Ha
      as (t0 & sb & boq0 & v0 & r & log & -> & Hq & Hvalid & ->).
    rewrite Forall_forall in Hq.
    assert (Hq' : ∀ x, x ∈ t0 -> is_query x) by (intros x Hx; apply Hq, Hx).
    call_cases Hq' Hin. injection Hin as <- <-. congruence.
  - apply attempted_throws in Ha as (_ & _ & Hgate & _).
    apply elem_of_app in Hin as [Hin|Hin];
      [|destruct (handled_calls _ _ _ _ _ _ Hh Hin) as [ol Hc]; discriminate Hc].
    apply elem_of_app in Hb as [Hb|Hb];
      [|destruct (handled_calls _ _ _ _ _ _ Hh Hb) as [ol Hc]; discriminate Hc].
    destruct (Hgate boq v Hin Hinvalid) as (Hno & _). exact (Hno _ _ Hb).
Qed.

End Runs.
End RIBFacts.

(* ===================================================================== *)
(** ** BatchProcessor *)
(* ===================================================================== *)

Module Batch.

Record MigrationJobConfig : Type := mkConfig {
  type : string;
  priority : option Z;
  delay : option Z;
  batchSize : option Z;
  estimatedRecords : option Z;
  throttleMs : option Z
}.

(** The options object passed to [queue.add]. *)
Record JobOptions : Type := mkOptions {
  opt_priority : Z;
  attempts : Z;
  backoff : string;
  opt_delay : Z
}.

(** [job.data]. *)
Record JobData (Date : Type) : Type := mkJobData {
  jobId : string;
  config : MigrationJobConfig;
  createdAt : Date
}.
Arguments mkJobData {Date}.
Arguments jobId {Date}.
Arguments config {Date}.
Arguments createdAt {Date}.

(** What [processBatch] resolves to. *)
Record BatchResult : Type := mkBatchResult {
  successCount : Z;
  errors : list Issue
}.

(** The second argument of [updateJobProgress]. *)
Record Progress : Type := mkProgress {
  processed : Z;
  total : option Z;
  progress_errors : list Issue
}.

(** The optional third argument of [updateJobStatus]; [error] is what
    [error.message] read. *)
Inductive StatusDetail : Type :=
  | NoDetail
  | TotalProcessed (totalProcessed : Z)
  | ErrorDetail (error : JsValue).

Section Processor.
Context {W Date Queue : Type}.
(** Collaborators the sources call but do not define. *)
Variable generateId : W -> string * W.
Variable getOrCreateQueue : string -> W -> Queue * W.
Variable now : W -> Date.
Variable queue_add :
  Queue -> string -> JobData Date -> JobOptions -> Async W unit.
Variable updateJobStatus : string -> string -> StatusDetail -> Async W unit.
Variable getDataBatch : MigrationJobConfig -> Z -> Z -> Async W (list JsObject).
Variable processBatch : list JsObject -> MigrationJobConfig -> Async W BatchResult.
Variable updateJobProgress : string -> Progress -> Async W unit.
Variable sleep : Z -> Async W unit.

(** The awaited helper calls, with their arguments and outcomes. *)
Inductive Call : Type :=
  | QueueAdd (name : string) (data : JobData Date) (opts : JobOptions)
             (o : Outcome unit)
  | UpdateJobStatus (jobId status : string) (detail : StatusDetail)
                    (o : Outcome unit)
  | GetDataBatch (offset batchSize : Z) (o : Outcome (list JsObject))
  | ProcessBatch (batch : list JsObject) (o : Outcome BatchResult)
  | UpdateJobProgress (jobId : string) (progress : Progress) (o : Outcome unit)
  | Sleep (ms : Z) (o : Outcome unit).

Definition queueMigrationJob (config : MigrationJobConfig)
  : Eff W Call string :=
  let! jobId := sync generateId in
  let! queue := sync (getOrCreateQueue (type config)) in
  let! createdAt := peek now in
  let data := mkJobData jobId config createdAt in
  let opts := mkOptions (or_default (priority config) 5) 3 "exponential"
                        (or_default (delay config) 0) in
  call (QueueAdd "migration-job" data opts)
       (queue_add queue "migration-job" data opts) ;;!
  ret jobId.

(** The [while (true)] loop, cut off after [fuel] iterations: [None] when
    the fuel runs out, the final [processedCount] at the [break]. *)
Fixpoint batch_loop (fuel : nat) (jobId : string) (config : MigrationJobConfig)
    (batchSize offset processedCount : Z) : Eff W Call (option Z) :=
  match fuel with
  | O => ret None
  | S fuel' =>
      let! batch := call (GetDataBatch offset batchSize)
                         (getDataBatch config offset batchSize) in
      if (length batch =? 0)%nat then ret (Some processedCount)
      else
        let! batchResult := call (ProcessBatch batch) (processBatch batch config) in
        let processedCount := (processedCount + successCount batchResult)%Z in
        let progress :=
          mkProgress processedCount (estimatedRecords config) (errors batchResult) in
        call (UpdateJobProgress jobId progress)
             (updateJobProgress jobId progress) ;;!
        let offset := (offset + batchSize)%Z in
        (* Small delay to prevent overwhelming the system *)
        let ms := or_default (throttleMs config) 100 in
        call (Sleep ms) (sleep ms) ;;!
        batch_loop fuel' jobId config batchSize offset processedCount
  end.

Definition processMigrationJob (fuel : nat) (job : JobData Date)
  : Eff W Call (option unit) :=
  let jobId := jobId job in
  let config := config job in
  try_catch
    (call (UpdateJobStatus jobId "processing" NoDetail)
          (updateJobStatus jobId "processing" NoDetail) ;;!
     (* Process in batches to avoid memory issues *)
     let batchSize := or_default (batchSize config) 1000 in
     let! done := batch_loop fuel jobId config batchSize 0 0 in
     match done with
     | None => ret None
     | Some processedCount =>
         call (UpdateJobStatus jobId "completed" (TotalProcessed processedCount))
              (updateJobStatus jobId "completed" (TotalProcessed processedCount)) ;;!
         ret (Some tt)
     end)
    (λ error,
       (* the argument [error.message] is evaluated before the call *)
       let! message := read_message error in
       call (UpdateJobStatus jobId "failed" (ErrorDetail message))
            (updateJobStatus jobId "failed" (ErrorDetail message)) ;;!
       throw error).
End Processor.
End Batch.

Module BatchFacts.
Import Batch.

Section Runs.
Context {W Date Queue : Type}.
Variable generateId : W -> string * W.
Variable getOrCreateQueue : string -> W -> Queue * W.
Variable now : W -> Date.
Variable queue_add :
  Queue -> string -> JobData Date -> JobOptions -> Async W unit.
Variable updateJobStatus : string -> string -> StatusDetail -> Async W unit.
Variable getDataBatch : MigrationJobConfig -> Z -> Z -> Async W (list JsObject).
Variable processBatch : list JsObject -> MigrationJobConfig -> Async W BatchResult.
Variable updateJobProgress : string -> Progress -> Async W unit.
Variable sleep : Z -> Async W unit.

Local Abbreviation Ev := (Call (Date := Date)).
Local Abbreviation loop :=
  (batch_loop (Date := Date) getDataBatch processBatch updateJobProgress sleep).
Local Abbreviation process :=
  (processMigrationJob updateJobStatus getDataBatch processBatch
     updateJobProgress sleep).
Local Abbreviation enqueue :=
  (queueMigrationJob generateId getOrCreateQueue now queue_add).

(** The progress reported after a batch. *)
Definition progress_after (cfg : MigrationJobConfig) (pc : Z) (r : BatchResult)
  : Progress :=
  mkProgress (pc + successCount r) (estimatedRecords cfg) (errors r).

Definition pause (cfg : MigrationJobConfig) : Z := or_default (throttleMs cfg) 100.

(** The shapes a run of the batch loop can take, from offset [off] with
    [pc] records processed so far. *)
Inductive loop_shape (jid : string) (cfg : MigrationJobConfig) (bs : Z)
  : Z -> Z -> Outcome (option Z) -> list Ev -> Prop :=
  | loop_out_of_fuel off pc :
      loop_shape jid cfg bs off pc (Resolved None) []
  | loop_fetch_rejects off pc e :
      loop_shape jid cfg bs off pc (Rejected e)
        [GetDataBatch off bs (Rejected e)]
  | loop_break off pc :
      loop_shape jid cfg bs off pc (Resolved (Some pc))
        [GetDataBatch off bs (Resolved [])]
  | loop_batch_rejects off pc batch e :
      batch ≠ [] ->
      loop_shape jid cfg bs off pc (Rejected e)
        [GetDataBatch off bs (Resolved batch); ProcessBatch batch (Rejected e)]
  | loop_progress_rejects off pc batch r e :
      batch ≠ [] ->
      loop_shape jid cfg bs off pc (Rejected e)
        [GetDataBatch off bs (Resolved batch); ProcessBatch batch (Resolved r);
         UpdateJobProgress jid (progress_after cfg pc r) (Rejected e)]
  | loop_sleep_rejects off pc batch r e :
      batch ≠ [] ->
      loop_shape jid cfg bs off pc (Rejected e)
        [GetDataBatch off bs (Resolved batch); ProcessBatch batch (Resolved r);
         UpdateJobProgress jid (progress_after cfg pc r) (Resolved tt);
         Sleep (pause cfg) (Rejected e)]
  | loop_next off pc batch r o t :
      batch ≠ [] ->
      loop_shape jid cfg bs (off + bs) (pc + successCount r) o t ->
      loop_shape jid cfg bs off pc o
        ([GetDataBatch off bs (Resolved batch); ProcessBatch batch (Resolved r);
          UpdateJobProgress jid (progress_after cfg pc r) (Resolved tt);
          Sleep (pause cfg) (Resolved tt)] ++ t).

Lemma length_eqb_nil {A} (l : list A) :
  (length l =? 0)%nat = bool_decide (l = []).
Proof. destruct l; reflexivity. Qed.

Lemma batch_loop_shape fuel jid cfg bs off pc w :
  loop_shape jid cfg bs off pc
    (outcome_of (loop fuel jid cfg bs off pc w))
    (trace_of (loop fuel jid cfg bs off pc w)).
Proof.
  revert off pc w. induction fuel as [|fuel IH]; intros off pc w.
  - apply loop_out_of_fuel.
  - cbn [batch_loop].
    destruct (getDataBatch cfg off bs w) as [[batch|e] w1] eqn:Hg.
    2:{ erewrite bind_call_rejected by exact Hg. apply loop_fetch_rejects. }
    erewrite bind_call_resolved by exact Hg. run_simpl.
    rewrite length_eqb_nil. destruct (decide (batch = [])) as [->|Hne].
    { rewrite bool_decide_eq_true_2 by reflexivity. apply loop_break. }
    rewrite bool_decide_eq_false_2 by exact Hne.
    destruct (processBatch batch cfg w1) as [[r|e] w2] eqn:Hp.
    2:{ erewrite bind_call_rejected by exact Hp. run_simpl.
        apply loop_batch_rejects. exact Hne. }
    erewrite bind_call_resolved by exact Hp. run_simpl.
    destruct (updateJobProgress jid (progress_after cfg pc r) w2)
      as [[[]|e] w3] eqn:Hu.
    2:{ unfold progress_after in Hu.
        erewrite bind_call_rejected by exact Hu. run_simpl.
        apply loop_progress_rejects. exact Hne. }
    unfold progress_after in Hu.
    erewrite bind_call_resolved by exact Hu. run_simpl.
    destruct (sleep (pause cfg) w3) as [[[]|e] w4] eqn:Hs.
    2:{ unfold pause in Hs.
        erewrite bind_call_rejected by exact Hs. run_simpl.
        apply loop_sleep_rejects. exact Hne. }
    unfold pause in Hs.
    erewrite bind_call_resolved by exact Hs. run_simpl.
    apply (loop_next jid cfg bs off pc batch r _ _ Hne). apply IH.
Qed.

(** *** What a trace says *)

Definition event_resolved (ev : Ev) : bool :=
  match ev with
  | QueueAdd _ _ _ o | UpdateJobStatus _ _ _ o
  | UpdateJobProgress _ _ o | Sleep _ o => is_resolved o
  | GetDataBatch _ _ o => is_resolved o
  | ProcessBatch _ o => is_resolved o
  end.

(** The error a rejected call was rejected with. *)
Definition rejection (ev : Ev) : option JsError :=
  match ev with
  | QueueAdd _ _ _ o | UpdateJobStatus _ _ _ o
  | UpdateJobProgress _ _ o | Sleep _ o => outcome_error o
  | GetDataBatch _ _ o => outcome_error o
  | ProcessBatch _ o => outcome_error o
  end.

(** The sum of the [successCount]s of the processed batches. *)
Fixpoint processed_sum (t : list Ev) : Z :=
  match t with
  | [] => 0
  | ProcessBatch _ (Resolved r) :: t' => successCount r + processed_sum t'
  | _ :: t' => processed_sum t'
  end.

(** The batches handed to [processBatch], in order. *)
Fixpoint tried (t : list Ev) : list (list JsObject) :=
  match t with
  | [] => []
  | ProcessBatch b _ :: t' => b :: tried t'
  | _ :: t' => tried t'
  end.

(** The non-empty batches [getDataBatch] resolved to, in order. *)
Fixpoint fetched (t : list Ev) : list (list JsObject) :=
  match t with
  | [] => []
  | GetDataBatch _ _ (Resolved (r :: b)) :: t' => (r :: b) :: fetched t'
  | _ :: t' => fetched t'
  end.

(** The statuses written, in order. *)
Fixpoint status_writes (t : list Ev) : list (string * StatusDetail) :=
  match t with
  | [] => []
  | UpdateJobStatus _ st d _ :: t' => (st, d) :: status_writes t'
  | _ :: t' => status_writes t'
  end.

Lemma processed_sum_app t1 t2 :
  processed_sum (t1 ++ t2) = (processed_sum t1 + processed_sum t2)%Z.
Proof.
  induction t1 as [|ev t1 IH]; [reflexivity|].
  destruct ev as [| | |b [r|e]| |]; simpl; rewrite IH; lia.
Qed.

Lemma tried_app t1 t2 : tried (t1 ++ t2) = tried t1 ++ tried t2.
Proof.
  induction t1 as [|ev t1 IH]; [reflexivity|].
  destruct ev; simpl; rewrite IH; reflexivity.
Qed.

Lemma fetched_app t1 t2 : fetched (t1 ++ t2) = fetched t1 ++ fetched t2.
Proof.
  induction t1 as [|ev t1 IH]; [reflexivity|].
  destruct ev as [| |off bs [[|r b]|e]| | |]; simpl; rewrite IH; reflexivity.
Qed.

Lemma status_writes_app t1 t2 :
  status_writes (t1 ++ t2) = status_writes t1 ++ status_writes t2.
Proof.
  induction t1 as [|ev t1 IH]; [reflexivity|].
  destruct ev; simpl; rewrite IH; reflexivity.
Qed.

Section Loop.
Variables (jid : string) (cfg : MigrationJobConfig) (bs : Z).

(** Every non-empty batch fetched is handed to [processBatch] once, and
    nothing else is. *)
Lemma loop_tried_fetched off pc o t :
  loop_shape jid cfg bs off pc o t -> tried t = fetched t.
Proof.
  induction 1 as [| | |? ? batch ? Hne|? ? batch ? ? Hne|? ? batch ? ? Hne
                 |? ? batch ? ? ? Hne ? IH];
    try reflexivity;
    destruct batch as [|r0 b0]; try congruence; simpl; try reflexivity.
  rewrite IH. reflexivity.
Qed.

Lemma loop_no_status off pc o t :
  loop_shape jid cfg bs off pc o t -> status_writes t = [].
Proof. induction 1; try reflexivity. simpl. assumption. Qed.

(** A loop that reaches its [break] saw every call resolve and counted
    the successes of all batches. *)
Lemma loop_completed off pc n t :
  loop_shape jid cfg bs off pc (Resolved (Some n)) t ->
  n = (pc + processed_sum t)%Z ∧ Forall (λ ev, event_resolved ev = true) t.
Proof.
  remember (Resolved (Some n)) as o eqn:Ho.
  induction 1 as [| | | | | |? pc' batch r ? t' Hne Ht IH];
    try discriminate Ho.
  - injection Ho as ->. simpl. split; [lia | repeat constructor].
  - destruct (IH Ho) as [-> Hall]. simpl. split; [lia|].
    repeat (constructor; [reflexivity|]). exact Hall.
Qed.

(** A loop that rejects ends on the rejected call; all calls before it
    resolved. *)
Lemma loop_rejected off pc e t :
  loop_shape jid cfg bs off pc (Rejected e) t ->
  ∃ t0 ev, t = t0 ++ [ev] ∧ rejection ev = Some e
           ∧ Forall (λ ev, event_resolved ev = true) t0.
Proof.
  remember (Rejected e) as o eqn:Ho.
  induction 1 as [|? ? e'| |? ? batch e' Hne|? ? batch r e' Hne
                 |? ? batch r e' Hne|? pc' batch r ? t' Hne Ht IH];
    try discriminate Ho; try (injection Ho as ->).
  - exists [], (GetDataBatch off bs (Rejected e)). repeat split. constructor.
  - exists [GetDataBatch off bs (Resolved batch)],
           (ProcessBatch batch (Rejected e)).
    repeat split. repeat constructor.
  - eexists [_; _], _. repeat split. repeat constructor.
  - eexists [_; _; _], _. repeat split. repeat constructor.
  - destruct (IH Ho) as (t0 & ev & -> & Hev & Hall).
    eexists (_ :: _ :: _ :: _ :: t0), ev. repeat split; [exact Hev|].
    repeat (constructor; [reflexivity|]). exact Hall.
Qed.

(** A rejected [processBatch] is the last thing the loop does. *)
Lemma loop_rejected_batch off pc o t b e :
  loop_shape jid cfg bs off pc o t ->
  ProcessBatch b (Rejected e) ∈ t ->
  o = Rejected e ∧ ∃ t0, t = t0 ++ [ProcessBatch b (Rejected e)].
Proof.
  induction 1 as [| | | | | |? pc' batch r ? t' Hne Ht IH]; intros Hin;
    try solve [mem_cases Hin].
  - mem_cases Hin. injection Hin as -> ->. split; [reflexivity|].
    eexists [_]. reflexivity.
  - apply elem_of_app in Hin as [Hin|Hin]; [mem_cases Hin|].
    destruct (IH Hin) as [-> [t0 ->]]. split; [reflexivity|].
    eexists (_ :: _ :: _ :: _ :: t0). reflexivity.
Qed.
End Loop.

(** What the [catch] block leaves once the 'failed' status is written: the
    caught error, unless that write rejects itself. *)
Definition rethrow (e : JsError) (o : Outcome unit) : Outcome (option unit) :=
  match o with
  | Resolved _ => Rejected e
  | Rejected e' => Rejected e'
  end.

Definition failed_write (jid : string) (e : JsError) (o : Outcome unit) : Ev :=
  UpdateJobStatus jid "failed" (ErrorDetail (message_of e)) o.

Definition batch_size (cfg : MigrationJobConfig) : Z :=
  or_default (batchSize cfg) 1000.

(** What the [catch] block does with the caught value [e]: reading
    [e.message] throws when [e] is [null] or [undefined], and then no
    status is written. *)
Inductive caught (jid : string) (e : JsError)
  : Outcome (option unit) -> list Ev -> Prop :=
  | caught_nullish :
      nullish e = true ->
      caught jid e (Rejected (message_type_error e)) []
  | caught_written o :
      nullish e = false ->
      caught jid e (rethrow e o) [failed_write jid e o].

(** The shapes a run of [processMigrationJob] can take. *)
Inductive job_shape (job : JobData Date)
  : Outcome (option unit) -> list Ev -> Prop :=
  | job_start_rejects e o t' :
      caught (jobId job) e o t' ->
      job_shape job o
        (UpdateJobStatus (jobId job) "processing" NoDetail (Rejected e) :: t')
  | job_out_of_fuel t :
      loop_shape (jobId job) (config job) (batch_size (config job)) 0 0
        (Resolved None) t ->
      job_shape job (Resolved None)
        (UpdateJobStatus (jobId job) "processing" NoDetail (Resolved tt) :: t)
  | job_loop_rejects t e o t' :
      loop_shape (jobId job) (config job) (batch_size (config job)) 0 0
        (Rejected e) t ->
      caught (jobId job) e o t' ->
      job_shape job o
        (UpdateJobStatus (jobId job) "processing" NoDetail (Resolved tt)
           :: t ++ t')
  | job_completed t n :
      loop_shape (jobId job) (config job) (batch_size (config job)) 0 0
        (Resolved (Some n)) t ->
      job_shape job (Resolved (Some tt))
        (UpdateJobStatus (jobId job) "processing" NoDetail (Resolved tt)
           :: t ++ [UpdateJobStatus (jobId job) "completed" (TotalProcessed n)
                      (Resolved tt)])
  | job_complete_rejects t n e o t' :
      loop_shape (jobId job) (config job) (batch_size (config job)) 0 0
        (Resolved (Some n)) t ->
      caught (jobId job) e o t' ->
      job_shape job o
        (UpdateJobStatus (jobId job) "processing" NoDetail (Resolved tt)
           :: t ++ UpdateJobStatus (jobId job) "completed" (TotalProcessed n)
                     (Rejected e) :: t').

(** The [catch] block, run on the caught value [e]. *)
Lemma handler_run jid e w :
  ∃ o w' t,
    (let! message := read_message (Ev := Ev) e in
     call (UpdateJobStatus jid "failed" (ErrorDetail message))
          (updateJobStatus jid "failed" (ErrorDetail message)) ;;!
     throw (A := option unit) e) w
    = (o, w', t)
    ∧ caught jid e o t.
Proof.
  unfold read_message. destruct (nullish e) eqn:Hn.
  - erewrite (bind_rejected _ _ w (message_type_error e)) by reflexivity.
    do 3 eexists. split; [reflexivity|]. exact (caught_nullish jid e Hn).
  - erewrite (bind_resolved _ _ w (message_of e)) by reflexivity.
    run_simpl. cbn [app].
    destruct (updateJobStatus jid "failed" (ErrorDetail (message_of e)) w)
      as [[[]|e'] w'] eqn:Hu.
    + erewrite bind_call_resolved by exact Hu.
      do 3 eexists. split; [reflexivity|].
      exact (caught_written jid e (Resolved tt) Hn).
    + erewrite bind_call_rejected by exact Hu.
      do 3 eexists. split; [reflexivity|].
      exact (caught_written jid e (Rejected e') Hn).
Qed.

Lemma processMigrationJob_shape fuel job w :
  job_shape job (outcome_of (process fuel job w))
                (trace_of (process fuel job w)).
Proof.
  unfold processMigrationJob.
  destruct (updateJobStatus (jobId job) "processing" NoDetail w)
    as [[[]|e] w1] eqn:Hs.
  2:{ erewrite try_catch_rejected
        by (erewrite bind_call_rejected by exact Hs; reflexivity).
      cbv beta.
      destruct (handler_run (jobId job) e w1) as (o & w' & t' & -> & Hc).
      run_simpl. apply job_start_rejects. exact Hc. }
  pose proof (batch_loop_shape fuel (jobId job) (config job)
                (batch_size (config job)) 0 0 w1) as Hl.
  unfold batch_size in Hl.
  destruct (loop fuel (jobId job) (config job)
              (or_default (batchSize (config job)) 1000) 0 0 w1)
    as [[[[n|]|e] w2] t] eqn:Hloop; run_simpl_in Hl.
  - (* the loop reached its break *)
    destruct (updateJobStatus (jobId job) "completed" (TotalProcessed n) w2)
      as [[[]|e] w3] eqn:Hc.
    + erewrite try_catch_resolved.
      2:{ erewrite bind_call_resolved by exact Hs.
          erewrite bind_resolved by exact Hloop. cbv beta iota.
          erewrite bind_call_resolved by exact Hc. run_simpl. reflexivity. }
      run_simpl. cbn. apply job_completed. exact Hl.
    + erewrite try_catch_rejected.
      2:{ erewrite bind_call_resolved by exact Hs.
          erewrite bind_resolved by exact Hloop. cbv beta iota.
          erewrite bind_call_rejected by exact Hc. run_simpl. reflexivity. }
      cbv beta.
      destruct (handler_run (jobId job) e w3) as (o & w' & t' & -> & Hc').
      run_simpl. cbn. rewrite <- app_assoc.
      exact (job_complete_rejects job t n e o t' Hl Hc').
  - (* out of fuel *)
    erewrite try_catch_resolved.
    2:{ erewrite bind_call_resolved by exact Hs.
        erewrite bind_resolved by exact Hloop. run_simpl. reflexivity. }
    run_simpl. cbn. rewrite app_nil_r. apply job_out_of_fuel. exact Hl.
  - (* a call of the loop rejected *)
    erewrite try_catch_rejected.
    2:{ erewrite bind_call_resolved by exact Hs.
        erewrite bind_rejected by exact Hloop. run_simpl. reflexivity. }
    cbv beta.
    destruct (handler_run (jobId job) e w2) as (o & w' & t' & -> & Hc).
    run_simpl. cbn. exact (job_loop_rejects job t e o t' Hl Hc).
Qed.

Lemma rethrow_not_resolved e o v : rethrow e o ≠ Resolved v.
Proof. destruct o; discriminate. Qed.

(** The [catch] block always rejects, and it awaits nothing but a status
    write. *)
Lemma caught_rejects jid e o t : caught jid e o t -> ∃ e', o = Rejected e'.
Proof.
  destruct 1 as [Hn|[[]|e'] Hn]; eexists; reflexivity.
Qed.

Lemma caught_calls jid e o t :
  caught jid e o t -> t = [] ∨ ∃ o', t = [failed_write jid e o'].
Proof.
  destruct 1 as [Hn|o' Hn]; [left; reflexivity | right; exists o'; reflexivity].
Qed.

(** At job level too, each fetched batch goes to [processBatch] once. *)
Lemma job_tried_fetched job o t : job_shape job o t -> tried t = fetched t.
Proof.
  destruct 1 as [e o' t' Hc|t Hl|t e o' t' Hl Hc|t n Hl|t n e o' t' Hl Hc];
    try (apply caught_calls in Hc as [->|[o1 ->]]); simpl;
    rewrite ?tried_app, ?fetched_app; simpl; rewrite ?app_nil_r;
    try reflexivity; eapply loop_tried_fetched; exact Hl.
Qed.

(** A job that resolves wrote 'processing' then 'completed', with the
    total of the success counts. *)
Lemma job_completed_facts job t :
  job_shape job (Resolved (Some tt)) t ->
  ∃ n, status_writes t = [("processing", NoDetail); ("completed", TotalProcessed n)]
       ∧ n = processed_sum t
       ∧ Forall (λ ev, event_resolved ev = true) t.
Proof.
  remember (Resolved (Some tt)) as o eqn:Ho.
  destruct 1 as [e o' t' Hc|t Hl|t e o' t' Hl Hc|t n Hl|t n e o' t' Hl Hc];
    try (apply caught_rejects in Hc as [e' ->]; discriminate Ho);
    try discriminate Ho.
  exists n. destruct (loop_completed _ _ _ _ _ _ _ Hl) as [Hn Hall].
  simpl. rewrite status_writes_app, processed_sum_app.
  rewrite (loop_no_status _ _ _ _ _ _ _ Hl). simpl.
  split; [reflexivity|]. split; [lia|].
  constructor; [reflexivity|]. apply Forall_app. split; [exact Hall|].
  repeat constructor.
Qed.

(** A rejected [processBatch] ends the job.  When the value it rejected
    with is [null] or [undefined], it is the last call and the job rejects
    with the [TypeError] of reading its message; otherwise the next and
    last call writes the 'failed' status, and the job rejects. *)
Lemma rejected_batch_ends_job job o t b e :
  job_shape job o t ->
  ProcessBatch b (Rejected e) ∈ t ->
  if nullish e
  then (∃ t0, t = t0 ++ [ProcessBatch b (Rejected e)])
       ∧ o = Rejected (message_type_error e)
  else ∃ t0 o', t = t0 ++ [ProcessBatch b (Rejected e);
                           failed_write (jobId job) e o']
                ∧ o = rethrow e o'.
Proof.
  destruct 1 as [e0 o' t' Hc|t Hl|t e0 o' t' Hl Hc|t n Hl|t n e0 o' t' Hl Hc];
    intros Hin.
  - exfalso. apply caught_calls in Hc as [->|[o1 ->]]; mem_cases Hin.
  - exfalso. apply elem_of_cons in Hin as [Hin|Hin]; [discriminate Hin|].
    destruct (loop_rejected_batch _ _ _ _ _ _ _ _ _ Hl Hin) as [Ho _].
    discriminate Ho.
  - apply elem_of_cons in Hin as [Hin|Hin]; [discriminate Hin|].
    apply elem_of_app in Hin as [Hin|Hin];
      [|exfalso; apply caught_calls in Hc as [->|[o1 ->]]; mem_cases Hin].
    destruct (loop_rejected_batch _ _ _ _ _ _ _ _ _ Hl Hin) as [Ho [t0 ->]].
    injection Ho as ->.
    destruct Hc as [Hn|o1 Hn]; rewrite Hn.
    + split; [|reflexivity].
      exists (UpdateJobStatus (jobId job) "processing" NoDetail (Resolved tt) :: t0).
      rewrite app_nil_r. reflexivity.
    + exists (UpdateJobStatus (jobId job) "processing" NoDetail (Resolved tt) :: t0), o1.
      split; [|reflexivity]. simpl. rewrite <- app_assoc. reflexivity.
  - exfalso. apply elem_of_cons in Hin as [Hin|Hin]; [discriminate Hin|].
    apply elem_of_app in Hin as [Hin|Hin]; [|mem_cases Hin].
    destruct (loop_rejected_batch _ _ _ _ _ _ _ _ _ Hl Hin) as [Ho _].
    discriminate Ho.
  - exfalso. apply elem_of_cons in Hin as [Hin|Hin]; [discriminate Hin|].
    apply elem_of_app in Hin as [Hin|Hin].
    + destruct (loop_rejected_batch _ _ _ _ _ _ _ _ _ Hl Hin) as [Ho _].
      discriminate Ho.
    + apply elem_of_cons in Hin as [Hin|Hin]; [discriminate Hin|].
      apply caught_calls in Hc as [->|[o1 ->]]; mem_cases Hin.
Qed.

(** A batch that [processBatch] resolved is reported at once: the next call
    is [updateJobProgress], with the errors of that batch. *)
Lemma loop_progress_follows jid cfg bs off pc o t k b r :
  loop_shape jid cfg bs off pc o t ->
  t !! k = Some (ProcessBatch b (Resolved r)) ->
  ∃ p o', t !! S k = Some (UpdateJobProgress jid p o')
          ∧ progress_errors p = errors r.
Proof.
  intros Hl. revert k.
  induction Hl as [| | | | | |off pc batch r0 o t Hne Ht IH]; intros k Hk;
    try (destruct k as [|[|[|[|k]]]]; try discriminate Hk;
         injection Hk as <- <-; eexists _, _; split; reflexivity).
  destruct k as [|[|[|[|k]]]]; try discriminate Hk.
  - injection Hk as <- <-. eexists _, _. split; reflexivity.
  - apply (IH k), Hk.
Qed.

Lemma job_progress_follows job o t k b r :
  job_shape job o t ->
  t !! k = Some (ProcessBatch b (Resolved r)) ->
  ∃ p o', t !! S k = Some (UpdateJobProgress (jobId job) p o')
          ∧ progress_errors p = errors r.
Proof.
  assert (Hin : ∀ (t1 t2 : list Ev) j,
            (∀ ev, ev ∈ t2 -> ∀ b' o', ev ≠ ProcessBatch b' o') ->
            (t1 ++ t2) !! j = Some (ProcessBatch b (Resolved r)) ->
            t1 !! j = Some (ProcessBatch b (Resolved r))).
  { intros t1 t2 j Hno Hj. apply lookup_app_Some in Hj as [Hj|[_ Hj]];
      [exact Hj|]. exfalso. apply list_elem_of_lookup_2 in Hj.
    exact (Hno _ Hj _ _ eq_refl). }
  assert (Hcaught : ∀ e o' t', caught (jobId job) e o' t' ->
            ∀ ev, ev ∈ t' -> ∀ b' o1, ev ≠ ProcessBatch b' o1).
  { intros e o' t' Hc ev Hev b' o1 ->.
    apply caught_calls in Hc as [->|[o2 ->]]; mem_cases Hev. }
  destruct 1 as [e o' t' Hc|t Hl|t e o' t' Hl Hc|t n Hl|t n e o' t' Hl Hc];
    intros Hk; (destruct k as [|k]; [discriminate Hk|]); cbn in Hk.
  - exfalso. apply list_elem_of_lookup_2 in Hk.
    exact (Hcaught _ _ _ Hc _ Hk _ _ eq_refl).
  - exact (loop_progress_follows _ _ _ _ _ _ _ _ _ _ Hl Hk).
  - apply Hin in Hk; [|exact (Hcaught _ _ _ Hc)].
    destruct (loop_progress_follows _ _ _ _ _ _ _ _ _ _ Hl Hk)
      as (p & o1 & Hp & He).
    exists p, o1. split; [|exact He].
    change ((t ++ t') !! S k = Some (UpdateJobProgress (jobId job) p o1)).
    apply lookup_app_l_Some, Hp.
  - apply Hin in Hk; [|intros ev Hev b' o1 ->; mem_cases Hev].
    destruct (loop_progress_follows _ _ _ _ _ _ _ _ _ _ Hl Hk)
      as (p & o1 & Hp & He).
    exists p, o1. split; [|exact He].
    match goal with |- (_ :: ?l) !! S (S k) = _ =>
      change (l !! S k = Some (UpdateJobProgress (jobId job) p o1)) end.
    apply lookup_app_l_Some, Hp.
  - apply Hin in Hk.
    2:{ intros ev Hev b' o1 ->.
        apply elem_of_cons in Hev as [Hev|Hev]; [discriminate Hev|].
        exact (Hcaught _ _ _ Hc _ Hev _ _ eq_refl). }
    destruct (loop_progress_follows _ _ _ _ _ _ _ _ _ _ Hl Hk)
      as (p & o1 & Hp & He).
    exists p, o1. split; [|exact He].
    match goal with |- (_ :: ?l) !! S (S k) = _ =>
      change (l !! S k = Some (UpdateJobProgress (jobId job) p o1)) end.
    apply lookup_app_l_Some, Hp.
Qed.

(** *** Enough fuel *)

Section Completion.
Variables (job : JobData Date) (N : Z).
Local Abbreviation jid := (jobId job).
Local Abbreviation cfg := (config job).
Local Abbreviation bs := (batch_size (config job)).
Hypothesis batch_size_positive : (0 < bs)%Z.
(** The source is finite: from offset [N] on, the batches are empty. *)
Hypothesis fetch_resolves :
  ∀ off w, ∃ batch w',
    getDataBatch cfg off bs w = (Resolved batch, w')
    ∧ ((N <= off)%Z -> batch = []).
(** The other helpers resolve, whatever errors a batch reports. *)
Hypothesis process_resolves :
  ∀ b w, ∃ r w', processBatch b cfg w = (Resolved r, w').
Hypothesis progress_resolves :
  ∀ p w, ∃ w', updateJobProgress jid p w = (Resolved tt, w').
Hypothesis sleep_resolves :
  ∀ ms w, ∃ w', sleep ms w = (Resolved tt, w').
Hypothesis status_resolves :
  ∀ st d w, ∃ w', updateJobStatus jid st d w = (Resolved tt, w').

Lemma batch_loop_terminates fuel off pc w :
  (Z.to_nat (N - off) < fuel)%nat ->
  ∃ n w' t, loop fuel jid cfg bs off pc w = (Resolved (Some n), w', t).
Proof.
  revert off pc w. induction fuel as [|fuel IH]; intros off pc w Hlt; [lia|].
  cbn [batch_loop].
  destruct (fetch_resolves off w) as (batch & w1 & Hg & Hend).
  erewrite bind_call_resolved by exact Hg.
  rewrite length_eqb_nil. destruct (decide (batch = [])) as [->|Hne].
  { rewrite bool_decide_eq_true_2 by reflexivity. do 3 eexists. reflexivity. }
  rewrite bool_decide_eq_false_2 by exact Hne.
  assert (Hoff : (off < N)%Z).
  { destruct (Z_lt_le_dec off N) as [?|Hge]; [assumption|].
    exfalso. apply Hne, Hend, Hge. }
  destruct (process_resolves batch w1) as (r & w2 & Hp).
  erewrite bind_call_resolved by exact Hp.
  destruct (progress_resolves (progress_after cfg pc r) w2) as (w3 & Hu).
  unfold progress_after in Hu.
  erewrite bind_call_resolved by exact Hu.
  destruct (sleep_resolves (pause cfg) w3) as (w4 & Hs). unfold pause in Hs.
  erewrite bind_call_resolved by exact Hs.
  destruct (IH (off + bs)%Z (pc + successCount r)%Z w4) as (n & w' & t & Hrec);
    [lia|].
  rewrite Hrec. run_simpl. do 3 eexists. reflexivity.
Qed.

Lemma processMigrationJob_completes w :
  outcome_of (process (S (Z.to_nat N)) job w) = Resolved (Some tt).
Proof.
  unfold processMigrationJob.
  destruct (status_resolves "processing" NoDetail w) as (w1 & Hs).
  destruct (batch_loop_terminates (S (Z.to_nat N)) 0 0 w1)
    as (n & w2 & t & Hloop); [lia|].
  unfold batch_size in Hloop.
  destruct (status_resolves "completed" (TotalProcessed n) w2) as (w3 & Hc).
  erewrite try_catch_resolved.
  2:{ erewrite bind_call_resolved by exact Hs.
      erewrite bind_resolved by exact Hloop. cbv beta iota.
      erewrite bind_call_resolved by exact Hc. run_simpl. reflexivity. }
  reflexivity.
Qed.
End Completion.

(** *** Enqueuing *)

Lemma queueMigrationJob_run cfg w :
  ∃ data o,
    trace_of (enqueue cfg w)
    = [QueueAdd "migration-job" data
         (mkOptions (or_default (priority cfg) 5) 3 "exponential"
                    (or_default (delay cfg) 0)) o]
    ∧ config data = cfg
    ∧ jobId data = (generateId w).1
    ∧ outcome_of (enqueue cfg w)
      = match o with
        | Resolved _ => Resolved (jobId data)
        | Rejected e => Rejected e
        end.
Proof.
  unfold queueMigrationJob.
  destruct (generateId w) as [jid w1] eqn:Hid.
  destruct (getOrCreateQueue (type cfg) w1) as [q w2] eqn:Hq.
  erewrite bind_sync by exact Hid. erewrite bind_sync by exact Hq.
  rewrite bind_peek.
  set (data := mkJobData jid cfg (now w2)).
  set (opts := mkOptions _ _ _ _).
  destruct (queue_add q "migration-job" data opts w2) as [[[]|e] w3] eqn:Ha.
  - erewrite bind_call_resolved by exact Ha. run_simpl.
    exists data, (Resolved tt). repeat split.
  - erewrite bind_call_rejected by exact Ha.
    exists data, (Rejected e). repeat split.
Qed.
End Runs.
End BatchFacts.

(* ===================================================================== *)
(** ** DataReconciliationEngine *)
(* ===================================================================== *)

Module Reconciliation.

(** What [performReconciliation] resolves to. *)
Record Result (Rec Discrepancy : Type) : Type := mkReconciliation {
  matches : list Rec;
  unmatchedSource : list Rec;
  unmatchedTarget : list Rec;
  discrepancies : list Discrepancy
}.
Arguments mkReconciliation {Rec Discrepancy}.
Arguments matches {Rec Discrepancy}.
Arguments unmatchedSource {Rec Discrepancy}.
Arguments unmatchedTarget {Rec Discrepancy}.
Arguments discrepancies {Rec Discrepancy}.

Record FinancialTotals (Totals Variance : Type) : Type := mkTotals {
  source : Totals;
  target : Totals;
  variance : Variance
}.
Arguments mkTotals {Totals Variance}.
Arguments source {Totals Variance}.
Arguments target {Totals Variance}.
Arguments variance {Totals Variance}.

Record ReconciliationReport (Discrepancy Totals Variance Actions : Type)
  : Type := mkReport {
  sourceRecordCount : Z;
  targetRecordCount : Z;
  matchedRecords : nat;
  report_unmatchedSource : nat;
  report_unmatchedTarget : nat;
  report_discrepancies : list Discrepancy;
  financialTotals : FinancialTotals Totals Variance;
  recommendedActions : Actions
}.
Arguments mkReport {Discrepancy Totals Variance Actions}.
Arguments sourceRecordCount {Discrepancy Totals Variance Actions}.
Arguments targetRecordCount {Discrepancy Totals Variance Actions}.
Arguments matchedRecords {Discrepancy Totals Variance Actions}.
Arguments report_unmatchedSource {Discrepancy Totals Variance Actions}.
Arguments report_unmatchedTarget {Discrepancy Totals Variance Actions}.
Arguments report_discrepancies {Discrepancy Totals Variance Actions}.
Arguments financialTotals {Discrepancy Totals Variance Actions}.
Arguments recommendedActions {Discrepancy Totals Variance Actions}.

Section Engine.
Context {W DataSet Rec Discrepancy Totals Variance Actions : Type}.
(** [sourceData.recordCount], [targetData.recordCount]. *)
Variable recordCount : DataSet -> Z.
(** Methods the sources call but do not define. *)
Variable extractSourceData : string -> Async W DataSet.
Variable extractTargetData : string -> Async W DataSet.
Variable performReconciliation :
  DataSet -> DataSet -> Async W (Result Rec Discrepancy).
Variable calculateFinancialTotals : DataSet -> Totals.
Variable calculateVariance : DataSet -> DataSet -> Variance.
Variable generateRecommendations : Result Rec Discrepancy -> Actions.

Inductive Call : Type :=
  | ExtractSourceData (sourceId : string) (o : Outcome DataSet)
  | ExtractTargetData (targetId : string) (o : Outcome DataSet)
  | PerformReconciliation (sourceData targetData : DataSet)
                          (o : Outcome (Result Rec Discrepancy)).

(** The object literal of the [return] statement. *)
Definition report_of (sourceData targetData : DataSet)
    (reconciliation : Result Rec Discrepancy)
  : ReconciliationReport Discrepancy Totals Variance Actions :=
  mkReport
    (recordCount sourceData)
    (recordCount targetData)
    (length (matches reconciliation))
    (length (unmatchedSource reconciliation))
    (length (unmatchedTarget reconciliation))
    (discrepancies reconciliation)
    (mkTotals (calculateFinancialTotals sourceData)
              (calculateFinancialTotals targetData)
              (calculateVariance sourceData targetData))
    (generateRecommendations reconciliation).

Definition reconcileMigratedData (sourceId targetId : string)
  : Eff W Call (ReconciliationReport Discrepancy Totals Variance Actions) :=
  let! sourceData :=
    call (ExtractSourceData sourceId) (extractSourceData sourceId) in
  let! targetData :=
    call (ExtractTargetData targetId) (extractTargetData targetId) in
  let! reconciliation :=
    call (PerformReconciliation sourceData targetData)
         (performReconciliation sourceData targetData) in
  ret (report_of sourceData targetData reconciliation).
End Engine.
End Reconciliation.

(* ===================================================================== *)
(** ** MigrationMonitor and the job phases *)
(* ===================================================================== *)

Module Monitor.

(** The [phases] array handed to the progress tracker. *)
Definition phases : list string :=
  ["discovery"; "extraction"; "transformation"; "validation"; "import";
   "verification"].

(** The three callbacks of the tracker, as the notifications they forward. *)
Inductive Notification (Result : Type) : Type :=
  | PhaseStart (migrationId phase : string)
  | PhaseComplete (migrationId phase : string) (result : Result)
  | MigrationFailed (migrationId : string) (error : JsError).
Arguments PhaseStart {Result}.
Arguments PhaseComplete {Result}.
Arguments MigrationFailed {Result}.

Record Callbacks (Result : Type) : Type := mkCallbacks {
  onPhaseStart : string -> Notification Result;
  onPhaseComplete : string -> Result -> Notification Result;
  onError : JsError -> Notification Result
}.
Arguments mkCallbacks {Result}.

(** The options object of [new ProgressTracker({ ... })]. *)
Record TrackerOptions (Result : Type) : Type := mkTracker {
  migrationId : string;
  tracker_phases : list string;
  callbacks : Callbacks Result
}.
Arguments mkTracker {Result}.
Arguments migrationId {Result}.
Arguments tracker_phases {Result}.
Arguments callbacks {Result}.

Definition createProgressTracker {Result} (migrationId : string)
  : TrackerOptions Result :=
  mkTracker migrationId phases
    (mkCallbacks (PhaseStart migrationId) (PhaseComplete migrationId)
                 (MigrationFailed migrationId)).

(** Modelled from the spec: the [ProgressTracker] class, which drives the
    phases, is constructed here but defined nowhere in the sources.
    Section 4.5: "States: Discovery -> Extraction -> Transformation ->
    Validation -> Import -> Verification -> Completed, with a parallel
    terminal state Failed reachable from any non-terminal state on an
    unrecoverable error, and Canceled reachable on explicit operator
    cancellation"; a terminal job is immutable (section 3). *)
Inductive State : Type :=
  | Discovery | Extraction | Transformation | Validation | Import
  | Verification | Completed | Failed | Canceled.

(** Modelled from the spec: what moves a job from one state to another. *)
Inductive Trigger : Type :=
  | PhaseDone          (* the current phase completed *)
  | Unrecoverable      (* an unrecoverable error *)
  | Cancel.            (* explicit operator cancellation *)

(** Modelled from the spec: the terminal states. *)
Definition terminal (s : State) : bool :=
  match s with
  | Completed | Failed | Canceled => true
  | _ => false
  end.

(** Modelled from the spec: the phase after a completed one. *)
Definition successor (s : State) : option State :=
  match s with
  | Discovery => Some Extraction
  | Extraction => Some Transformation
  | Transformation => Some Validation
  | Validation => Some Import
  | Import => Some Verification
  | Verification => Some Completed
  | Completed | Failed | Canceled => None
  end.

(** Modelled from the spec: the transition table of the phase state
    machine (design notes: "a closed set of tagged states with explicit
    allowed transitions"). *)
Definition transition (s : State) (tr : Trigger) : option State :=
  if terminal s then None
  else match tr with
       | PhaseDone => successor s
       | Unrecoverable => Some Failed
       | Cancel => Some Canceled
       end.

(** Modelled from the spec: a job's history, the states it went through,
    oldest first. *)
Inductive history : State -> list State -> Prop :=
  | history_start s : history s [s]
  | history_step s tr s' h :
      transition s tr = Some s' -> history s' h -> history s (s :: h).

(** Modelled from the spec: the name a state has in the tracker's
    [phases] array. *)
Definition phase_name (s : State) : option string :=
  match s with
  | Discovery => Some "discovery"
  | Extraction => Some "extraction"
  | Transformation => Some "transformation"
  | Validation => Some "validation"
  | Import => Some "import"
  | Verification => Some "verification"
  | Completed | Failed | Canceled => None
  end.

(** Modelled from the spec: the phases in the order of section 4.5. *)
Definition pipeline : list State :=
  [Discovery; Extraction; Transformation; Validation; Import; Verification].
End Monitor.

(* ===================================================================== *)
(** ** A concrete installation, for running the engines *)
(* ===================================================================== *)

Module Scenario.
Import Validator.

(** The world of the runs below: the destination store and the number of
    batches the destination was asked to process. *)
Record World : Type := mkWorld {
  destination : list JsObject;
  batch_calls : nat
}.

Definition empty_world : World := mkWorld [] 0.

(** The cuid pattern of the schema library: a [c], then at least eight
    characters that are neither blank nor a dash. *)
Definition cuid_pattern (s : string) : bool :=
  match list_ascii_of_string s with
  | c :: rest =>
      Ascii.eqb (Excel.lower c) "c"
      && (8 <=? length rest)%nat
      && forallb (λ ch, negb (Excel.is_space ch) && negb (Ascii.eqb ch "-")) rest
  | [] => false
  end.

Definition cost_item (code : string) (qty : Z) : JsObject :=
  <[ "name" := JStr ("Item " +:+ code) ]>
  (<[ "code" := JStr code ]>
  (<[ "type" := JStr "MATERIAL" ]>
  (<[ "quantity" := JNum (num_of_Z qty) ]>
  (<[ "unit" := JStr "m3" ]>
  (<[ "unitCost" := JNum (num_of_Z 10) ]>
  (<[ "categoryId" := JStr "ckv3x9p2a0001" ]> ∅)))))).

(** A source of three records, the second with a negative quantity. *)
Definition three_items : list JsObject :=
  [cost_item "A1" 5; cost_item "B2" (-2); cost_item "C3" 3].

Definition good_items : list JsObject :=
  [cost_item "A1" 5; cost_item "C3" 3].

(** *** The validation layers *)

Definition schema_issue (r : JsObject) (z : Schema.ZodIssue) : Issue :=
  mkIssue SevError (Schema.zod_message z) (Some r) (head (Schema.path z))
          (Some (Schema.code z)).

(** Schema validation: every record against the cost-item schema. *)
Definition validateSchema (data : Data) (schema : list Schema.ZodField)
  : Async World LayerResult :=
  λ w, (Resolved (mkLayer
          (r ← records data;
           schema_issue r <$> Schema.issues_of cuid_pattern schema r) []), w).

Definition no_issues {A} (_ : A) : Async World LayerResult :=
  λ w, (Resolved (mkLayer [] []), w).

Definition quiet_check (name : string) (_ : Data) : Async World QualityCheck :=
  λ w, (Resolved (mkCheck name [] ∅), w).

Definition key_of_code (r : JsObject) : string :=
  match r !! "code" with Some (JStr c) => c | _ => "" end.

Definition merge_statistics (results : list QualityCheck) : gmap string float :=
  foldr (λ c acc, check_statistics c ∪ acc) ∅ results.

Definition businessRules (_ : list Schema.ZodField) : unit := tt.
Definition validateBusinessRules (data : Data) (_ : unit)
  : Async World LayerResult := no_issues data.
Definition validateCrossReferences : Data -> Async World LayerResult := no_issues.
Definition checkDataCompleteness := quiet_check "completeness".
Definition checkDataConsistency := quiet_check "consistency".
Definition checkValueRanges := quiet_check "ranges".
Definition checkReferentialIntegrity := quiet_check "integrity".

Definition validate (data : Data) : Eff World Call ValidationResult :=
  validateMigrationData businessRules validateSchema validateBusinessRules
    validateCrossReferences checkDataCompleteness checkDataConsistency
    checkValueRanges checkReferentialIntegrity key_of_code merge_statistics
    data Schema.createCostItemSchema.

(** *** The Excel engine *)

Definition worksheets (_ : unit) : list unit := [tt].
Definition sheet_name (_ : unit) : string := "BOQ".
Definition findHeaderRow (_ : unit) : Excel.HeaderRow :=
  Excel.mkHeaderRow ["Code"; "QTY "] 1.
Definition identifyDataRange (_ : unit) (_ : Excel.HeaderRow) : Excel.DataRange :=
  Excel.mkRange 2 4.
Definition calculateMappingConfidence (_ : list (Excel.SheetMapping unit)) : Q := 1.
Definition generateMappingSuggestions (_ : unit) (_ : Excel.ExcelTemplate) : unit := tt.
Definition generateImportSummary (_ : Excel.ImportResult) : unit := tt.
Definition inferDataType (_ : unit) (_ : nat) (_ : Excel.DataRange) : unit := tt.
Definition loadExcelFile (_ : string) : Async World unit := λ w, (Resolved tt, w).
Definition getTemplate (_ : string) : Async World Excel.ExcelTemplate :=
  λ w, (Resolved Excel.boqTemplate, w).
Definition extractDataFromExcel (source : list JsObject) (_ : unit)
    (_ : Excel.DataMapping unit) : Async World (list JsObject) :=
  λ w, (Resolved source, w).

Definition validateExtractedData (extracted : list JsObject)
    (_ : Excel.ExcelTemplate) : Async World ValidationResult :=
  λ w, let r := validate (mkData extracted) w in (outcome_of r, world_of r).

(** The importer stores every record it is handed. *)
Definition importData (extracted : list JsObject) (_ : string)
  : Async World Excel.ImportResult :=
  λ w, (Resolved (Excel.mkImportResult (Z.of_nat (length extracted))),
        mkWorld (destination w ++ extracted) (batch_calls w)).

Definition migrateExcelWorkbook (source : list JsObject)
  : Eff World (Excel.Call (Workbook := unit) (Extracted := list JsObject))
      (Excel.MigrationResult unit unit) :=
  Excel.migrateExcelWorkbook worksheets sheet_name findHeaderRow
    identifyDataRange calculateMappingConfidence generateMappingSuggestions
    generateImportSummary inferDataType
    Excel.edit_similarity Excel.DEFAULT_MIN_CONFIDENCE
    loadExcelFile getTemplate (extractDataFromExcel source)
    validateExtractedData importData
    "boq.xlsx" "standard_boq".

(** *** The RIB Candy migrator *)

Definition boq_row (item_id : string) (qty : Z) : JsObject :=
  <[ "item_id" := JStr item_id ]>
  (<[ "item_code" := JStr item_id ]>
  (<[ "quantity" := JNum (num_of_Z qty) ]>
  (<[ "rate" := JNum (num_of_Z 10) ]> ∅))).

Definition header_row : JsObject :=
  <[ "proj_id" := JStr "P-7" ]> (<[ "proj_name" := JStr "Depot" ]> ∅).

(** The legacy database, as the rows of its BOQ items. *)
Definition ribCandyDb_query (rows : list JsObject) (q : RIBCandy.Query)
    (_ : string) : Async World (list JsObject) :=
  λ w, (Resolved (match q with
                  | RIBCandy.boqHeaderQuery => [header_row]
                  | RIBCandy.boqItemsQuery => rows
                  | RIBCandy.resourceBreakdownQuery => []
                  end), w).

(** A legacy database whose driver rejects the header query with [null]. *)
Definition ribCandyDb_down (q : RIBCandy.Query) (_ : string)
  : Async World (list JsObject) :=
  λ w, (match q with
        | RIBCandy.boqHeaderQuery => Rejected (ThrownValue JNull)
        | _ => Resolved []
        end, w).

(** A transformation that keeps the item rows as they are. *)
Definition transformBOQStructure (sourceBoq : RIBCandy.RIBCandyBOQ)
  : Async World (list JsObject) :=
  λ w, (Resolved (RIBCandy.items sourceBoq), w).

Definition generateMigrationLog : Async World nat :=
  λ w, (Resolved (length (destination w)), w).

Definition item_issue (i : JsObject) : list Issue :=
  match i !! "quantity" with
  | Some (JNum n) =>
      if num_le_zero n
      then [mkIssue SevError "Quantity must be positive" None (Some "quantity") None]
      else []
  | _ => [mkIssue SevError "Quantity must be a number" None (Some "quantity") None]
  end.

Definition validateBOQData (boq : list JsObject) : Async World ValidationResult :=
  λ w, let errs := i ← boq; item_issue i in
       (Resolved (mkResult (bool_decide (errs = [])) errs [] ∅), w).

Definition importBOQ (boq : list JsObject) : Async World RIBCandy.BoqImport :=
  λ w, (Resolved (RIBCandy.mkBoqImport (Z.of_nat (length boq))),
        mkWorld (destination w ++ boq) (batch_calls w)).

Definition migrateBOQData (rows : list JsObject)
  : Eff World RIBCandy.Call (RIBCandy.MigrationResult nat) :=
  RIBCandy.migrateBOQData (ribCandyDb_query rows) validateBOQData importBOQ
    transformBOQStructure generateMigrationLog "P-7".

Definition boq_with_negative : list JsObject :=
  [boq_row "I-1" 5; boq_row "I-2" (-2); boq_row "I-3" 3].

Definition boq_all_positive : list JsObject :=
  [boq_row "I-1" 5; boq_row "I-3" 3].
End Scenario.

(* ===================================================================== *)
(** ** Validation verdict and the import gate *)
(* ===================================================================== *)

Module VerdictClaims.
Import Validator ValidatorFacts.

Section Gate.
(** The validation engine and its collaborators. *)
Context {W ValidationSchema Rules : Type}.
Variable businessRules : ValidationSchema -> Rules.
Variable validateSchema : Data -> ValidationSchema -> Async W LayerResult.
Variable validateBusinessRules : Data -> Rules -> Async W LayerResult.
Variable validateCrossReferences : Data -> Async W LayerResult.
Variable checkDataCompleteness : Data -> Async W QualityCheck.
Variable checkDataConsistency : Data -> Async W QualityCheck.
Variable checkValueRanges : Data -> Async W QualityCheck.
Variable checkReferentialIntegrity : Data -> Async W QualityCheck.
Variable generateRecordKey : JsObject -> string.
Variable aggregateStatistics : list QualityCheck -> gmap string float.
(** The Excel engine and its collaborators. *)
Context {Workbook Sheet DataType Extracted Suggestions Summary : Type}.
Variable worksheets : Workbook -> list Sheet.
Variable sheet_name : Sheet -> string.
Variable findHeaderRow : Sheet -> Excel.HeaderRow.
Variable identifyDataRange : Sheet -> Excel.HeaderRow -> Excel.DataRange.
Variable calculateMappingConfidence : list (Excel.SheetMapping DataType) -> Q.
Variable generateMappingSuggestions : Workbook -> Excel.ExcelTemplate -> Suggestions.
Variable generateImportSummary : Excel.ImportResult -> Summary.
Variable inferDataType : Sheet -> nat -> Excel.DataRange -> DataType.
Variable similarity : list ascii -> list ascii -> Q.
Variable minConfidence : Q.
Variable loadExcelFile : string -> Async W Workbook.
Variable getTemplate : string -> Async W Excel.ExcelTemplate.
Variable extractDataFromExcel :
  Workbook -> Excel.DataMapping DataType -> Async W Extracted.
Variable validateExtractedData :
  Extracted -> Excel.ExcelTemplate -> Async W ValidationResult.
Variable importData : Extracted -> string -> Async W Excel.ImportResult.
(** The RIB Candy migrator and its collaborators. *)
Context {Log Boq : Type}.
Variable ribCandyDb_query : RIBCandy.Query -> string -> Async W (list JsObject).
Variable validateBOQData : Boq -> Async W ValidationResult.
Variable importBOQ : Boq -> Async W RIBCandy.BoqImport.
Variable transformBOQStructure : RIBCandy.RIBCandyBOQ -> Async W Boq.
Variable generateMigrationLog : Async W Log.

Local Abbreviation validate :=
  (validateMigrationData businessRules validateSchema validateBusinessRules
     validateCrossReferences checkDataCompleteness checkDataConsistency
     checkValueRanges checkReferentialIntegrity generateRecordKey
     aggregateStatistics).
Local Abbreviation migrate_excel :=
  (Excel.migrateExcelWorkbook worksheets sheet_name findHeaderRow
     identifyDataRange calculateMappingConfidence generateMappingSuggestions
     generateImportSummary inferDataType similarity minConfidence
     loadExcelFile getTemplate extractDataFromExcel validateExtractedData
     importData).
Local Abbreviation migrate_boq :=
  (RIBCandy.migrateBOQData ribCandyDb_query validateBOQData importBOQ
     transformBOQStructure generateMigrationLog).

(** A validation result that [validateMigrationData] resolved to. *)
Definition validated (v : ValidationResult) : Prop :=
  ∃ data schema w, outcome_of (validate data schema w) = Resolved v.

End Gate.
End VerdictClaims.


(* ===================================================================== *)
(** ** The order of the validation layers *)
(* ===================================================================== *)

Module LayerClaims.
Import Validator ValidatorFacts.

(** The layers in the order the engine calls them; the quality layer
    awaits four checks. *)
Definition layer_order : list Layer :=
  [SchemaLayer; BusinessLayer; QualityLayer; QualityLayer; QualityLayer;
   QualityLayer; CrossRefLayer].

(** The error a logged call rejected with. *)
Definition call_error (c : Call) : option JsError :=
  match c with
  | ValidateSchema o | ValidateBusinessRules o | ValidateCrossReferences o =>
      outcome_error o
  | CheckDataCompleteness o | CheckDataConsistency o | CheckValueRanges o
  | CheckReferentialIntegrity o => outcome_error o
  end.

(** What short-circuiting on a structural failure would mean for a trace:
    once schema validation has reported an error, no call of a later layer
    is logged. *)
Definition short_circuits (t : list Call) : Prop :=
  ∀ sr, ValidateSchema (Resolved sr) ∈ t -> layer_errors sr ≠ [] ->
        ∀ c, c ∈ t -> layer_of c = SchemaLayer.

Lemma collect_rejected_source {A} (os : list (Outcome A)) e :
  collect os = Rejected e -> Rejected e ∈ os.
Proof.
  induction os as [|[a|e'] os IH]; simpl; intros H; [discriminate| |].
  - destruct (collect os); [discriminate|]. injection H as ->.
    right. apply IH. reflexivity.
  - injection H as ->. left.
Qed.

Section Order.
Context {W ValidationSchema Rules : Type}.
Variable businessRules : ValidationSchema -> Rules.
Variable validateSchema : Data -> ValidationSchema -> Async W LayerResult.
Variable validateBusinessRules : Data -> Rules -> Async W LayerResult.
Variable validateCrossReferences : Data -> Async W LayerResult.
Variable checkDataCompleteness : Data -> Async W QualityCheck.
Variable checkDataConsistency : Data -> Async W QualityCheck.
Variable checkValueRanges : Data -> Async W QualityCheck.
Variable checkReferentialIntegrity : Data -> Async W QualityCheck.
Variable generateRecordKey : JsObject -> string.
Variable aggregateStatistics : list QualityCheck -> gmap string float.

Local Abbreviation validate :=
  (validateMigrationData businessRules validateSchema validateBusinessRules
     validateCrossReferences checkDataCompleteness checkDataConsistency
     checkValueRanges checkReferentialIntegrity generateRecordKey
     aggregateStatistics).

(** C4, as the code has it. The layers run in the fixed order schema,
    business rules, quality checks, cross references, on the whole dataset.
    Errors reported by the schema layer skip nothing: whenever
    [validateSchema] resolves, [validateBusinessRules] is called, and
    whenever that resolves all quality checks are started; a run that
    resolves has called every layer and accumulated the issues of all of
    them.  Only a rejected call ends a run early, and then no result is
    produced. *)
Theorem layers_run_in_order_and_never_short_circuit data schema (w : W) :
  let run := validate data schema w in
  map layer_of (trace_of run) `prefix_of` layer_order
  ∧ (∀ sr, ValidateSchema (Resolved sr) ∈ trace_of run ->
           ∃ o, ValidateBusinessRules o ∈ trace_of run)
  ∧ (∀ br, ValidateBusinessRules (Resolved br) ∈ trace_of run ->
           ∃ o1 o2 o3 o4,
             CheckDataCompleteness o1 ∈ trace_of run
             ∧ CheckDataConsistency o2 ∈ trace_of run
             ∧ CheckValueRanges o3 ∈ trace_of run
             ∧ CheckReferentialIntegrity o4 ∈ trace_of run)
  ∧ (∀ res, outcome_of run = Resolved res ->
            map layer_of (trace_of run) = layer_order
            ∧ ∃ sr br cr,
                ValidateSchema (Resolved sr) ∈ trace_of run
                ∧ ValidateBusinessRules (Resolved br) ∈ trace_of run
                ∧ ValidateCrossReferences (Resolved cr) ∈ trace_of run
                ∧ errors res
                  = layer_errors sr ++ layer_errors br ++ layer_errors cr)
  ∧ (∀ e, outcome_of run = Rejected e ->
          ∃ c, c ∈ trace_of run ∧ call_error c = Some e).
Proof.
  intros run.
  pose proof (validateMigrationData_run_shape businessRules validateSchema
                validateBusinessRules validateCrossReferences
                checkDataCompleteness checkDataConsistency checkValueRanges
                checkReferentialIntegrity generateRecordKey
                aggregateStatistics data schema w) as Hs.
  fold run in Hs. clearbody run. destruct run as [[o wf] t].
  unfold outcome_of, trace_of in *. cbn [fst snd] in *.
  destruct Hs as [e|sr e|sr br o1 o2 o3 o4 e Hc|sr br c1 c2 c3 c4 e
                 |sr br c1 c2 c3 c4 cr].
  - (* the schema layer rejected *)
    split; [exists (tail layer_order); reflexivity|].
    split; [intros sr Hin; mem_cases Hin|].
    split; [intros br Hin; mem_cases Hin|].
    split; [intros res Ho; discriminate Ho|].
    intros e' He. injection He as <-. eexists. split; [left|reflexivity].
  - (* the business-rule layer rejected *)
    split; [exists (drop 2 layer_order); reflexivity|].
    split; [intros sr' _; eexists; right; left|].
    split; [intros br Hin; mem_cases Hin|].
    split; [intros res Ho; discriminate Ho|].
    intros e' He. injection He as <-. eexists.
    split; [right; left|reflexivity].
  - (* a quality check rejected *)
    split; [exists [CrossRefLayer]; reflexivity|].
    split; [intros sr' _; eexists; right; left|].
    split.
    { intros br' _. exists o1, o2, o3, o4. unfold quality_events.
      repeat split; repeat first [apply list_elem_of_here | apply list_elem_of_further]. }
    split; [intros res Ho; discriminate Ho|].
    intros e' He. injection He as <-.
    apply collect_rejected_source in Hc.
    apply elem_of_cons in Hc as [Hc|Hc]; [discriminate Hc|].
    unfold quality_events.
    apply elem_of_cons in Hc as [<-|Hc];
      [exists (CheckDataCompleteness (Rejected e)); split; [in_list|reflexivity]|].
    apply elem_of_cons in Hc as [<-|Hc];
      [exists (CheckDataConsistency (Rejected e)); split; [in_list|reflexivity]|].
    apply elem_of_cons in Hc as [<-|Hc];
      [exists (CheckValueRanges (Rejected e)); split; [in_list|reflexivity]|].
    apply elem_of_cons in Hc as [<-|Hc];
      [exists (CheckReferentialIntegrity (Rejected e)); split; [in_list|reflexivity]|].
    inversion Hc.
  - (* the cross-reference layer rejected *)
    split; [exists []; reflexivity|].
    split; [intros sr' _; eexists; right; left|].
    split.
    { intros br' _. do 4 eexists. unfold quality_events.
      repeat split; repeat first [apply list_elem_of_here | apply list_elem_of_further]. }
    split; [intros res Ho; discriminate Ho|].
    intros e' He. injection He as <-.
    exists (ValidateCrossReferences (Rejected e)).
    split; [|reflexivity]. unfold quality_events. in_list.
  - (* every layer resolved *)
    split; [exists []; reflexivity|].
    split; [intros sr' _; eexists; right; left|].
    split.
    { intros br' _. do 4 eexists. unfold quality_events.
      repeat split; repeat first [apply list_elem_of_here | apply list_elem_of_further]. }
    split; [|intros e He; discriminate He].
    intros res Ho. injection Ho as <-. split; [reflexivity|].
    exists sr, br, cr. unfold quality_events. simpl.
    repeat split; repeat first [apply list_elem_of_here | apply list_elem_of_further].
Qed.
End Order.

(** The three-record source of the scenario: schema validation reports the
    negative quantity, and the run still calls all the other layers. *)
Lemma schema_failure_does_not_short_circuit :
  ¬ short_circuits
      (trace_of (Scenario.validate (mkData Scenario.three_items)
                   Scenario.empty_world)).
Proof.
  intros Hsc.
  set (t := trace_of (Scenario.validate (mkData Scenario.three_items)
                        Scenario.empty_world)) in *.
  assert (Ht : ∃ sr rest,
             t = ValidateSchema (Resolved sr)
                   :: ValidateBusinessRules (Resolved (mkLayer [] [])) :: rest
             ∧ length (layer_errors sr) = 1).
  { vm_compute. do 2 eexists. split; reflexivity. }
  destruct Ht as (sr & rest & Ht & Hlen).
  specialize (Hsc sr). rewrite Ht in Hsc.
  assert (Hne : layer_errors sr ≠ []) by (intros H0; rewrite H0 in Hlen; discriminate).
  specialize (Hsc ltac:(left) Hne (ValidateBusinessRules (Resolved (mkLayer [] [])))
                   ltac:(right; left)).
  discriminate Hsc.
Qed.
End LayerClaims.


(* ===================================================================== *)
(** ** Quantities must be positive *)
(* ===================================================================== *)

Module QuantityClaims.
Import Schema.

Definition quantity_field : ZodField :=
  required "quantity" (ZNumber [Positive "Quantity must be positive"]).

Definition quantity_issue : ZodIssue :=
  mkZodIssue "too_small" ["quantity"] "Quantity must be positive".

Section Parsing.
Variable is_cuid : string -> bool.
Implicit Types (input : JsObject) (f : ZodField) (z : ZodIssue).

Lemma issues_of_field schema input f z :
  f ∈ schema -> z ∈ parse_field is_cuid input f ->
  z ∈ issues_of is_cuid schema input.
Proof.
  intros Hf Hz. unfold issues_of. apply list_elem_of_In, in_concat.
  exists (parse_field is_cuid input f).
  split; [apply in_map, list_elem_of_In, Hf | apply list_elem_of_In, Hz].
Qed.

Lemma issues_of_inv schema input z :
  z ∈ issues_of is_cuid schema input ->
  ∃ f, f ∈ schema ∧ z ∈ parse_field is_cuid input f.
Proof.
  unfold issues_of. intros Hz.
  apply list_elem_of_In, in_concat in Hz as (l & Hl & Hz).
  apply in_map_iff in Hl as (f & <- & Hf).
  exists f. split; apply list_elem_of_In; assumption.
Qed.

Lemma string_checks_path p s checks z :
  z ∈ concat (map (string_check is_cuid p s) checks) -> path z = p.
Proof.
  induction checks as [|c checks IH]; simpl; intros Hz; [inversion Hz|].
  apply elem_of_app in Hz as [Hz|Hz]; [|exact (IH Hz)].
  destruct c as [n msg|msg]; simpl in Hz.
  - destruct (String.length s <? n)%nat; mem_cases Hz. subst z. reflexivity.
  - destruct (is_cuid s); mem_cases Hz. subst z. reflexivity.
Qed.

Lemma number_checks_path p n checks z :
  z ∈ concat (map (number_check p n) checks) -> path z = p.
Proof.
  induction checks as [|c checks IH]; simpl; intros Hz; [inversion Hz|].
  apply elem_of_app in Hz as [Hz|Hz]; [|exact (IH Hz)].
  destruct c as [msg]; simpl in Hz.
  destruct (num_le_zero n); mem_cases Hz. subst z. reflexivity.
Qed.

(** Every issue of a field is reported at that field's path. *)
Lemma parse_field_path input f z :
  z ∈ parse_field is_cuid input f -> path z = [key f].
Proof.
  unfold parse_field.
  destruct (default JUndefined (input !! key f)) as [| |b|n|s] eqn:Hv;
    destruct f as [k [checks|checks|values] o]; simpl; intros Hz;
    try (destruct o; mem_cases Hz; subst z; reflexivity);
    try (mem_cases Hz; subst z; reflexivity).
  - destruct n; try (mem_cases Hz; subst z; reflexivity);
      eapply number_checks_path; exact Hz.
  - eapply string_checks_path; exact Hz.
  - destruct (bool_decide (s ∈ values)); mem_cases Hz. subst z. reflexivity.
Qed.

(** The quantity field alone: it parses without issue exactly on a number
    that is strictly positive. *)
Lemma quantity_field_accepts input :
  parse_field is_cuid input quantity_field = []
  <-> ∃ n, input !! "quantity" = Some (JNum n) ∧ n ≠ NaN ∧ num_le_zero n = false.
Proof.
  unfold parse_field, quantity_field, required. cbn [key optional type_of].
  destruct (input !! "quantity") as [[| |b|n|s]|] eqn:Hq; simpl;
    try (split; [discriminate | intros (n' & Hn & _); discriminate]).
  destruct n as [|neg|q]; simpl.
  - split; [discriminate|]. intros (n' & Hn & Hnan & _). congruence.
  - destruct neg; simpl.
    + split; [discriminate|]. intros (n' & Hn & _ & Hle).
      injection Hn as <-. discriminate.
    + split; [|reflexivity]. intros _. exists (Inf false). repeat split. discriminate.
  - destruct (Qle_bool q 0) eqn:Hle; simpl.
    + split; [discriminate|]. intros (n' & Hn & _ & Hle').
      injection Hn as <-. simpl in Hle'. congruence.
    + split; [|reflexivity]. intros _. exists (Fin q). repeat split; [discriminate|].
      exact Hle.
Qed.

Lemma quantity_field_rejects input n :
  input !! "quantity" = Some (JNum n) -> num_le_zero n = true ->
  parse_field is_cuid input quantity_field = [quantity_issue].
Proof.
  intros Hq Hle. unfold parse_field, quantity_field, required.
  cbn [key optional type_of]. rewrite Hq. simpl.
  destruct n as [|neg|q]; simpl in *; [discriminate| |]; rewrite Hle; reflexivity.
Qed.

Lemma quantity_field_in_schema : quantity_field ∈ createCostItemSchema.
Proof. unfold createCostItemSchema. in_list. Qed.

Lemma quantity_field_unique f :
  f ∈ createCostItemSchema -> key f = "quantity" -> f = quantity_field.
Proof.
  unfold createCostItemSchema. intros Hf Hk.
  mem_cases Hf; subst f; try discriminate Hk; reflexivity.
Qed.
End Parsing.

Section WholeDataset.
Context {W Workbook Sheet DataType Extracted Suggestions Summary : Type}.
Variable worksheets : Workbook -> list Sheet.
Variable sheet_name : Sheet -> string.
Variable findHeaderRow : Sheet -> Excel.HeaderRow.
Variable identifyDataRange : Sheet -> Excel.HeaderRow -> Excel.DataRange.
Variable calculateMappingConfidence : list (Excel.SheetMapping DataType) -> Q.
Variable generateMappingSuggestions : Workbook -> Excel.ExcelTemplate -> Suggestions.
Variable generateImportSummary : Excel.ImportResult -> Summary.
Variable inferDataType : Sheet -> nat -> Excel.DataRange -> DataType.
Variable similarity : list ascii -> list ascii -> Q.
Variable minConfidence : Q.
Variable loadExcelFile : string -> Async W Workbook.
Variable getTemplate : string -> Async W Excel.ExcelTemplate.
Variable extractDataFromExcel :
  Workbook -> Excel.DataMapping DataType -> Async W Extracted.
Variable validateExtractedData :
  Extracted -> Excel.ExcelTemplate -> Async W Validator.ValidationResult.
Variable importData : Extracted -> string -> Async W Excel.ImportResult.
(** The library's cuid pattern test. *)
Variable is_cuid : string -> bool.

Local Abbreviation migrate :=
  (Excel.migrateExcelWorkbook worksheets sheet_name findHeaderRow
     identifyDataRange calculateMappingConfidence generateMappingSuggestions
     generateImportSummary inferDataType similarity minConfidence
     loadExcelFile getTemplate extractDataFromExcel validateExtractedData
     importData).

(** C7, as the code has it. The cost-item schema accepts a quantity only
    when it is a strictly positive number: a quantity [<= 0] fails the parse
    with one issue at path [quantity], which carries the code [too_small]
    and the message 'Quantity must be positive'.  The Excel engine does not
    import record by record: it hands the extracted dataset to [importData]
    whole, and only after a validation that answered [isValid]; on an
    invalid dataset it imports nothing and returns status 'error' with the
    validation errors.  So when [validateExtractedData], which the sources
    do not define, answers [isValid] only for datasets of which every
    record passes the schema, a dataset that holds one record with a
    quantity [<= 0] is not imported at all, and the migration does not
    answer 'success'. *)
Theorem nonpositive_quantity_fails_and_import_is_all_or_nothing :
  (∀ input n,
     input !! "quantity" = Some (JNum n) -> num_le_zero n = true ->
     quantity_issue ∈ issues_of is_cuid createCostItemSchema input
     ∧ (∀ z, z ∈ issues_of is_cuid createCostItemSchema input ->
             path z = ["quantity"] -> z = quantity_issue)
     ∧ code quantity_issue = "too_small"
     ∧ safeParse_success is_cuid createCostItemSchema input = false)
  ∧ (∀ input,
       (∀ z, z ∈ issues_of is_cuid createCostItemSchema input ->
             path z ≠ ["quantity"])
       <-> ∃ n, input !! "quantity" = Some (JNum n)
                ∧ n ≠ NaN ∧ num_le_zero n = false)
  ∧ (∀ filePath templateType w extracted tt o,
       Excel.ImportData extracted tt o
         ∈ trace_of (migrate filePath templateType w) ->
       Excel.ExtractDataFromExcel (Resolved extracted)
         ∈ trace_of (migrate filePath templateType w)
       ∧ ∃ v, Excel.ValidateExtractedData extracted (Resolved v)
                ∈ trace_of (migrate filePath templateType w)
              ∧ Validator.isValid v = true)
  ∧ (∀ filePath templateType w extracted v,
       Excel.ValidateExtractedData extracted (Resolved v)
         ∈ trace_of (migrate filePath templateType w) ->
       Validator.isValid v = false ->
       (∀ extracted' tt o,
          Excel.ImportData extracted' tt o
            ∉ trace_of (migrate filePath templateType w))
       ∧ ∃ sugg, outcome_of (migrate filePath templateType w)
                 = Resolved (Excel.StatusError (Validator.errors v) sugg))
  ∧ (∀ records_of : Extracted -> list JsObject,
       (∀ extracted template w v w',
          validateExtractedData extracted template w = (Resolved v, w') ->
          Validator.isValid v = true ->
          ∀ r, r ∈ records_of extracted ->
               safeParse_success is_cuid createCostItemSchema r = true) ->
       ∀ filePath templateType w extracted r n,
         Excel.ExtractDataFromExcel (Resolved extracted)
           ∈ trace_of (migrate filePath templateType w) ->
         r ∈ records_of extracted ->
         r !! "quantity" = Some (JNum n) -> num_le_zero n = true ->
         (∀ extracted' tt o,
            Excel.ImportData extracted' tt o
              ∉ trace_of (migrate filePath templateType w))
         ∧ ∀ count ws summary,
             outcome_of (migrate filePath templateType w)
             ≠ Resolved (Excel.StatusSuccess count ws summary)).
Proof.
  assert (Hrejects : ∀ input n,
            input !! "quantity" = Some (JNum n) -> num_le_zero n = true ->
            quantity_issue ∈ issues_of is_cuid createCostItemSchema input
            ∧ safeParse_success is_cuid createCostItemSchema input = false).
  { intros input n Hq Hle.
    assert (Hin : quantity_issue ∈ issues_of is_cuid createCostItemSchema input).
    { eapply issues_of_field; [apply quantity_field_in_schema|].
      erewrite quantity_field_rejects by eassumption. left. }
    split; [exact Hin|]. unfold safeParse_success.
    apply bool_decide_eq_false. intros Hnil. rewrite Hnil in Hin. inversion Hin. }
  split; [|split; [|split; [|split]]].
  - intros input n Hq Hle.
    destruct (Hrejects input n Hq Hle) as [Hin Hfail].
    split; [exact Hin|]. split; [|split; [reflexivity | exact Hfail]].
    intros z Hz Hpath.
    apply issues_of_inv in Hz as (f & Hf & Hz).
    pose proof (parse_field_path _ _ _ _ Hz) as Hk. rewrite Hpath in Hk.
    injection Hk as Hk. symmetry in Hk.
    rewrite (quantity_field_unique f Hf Hk) in Hz.
    erewrite quantity_field_rejects in Hz by eassumption.
    apply list_elem_of_singleton in Hz. exact Hz.
  - intros input. rewrite <- (quantity_field_accepts is_cuid). split.
    + intros Hnone.
      destruct (parse_field is_cuid input quantity_field) as [|z l] eqn:Hp;
        [reflexivity|].
      exfalso. apply (Hnone z).
      * eapply issues_of_field; [apply quantity_field_in_schema|].
        rewrite Hp. left.
      * apply (parse_field_path is_cuid input quantity_field). rewrite Hp. left.
    + intros Hok z Hz Hpath.
      apply issues_of_inv in Hz as (f & Hf & Hz).
      pose proof (parse_field_path _ _ _ _ Hz) as Hk. rewrite Hpath in Hk.
      injection Hk as Hk. symmetry in Hk.
      rewrite (quantity_field_unique f Hf Hk), Hok in Hz. inversion Hz.
  - intros filePath templateType w extracted tt o Hin.
    destruct (ExcelFacts.import_needs_valid_data _ _ _ _ _ _ _ _ _ _ _ _ _ _ _
                _ _ _ _ _ _ Hin) as (v & Hv & Hvalid & Hext).
    split; [exact Hext|]. exists v. split; assumption.
  - intros filePath templateType w extracted v Hin Hv.
    eapply ExcelFacts.invalid_data_not_imported; eassumption.
  - intros records_of Hschema filePath templateType w extracted r n
      Hext Hr Hq Hle.
    assert (Hnone : ∀ extracted' tt o,
              Excel.ImportData extracted' tt o
                ∉ trace_of (migrate filePath templateType w)).
    { intros extracted' tt o Hin.
      destruct (ExcelFacts.import_needs_valid_data _ _ _ _ _ _ _ _ _ _ _ _ _ _
                  _ _ _ _ _ _ _ Hin) as (v & Hv & Hvalid & Hext').
      pose proof (ExcelFacts.extraction_is_unique _ _ _ _ _ _ _ _ _ _ _ _ _ _
                    _ _ _ _ _ _ Hext Hext') as <-.
      destruct (ExcelFacts.logged_validation _ _ _ _ _ _ _ _ _ _ _ _ _ _ _
                  _ _ _ _ _ Hv) as (tpl & w3 & w4 & Hcall).
      pose proof (Hschema _ _ _ _ _ Hcall Hvalid r Hr) as Hpass.
      destruct (Hrejects r n Hq Hle) as [_ Hfail]. congruence. }
    split; [exact Hnone|].
    intros count ws summary Ho.
    destruct (ExcelFacts.successful_run_imported _ _ _ _ _ _ _ _ _ _ _ _ _ _
                _ _ _ _ _ _ _ Ho) as (ext & res & Hin).
    exact (Hnone _ _ _ Hin).
Qed.
End WholeDataset.

(** What the scenario of section 8 expects of a run: the two good records
    in the destination, the negative one left out. *)
Definition two_of_three_imported (w : Scenario.World) : Prop :=
  map Scenario.key_of_code (Scenario.destination w) = ["A1"; "C3"].

(** Three records, one with a negative quantity, migrated from a workbook
    with a validation that applies the cost-item schema to every record:
    nothing is imported, and the issue reported carries the library's code
    [too_small]. *)
Lemma three_records_one_negative_imports_nothing :
  let run := Scenario.migrateExcelWorkbook Scenario.three_items
               Scenario.empty_world in
  ¬ two_of_three_imported (world_of run)
  ∧ Scenario.destination (world_of run) = []
  ∧ ∃ errs, outcome_of run = Resolved (Excel.StatusError errs tt)
            ∧ map issue_code errs = [Some "too_small"]
            ∧ map issue_message errs = ["Quantity must be positive"]
            ∧ map issue_field errs = [Some "quantity"].
Proof.
  intros run.
  assert (Hdest : Scenario.destination (world_of run) = [])
    by (vm_compute; reflexivity).
  split; [|split; [exact Hdest|]].
  - unfold two_of_three_imported. rewrite Hdest. discriminate.
  - vm_compute. eexists. repeat split.
Qed.

(** The same source without the negative record is imported whole. *)
Example two_good_records_are_imported :
  two_of_three_imported
    (world_of (Scenario.migrateExcelWorkbook Scenario.good_items
                 Scenario.empty_world)).
Proof. vm_compute. reflexivity. Qed.
End QuantityClaims.


(* ===================================================================== *)
(** ** Header matching *)
(* ===================================================================== *)

Module MatchingClaims.
Import Excel MatchingFacts.

(** The rule set of the mapping-confidence scenario: one alias, "Qty", for
    the canonical field "quantity". *)
Definition qty_rules : list TemplateField :=
  [mkTemplateField "quantity" ["Qty"] true (Some "number")].

Lemma qty_header_matches fs :
  List.find (has_exact_alias "QTY ") fs
  = Some (mkTemplateField "quantity" ["qty"; "amount"] true (Some "number")) ->
  findBestMatch edit_similarity DEFAULT_MIN_CONFIDENCE "QTY " fs
  = Some (mkMatch "quantity" 1).
Proof. intros H. erewrite findBestMatch_exact by exact H. reflexivity. Qed.

Lemma boq_qty_header :
  findBestMatch edit_similarity DEFAULT_MIN_CONFIDENCE "QTY " (fields boqTemplate)
  = Some (mkMatch "quantity" 1).
Proof. apply qty_header_matches. vm_compute. reflexivity. Qed.

Lemma boq_quality_header :
  findBestMatch edit_similarity DEFAULT_MIN_CONFIDENCE "Quality" (fields boqTemplate)
  = None.
Proof. vm_compute. reflexivity. Qed.

Section Sheets.
Context {W Workbook Sheet DataType Extracted : Type}.
Variable sheet_name : Sheet -> string.
Variable findHeaderRow : Sheet -> HeaderRow.
Variable identifyDataRange : Sheet -> HeaderRow -> DataRange.
Variable inferDataType : Sheet -> nat -> DataRange -> DataType.

Local Abbreviation analyze :=
  (analyzeSheet (W := W) (Workbook := Workbook) (Extracted := Extracted)
     sheet_name findHeaderRow identifyDataRange inferDataType
     edit_similarity DEFAULT_MIN_CONFIDENCE).

(** C6. An exact alias match (after trimming and case folding) yields
    confidence 1 and wins over every scored candidate; otherwise the best
    similarity score over the aliases is used, it lies in [0,1), and the
    match is accepted exactly when it is above the minimum confidence, 0.6
    by default.  With the alias "Qty" for "quantity", the header "QTY " maps
    to "quantity" with confidence 1 >= 0.6; "Quality" scores 3/7 and is
    rejected.  The same holds against [boqTemplate], and [analyzeSheet]
    records it column by column. *)
Theorem header_matching_rule :
  (∀ similarity minConfidence header fs,
     (∀ f, List.find (has_exact_alias header) fs = Some f ->
           findBestMatch similarity minConfidence header fs
           = Some (mkMatch (name f) 1))
     ∧ (List.find (has_exact_alias header) fs = None ->
        (∀ a b, a ≠ b -> (0 <= similarity a b)%Q ∧ (similarity a b < 1)%Q) ->
        ∀ m, findBestMatch similarity minConfidence header fs = Some m ->
             m ∈ candidates similarity header fs
             ∧ (minConfidence < match_confidence m)%Q
             ∧ (0 <= match_confidence m)%Q ∧ (match_confidence m < 1)%Q
             ∧ ∀ c, c ∈ candidates similarity header fs ->
                    (match_confidence c <= match_confidence m)%Q)
     ∧ (List.find (has_exact_alias header) fs = None ->
        (findBestMatch similarity minConfidence header fs = None
         <-> ∀ c, c ∈ candidates similarity header fs ->
                  (match_confidence c <= minConfidence)%Q)))
  ∧ (DEFAULT_MIN_CONFIDENCE == 6 / 10)%Q
  ∧ (∀ a b, a ≠ b -> (0 <= edit_similarity a b)%Q ∧ (edit_similarity a b < 1)%Q)
  ∧ (∃ m, findBestMatch edit_similarity DEFAULT_MIN_CONFIDENCE "QTY " qty_rules
          = Some m
          ∧ match_name m = "quantity"
          ∧ (6 / 10 <= match_confidence m)%Q)
  ∧ findBestMatch edit_similarity DEFAULT_MIN_CONFIDENCE "Quality" qty_rules = None
  ∧ best (candidates edit_similarity "Quality" qty_rules)
    = Some (mkMatch "quantity" (3 # 7))
  ∧ findBestMatch edit_similarity DEFAULT_MIN_CONFIDENCE "QTY " (fields boqTemplate)
    = Some (mkMatch "quantity" 1)
  ∧ findBestMatch edit_similarity DEFAULT_MIN_CONFIDENCE "Quality"
      (fields boqTemplate) = None
  ∧ (∀ sheet (w : W),
       values (findHeaderRow sheet) = ["QTY "; "Quality"] ->
       ∃ mapping,
         analyze sheet boqTemplate w = (Resolved mapping, w, [])
         ∧ map templateField (columnMappings mapping) = [Some "quantity"; None]
         ∧ map confidence (columnMappings mapping) = [1%Q; 0%Q]).
Proof.
  split.
  { intros similarity minConfidence header fs. split; [|split].
    - intros f Hf. apply findBestMatch_exact. exact Hf.
    - intros Hnone Hrange m Hm.
      destruct (findBestMatch_fuzzy _ _ _ _ _ Hnone Hm) as (Hin & Hmin & Hmax).
      destruct (candidates_not_exact _ _ _ _ Hnone Hin) as (alias & Hne & Heq).
      destruct (Hrange _ _ Hne) as [H0 H1]. rewrite <- Heq in H0, H1.
      split; [exact Hin|]. split; [exact Hmin|]. split; [exact H0|].
      split; [exact H1 | exact Hmax].
    - intros Hnone. apply findBestMatch_rejects. exact Hnone. }
  split; [reflexivity|].
  split; [apply edit_similarity_range|].
  split.
  { exists (mkMatch "quantity" 1). split; [vm_compute; reflexivity|].
    split; [reflexivity|]. unfold Qle. simpl. lia. }
  split; [vm_compute; reflexivity|].
  split; [vm_compute; reflexivity|].
  split; [exact boq_qty_header|].
  split; [exact boq_quality_header|].
  intros sheet w Hvalues.
  exists (ExcelFacts.sheet_mapping_of sheet_name findHeaderRow identifyDataRange
            inferDataType edit_similarity DEFAULT_MIN_CONFIDENCE sheet boqTemplate).
  split; [apply ExcelFacts.analyzeSheet_pure|].
  unfold ExcelFacts.sheet_mapping_of. cbn [columnMappings]. rewrite Hvalues.
  cbn [imap map]. unfold ExcelFacts.column_of. cbn [templateField confidence].
  unfold compose. rewrite boq_qty_header, boq_quality_header. split; reflexivity.
Qed.
End Sheets.
End MatchingClaims.


(* ===================================================================== *)
(** ** Batches: reported errors, rejections and retries *)
(* ===================================================================== *)

(** A destination for the batch processor: every helper resolves at once
    except [processBatch], which comes in three behaviours. *)
Module BatchScenario.
Import Batch.

Abbreviation World := Scenario.World.

Definition stored (w : World) (rs : list JsObject) : World :=
  Scenario.mkWorld (Scenario.destination w ++ rs) (S (Scenario.batch_calls w)).

Definition attempted (w : World) : World :=
  Scenario.mkWorld (Scenario.destination w) (S (Scenario.batch_calls w)).

(** The source: [getDataBatch] reads a slice of a fixed record list. *)
Definition getDataBatch (source : list JsObject) (_ : MigrationJobConfig)
    (offset batchSize : Z) : Async World (list JsObject) :=
  λ w, (Resolved (take (Z.to_nat batchSize) (drop (Z.to_nat offset) source)), w).

Definition is_bad (r : JsObject) : bool :=
  String.eqb (Scenario.key_of_code r) "BAD".

Definition nonpositive (r : JsObject) : bool :=
  match r !! "quantity" with
  | Some (JNum n) => num_le_zero n
  | _ => true
  end.

(** A permanent error: a batch holding the record "BAD" violates a
    constraint, every time. *)
Definition processBatch_permanent (batch : list JsObject) (_ : MigrationJobConfig)
  : Async World BatchResult :=
  λ w, if existsb is_bad batch
       then (Rejected (mkError "constraint violation" []), attempted w)
       else (Resolved (mkBatchResult (Z.of_nat (length batch)) []), stored w batch).

(** A transient error: the first call times out, every later call succeeds. *)
Definition processBatch_transient (batch : list JsObject) (_ : MigrationJobConfig)
  : Async World BatchResult :=
  λ w, match Scenario.batch_calls w with
       | O => (Rejected (mkError "timeout" []), attempted w)
       | S _ => (Resolved (mkBatchResult (Z.of_nat (length batch)) []), stored w batch)
       end.

Definition record_error (r : JsObject) : Issue :=
  mkIssue SevError "Quantity must be positive" (Some r) (Some "quantity") None.

(** Record-level errors: the records with a quantity that is not positive
    are reported in [errors], the others are stored. *)
Definition processBatch_reporting (batch : list JsObject) (_ : MigrationJobConfig)
  : Async World BatchResult :=
  λ w, let bad := List.filter nonpositive batch in
       let good := List.filter (λ r, negb (nonpositive r)) batch in
       (Resolved (mkBatchResult (Z.of_nat (length good)) (map record_error bad)),
        stored w good).

Definition resolves {A} (_ : A) : Async World unit := λ w, (Resolved tt, w).

Definition job : JobData unit :=
  mkJobData "job-1" (mkConfig "boq" None None (Some 1%Z) (Some 3%Z) None) tt.

Definition run_job
    (processBatch : list JsObject -> MigrationJobConfig -> Async World BatchResult)
    (source : list JsObject) (fuel : nat)
  : Outcome (option unit) * World * list (Call (Date := unit)) :=
  processMigrationJob (λ _ _ d, resolves d) (getDataBatch source) processBatch
    (λ _ p, resolves p) resolves fuel job Scenario.empty_world.

Definition with_bad_record : list JsObject :=
  [Scenario.cost_item "A1" 5; Scenario.cost_item "BAD" 1; Scenario.cost_item "C3" 3].
End BatchScenario.

Module BatchClaims.
Import Batch BatchFacts.

Section Jobs.
Context {W Date Queue : Type}.
Variable generateId : W -> string * W.
Variable getOrCreateQueue : string -> W -> Queue * W.
Variable now : W -> Date.
Variable queue_add : Queue -> string -> JobData Date -> JobOptions -> Async W unit.
Variable updateJobStatus : string -> string -> StatusDetail -> Async W unit.
Variable getDataBatch : MigrationJobConfig -> Z -> Z -> Async W (list JsObject).
Variable processBatch : list JsObject -> MigrationJobConfig -> Async W BatchResult.
Variable updateJobProgress : string -> Progress -> Async W unit.
Variable sleep : Z -> Async W unit.

Local Abbreviation process :=
  (processMigrationJob updateJobStatus getDataBatch processBatch
     updateJobProgress sleep).
Local Abbreviation enqueue :=
  (queueMigrationJob generateId getOrCreateQueue now queue_add).


End Jobs.

(** What going on after a failed batch would mean for a trace: a batch that
    comes later in the source is processed, and the job is not marked
    'failed'. *)
Definition job_survives {Date} (t : list (Call (Date := Date)))
    (later : list JsObject) : Prop :=
  later ∈ tried t ∧ ∀ d, ("failed", d) ∉ status_writes t.

(** What a retry would mean for the trace of a one-batch source. *)
Definition batch_was_retried {Date} (t : list (Call (Date := Date))) : Prop :=
  (2 <= length (tried t))%nat.



Lemma slice_past_the_end (source : list JsObject) (off : Z) n :
  (Z.of_nat (length source) <= off)%Z ->
  take n (drop (Z.to_nat off) source) = [].
Proof.
  intros Hge. rewrite drop_ge by lia. apply take_nil.
Qed.


(** What that job reports: two of the three records processed, the status
    'completed', and the rejected record in the progress report. *)
Example reported_errors_are_partial_success :
  let run := BatchScenario.run_job BatchScenario.processBatch_reporting
               Scenario.three_items 4 in
  status_writes (trace_of run)
  = [("processing", NoDetail); ("completed", TotalProcessed 2)]
  ∧ map Scenario.key_of_code (Scenario.destination (world_of run)) = ["A1"; "C3"]
  ∧ length (tried (trace_of run)) = 3.
Proof. vm_compute. repeat split. Qed.
End BatchClaims.


(* ===================================================================== *)
(** ** The reconciliation report *)
(* ===================================================================== *)

Module ReconciliationClaims.
Import Reconciliation.

Section Reports.
Context {W DataSet Rec Discrepancy Totals Variance Actions : Type}.
Variable recordCount : DataSet -> Z.
Variable extractSourceData : string -> Async W DataSet.
Variable extractTargetData : string -> Async W DataSet.
Variable performReconciliation :
  DataSet -> DataSet -> Async W (Result Rec Discrepancy).
Variable calculateFinancialTotals : DataSet -> Totals.
Variable calculateVariance : DataSet -> DataSet -> Variance.
Variable generateRecommendations : Result Rec Discrepancy -> Actions.

Local Abbreviation Ev := (Call (DataSet := DataSet) (Rec := Rec)
                                (Discrepancy := Discrepancy)).
Local Abbreviation reconcile :=
  (reconcileMigratedData recordCount extractSourceData extractTargetData
     performReconciliation calculateFinancialTotals calculateVariance
     generateRecommendations).
Local Abbreviation report :=
  (report_of recordCount calculateFinancialTotals calculateVariance
     generateRecommendations).

(** The shapes a reconciliation run can take. *)
Inductive run_shape (sourceId targetId : string)
  : Outcome (ReconciliationReport Discrepancy Totals Variance Actions)
    -> list Ev -> Prop :=
  | source_rejects e :
      run_shape sourceId targetId (Rejected e)
        [ExtractSourceData sourceId (Rejected e)]
  | target_rejects sd e :
      run_shape sourceId targetId (Rejected e)
        [ExtractSourceData sourceId (Resolved sd);
         ExtractTargetData targetId (Rejected e)]
  | reconciliation_rejects sd td e :
      run_shape sourceId targetId (Rejected e)
        [ExtractSourceData sourceId (Resolved sd);
         ExtractTargetData targetId (Resolved td);
         PerformReconciliation sd td (Rejected e)]
  | reconciled sd td rc :
      run_shape sourceId targetId (Resolved (report sd td rc))
        [ExtractSourceData sourceId (Resolved sd);
         ExtractTargetData targetId (Resolved td);
         PerformReconciliation sd td (Resolved rc)].

Lemma reconcileMigratedData_run_shape sourceId targetId w :
  run_shape sourceId targetId
    (outcome_of (reconcile sourceId targetId w))
    (trace_of (reconcile sourceId targetId w)).
Proof.
  unfold reconcileMigratedData.
  destruct (extractSourceData sourceId w) as [[sd|e] w1] eqn:H1.
  2:{ erewrite bind_call_rejected by exact H1. apply source_rejects. }
  erewrite bind_call_resolved by exact H1. run_simpl.
  destruct (extractTargetData targetId w1) as [[td|e] w2] eqn:H2.
  2:{ erewrite bind_call_rejected by exact H2. apply target_rejects. }
  erewrite bind_call_resolved by exact H2. run_simpl.
  destruct (performReconciliation sd td w2) as [[rc|e] w3] eqn:H3.
  2:{ erewrite bind_call_rejected by exact H3. apply reconciliation_rejects. }
  erewrite bind_call_resolved by exact H3. run_simpl.
  apply reconciled.
Qed.

(** C3, as the code has it. A reconciliation run is given the two ids and
    nothing else.  It extracts the source data for the one id and the
    target data for the other and hands the two to [performReconciliation];
    when these three calls resolve, the report is the object [report_of]
    builds from what they resolved to, and nothing more: the source and
    target record counts, the numbers of matched, unmatched-source and
    unmatched-target records, the discrepancies, the financial totals
    computed by one function from the source data alone and from the target
    data alone, the variance computed from both, and the recommended
    actions.  A run in which a helper rejects produces no report. *)
Theorem reconciliation_report_holds_counts_totals_and_variance
    (sourceId targetId : string) (w : W) :
  let run := reconcile sourceId targetId w in
  (∀ r, outcome_of run = Resolved r ->
     ∃ sd td rc,
       trace_of run
       = [ExtractSourceData sourceId (Resolved sd);
          ExtractTargetData targetId (Resolved td);
          PerformReconciliation sd td (Resolved rc)]
       ∧ r = report sd td rc
       ∧ sourceRecordCount r = recordCount sd
       ∧ targetRecordCount r = recordCount td
       ∧ matchedRecords r = length (matches rc)
       ∧ report_unmatchedSource r = length (unmatchedSource rc)
       ∧ report_unmatchedTarget r = length (unmatchedTarget rc)
       ∧ report_discrepancies r = discrepancies rc
       ∧ source (financialTotals r) = calculateFinancialTotals sd
       ∧ target (financialTotals r) = calculateFinancialTotals td
       ∧ variance (financialTotals r) = calculateVariance sd td
       ∧ recommendedActions r = generateRecommendations rc)
  ∧ (∀ e, outcome_of run = Rejected e ->
       ∃ t0, trace_of run = t0 ++ [ExtractSourceData sourceId (Rejected e)]
             ∨ trace_of run = t0 ++ [ExtractTargetData targetId (Rejected e)]
             ∨ ∃ sd td, trace_of run
                        = t0 ++ [PerformReconciliation sd td (Rejected e)]).
Proof.
  intros run.
  pose proof (reconcileMigratedData_run_shape sourceId targetId w) as Hs.
  fold run in Hs. clearbody run. destruct run as [[o wf] t].
  unfold outcome_of, trace_of in *. cbn [fst snd] in *.
  destruct Hs as [e|sd e|sd td e|sd td rc]; split;
    try (intros r Hr; discriminate Hr); try (intros e' He; discriminate He).
  - intros e' He. injection He as <-. exists []. left. reflexivity.
  - intros e' He. injection He as <-. eexists [_]. right. left. reflexivity.
  - intros e' He. injection He as <-. eexists [_; _]. right. right.
    exists sd, td. reflexivity.
  - intros r Hr. injection Hr as <-. exists sd, td, rc. repeat split.
Qed.
End Reports.

(** A concrete engine: records are external identifiers with an amount,
    totals are sums, the variance is target minus source. *)
Definition total (data : list (string * Z)) : Z :=
  foldr (λ r acc, (r.2 + acc)%Z) 0%Z data.

Definition ledger_report (sd td : list (string * Z)) (rc : Result string string)
  : ReconciliationReport string Z Z (list string) :=
  report_of (λ d, Z.of_nat (length d)) total (λ s t, (total t - total s)%Z)
    (λ rc, if bool_decide (discrepancies rc = []) then [] else ["review"])
    sd td rc.

(** The three fields of a report that speak of the matched and unmatched
    records. *)
Definition record_fields {Discrepancy Totals Variance Actions}
    (r : ReconciliationReport Discrepancy Totals Variance Actions)
  : nat * nat * nat :=
  (matchedRecords r, report_unmatchedSource r, report_unmatchedTarget r).

(** These fields hold numbers, not record sets: two reconciliations that
    match different records leave the same three fields, whatever the
    helpers of the engine are. *)
Lemma report_has_counts_not_record_sets :
  let rc1 := mkReconciliation (Discrepancy := string) ["A1"] ["B2"] [] [] in
  let rc2 := mkReconciliation (Discrepancy := string) ["B2"] ["A1"] [] [] in
  matches rc1 ≠ matches rc2
  ∧ unmatchedSource rc1 ≠ unmatchedSource rc2
  ∧ ∀ (DataSet Totals Variance Actions : Type) (recordCount : DataSet -> Z)
      (calculateFinancialTotals : DataSet -> Totals)
      (calculateVariance : DataSet -> DataSet -> Variance)
      (generateRecommendations : Result string string -> Actions)
      (sd td : DataSet),
      record_fields (report_of recordCount calculateFinancialTotals
                       calculateVariance generateRecommendations sd td rc1)
      = (1, 1, 0)
      ∧ record_fields (report_of recordCount calculateFinancialTotals
                         calculateVariance generateRecommendations sd td rc2)
        = (1, 1, 0).
Proof.
  intros rc1 rc2. split; [discriminate|]. split; [discriminate|].
  intros. split; reflexivity.
Qed.
End ReconciliationClaims.


(* ===================================================================== *)
(** ** The phase sequence of a job *)
(* ===================================================================== *)

Module PhaseClaims.
Import Monitor.

(** The happy path: the six phases, then [Completed]. *)
Definition full_run : list State := pipeline ++ [Completed].

Definition rank (s : State) : nat :=
  match s with
  | Discovery => 0 | Extraction => 1 | Transformation => 2 | Validation => 3
  | Import => 4 | Verification => 5 | Completed => 6
  | Failed | Canceled => 7
  end.

(** The states of the happy path, the two deviations apart. *)
Definition regular (s : State) : bool :=
  match s with Failed | Canceled => false | _ => true end.

Definition deviation (s : State) : Prop := s = Failed ∨ s = Canceled.

Lemma terminal_has_no_transition s tr : terminal s = true -> transition s tr = None.
Proof. intros H. unfold transition. rewrite H. reflexivity. Qed.

(** A terminal job is immutable: its history ends there. *)
Lemma history_of_terminal s h : terminal s = true -> history s h -> h = [s].
Proof.
  intros Hterm Hh. destruct Hh as [s|s tr s' h Htr Hh]; [reflexivity|].
  rewrite terminal_has_no_transition in Htr by exact Hterm. discriminate Htr.
Qed.

(** A transition enters the successor phase on completion, or one of the
    two deviations. *)
Lemma transition_cases s tr s' :
  transition s tr = Some s' ->
  terminal s = false
  ∧ ((tr = PhaseDone ∧ successor s = Some s')
     ∨ (tr = Unrecoverable ∧ s' = Failed)
     ∨ (tr = Cancel ∧ s' = Canceled)).
Proof.
  unfold transition. destruct (terminal s) eqn:Hterm; [discriminate|].
  intros H. split; [reflexivity|].
  destruct tr; [left | right; left | right; right];
    split; congruence.
Qed.

Lemma successor_rank s s' :
  successor s = Some s' ->
  regular s = true ∧ regular s' = true
  ∧ drop (rank s) full_run = s :: drop (rank s') full_run
  ∧ drop (rank s) pipeline = s :: drop (rank s') pipeline.
Proof.
  destruct s; simpl; intros H; try discriminate H; injection H as <-;
    repeat split.
Qed.

Lemma nonterminal_rank s :
  terminal s = false ->
  ∃ l, drop (rank s) pipeline = s :: l.
Proof. destruct s; simpl; intros H; try discriminate H; eexists; reflexivity. Qed.

Lemma regular_rank s :
  regular s = true -> ∃ l, drop (rank s) full_run = s :: l.
Proof. destruct s; simpl; intros H; try discriminate H; eexists; reflexivity. Qed.

(** Every history from a regular state follows the happy path, and leaves
    it at most once, at its end, for [Failed] or [Canceled]. *)
Lemma history_follows_pipeline s h :
  history s h -> regular s = true ->
  h `prefix_of` drop (rank s) full_run
  ∨ ∃ p d, h = p ++ [d] ∧ deviation d ∧ p ≠ []
           ∧ p `prefix_of` drop (rank s) pipeline.
Proof.
  induction 1 as [s|s tr s' h Htr Hh IH]; intros Hreg.
  - left. destruct (regular_rank s Hreg) as [l ->].
    exists l. reflexivity.
  - destruct (transition_cases _ _ _ Htr) as [Hterm [[-> Hsucc]|[[-> ->]|[-> ->]]]].
    + destruct (successor_rank _ _ Hsucc) as (_ & Hreg' & Hfull & Hpipe).
      rewrite Hfull, Hpipe.
      destruct (IH Hreg') as [Hpre|(p & d & -> & Hd & Hne & Hpre)].
      * left. apply prefix_cons, Hpre.
      * right. exists (s :: p), d. repeat split; [exact Hd|discriminate|].
        apply prefix_cons, Hpre.
    + right. apply history_of_terminal in Hh as ->; [|reflexivity].
      destruct (nonterminal_rank s Hterm) as [l ->].
      exists [s], Failed. repeat split; [left; reflexivity|discriminate|].
      exists l. reflexivity.
    + right. apply history_of_terminal in Hh as ->; [|reflexivity].
      destruct (nonterminal_rank s Hterm) as [l ->].
      exists [s], Canceled. repeat split; [right; reflexivity|discriminate|].
      exists l. reflexivity.
Qed.

(** A history that ends in [Completed] went through every remaining phase,
    in order. *)
Lemma history_to_completed s h :
  history s h -> regular s = true -> last h = Some Completed ->
  h = drop (rank s) full_run.
Proof.
  induction 1 as [s|s tr s' h Htr Hh IH]; intros Hreg Hlast.
  - simpl in Hlast. injection Hlast as ->. reflexivity.
  - assert (Hlast' : last h = Some Completed).
    { destruct Hh; simpl in Hlast; exact Hlast. }
    destruct (transition_cases _ _ _ Htr) as [Hterm [[-> Hsucc]|[[-> ->]|[-> ->]]]].
    + destruct (successor_rank _ _ Hsucc) as (_ & Hreg' & Hfull & _).
      rewrite Hfull, (IH Hreg' Hlast'). reflexivity.
    + apply history_of_terminal in Hh as ->; [|reflexivity]. discriminate Hlast'.
    + apply history_of_terminal in Hh as ->; [|reflexivity]. discriminate Hlast'.
Qed.

Lemma happy_path_is_a_history : history Discovery full_run.
Proof.
  unfold full_run, pipeline. simpl.
  repeat (eapply (history_step _ PhaseDone); [reflexivity|]).
  apply history_start.
Qed.

(** C8. The tracker is built with the six phases discovery, extraction,
    transformation, validation, import, verification, in this order.  In the
    phase state machine a job that completes went through exactly these
    phases in this order and then [Completed]; every other history is a
    beginning of that sequence, possibly ended by [Failed] or [Canceled];
    both are reachable from every non-terminal state and from no terminal
    one; and a phase is entered only by the completion of its
    predecessor. *)
Theorem phase_sequence_is_fixed :
  (∀ (Result : Type) (migrationId : string),
     tracker_phases (createProgressTracker (Result := Result) migrationId) = phases)
  ∧ map phase_name pipeline = map Some phases
  ∧ history Discovery (pipeline ++ [Completed])
  ∧ (∀ h, history Discovery h -> last h = Some Completed ->
          h = pipeline ++ [Completed])
  ∧ (∀ h, history Discovery h ->
          h `prefix_of` pipeline ++ [Completed]
          ∨ ∃ p d, h = p ++ [d] ∧ (d = Failed ∨ d = Canceled) ∧ p ≠ []
                   ∧ p `prefix_of` pipeline)
  ∧ (∀ s, terminal s = false ->
          transition s Unrecoverable = Some Failed
          ∧ transition s Cancel = Some Canceled
          ∧ transition s PhaseDone = successor s
          ∧ is_Some (successor s))
  ∧ (∀ s tr, terminal s = true -> transition s tr = None)
  ∧ (∀ s tr s', transition s tr = Some s' ->
                s' = Failed ∨ s' = Canceled
                ∨ (tr = PhaseDone ∧ successor s = Some s')).
Proof.
  split; [reflexivity|]. split; [reflexivity|].
  split; [exact happy_path_is_a_history|].
  split.
  { intros h Hh Hlast. exact (history_to_completed _ _ Hh eq_refl Hlast). }
  split.
  { intros h Hh. exact (history_follows_pipeline _ _ Hh eq_refl). }
  split.
  { intros s Hterm. unfold transition. rewrite Hterm.
    repeat split. destruct s; try discriminate Hterm; eexists; reflexivity. }
  split; [exact terminal_has_no_transition|].
  intros s tr s' Htr.
  destruct (transition_cases _ _ _ Htr) as [_ [[-> Hs]|[[_ ->]|[_ ->]]]]; auto.
Qed.
End PhaseClaims.



(* ===================================================================== *)
(** ** The statements above, at the concrete installation *)
(* ===================================================================== *)

Module Runs.
Import Scenario.


(** The schema layer reports the negative quantity of the three-record
    source, and the business rules are validated all the same. *)
Lemma business_rules_follow_schema_errors :
  ∃ o, Validator.ValidateBusinessRules o
         ∈ trace_of (validate (Validator.mkData three_items) empty_world).
Proof.
  destruct (LayerClaims.layers_run_in_order_and_never_short_circuit
              businessRules validateSchema validateBusinessRules
              validateCrossReferences checkDataCompleteness checkDataConsistency
              checkValueRanges checkReferentialIntegrity key_of_code
              merge_statistics (Validator.mkData three_items)
              Schema.createCostItemSchema empty_world)
    as (_ & Hnext & _).
  assert (Hfirst : ∃ sr,
             trace_of (validate (Validator.mkData three_items) empty_world) !! 0
             = Some (Validator.ValidateSchema (Resolved sr)))
    by (vm_compute; eexists; reflexivity).
  destruct Hfirst as [sr Hsr].
  exact (Hnext sr (list_elem_of_lookup_2 _ _ _ Hsr)).
Defined.

(** The negative quantity of the second record fails the cost-item
    schema. *)
Lemma negative_quantity_fails_the_schema :
  QuantityClaims.quantity_issue
    ∈ Schema.issues_of cuid_pattern Schema.createCostItemSchema
        (cost_item "B2" (-2))
  ∧ Schema.safeParse_success cuid_pattern Schema.createCostItemSchema
      (cost_item "B2" (-2)) = false.
Proof.
  destruct (QuantityClaims.nonpositive_quantity_fails_and_import_is_all_or_nothing
              worksheets sheet_name findHeaderRow identifyDataRange
              calculateMappingConfidence generateMappingSuggestions
              generateImportSummary inferDataType
              Excel.edit_similarity Excel.DEFAULT_MIN_CONFIDENCE
              loadExcelFile getTemplate (extractDataFromExcel three_items)
              validateExtractedData importData cuid_pattern)
    as (Hfails & _).
  destruct (Hfails (cost_item "B2" (-2)) (num_of_Z (-2)))
    as (Hissue & _ & _ & Hfail).
  - vm_compute. reflexivity.
  - reflexivity.
  - split; [exact Hissue | exact Hfail].
Defined.

(** Of three records with the keys A1, B2, A1 one is a duplicate: a third
    of the records, which binary64 arithmetic makes the number that is
    printed as 33.33333333333333. *)
Lemma one_duplicate_of_three :
  ∃ check,
    Validator.checkForDuplicates key_of_code
      (Validator.mkData [cost_item "A1" 5; cost_item "B2" 2; cost_item "A1" 3])
      empty_world
    = (Resolved check, empty_world, [])
    ∧ length (Validator.check_warnings check) = 1
    ∧ Validator.check_statistics check !! "duplicatePercentage"
      = Some 0x1.0aaaaaaaaaaaap+5%float.
Proof.
  destruct (DuplicateFacts.checkForDuplicates_flags_all_but_first key_of_code
              empty_world
              (Validator.mkData
                 [cost_item "A1" 5; cost_item "B2" 2; cost_item "A1" 3]))
    as (check & Hrun & _ & _ & _ & Hlen & _ & _ & _ & _ & _ & Hpct & _).
  exists check. split; [exact Hrun|]. split.
  - rewrite Hlen. vm_compute. reflexivity.
  - rewrite Hpct. vm_compute. reflexivity.
Defined.




(** The header "Qty." has no exact alias among the quantity rules and is
    matched by its score, which lies between the default minimum and 1. *)
Lemma scored_header_is_accepted_above_the_minimum :
  ∃ m, Excel.findBestMatch Excel.edit_similarity Excel.DEFAULT_MIN_CONFIDENCE
         "Qty." MatchingClaims.qty_rules = Some m
       ∧ (Excel.DEFAULT_MIN_CONFIDENCE < Excel.match_confidence m)%Q
       ∧ (Excel.match_confidence m < 1)%Q.
Proof.
  destruct (MatchingClaims.header_matching_rule
              (W := World) (Workbook := unit) (Extracted := list JsObject)
              sheet_name findHeaderRow identifyDataRange inferDataType)
    as (Hrule & _ & Hrange & _).
  destruct (Hrule Excel.edit_similarity Excel.DEFAULT_MIN_CONFIDENCE
              "Qty." MatchingClaims.qty_rules) as (_ & Hscored & _).
  assert (Hfound : ∃ m,
             Excel.findBestMatch Excel.edit_similarity
               Excel.DEFAULT_MIN_CONFIDENCE "Qty." MatchingClaims.qty_rules
             = Some m)
    by (vm_compute; eexists; reflexivity).
  destruct Hfound as [m Hm]. exists m. split; [exact Hm|].
  destruct (Hscored ltac:(vm_compute; reflexivity) Hrange m Hm)
    as (_ & Hmin & _ & Hlt & _).
  split; assumption.
Defined.

(** *** A ledger of two records reconciled against a target of one *)

Definition ledger_source (_ : string) : Async unit (list (string * Z)) :=
  λ w, (Resolved [("A1", 10%Z); ("B2", 20%Z)], w).
Definition ledger_target (_ : string) : Async unit (list (string * Z)) :=
  λ w, (Resolved [("A1", 10%Z)], w).
Definition performReconciliation (sd td : list (string * Z))
  : Async unit (Reconciliation.Result string string) :=
  λ w, (Resolved (Reconciliation.mkReconciliation ["A1"] ["B2"] [] ["B2 is missing"]),
        w).

(** Its report counts one match and one unmatched source record, and holds
    the variance of the two totals. *)
Lemma ledger_report_holds_counts_and_variance :
  ∃ r,
    outcome_of
      (Reconciliation.reconcileMigratedData
         (λ d, Z.of_nat (length d)) ledger_source ledger_target
         performReconciliation ReconciliationClaims.total
         (λ s t, (ReconciliationClaims.total t - ReconciliationClaims.total s)%Z)
         (λ rc, Reconciliation.discrepancies rc) "legacy" "mvlbim" tt)
    = Resolved r
    ∧ Reconciliation.matchedRecords r = 1
    ∧ Reconciliation.report_unmatchedSource r = 1
    ∧ Reconciliation.variance (Reconciliation.financialTotals r) = (-20)%Z.
Proof.
  destruct (ReconciliationClaims.reconciliation_report_holds_counts_totals_and_variance
              (λ d, Z.of_nat (length d)) ledger_source ledger_target
              performReconciliation ReconciliationClaims.total
              (λ s t, (ReconciliationClaims.total t - ReconciliationClaims.total s)%Z)
              (λ rc, Reconciliation.discrepancies rc) "legacy" "mvlbim" tt)
    as [Hreport _].
  eexists. split; [reflexivity|].
  destruct (Hreport _ eq_refl)
    as (sd & td & rc & Ht & _ & _ & _ & Hm & Hus & _ & _ & _ & _ & Hv & _).
  vm_compute in Ht. simplify_eq.
  split; [exact Hm | split; [exact Hus | exact Hv]].
Defined.

(** A job canceled during extraction: its history is the beginning of the
    pipeline, ended by [Canceled]. *)
Lemma canceled_job_follows_the_pipeline :
  [Monitor.Discovery; Monitor.Extraction; Monitor.Canceled]
    `prefix_of` Monitor.pipeline ++ [Monitor.Completed]
  ∨ ∃ p d, [Monitor.Discovery; Monitor.Extraction; Monitor.Canceled] = p ++ [d]
           ∧ (d = Monitor.Failed ∨ d = Monitor.Canceled) ∧ p ≠ []
           ∧ p `prefix_of` Monitor.pipeline.
Proof.
  destruct PhaseClaims.phase_sequence_is_fixed as (_ & _ & _ & _ & Hprefix & _).
  apply Hprefix.
  apply (Monitor.history_step _ Monitor.PhaseDone Monitor.Extraction);
    [reflexivity|].
  apply (Monitor.history_step _ Monitor.Cancel Monitor.Canceled);
    [reflexivity|].
  apply Monitor.history_start.
Defined.
End Runs.

(* ===================================================================== *)
(** ** RIBCandyMigrator: extraction *)
(* ===================================================================== *)

Module TransformProperties.
Import RIBCandy.

Section Runs.
Context {W Log Boq : Type}.
Variable ribCandyDb_query : Query -> string -> Async W (list JsObject).

Local Abbreviation extract :=
  (extractBOQFromRIBCandy (Log := Log) (Boq := Boq) ribCandyDb_query).

(** X1. [extractBOQFromRIBCandy] always issues its three queries, each
    with the project id, in the order header, items, resource breakdown:
    also when one of them fails.  It resolves exactly when all three do,
    to the first header row ([undefined] when there is none) and the item
    and resource rows as the queries returned them; it rejects with the
    error of a rejected query. *)
Theorem extractBOQFromRIBCandy_issues_three_queries (pid : string) (w : W) :
  ∃ o1 o2 o3,
    trace_of (extract pid w)
    = [DbQuery boqHeaderQuery pid o1; DbQuery boqItemsQuery pid o2;
       DbQuery resourceBreakdownQuery pid o3]
    ∧ (∀ h i r,
         o1 = Resolved h -> o2 = Resolved i -> o3 = Resolved r ->
         outcome_of (extract pid w) = Resolved (mkSourceBoq (head h) i r))
    ∧ (∀ sb, outcome_of (extract pid w) = Resolved sb ->
             is_resolved o1 && is_resolved o2 && is_resolved o3 = true)
    ∧ (∀ e, outcome_of (extract pid w) = Rejected e ->
            Rejected e ∈ [o1; o2; o3]).
Proof.
  unfold extractBOQFromRIBCandy, promise_all, start_all, bind, start, call, ret.
  destruct (ribCandyDb_query boqHeaderQuery pid w) as [o1 w1].
  destruct (ribCandyDb_query boqItemsQuery pid w1) as [o2 w2].
  destruct (ribCandyDb_query resourceBreakdownQuery pid w2) as [o3 w3].
  exists o1, o2, o3. cbn -[collect].
  destruct o1 as [h|e1], o2 as [i|e2], o3 as [r|e3]; cbn;
    (split; [reflexivity|]); (split; [|split]);
    try (intros ? ? ? ? ? ?; congruence);
    try (intros ? [= <-]; in_list);
    try (intros ? ?; congruence);
    try (intros ? ? ? [= <-] [= <-] [= <-]; reflexivity);
    try reflexivity.
Qed.
End Runs.
End TransformProperties.

(* ===================================================================== *)
(** ** ExcelMigrationEngine: the order of the calls, failures, sheets *)
(* ===================================================================== *)

Module ExcelProperties.
Import Excel ExcelFacts.

(** The awaited steps of [migrateExcelWorkbook], in the order of its body. *)
Inductive Step : Type := Load | Template | Extract | Validate | ImportStep.

Definition step_order : list Step := [Load; Template; Extract; Validate; ImportStep].

Section Runs.
Context {W Workbook Sheet DataType Extracted Suggestions Summary : Type}.
Variable worksheets : Workbook -> list Sheet.
Variable sheet_name : Sheet -> string.
Variable findHeaderRow : Sheet -> HeaderRow.
Variable identifyDataRange : Sheet -> HeaderRow -> DataRange.
Variable calculateMappingConfidence : list (SheetMapping DataType) -> Q.
Variable generateMappingSuggestions : Workbook -> ExcelTemplate -> Suggestions.
Variable generateImportSummary : ImportResult -> Summary.
Variable inferDataType : Sheet -> nat -> DataRange -> DataType.
Variable similarity : list ascii -> list ascii -> Q.
Variable minConfidence : Q.
Variable loadExcelFile : string -> Async W Workbook.
Variable getTemplate : string -> Async W ExcelTemplate.
Variable extractDataFromExcel : Workbook -> DataMapping DataType -> Async W Extracted.
Variable validateExtractedData : Extracted -> ExcelTemplate -> Async W Validated.
Variable importData : Extracted -> string -> Async W ImportResult.

Local Abbreviation Ev := (Call (Workbook := Workbook) (Extracted := Extracted)).
Local Abbreviation analyze :=
  (analyzeSheet (W := W) (Workbook := Workbook) (Extracted := Extracted)
     sheet_name findHeaderRow identifyDataRange inferDataType
     similarity minConfidence).
Local Abbreviation detect :=
  (detectDataStructure (W := W) (Extracted := Extracted)
     worksheets sheet_name findHeaderRow identifyDataRange
     calculateMappingConfidence inferDataType similarity minConfidence).
Local Abbreviation migrate :=
  (migrateExcelWorkbook worksheets sheet_name findHeaderRow identifyDataRange
     calculateMappingConfidence generateMappingSuggestions generateImportSummary
     inferDataType similarity minConfidence
     loadExcelFile getTemplate extractDataFromExcel validateExtractedData
     importData).

Definition step_of (c : Ev) : Step :=
  match c with
  | LoadExcelFile _ _ => Load
  | GetTemplate _ _ => Template
  | ExtractDataFromExcel _ => Extract
  | ValidateExtractedData _ _ => Validate
  | ImportData _ _ _ => ImportStep
  end.

(** The error a logged call was rejected with. *)
Definition call_error (c : Ev) : option JsError :=
  match c with
  | LoadExcelFile _ o => outcome_error o
  | GetTemplate _ o => outcome_error o
  | ExtractDataFromExcel o => outcome_error o
  | ValidateExtractedData _ o => outcome_error o
  | ImportData _ _ o => outcome_error o
  end.


(** X7. A migration that answers status 'success' loaded the workbook,
    fetched the template, extracted the data, validated that data as valid
    and imported it, once and whole, for the template type it was called
    with.  The result counts what [importData] reported and passes the
    warnings of the validation on unchanged. *)
Theorem successful_import_passes_the_warnings_on
    (filePath templateType : string) (w : W) n ws s :
  outcome_of (migrate filePath templateType w) = Resolved (StatusSuccess n ws s) ->
  ∃ wb tpl ext v res,
    trace_of (migrate filePath templateType w)
    = [LoadExcelFile filePath (Resolved wb);
       GetTemplate templateType (Resolved tpl);
       ExtractDataFromExcel (Resolved ext);
       ValidateExtractedData ext (Resolved v);
       ImportData ext templateType (Resolved res)]
    ∧ isValid v = true
    ∧ n = count res
    ∧ ws = warnings v
    ∧ s = generateImportSummary res.
Proof.
  intros Ho.
  pose proof (migrateExcelWorkbook_run_shape worksheets sheet_name findHeaderRow
                identifyDataRange calculateMappingConfidence
                generateMappingSuggestions generateImportSummary inferDataType
                similarity minConfidence loadExcelFile getTemplate
                extractDataFromExcel validateExtractedData importData
                filePath templateType w) as Hs.
  rewrite Ho in Hs. remember (Resolved (StatusSuccess n ws s)) as o eqn:Heq.
  destruct Hs as [| | | | | |wb tpl ext v res Hv]; try discriminate Heq.
  injection Heq as <- <- <-. exists wb, tpl, ext, v, res. repeat split. exact Hv.
Qed.

(** X8. With the header matcher modelled above, which awaits nothing,
    analysing a sheet resolves without a helper call.  The mapping has one
    column per header cell, in the order of the header row and numbered
    from 0, each with its header text and the data type inferred for that
    column over the data range; a column without a template field has
    confidence 0.  The record count is [endRow - startRow + 1]: not
    positive when the range is empty. *)
Theorem analyzeSheet_maps_every_column (sheet : Sheet) (template : ExcelTemplate)
    (w : W) :
  let hr := findHeaderRow sheet in
  let range := identifyDataRange sheet hr in
  ∃ mapping,
    analyze sheet template w = (Resolved mapping, w, [])
    ∧ sheetName mapping = sheet_name sheet
    ∧ headerRow mapping = number hr
    ∧ dataRange mapping = range
    ∧ map excelHeader (columnMappings mapping) = values hr
    ∧ map excelColumn (columnMappings mapping) = seq 0 (length (values hr))
    ∧ map column_dataType (columnMappings mapping)
      = map (λ i, inferDataType sheet i range) (seq 0 (length (values hr)))
    ∧ Forall (λ col, templateField col = None -> confidence col = 0%Q)
             (columnMappings mapping)
    ∧ recordCount mapping = (endRow range - startRow range + 1)%Z
    ∧ ((endRow range < startRow range)%Z -> (recordCount mapping <= 0)%Z).
Proof.
  intros hr range.
  exists (sheet_mapping_of sheet_name findHeaderRow identifyDataRange
            inferDataType similarity minConfidence sheet template).
  split; [apply analyzeSheet_pure|].
  unfold sheet_mapping_of. fold hr. fold range.
  cbn [sheetName headerRow dataRange columnMappings recordCount].
  split; [reflexivity|]. split; [reflexivity|]. split; [reflexivity|].
  assert (Hcols : ∀ (l : list string) k,
             map excelHeader
               (imap (λ i, column_of inferDataType similarity minConfidence
                             sheet template range (k + i)) l) = l
             ∧ map excelColumn
                 (imap (λ i, column_of inferDataType similarity minConfidence
                               sheet template range (k + i)) l)
               = seq k (length l)
             ∧ map column_dataType
                 (imap (λ i, column_of inferDataType similarity minConfidence
                               sheet template range (k + i)) l)
               = map (λ i, inferDataType sheet i range) (seq k (length l))
             ∧ Forall (λ col, templateField col = None -> confidence col = 0%Q)
                 (imap (λ i, column_of inferDataType similarity minConfidence
                               sheet template range (k + i)) l)).
  { induction l as [|h l IH]; intros k.
    - repeat split; constructor.
    - cbn [imap map length seq]. rewrite Nat.add_0_r.
      destruct (IH (S k)) as (H1 & H2 & H3 & H4).
      assert (Heq : imap ((λ i, column_of inferDataType similarity minConfidence
                                  sheet template range (k + i)) ∘ S) l
                    = imap (λ i, column_of inferDataType similarity minConfidence
                                   sheet template range (S k + i)) l).
      { apply imap_ext. intros i x _. unfold compose. f_equal. lia. }
      rewrite Heq, H1, H2, H3. repeat split. constructor; [|exact H4].
      unfold column_of. cbn [templateField confidence].
      destruct (findBestMatch _ _ _ _); [discriminate | reflexivity]. }
  destruct (Hcols (values hr) 0) as (H1 & H2 & H3 & H4).
  cbn [Nat.add] in *.
  split; [exact H1|]. split; [exact H2|]. split; [exact H3|].
  split; [exact H4|]. split; [reflexivity | lia].
Qed.

(** X9. With the header matcher modelled above, detecting the structure of
    a workbook resolves without a helper call.  The mapping holds one sheet
    mapping per worksheet, in workbook order, each the one [analyzeSheet]
    computes for that sheet, and its confidence is
    [calculateMappingConfidence] of those sheet mappings: of the empty list
    for a workbook without sheets. *)
Theorem detectDataStructure_covers_every_sheet (workbook : Workbook)
    (template : ExcelTemplate) (w : W) :
  ∃ mapping,
    detect workbook template w = (Resolved mapping, w, [])
    ∧ Forall2 (λ sheet sm, ∀ w', analyze sheet template w' = (Resolved sm, w', []))
              (worksheets workbook) (sheets mapping)
    ∧ map sheetName (sheets mapping) = map sheet_name (worksheets workbook)
    ∧ mapping_confidence mapping = calculateMappingConfidence (sheets mapping)
    ∧ (worksheets workbook = [] ->
       sheets mapping = []
       ∧ mapping_confidence mapping = calculateMappingConfidence []).
Proof.
  exists (data_mapping_of worksheets sheet_name findHeaderRow identifyDataRange
            calculateMappingConfidence inferDataType similarity minConfidence
            workbook template).
  split; [apply detectDataStructure_pure|].
  unfold data_mapping_of. cbn [sheets mapping_confidence].
  split; [|split; [|split; [reflexivity|]]].
  - apply Forall2_fmap_r, Forall_Forall2_diag, Forall_forall.
    intros sheet _ w'. apply analyzeSheet_pure.
  - rewrite <- list_fmap_compose. reflexivity.
  - intros ->. split; reflexivity.
Qed.
End Runs.

(** The migration of the two good records answers 'success'. *)
Lemma good_records_are_validated_then_imported :
  ∃ v, Excel.ValidateExtractedData Scenario.good_items (Resolved v)
         ∈ trace_of (Scenario.migrateExcelWorkbook Scenario.good_items
                       Scenario.empty_world)
       ∧ isValid v = true.
Proof.
  assert (Hok : ∃ n ws s,
             outcome_of (Scenario.migrateExcelWorkbook Scenario.good_items
                           Scenario.empty_world)
             = Resolved (StatusSuccess n ws s))
    by (vm_compute; do 3 eexists; reflexivity).
  destruct Hok as (n & ws & s & Ho).
  destruct (successful_import_passes_the_warnings_on _ _ _ _ _ _ _ _ _ _ _ _ _
              _ _ _ _ _ _ _ _ Ho)
    as (wb & tpl & ext & v & res & Ht & Hv & _).
  assert (Hext : ∃ o, trace_of (Scenario.migrateExcelWorkbook Scenario.good_items
                                   Scenario.empty_world) !! 2
                      = Some (ExtractDataFromExcel o)
                      ∧ o = Resolved Scenario.good_items).
  { eexists. split; reflexivity. }
  destruct Hext as (o & Hlook & ->).
  unfold Scenario.migrateExcelWorkbook in Hlook. rewrite Ht in Hlook.
  injection Hlook as ->.
  exists v. split; [|exact Hv].
  unfold Scenario.migrateExcelWorkbook. rewrite Ht. in_list.
Defined.
End ExcelProperties.

(* ===================================================================== *)
(** ** BatchProcessor: offsets, progress reports, failures *)
(* ===================================================================== *)

Module BatchProperties.
Import Batch BatchFacts.

Section Runs.
Context {W Date Queue : Type}.
Variable generateId : W -> string * W.
Variable getOrCreateQueue : string -> W -> Queue * W.
Variable now : W -> Date.
Variable queue_add :
  Queue -> string -> JobData Date -> JobOptions -> Async W unit.
Variable updateJobStatus : string -> string -> StatusDetail -> Async W unit.
Variable getDataBatch : MigrationJobConfig -> Z -> Z -> Async W (list JsObject).
Variable processBatch : list JsObject -> MigrationJobConfig -> Async W BatchResult.
Variable updateJobProgress : string -> Progress -> Async W unit.
Variable sleep : Z -> Async W unit.

Local Abbreviation Ev := (Call (Date := Date)).
Local Abbreviation process :=
  (processMigrationJob updateJobStatus getDataBatch processBatch
     updateJobProgress sleep).
Local Abbreviation enqueue :=
  (queueMigrationJob generateId getOrCreateQueue now queue_add).

(** The arguments of the [getDataBatch] calls, in order. *)
Fixpoint fetch_args (t : list Ev) : list (Z * Z) :=
  match t with
  | [] => []
  | GetDataBatch off size _ :: t' => (off, size) :: fetch_args t'
  | _ :: t' => fetch_args t'
  end.

(** What the resolved [processBatch] calls resolved to, in order. *)
Fixpoint batch_results (t : list Ev) : list BatchResult :=
  match t with
  | [] => []
  | ProcessBatch _ (Resolved r) :: t' => r :: batch_results t'
  | _ :: t' => batch_results t'
  end.

(** The progress objects handed to [updateJobProgress], in order. *)
Fixpoint progress_reports (t : list Ev) : list Progress :=
  match t with
  | [] => []
  | UpdateJobProgress _ p _ :: t' => p :: progress_reports t'
  | _ :: t' => progress_reports t'
  end.

(** The reports that follow the batch results [rs], from [pc] records
    processed. *)
Fixpoint reports_from (cfg : MigrationJobConfig) (pc : Z) (rs : list BatchResult)
  : list Progress :=
  match rs with
  | [] => []
  | r :: rs' =>
      progress_after cfg pc r :: reports_from cfg (pc + successCount r) rs'
  end.

Definition offsets_from (off bs : Z) (n : nat) : list (Z * Z) :=
  map (λ k, ((off + Z.of_nat k * bs)%Z, bs)) (seq 0 n).

Lemma offsets_from_S off bs n :
  offsets_from off bs (S n) = (off, bs) :: offsets_from (off + bs) bs n.
Proof.
  unfold offsets_from. cbn [seq map]. f_equal; [f_equal; lia|].
  rewrite <- seq_shift, map_map. apply map_ext. intros k. f_equal. lia.
Qed.

Lemma fetch_args_app t1 t2 : fetch_args (t1 ++ t2) = fetch_args t1 ++ fetch_args t2.
Proof.
  induction t1 as [|ev t1 IH]; [reflexivity|].
  destruct ev; simpl; rewrite IH; reflexivity.
Qed.

Lemma batch_results_app t1 t2 :
  batch_results (t1 ++ t2) = batch_results t1 ++ batch_results t2.
Proof.
  induction t1 as [|ev t1 IH]; [reflexivity|].
  destruct ev as [| | |b [r|e]| |]; simpl; rewrite IH; reflexivity.
Qed.

Lemma progress_reports_app t1 t2 :
  progress_reports (t1 ++ t2) = progress_reports t1 ++ progress_reports t2.
Proof.
  induction t1 as [|ev t1 IH]; [reflexivity|].
  destruct ev; simpl; rewrite IH; reflexivity.
Qed.

Lemma loop_fetch_args jid cfg bs off pc o t :
  loop_shape jid cfg bs off pc o t ->
  fetch_args t = offsets_from off bs (length (fetch_args t)).
Proof.
  induction 1 as [| | | | | |off pc batch r o t Hne Ht IH]; try reflexivity;
    try (cbn [fetch_args length]; rewrite offsets_from_S; reflexivity).
  cbn [fetch_args app length]. rewrite offsets_from_S. f_equal. exact IH.
Qed.

Lemma loop_reports jid cfg bs off pc o t :
  loop_shape jid cfg bs off pc o t ->
  progress_reports t = reports_from cfg pc (batch_results t).
Proof.
  induction 1 as [| | | | | |off pc batch r o t Hne Ht IH]; try reflexivity.
  cbn [progress_reports batch_results app reports_from]. f_equal. exact IH.
Qed.

Lemma reports_from_lookup cfg rs : ∀ pc k p,
  reports_from cfg pc rs !! k = Some p ->
  ∃ r, rs !! k = Some r
       ∧ processed p = (pc + foldr Z.add 0 (map successCount (take (S k) rs)))%Z
       ∧ total p = estimatedRecords cfg
       ∧ progress_errors p = errors r.
Proof.
  induction rs as [|r rs IH]; intros pc k p Hk; [discriminate Hk|].
  destruct k as [|k].
  - injection Hk as <-. exists r. split; [reflexivity|].
    unfold progress_after. cbn [processed total progress_errors take map foldr].
    rewrite take_0. cbn [map foldr]. repeat split. lia.
  - cbn in Hk. destruct (IH _ _ _ Hk) as (r' & Hr' & Hp & Ht & He).
    exists r'. split; [exact Hr'|]. split; [|split; assumption].
    rewrite Hp. cbn [take map foldr]. lia.
Qed.

Lemma loop_resolved_calls jid cfg bs off pc x t :
  loop_shape jid cfg bs off pc (Resolved x) t ->
  Forall (λ ev : Ev, event_resolved ev = true) t.
Proof.
  remember (Resolved x) as o eqn:Ho.
  induction 1 as [| | | | | |off pc batch r o t Hne Ht IH];
    try discriminate Ho; repeat constructor.
  apply IH, Ho.
Qed.

Lemma resolved_not_rejected (ev : Ev) e :
  event_resolved ev = true -> rejection ev ≠ Some e.
Proof.
  destruct ev as [? ? ? []|? ? ? []|? ? []|? []|? ? []|? []]; discriminate.
Qed.

(** X10. The batches of a job are fetched at the offsets 0, b, 2b, ... and
    always with the size b, where b is [config.batchSize], or 1000 when
    that is missing or 0: b is never 0, so the offset moves with every
    batch. *)
Theorem batches_are_fetched_at_multiples_of_the_batch_size
    (fuel : nat) (job : JobData Date) (w : W) :
  let b := batch_size (config job) in
  let fetches := fetch_args (trace_of (process fuel job w)) in
  b ≠ 0%Z
  ∧ (batchSize (config job) = None ∨ batchSize (config job) = Some 0%Z ->
     b = 1000%Z)
  ∧ (∀ n, batchSize (config job) = Some n -> n ≠ 0%Z -> b = n)
  ∧ ∀ k off size,
      fetches !! k = Some (off, size) ->
      off = (Z.of_nat k * b)%Z ∧ size = b.
Proof.
  intros b fetches.
  split; [|split; [|split]].
  - unfold b, batch_size, or_default.
    destruct (batchSize (config job)) as [n|]; [|discriminate].
    destruct (Z.eqb_spec n 0); [discriminate | assumption].
  - unfold b, batch_size. intros [->| ->]; reflexivity.
  - unfold b, batch_size, or_default. intros n -> Hn.
    destruct (Z.eqb_spec n 0); [contradiction | reflexivity].
  - assert (Hall : fetches = offsets_from 0 b (length fetches)).
    { unfold fetches.
      pose proof (processMigrationJob_shape updateJobStatus getDataBatch
                    processBatch updateJobProgress sleep fuel job w) as Hs.
      destruct Hs as [e o t' Hc|t Hl|t e o t' Hl Hc|t n Hl|t n e o t' Hl Hc];
        try (apply caught_calls in Hc as [->|[o1 ->]]);
        cbn [fetch_args]; rewrite ?fetch_args_app;
        cbn [fetch_args failed_write];
        rewrite ?app_nil_r; try reflexivity;
        apply (loop_fetch_args _ _ _ _ _ _ _ Hl). }
    intros k off size Hk. rewrite Hall in Hk. unfold offsets_from in Hk.
    rewrite list_lookup_fmap in Hk.
    destruct (seq 0 (length fetches) !! k) as [k'|] eqn:Hseq; [|discriminate Hk].
    apply lookup_seq in Hseq as [-> _]. injection Hk as <- <-.
    split; [lia | reflexivity].
Qed.

(** X11. A job over an empty source runs no batch: when the status writes
    resolve, it writes 'processing', fetches once at offset 0, writes
    'completed' with a total of 0 and resolves, without a call of
    [processBatch], [updateJobProgress] or [sleep]. *)
Theorem empty_source_completes_with_zero
    (fuel : nat) (job : JobData Date) (w w1 w2 w3 : W) :
  updateJobStatus (jobId job) "processing" NoDetail w = (Resolved tt, w1) ->
  getDataBatch (config job) 0 (batch_size (config job)) w1 = (Resolved [], w2) ->
  updateJobStatus (jobId job) "completed" (TotalProcessed 0) w2
  = (Resolved tt, w3) ->
  process (S fuel) job w
  = (Resolved (Some tt), w3,
     [UpdateJobStatus (jobId job) "processing" NoDetail (Resolved tt);
      GetDataBatch 0 (batch_size (config job)) (Resolved []);
      UpdateJobStatus (jobId job) "completed" (TotalProcessed 0) (Resolved tt)]).
Proof.
  intros Hs Hg Hc. unfold batch_size in Hg.
  assert (Hloop : batch_loop getDataBatch processBatch updateJobProgress sleep
                    (S fuel) (jobId job) (config job)
                    (or_default (batchSize (config job)) 1000) 0 0 w1
                  = (Resolved (Some 0%Z), w2,
                     [GetDataBatch (Date := Date) 0
                        (or_default (batchSize (config job)) 1000) (Resolved [])])).
  { cbn [batch_loop]. erewrite bind_call_resolved by exact Hg. reflexivity. }
  unfold processMigrationJob, batch_size.
  erewrite try_catch_resolved; [reflexivity|].
  erewrite bind_call_resolved by exact Hs.
  erewrite bind_resolved by exact Hloop. cbv beta iota.
  erewrite bind_call_resolved by exact Hc. run_simpl. reflexivity.
Qed.

(** X12. The progress reported after the k-th batch counts the successes
    of all batches so far, gives [config.estimatedRecords] as the total,
    and lists the errors of that one batch only: the errors of earlier
    batches are not repeated. *)
Theorem progress_is_cumulative_but_errors_are_per_batch
    (fuel : nat) (job : JobData Date) (w : W) :
  let t := trace_of (process fuel job w) in
  length (progress_reports t) = length (batch_results t)
  ∧ ∀ k p,
      progress_reports t !! k = Some p ->
      ∃ r, batch_results t !! k = Some r
           ∧ processed p
             = foldr Z.add 0%Z (map successCount (take (S k) (batch_results t)))
           ∧ total p = estimatedRecords (config job)
           ∧ progress_errors p = errors r.
Proof.
  intros t.
  assert (Hall : progress_reports t
                 = reports_from (config job) 0 (batch_results t)).
  { unfold t.
    pose proof (processMigrationJob_shape updateJobStatus getDataBatch
                  processBatch updateJobProgress sleep fuel job w) as Hs.
    destruct Hs as [e o t1 Hc|t' Hl|t' e o t1 Hl Hc|t' n Hl|t' n e o t1 Hl Hc];
      try (apply caught_calls in Hc as [->|[o1 ->]]);
      cbn [progress_reports batch_results];
      rewrite ?progress_reports_app, ?batch_results_app;
      cbn [progress_reports batch_results failed_write];
      rewrite ?app_nil_r; try reflexivity;
      apply (loop_reports _ _ _ _ _ _ _ Hl). }
  split.
  - rewrite Hall. generalize 0%Z. generalize (batch_results t).
    induction l as [|r l IH]; intros pc; [reflexivity|].
    cbn. f_equal. apply IH.
  - intros k p Hk. rewrite Hall in Hk.
    destruct (reports_from_lookup _ _ _ _ _ Hk) as (r & Hr & Hp & Ht & He).
    exists r. split; [exact Hr|]. split; [rewrite Hp; lia|]. split; assumption.
Qed.

(** How a job ends after the call [ev] rejected with [e0] and the [catch]
    block ran. *)
Lemma caught_ends jid e0 o (t' t0 : list Ev) ev e :
  caught jid e0 o t' -> o = Rejected e ->
  if nullish e0
  then t0 ++ ev :: t' = t0 ++ [ev] ∧ e = message_type_error e0
  else ∃ o', t0 ++ ev :: t' = t0 ++ [ev; failed_write jid e0 o']
             ∧ (o' = Resolved tt ∧ e = e0 ∨ o' = Rejected e).
Proof.
  intros [Hn|o' Hn] He; rewrite Hn.
  - injection He as <-. split; reflexivity.
  - exists o'. split; [reflexivity|].
    destruct o' as [[]|e']; injection He as <-;
      [left; split; reflexivity | right; reflexivity].
Qed.

(** X13. Every rejected helper call fails the job: not only [processBatch]
    but also a status write, [getDataBatch], [updateJobProgress] or
    [sleep], so a job whose batches were all processed still rejects when
    the 'completed' write rejects.  All calls before the one that rejected
    resolved.  When the value it rejected with is [null] or [undefined],
    reading its message throws: the rejected call is the last one, no
    'failed' status is written, and the job rejects with that [TypeError].
    Otherwise the call that rejected is followed by exactly one more, the
    'failed' status write with the message of the caught error; the job
    rejects with the caught error when that write resolves, and with the
    error of the write when it rejects, the caught one being lost. *)
Theorem any_rejected_call_fails_the_job
    (fuel : nat) (job : JobData Date) (w : W) :
  let run := process fuel job w in
  (∀ e, outcome_of run = Rejected e ->
        ∃ t0 ev e0,
          rejection ev = Some e0
          ∧ Forall (λ ev, event_resolved ev = true) t0
          ∧ if nullish e0
            then trace_of run = t0 ++ [ev] ∧ e = message_type_error e0
            else ∃ o, trace_of run = t0 ++ [ev; failed_write (jobId job) e0 o]
                      ∧ (o = Resolved tt ∧ e = e0 ∨ o = Rejected e))
  ∧ (∀ ev e0, ev ∈ trace_of run -> rejection ev = Some e0 ->
              ∃ e, outcome_of run = Rejected e).
Proof.
  intros run.
  pose proof (processMigrationJob_shape updateJobStatus getDataBatch
                processBatch updateJobProgress sleep fuel job w) as Hs.
  fold run in Hs. clearbody run. destruct run as [[o wf] t].
  unfold outcome_of, trace_of in *. cbn [fst snd] in *.
  destruct Hs as [e0 o t' Hc|t' Hl|t1 e0 o t' Hl Hc|t' n Hl|t1 n e0 o t' Hl Hc].
  - split; [|intros; eapply caught_rejects; exact Hc].
    intros e He.
    exists [], (UpdateJobStatus (jobId job) "processing" NoDetail (Rejected e0)), e0.
    split; [reflexivity|]. split; [constructor|].
    exact (caught_ends _ _ _ _ [] _ _ Hc He).
  - split; [intros e He; discriminate He|].
    intros ev e1 Hin Hr. exfalso.
    apply elem_of_cons in Hin as [->|Hin]; [discriminate Hr|].
    pose proof (loop_resolved_calls _ _ _ _ _ _ _ Hl) as Hall.
    rewrite Forall_forall in Hall.
    exact (resolved_not_rejected _ _ (Hall _ Hin) Hr).
  - split; [|intros; eapply caught_rejects; exact Hc].
    intros e He.
    destruct (loop_rejected _ _ _ _ _ _ _ Hl) as (t0 & ev & -> & Hev & Hall).
    exists (UpdateJobStatus (jobId job) "processing" NoDetail (Resolved tt) :: t0),
           ev, e0.
    split; [exact Hev|]. split; [constructor; [reflexivity | exact Hall]|].
    rewrite <- app_assoc.
    exact (caught_ends _ _ _ _
             (UpdateJobStatus (jobId job) "processing" NoDetail (Resolved tt) :: t0)
             _ _ Hc He).
  - split; [intros e He; discriminate He|].
    intros ev e1 Hin Hr. exfalso.
    destruct (loop_completed _ _ _ _ _ _ _ Hl) as [_ Hall].
    rewrite Forall_forall in Hall.
    apply elem_of_cons in Hin as [->|Hin]; [discriminate Hr|].
    apply elem_of_app in Hin as [Hin|Hin].
    + exact (resolved_not_rejected _ _ (Hall _ Hin) Hr).
    + mem_cases Hin. subst ev. discriminate Hr.
  - split; [|intros; eapply caught_rejects; exact Hc].
    intros e He.
    destruct (loop_completed _ _ _ _ _ _ _ Hl) as [_ Hall].
    exists (UpdateJobStatus (jobId job) "processing" NoDetail (Resolved tt) :: t1),
           (UpdateJobStatus (jobId job) "completed" (TotalProcessed n) (Rejected e0)),
           e0.
    split; [reflexivity|]. split; [constructor; [reflexivity | exact Hall]|].
    exact (caught_ends _ _ _ _
             (UpdateJobStatus (jobId job) "processing" NoDetail (Resolved tt) :: t1)
             _ _ Hc He).
Qed.

(** X14. [queueMigrationJob] adds exactly one job to the queue and
    resolves to the id it generated, the id stored in the job's data; it
    rejects with the error of [queue.add] when that rejects.  The priority
    handed to the queue is never 0: a configured priority of 0 is replaced
    by 5, like a missing one. *)
Theorem queued_job_carries_the_returned_id (cfg : MigrationJobConfig) (w : W) :
  ∃ data opts o,
    trace_of (enqueue cfg w) = [QueueAdd "migration-job" data opts o]
    ∧ jobId data = (generateId w).1
    ∧ config data = cfg
    ∧ (o = Resolved tt -> outcome_of (enqueue cfg w) = Resolved (jobId data))
    ∧ (∀ e, o = Rejected e -> outcome_of (enqueue cfg w) = Rejected e)
    ∧ opt_priority opts ≠ 0%Z
    ∧ (priority cfg = None ∨ priority cfg = Some 0%Z -> opt_priority opts = 5%Z)
    ∧ (∀ p, priority cfg = Some p -> p ≠ 0%Z -> opt_priority opts = p)
    ∧ opt_delay opts = default 0%Z (delay cfg).
Proof.
  destruct (queueMigrationJob_run generateId getOrCreateQueue now queue_add cfg w)
    as (data & o & Ht & Hcfg & Hid & Ho).
  exists data. eexists. exists o. split; [exact Ht|].
  split; [exact Hid|]. split; [exact Hcfg|]. cbn [opt_priority opt_delay].
  split; [intros ->; exact Ho|]. split; [intros e ->; exact Ho|].
  unfold or_default.
  split; [|split; [|split]].
  - destruct (priority cfg) as [p|]; [|discriminate].
    destruct (Z.eqb_spec p 0); [discriminate | assumption].
  - intros [->| ->]; reflexivity.
  - intros p -> Hp. destruct (Z.eqb_spec p 0); [contradiction | reflexivity].
  - destruct (delay cfg) as [d|]; [|reflexivity].
    destruct (Z.eqb_spec d 0) as [->|]; reflexivity.
Qed.
End Runs.

(** A job over a source without records completes with a total of 0. *)
Lemma job_over_nothing_completes :
  status_writes (trace_of (BatchScenario.run_job
                             BatchScenario.processBatch_reporting [] 1))
  = [("processing", NoDetail); ("completed", TotalProcessed 0)].
Proof.
  unfold BatchScenario.run_job.
  rewrite (empty_source_completes_with_zero
             (λ _ _ d, BatchScenario.resolves d)
             (BatchScenario.getDataBatch [])
             BatchScenario.processBatch_reporting
             (λ _ p, BatchScenario.resolves p) BatchScenario.resolves
             0 BatchScenario.job Scenario.empty_world Scenario.empty_world
             Scenario.empty_world Scenario.empty_world
             eq_refl eq_refl eq_refl).
  reflexivity.
Defined.
End BatchProperties.

(* ===================================================================== *)
(** ** Regular-expression literals *)
(* ===================================================================== *)

(** The regular-expression literals of the sources, as syntax trees, with
    the backtracking matcher of the language: a pattern is matched against
    a string of UTF-16 code units with a continuation that decides what
    follows.  All literals of the sources are anchored ([^...$]) and have
    no flags. *)
Module Regex.

(** A code unit. *)
Abbreviation Char := N.

(** The code units of a string whose code units are all below 256, one per
    character of the Rocq string; other strings are outside the model. *)
Definition units (s : string) : list Char :=
  map N_of_ascii (list_ascii_of_string s).

(** [\d]. *)
Definition is_digit (c : Char) : bool := ((48 <=? c) && (c <=? 57))%N.

(** Line terminators: LF, CR, LS, PS. *)
Definition is_line_terminator (c : Char) : bool :=
  bool_decide (c ∈ [10; 13; 8232; 8233]%N).

(** [\s]: white space and line terminators. *)
Definition is_whitespace (c : Char) : bool :=
  bool_decide (c ∈ [9; 11; 12; 32; 160; 5760; 8239; 8287; 12288; 65279]%N)
  || ((8192 <=? c) && (c <=? 8202))%N
  || is_line_terminator c.

(** The members of a character class [[...]]. *)
Inductive ClassItem : Type :=
  | CChar (c : Char)              (* a literal character *)
  | CRange (lo hi : Char)         (* lo-hi *)
  | CDigit                        (* \d *)
  | CSpace.                       (* \s *)

Definition item_has (i : ClassItem) (c : Char) : bool :=
  match i with
  | CChar x => (c =? x)%N
  | CRange lo hi => ((lo <=? c) && (c <=? hi))%N
  | CDigit => is_digit c
  | CSpace => is_whitespace c
  end.

(** What consumes exactly one character. *)
Inductive Atom : Type :=
  | Chr (c : Char)                              (* a literal, [\$], [\.] *)
  | Class (negated : bool) (items : list ClassItem)   (* [...], [^...] *)
  | Dot.                                        (* . *)

Definition atom_has (a : Atom) (c : Char) : bool :=
  match a with
  | Chr x => (c =? x)%N
  | Class negated items => xorb negated (existsb (λ i, item_has i c) items)
  | Dot => negb (is_line_terminator c)
  end.

Inductive Re : Type :=
  | One (a : Atom)
  | Seq (r1 r2 : Re)
  | Opt (r : Re)                  (* r? *)
  | Star (r : Re)                 (* r* *)
  | Plus (r : Re)                 (* r+ *)
  | AtLeast (n : nat) (r : Re)    (* r{n,} *)
  | Look (r : Re).                (* (?=r) *)

(** [r*] from [s]: stop here, or match [r] once more and go on; an
    iteration that consumes nothing is not repeated. *)
Fixpoint star (step : list Char -> (list Char -> bool) -> bool) (fuel : nat)
    (s : list Char) (k : list Char -> bool) : bool :=
  k s
  || match fuel with
     | O => false
     | S fuel' =>
         step s (λ s', (length s' <? length s)%nat && star step fuel' s' k)
     end.

Fixpoint at_least (step : list Char -> (list Char -> bool) -> bool) (n : nat)
    (s : list Char) (k : list Char -> bool) : bool :=
  match n with
  | O => star step (length s) s k
  | S n' => step s (λ s', at_least step n' s' k)
  end.

(** [matches r s k]: some way of matching [r] at the start of [s] leaves a
    rest that [k] accepts. *)
Fixpoint matches (r : Re) (s : list Char) (k : list Char -> bool) : bool :=
  match r with
  | One a =>
      match s with
      | c :: s' => atom_has a c && k s'
      | [] => false
      end
  | Seq r1 r2 => matches r1 s (λ s', matches r2 s' k)
  | Opt r1 => matches r1 s k || k s
  | Star r1 => star (matches r1) (length s) s k
  | Plus r1 => matches r1 s (λ s', star (matches r1) (length s') s' k)
  | AtLeast n r1 => at_least (matches r1) n s k
  | Look r1 => matches r1 s (λ _, true) && k s
  end.

Definition at_end (s : list Char) : bool :=
  match s with [] => true | _ => false end.

(** [/^r$/.test(s)]. *)
Definition test (r : Re) (s : list Char) : bool := matches r s at_end.

(** The strings a pattern without lookahead matches in full. *)
Inductive lang : Re -> list Char -> Prop :=
  | lang_one a c : atom_has a c = true -> lang (One a) [c]
  | lang_seq r1 r2 s1 s2 :
      lang r1 s1 -> lang r2 s2 -> lang (Seq r1 r2) (s1 ++ s2)
  | lang_opt_none r : lang (Opt r) []
  | lang_opt_some r s : lang r s -> lang (Opt r) s
  | lang_star_nil r : lang (Star r) []
  | lang_star_cons r s1 s2 :
      lang r s1 -> lang (Star r) s2 -> lang (Star r) (s1 ++ s2)
  | lang_plus r s1 s2 :
      lang r s1 -> lang (Star r) s2 -> lang (Plus r) (s1 ++ s2)
  | lang_at_least_O r s : lang (Star r) s -> lang (AtLeast 0 r) s
  | lang_at_least_S n r s1 s2 :
      lang r s1 -> lang (AtLeast n r) s2 -> lang (AtLeast (S n) r) (s1 ++ s2).

Fixpoint plain (r : Re) : bool :=
  match r with
  | One _ => true
  | Seq r1 r2 => plain r1 && plain r2
  | Opt r1 | Star r1 | Plus r1 | AtLeast _ r1 => plain r1
  | Look _ => false
  end.
End Regex.

Module RegexFacts.
Import Regex.

(** What a matcher that agrees with a language does. *)
Definition agrees (step : list Char -> (list Char -> bool) -> bool)
    (L : list Char -> Prop) : Prop :=
  ∀ s k, step s k = true <-> ∃ s1 s2, s = s1 ++ s2 ∧ L s1 ∧ k s2 = true.

Lemma star_sound step r :
  agrees step (lang r) ->
  ∀ fuel s k, star step fuel s k = true ->
              ∃ s1 s2, s = s1 ++ s2 ∧ lang (Star r) s1 ∧ k s2 = true.
Proof.
  intros Hstep. induction fuel as [|fuel IH]; intros s k H; cbn [star] in H.
  - rewrite orb_false_r in H. exists [], s. repeat split; [constructor | exact H].
  - apply orb_true_iff in H as [H|H].
    + exists [], s. repeat split; [constructor | exact H].
    + apply Hstep in H as (a & s' & -> & Ha & H).
      apply andb_true_iff in H as [_ H].
      destruct (IH _ _ H) as (b & s2 & -> & Hb & Hk).
      exists (a ++ b), s2. rewrite app_assoc. repeat split; [|exact Hk].
      constructor; assumption.
Qed.

Lemma star_complete step r :
  agrees step (lang r) ->
  ∀ s1, lang (Star r) s1 ->
  ∀ fuel s2 k, (length (s1 ++ s2) <= fuel)%nat -> k s2 = true ->
               star step fuel (s1 ++ s2) k = true.
Proof.
  intros Hstep s1 Hl. remember (Star r) as r' eqn:Hr.
  induction Hl as [| | | |r0|r0 a b Ha _ Hb IH| | |]; try discriminate Hr.
  - intros fuel s2 k _ Hk. destruct fuel; cbn [star app]; rewrite Hk; reflexivity.
  - injection Hr as ->. specialize (IH eq_refl).
    intros fuel s2 k Hlen Hk.
    destruct a as [|c a].
    { apply IH; assumption. }
    destruct fuel as [|fuel]; [cbn in Hlen; lia|].
    cbn [star]. apply orb_true_iff. right.
    apply Hstep. exists (c :: a), (b ++ s2).
    split; [rewrite app_assoc; reflexivity|]. split; [exact Ha|].
    apply andb_true_iff. split.
    + apply Nat.ltb_lt. rewrite <- app_assoc. cbn. rewrite !length_app. lia.
    + apply IH; [|exact Hk]. rewrite <- app_assoc in Hlen. cbn in Hlen.
      rewrite !length_app in *. lia.
Qed.

Lemma star_agrees step r :
  agrees step (lang r) ->
  ∀ s k, star step (length s) s k = true
         <-> ∃ s1 s2, s = s1 ++ s2 ∧ lang (Star r) s1 ∧ k s2 = true.
Proof.
  intros Hstep s k. split.
  - apply (star_sound _ _ Hstep).
  - intros (s1 & s2 & -> & Hl & Hk).
    apply (star_complete _ _ Hstep); [exact Hl | lia | exact Hk].
Qed.

(** The matcher and the language agree on patterns without lookahead. *)
Lemma matches_agrees r : plain r = true -> agrees (matches r) (lang r).
Proof.
  induction r as [a|r1 IH1 r2 IH2|r1 IH|r1 IH|r1 IH|n r1 IH|r1 IH];
    cbn [plain]; intros Hp s k.
  - cbn [matches]. destruct s as [|c s].
    + split; [discriminate|]. intros (s1 & s2 & Hs & Hl & _).
      inversion Hl; subst. discriminate Hs.
    + split.
      * intros H. apply andb_true_iff in H as [Hc Hk].
        exists [c], s. repeat split; [constructor; exact Hc | exact Hk].
      * intros (s1 & s2 & Hs & Hl & Hk). inversion Hl; subst.
        injection Hs as -> ->. apply andb_true_iff. split; assumption.
  - apply andb_true_iff in Hp as [Hp1 Hp2].
    specialize (IH1 Hp1). specialize (IH2 Hp2). cbn [matches]. split.
    + intros H. apply IH1 in H as (a & s' & -> & Ha & H).
      apply IH2 in H as (b & s2 & -> & Hb & Hk).
      exists (a ++ b), s2. rewrite app_assoc. repeat split; [|exact Hk].
      constructor; assumption.
    + intros (s1 & s2 & -> & Hl & Hk). inversion Hl as [|? ? a b Ha Hb| | | | | | |]; subst.
      apply IH1. exists a, (b ++ s2). rewrite app_assoc.
      repeat split; [exact Ha|]. apply IH2. exists b, s2. repeat split; assumption.
  - specialize (IH Hp). cbn [matches]. split.
    + intros H. apply orb_true_iff in H as [H|H].
      * apply IH in H as (a & s2 & -> & Ha & Hk).
        exists a, s2. repeat split; [|exact Hk]. apply lang_opt_some, Ha.
      * exists [], s. repeat split; [constructor | exact H].
    + intros (s1 & s2 & -> & Hl & Hk). apply orb_true_iff.
      inversion Hl; subst.
      * right. exact Hk.
      * left. apply IH. exists s1, s2. repeat split; assumption.
  - specialize (IH Hp). cbn [matches]. apply star_agrees, IH.
  - specialize (IH Hp). cbn [matches]. split.
    + intros H. apply IH in H as (a & s' & -> & Ha & H).
      apply (star_agrees _ _ IH) in H as (b & s2 & -> & Hb & Hk).
      exists (a ++ b), s2. rewrite app_assoc. repeat split; [|exact Hk].
      constructor; assumption.
    + intros (s1 & s2 & -> & Hl & Hk). inversion Hl as [| | | | | |? a b Ha Hb| |]; subst.
      apply IH. exists a, (b ++ s2). rewrite app_assoc.
      repeat split; [exact Ha|]. apply (star_agrees _ _ IH).
      exists b, s2. repeat split; assumption.
  - specialize (IH Hp). cbn [matches]. revert s k.
    induction n as [|n IHn]; intros s k; cbn [at_least].
    + rewrite (star_agrees _ _ IH). split.
      * intros (s1 & s2 & -> & Hl & Hk). exists s1, s2.
        repeat split; [|exact Hk]. constructor. exact Hl.
      * intros (s1 & s2 & -> & Hl & Hk). exists s1, s2.
        repeat split; [|exact Hk]. inversion Hl; subst. assumption.
    + split.
      * intros H. apply IH in H as (a & s' & -> & Ha & H).
        apply IHn in H as (b & s2 & -> & Hb & Hk).
        exists (a ++ b), s2. rewrite app_assoc. repeat split; [|exact Hk].
        constructor; assumption.
      * intros (s1 & s2 & -> & Hl & Hk).
        inversion Hl as [| | | | | | | |? ? a b Ha Hb]; subst.
        apply IH. exists a, (b ++ s2). rewrite app_assoc.
        repeat split; [exact Ha|]. apply IHn.
        exists b, s2. repeat split; assumption.
  - discriminate Hp.
Qed.

Lemma at_end_true s : at_end s = true <-> s = [].
Proof. destruct s; split; intros H; try reflexivity; discriminate H. Qed.

(** A pattern without lookahead tests a string for membership in its
    language. *)
Lemma test_lang r s : plain r = true -> (test r s = true <-> lang r s).
Proof.
  intros Hp. unfold test. pose proof (matches_agrees r Hp s at_end) as H. split.
  - intros Hm. apply H in Hm as (s1 & s2 & -> & Hl & Hk).
    apply at_end_true in Hk as ->. rewrite app_nil_r. exact Hl.
  - intros Hl. apply H. exists s, []. rewrite app_nil_r. repeat split. exact Hl.
Qed.

(** *** Repetitions of one character *)

Lemma lang_star_atoms a s :
  lang (Star (One a)) s <-> Forall (λ c, atom_has a c = true) s.
Proof.
  split.
  - intros H. remember (Star (One a)) as r eqn:Hr.
    induction H as [| | | |r0|r0 s1 s2 H1 _ H2 IH| | |]; try discriminate Hr.
    + constructor.
    + injection Hr as ->. inversion H1; subst.
      constructor; [assumption | apply IH; reflexivity].
  - induction 1 as [|c s Hc _ IH]; [constructor|].
    apply (lang_star_cons _ [c] s); [constructor; exact Hc | exact IH].
Qed.

Lemma lang_plus_atoms a s :
  lang (Plus (One a)) s <-> s ≠ [] ∧ Forall (λ c, atom_has a c = true) s.
Proof.
  split.
  - intros H. inversion H as [| | | | | |? s1 s2 H1 H2| |]; subst.
    inversion H1; subst. split; [discriminate|].
    constructor; [assumption | apply lang_star_atoms, H2].
  - intros [Hne Hall]. destruct Hall as [|c s Hc Hall]; [contradiction|].
    apply (lang_plus _ [c] s); [constructor; exact Hc|].
    apply lang_star_atoms, Hall.
Qed.

Lemma lang_at_least_atoms a n s :
  lang (AtLeast n (One a)) s
  <-> (n <= length s)%nat ∧ Forall (λ c, atom_has a c = true) s.
Proof.
  revert s. induction n as [|n IH]; intros s.
  - split.
    + intros H. inversion H; subst. split; [lia|]. apply lang_star_atoms. assumption.
    + intros [_ H]. constructor. apply lang_star_atoms, H.
  - split.
    + intros H. inversion H as [| | | | | | | |? ? s1 s2 H1 H2]; subst.
      inversion H1; subst. apply IH in H2 as [Hlen Hall].
      split; [cbn; lia | constructor; assumption].
    + intros [Hlen Hall]. destruct Hall as [|c s Hc Hall]; [cbn in Hlen; lia|].
      apply (lang_at_least_S _ _ [c] s); [constructor; exact Hc|].
      apply IH. split; [cbn in Hlen; lia | exact Hall].
Qed.
End RegexFacts.

(* ===================================================================== *)
(** ** ExcelMigrationEngine: data type inference *)
(* ===================================================================== *)

Module DataTypes.
Import Regex.

(** The [DataType] that [inferDataType] answers. *)
Inductive DataType : Type := TString | TCurrency | TNumber | TDate.

(** The value of a worksheet cell. *)
Inductive CellValue (DateObj Other : Type) : Type :=
  | CNull
  | CUndefined
  | CNumber (n : Num)
  | CString (s : string)
  | CDate (d : DateObj)           (* an instance of [Date] *)
  | COther (o : Other).           (* a boolean, or another object *)
Arguments CNull {DateObj Other}.
Arguments CUndefined {DateObj Other}.
Arguments CNumber {DateObj Other}.
Arguments CString {DateObj Other}.
Arguments CDate {DateObj Other}.
Arguments COther {DateObj Other}.

(** The pattern [/^\$?\d+\.?\d*$/] between its anchors. *)
Definition currency_pattern : Re :=
  Seq (Opt (One (Chr 36)))
      (Seq (Plus (One (Class false [CDigit])))
           (Seq (Opt (One (Chr 46)))
                (Star (One (Class false [CDigit]))))).

Section Inference.
Context {Sheet DateObj Other : Type}.
Local Abbreviation Cell := (CellValue DateObj Other).
(** [sheet.getCell(row, columnIndex).value]. *)
Variable getCell : Sheet -> Z -> nat -> Cell.
(** [!isNaN(Number(v))] on a value that is not a number: the coercion of
    strings, dates and other objects is the language's. *)
Variable coerces_to_number : Cell -> bool.
(** [this.isDateString(v)], a method the sources call but do not define. *)
Variable isDateString : Cell -> bool.

Definition is_blank (v : Cell) : bool :=
  match v with CNull | CUndefined => true | _ => false end.

(** [typeof v === 'string' && /^\$?\d+\.?\d*$/.test(v)] *)
Definition looks_like_currency (v : Cell) : bool :=
  match v with
  | CString s => test currency_pattern (units s)
  | _ => false
  end.

(** [typeof v === 'number' || !isNaN(Number(v))] *)
Definition is_numeric (v : Cell) : bool :=
  match v with
  | CNumber _ => true
  | _ => coerces_to_number v
  end.

(** [v instanceof Date || this.isDateString(v)] *)
Definition is_date_like (v : Cell) : bool :=
  match v with
  | CDate _ => true
  | _ => isDateString v
  end.

(** The rows the [for] loop visits: from [startRow] to
    [Math.min(startRow + 10, endRow)]. *)
Definition sampled_rows (dataRange : Excel.DataRange) : list Z :=
  let first := Excel.startRow dataRange in
  let last := Z.min (first + 10) (Excel.endRow dataRange) in
  seqZ first (last - first + 1).

(** The array [sample] after the loop. *)
Definition sample_of (sheet : Sheet) (columnIndex : nat)
    (dataRange : Excel.DataRange) : list Cell :=
  List.filter (λ v, negb (is_blank v))
    (map (λ row, getCell sheet row columnIndex) (sampled_rows dataRange)).

Definition inferDataType (sheet : Sheet) (columnIndex : nat)
    (dataRange : Excel.DataRange) : DataType :=
  let sample := sample_of sheet columnIndex dataRange in
  if (length sample =? 0)%nat then TString
  else if existsb looks_like_currency sample then TCurrency
  else if forallb is_numeric sample then TNumber
  else if existsb is_date_like sample then TDate
  else TString.
End Inference.
End DataTypes.

Module DataTypeFacts.
Import Regex RegexFacts DataTypes.

(** *** The currency pattern *)

Definition digit_atom : Atom := Class false [CDigit].

Lemma digit_atom_has c : atom_has digit_atom c = is_digit c.
Proof. cbn. rewrite orb_false_r. reflexivity. Qed.

Definition all_digits (s : list Char) : Prop := Forall (λ c, is_digit c = true) s.

(** The strings of the currency pattern: an optional dollar sign, one or
    more digits, and optionally a point followed by any number of
    digits. *)
Definition currency_shape (s : list Char) : Prop :=
  ∃ dollar whole point,
    s = dollar ++ whole ++ point
    ∧ (dollar = [] ∨ dollar = [36%N])
    ∧ whole ≠ [] ∧ all_digits whole
    ∧ (point = [] ∨ ∃ fraction, point = 46%N :: fraction ∧ all_digits fraction).

Lemma digits_forall s :
  Forall (λ c, atom_has digit_atom c = true) s <-> all_digits s.
Proof.
  unfold all_digits. split; intros H; eapply Forall_impl; try exact H;
    intros c Hc; [rewrite <- digit_atom_has | rewrite digit_atom_has]; exact Hc.
Qed.

Lemma currency_pattern_shape s :
  test currency_pattern s = true <-> currency_shape s.
Proof.
  rewrite (test_lang currency_pattern s eq_refl). unfold currency_pattern. split.
  - intros H.
    inversion H as [|? ? d rest1 Hd H1| | | | | | |]; subst.
    inversion H1 as [|? ? wh rest2 Hw H2| | | | | | |]; subst.
    inversion H2 as [|? ? pt fr Hp Hf| | | | | | |]; subst.
    apply lang_plus_atoms in Hw as [Hne Hw]. apply digits_forall in Hw.
    apply lang_star_atoms, digits_forall in Hf.
    assert (Hdollar : d = [] ∨ d = [36%N]).
    { inversion Hd as [| |?|? ? Hd'| | | | |]; subst; [left; reflexivity|].
      inversion Hd' as [? c Hc| | | | | | | |]; subst. right.
      cbn in Hc. apply N.eqb_eq in Hc as ->. reflexivity. }
    inversion Hp as [| |?|? ? Hp'| | | | |]; subst.
    + exists d, (wh ++ fr), []. rewrite app_nil_r. cbn [app].
      split; [reflexivity|]. split; [exact Hdollar|].
      split; [intros Heq; apply app_eq_nil in Heq as [? _]; contradiction|].
      split; [apply Forall_app; split; assumption | left; reflexivity].
    + inversion Hp' as [? c Hc| | | | | | | |]; subst.
      cbn in Hc. apply N.eqb_eq in Hc as ->.
      exists d, wh, (46%N :: fr). split; [reflexivity|].
      split; [exact Hdollar|]. split; [exact Hne|]. split; [exact Hw|].
      right. exists fr. split; [reflexivity | exact Hf].
  - intros (d & wh & pt & -> & Hd & Hne & Hw & Hp).
    apply lang_seq; [|apply lang_seq].
    + destruct Hd as [->| ->]; [apply lang_opt_none|].
      apply lang_opt_some, lang_one. reflexivity.
    + apply lang_plus_atoms. split; [exact Hne | apply digits_forall, Hw].
    + destruct Hp as [->|(fr & -> & Hf)].
      * apply (lang_seq _ _ [] []); [apply lang_opt_none | apply lang_star_nil].
      * apply (lang_seq _ _ [46%N] fr).
        -- apply lang_opt_some, lang_one. reflexivity.
        -- apply lang_star_atoms, digits_forall, Hf.
Qed.

(** *** The sample *)

Section Inference.
Context {Sheet DateObj Other : Type}.
Local Abbreviation Cell := (CellValue DateObj Other).
Variable getCell : Sheet -> Z -> nat -> Cell.
Variable coerces_to_number : Cell -> bool.
Variable isDateString : Cell -> bool.

Local Abbreviation infer := (inferDataType getCell coerces_to_number isDateString).
Local Abbreviation sample := (sample_of getCell).

(** A row of the sampling window of a data range. *)
Definition in_window (range : Excel.DataRange) (row : Z) : Prop :=
  (Excel.startRow range <= row)%Z
  ∧ (row <= Excel.startRow range + 10)%Z
  ∧ (row <= Excel.endRow range)%Z.

Lemma sampled_rows_window range row :
  row ∈ sampled_rows range <-> in_window range row.
Proof.
  unfold sampled_rows, in_window. rewrite elem_of_seqZ. lia.
Qed.

Lemma sample_elem sheet col range v :
  v ∈ sample sheet col range
  <-> is_blank v = false
      ∧ ∃ row, in_window range row ∧ getCell sheet row col = v.
Proof.
  unfold sample_of. rewrite list_elem_of_In, filter_In, <- list_elem_of_In.
  rewrite list_elem_of_fmap. split.
  - intros [(row & -> & Hrow) Hb]. apply negb_true_iff in Hb.
    split; [exact Hb|]. exists row. split; [|reflexivity].
    apply sampled_rows_window, Hrow.
  - intros [Hb (row & Hrow & <-)]. split.
    + exists row. split; [reflexivity|]. apply sampled_rows_window, Hrow.
    + apply negb_true_iff, Hb.
Qed.

Lemma existsb_elem {A} (f : A -> bool) (l : list A) :
  existsb f l = true <-> ∃ x, x ∈ l ∧ f x = true.
Proof.
  rewrite existsb_exists. split; intros (x & Hx & Hf); exists x;
    (split; [apply list_elem_of_In, Hx | exact Hf]).
Qed.

Lemma forallb_elem {A} (f : A -> bool) (l : list A) :
  forallb f l = true <-> ∀ x, x ∈ l -> f x = true.
Proof.
  rewrite forallb_forall. split; intros H x Hx; apply H, list_elem_of_In, Hx.
Qed.

Lemma length_zero_nil {A} (l : list A) : (length l =? 0)%nat = true <-> l = [].
Proof. destruct l; split; intros H; try reflexivity; discriminate H. Qed.

(** X15. A column without a value in the sampled rows is a 'string'
    column: in particular when the data range is empty, and when every
    sampled cell is [null] or [undefined]. *)
Theorem blank_column_is_a_string_column (sheet : Sheet) (col : nat)
    (range : Excel.DataRange) :
  (∀ row, in_window range row -> is_blank (getCell sheet row col) = true) ->
  infer sheet col range = TString.
Proof.
  intros Hblank. unfold inferDataType.
  assert (Hnil : sample sheet col range = []).
  { destruct (sample sheet col range) as [|v l] eqn:Hs; [reflexivity|].
    assert (Hv : v ∈ sample sheet col range) by (rewrite Hs; apply list_elem_of_here).
    apply sample_elem in Hv as [Hb (row & Hrow & Heq)].
    rewrite <- Heq, (Hblank _ Hrow) in Hb. discriminate Hb. }
  rewrite Hnil. reflexivity.
Qed.

(** X16. The inferred type depends on at most eleven cells of the column:
    those of the rows from [startRow] to [startRow + 10] that lie in the
    data range.  Two sheets that agree on these cells get the same type,
    whatever the rows below hold. *)
Theorem only_the_first_eleven_rows_are_sampled (sheet1 sheet2 : Sheet)
    (col : nat) (range : Excel.DataRange) :
  (∀ row, in_window range row -> getCell sheet1 row col = getCell sheet2 row col) ->
  infer sheet1 col range = infer sheet2 col range
  ∧ (length (sampled_rows range) <= 11)%nat.
Proof.
  intros Hsame. split.
  - unfold inferDataType.
    replace (sample sheet2 col range) with (sample sheet1 col range); [reflexivity|].
    unfold sample_of. f_equal. apply map_ext_in. intros row Hrow.
    apply Hsame, sampled_rows_window, list_elem_of_In, Hrow.
  - unfold sampled_rows. rewrite length_seqZ. lia.
Qed.

(** X17. A column is a 'currency' column exactly when one of its sampled
    cells holds a string that consists of an optional dollar sign, one or
    more digits and, optionally, a point followed by any number of digits:
    whatever the other cells hold.  One such string among numbers, texts
    or dates decides; a string of digits counts as currency, not as a
    number; a sign, a thousands separator or a blank disqualifies it. *)
Theorem currency_string_decides_the_column (sheet : Sheet) (col : nat)
    (range : Excel.DataRange) :
  infer sheet col range = TCurrency
  <-> ∃ row s, in_window range row
               ∧ getCell sheet row col = CString s
               ∧ currency_shape (units s).
Proof.
  unfold inferDataType. cbv zeta. split.
  - destruct (length (sample sheet col range) =? 0)%nat;
      [intros H; discriminate H|].
    destruct (existsb looks_like_currency (sample sheet col range)) eqn:Hc.
    + intros _. apply existsb_elem in Hc as (v & Hv & Hcur).
      apply sample_elem in Hv as [_ (row & Hrow & Heq)].
      destruct v as [| | |s| |]; try discriminate Hcur.
      exists row, s. split; [exact Hrow|]. split; [exact Heq|].
      apply currency_pattern_shape, Hcur.
    + destruct (forallb _ _); [intros H; discriminate H|].
      destruct (existsb (is_date_like isDateString) _); intros H; discriminate H.
  - intros (row & s & Hrow & Heq & Hshape).
    assert (Hin : CString s ∈ sample sheet col range).
    { apply sample_elem. split; [reflexivity|]. exists row. split; assumption. }
    assert (Hne : (length (sample sheet col range) =? 0)%nat = false).
    { destruct (sample sheet col range); [|reflexivity].
      apply elem_of_nil in Hin. contradiction. }
    rewrite Hne.
    assert (Hc : existsb looks_like_currency (sample sheet col range) = true).
    { apply existsb_elem. exists (CString s). split; [exact Hin|].
      apply currency_pattern_shape, Hshape. }
    rewrite Hc. reflexivity.
Qed.

(** X18. A column whose sampled cells hold numbers, and nothing else but
    blanks, is a 'number' column, provided one of them holds a number. *)
Theorem numbers_make_a_number_column (sheet : Sheet) (col : nat)
    (range : Excel.DataRange) (row0 : Z) (n0 : Num) :
  in_window range row0 ->
  getCell sheet row0 col = CNumber n0 ->
  (∀ row, in_window range row ->
          is_blank (getCell sheet row col) = true
          ∨ ∃ n, getCell sheet row col = CNumber n) ->
  infer sheet col range = TNumber.
Proof.
  intros Hrow0 Hcell0 Hall. unfold inferDataType. cbv zeta.
  assert (Hnum : ∀ v, v ∈ sample sheet col range -> ∃ n, v = CNumber n).
  { intros v Hv. apply sample_elem in Hv as [Hb (row & Hrow & Heq)].
    destruct (Hall _ Hrow) as [Hblank|(n & Hn)].
    - rewrite Heq, Hb in Hblank. discriminate Hblank.
    - exists n. rewrite <- Heq. exact Hn. }
  assert (Hin : CNumber n0 ∈ sample sheet col range).
  { apply sample_elem. split; [reflexivity|]. exists row0. split; assumption. }
  assert (Hne : (length (sample sheet col range) =? 0)%nat = false).
  { destruct (sample sheet col range); [|reflexivity].
    apply elem_of_nil in Hin. contradiction. }
  rewrite Hne.
  assert (Hc : existsb looks_like_currency (sample sheet col range) = false).
  { apply not_true_iff_false. intros Hc.
    apply existsb_elem in Hc as (v & Hv & Hcur).
    destruct (Hnum _ Hv) as (n & ->). discriminate Hcur. }
  rewrite Hc.
  assert (Hf : forallb (is_numeric coerces_to_number) (sample sheet col range) = true).
  { apply forallb_elem. intros v Hv. destruct (Hnum _ Hv) as (n & ->). reflexivity. }
  rewrite Hf. reflexivity.
Qed.
End Inference.

(** *** A sheet of four columns *)

(** Column 0 holds quantities as numbers, column 1 rates as text, column 2
    nothing; row 20, far below the sample, holds text in every column. *)
Definition price_sheet (row : Z) (col : nat) : CellValue unit bool :=
  if (row =? 20)%Z then CString "n/a"
  else match col with
       | 0 => if (row =? 3)%Z then CNull else CNumber (num_of_Z row)
       | 1 => if (row =? 2)%Z then CString "$12.50" else CString "see note"
       | _ => CUndefined
       end.

Definition read_cell (sheet : Z -> nat -> CellValue unit bool) (row : Z) (col : nat)
  : CellValue unit bool := sheet row col.

Definition no_coercion (_ : CellValue unit bool) : bool := false.

Lemma empty_column_is_string :
  inferDataType read_cell no_coercion no_coercion price_sheet 2
    (Excel.mkRange 2 30) = TString.
Proof.
  apply blank_column_is_a_string_column.
  intros row (H1 & H2 & _). cbn in H1, H2. unfold read_cell, price_sheet.
  destruct (Z.eqb_spec row 20); [lia | reflexivity].
Defined.

Lemma rows_below_the_sample_are_not_read :
  inferDataType read_cell no_coercion no_coercion price_sheet 0 (Excel.mkRange 2 30)
  = inferDataType read_cell no_coercion no_coercion
      (λ row col, if (row =? 20)%Z then CNull else price_sheet row col) 0
      (Excel.mkRange 2 30).
Proof.
  apply only_the_first_eleven_rows_are_sampled.
  intros row (H1 & H2 & _). unfold read_cell. cbn in H1, H2.
  destruct (Z.eqb_spec row 20); [lia | reflexivity].
Defined.

Lemma one_price_makes_a_currency_column :
  inferDataType read_cell no_coercion no_coercion price_sheet 1
    (Excel.mkRange 2 30) = TCurrency.
Proof.
  apply currency_string_decides_the_column.
  exists 2%Z, "$12.50". split; [unfold in_window; cbn; lia|].
  split; [reflexivity|].
  apply currency_pattern_shape. vm_compute. reflexivity.
Defined.

Lemma quantities_make_a_number_column :
  inferDataType read_cell no_coercion no_coercion price_sheet 0
    (Excel.mkRange 2 30) = TNumber.
Proof.
  apply (numbers_make_a_number_column _ _ _ _ _ _ 2%Z (num_of_Z 2)).
  - unfold in_window. cbn. lia.
  - reflexivity.
  - intros row (H1 & H2 & _). cbn in H1, H2. unfold read_cell, price_sheet.
    destruct (Z.eqb_spec row 20); [lia|].
    destruct (Z.eqb_spec row 3); [left; reflexivity | right; eexists; reflexivity].
Defined.
End DataTypeFacts.

(* ===================================================================== *)
(** ** The shared validation package: [REGEX_PATTERNS] *)
(* ===================================================================== *)

Module Patterns.
Import Regex.

(** [[^\s@]] *)
Definition email_char : Atom := Class true [CSpace; CChar 64].

(** [EMAIL: /^[^\s@]+@[^\s@]+\.[^\s@]+$/] *)
Definition EMAIL : Re :=
  Seq (Plus (One email_char))
      (Seq (One (Chr 64))
           (Seq (Plus (One email_char))
                (Seq (One (Chr 46)) (Plus (One email_char))))).

(** [[a-z]], [[A-Z]], [\d] and [[a-zA-Z\d@$!%*?&]] *)
Definition lower_case : Atom := Class false [CRange 97 122].
Definition upper_case : Atom := Class false [CRange 65 90].
Definition digit : Atom := Class false [CDigit].
Definition password_char : Atom :=
  Class false [CRange 97 122; CRange 65 90; CDigit; CChar 64; CChar 36;
               CChar 33; CChar 37; CChar 42; CChar 63; CChar 38].

(** [(?=.*a)] *)
Definition ahead (a : Atom) : Re := Look (Seq (Star (One Dot)) (One a)).

(** [PASSWORD: /^(?=.*[a-z])(?=.*[A-Z])(?=.*\d)[a-zA-Z\d@$!%*?&]{8,}$/] *)
Definition PASSWORD : Re :=
  Seq (ahead lower_case)
      (Seq (ahead upper_case)
           (Seq (ahead digit) (AtLeast 8 (One password_char)))).

(** [SLUG: /^[a-z0-9-]+$/] *)
Definition slug_char : Atom := Class false [CRange 97 122; CRange 48 57; CChar 45].
Definition SLUG : Re := Plus (One slug_char).

(** [PROJECT_CODE: /^[A-Z0-9-]+$/] *)
Definition code_char : Atom := Class false [CRange 65 90; CRange 48 57; CChar 45].
Definition PROJECT_CODE : Re := Plus (One code_char).

(** The [password] fields of [registerSchema] and [loginSchema]. *)
Definition register_password : Schema.ZodType :=
  Schema.ZString [Schema.Min 8 "Password must be at least 8 characters"].
Definition login_password : Schema.ZodType :=
  Schema.ZString [Schema.Min 6 "Password must be at least 6 characters"].
End Patterns.

Module PatternFacts.
Import Regex RegexFacts Patterns.

Definition every (a : Atom) (s : list Char) : Prop :=
  Forall (λ c, atom_has a c = true) s.
Definition some (a : Atom) (s : list Char) : Prop :=
  ∃ c, c ∈ s ∧ atom_has a c = true.

(** *** Slugs and project codes *)

(** X19. [SLUG] accepts exactly the non-empty strings of lower-case
    letters, digits and dashes, [PROJECT_CODE] exactly the non-empty
    strings of upper-case letters, digits and dashes.  A string that both
    accept holds digits and dashes only: no project code with a letter is
    a slug. *)
Theorem slugs_and_project_codes (s : list Char) :
  (test SLUG s = true <-> s ≠ [] ∧ every slug_char s)
  ∧ (test PROJECT_CODE s = true <-> s ≠ [] ∧ every code_char s)
  ∧ (test SLUG s = true -> test PROJECT_CODE s = true ->
     Forall (λ c, is_digit c = true ∨ c = 45%N) s).
Proof.
  assert (Hslug : test SLUG s = true <-> s ≠ [] ∧ every slug_char s).
  { rewrite (test_lang SLUG s eq_refl). apply lang_plus_atoms. }
  assert (Hcode : test PROJECT_CODE s = true <-> s ≠ [] ∧ every code_char s).
  { rewrite (test_lang PROJECT_CODE s eq_refl). apply lang_plus_atoms. }
  split; [exact Hslug|]. split; [exact Hcode|].
  intros H1 H2. apply Hslug in H1 as [_ H1]. apply Hcode in H2 as [_ H2].
  unfold every in *. rewrite Forall_forall in *. intros c Hc.
  specialize (H1 c Hc). specialize (H2 c Hc).
  cbn in H1, H2. unfold is_digit.
  destruct (N.leb_spec 97 c), (N.leb_spec c 122), (N.leb_spec 65 c),
    (N.leb_spec c 90), (N.leb_spec 48 c), (N.leb_spec c 57),
    (N.eqb_spec c 45); cbn in *; try discriminate; try lia; auto.
Qed.

(** *** E-mail addresses *)

(** What [EMAIL] matches: a local part, an at sign, and a domain with a
    point in it, none of the three parts empty and none holding white space
    or a further at sign. *)
Definition email_shape (s : list Char) : Prop :=
  ∃ local domain tld,
    s = local ++ 64%N :: domain ++ 46%N :: tld
    ∧ local ≠ [] ∧ domain ≠ [] ∧ tld ≠ []
    ∧ every email_char local ∧ every email_char domain ∧ every email_char tld.

Lemma email_char_has c :
  atom_has email_char c = true <-> is_whitespace c = false ∧ c ≠ 64%N.
Proof.
  unfold email_char. cbn [atom_has existsb item_has]. rewrite orb_false_r.
  destruct (is_whitespace c), (N.eqb_spec c 64); cbn;
    split; try (intros H; discriminate H);
    try (intros [H1 H2]; first [discriminate H1 | contradiction]);
    intros _; split; [reflexivity | assumption].
Qed.

(** X20. [EMAIL] accepts exactly the strings that consist of a local
    part, an at sign, a domain part, a point and a last part, where no
    part is empty and none holds white space or an at sign.  An accepted
    string therefore holds exactly one at sign and no white space at
    all. *)
Theorem email_pattern_shape (s : list Char) :
  (test EMAIL s = true <-> email_shape s)
  ∧ (test EMAIL s = true ->
     length (List.filter (N.eqb 64) s) = 1
     ∧ Forall (λ c, is_whitespace c = false) s).
Proof.
  assert (Hshape : test EMAIL s = true <-> email_shape s).
  { rewrite (test_lang EMAIL s eq_refl). unfold EMAIL, email_shape. split.
    - intros H.
      inversion H as [|? ? l r1 Hl H1| | | | | | |]; subst.
      inversion H1 as [|? ? at_ r2 Hat H2| | | | | | |]; subst.
      inversion H2 as [|? ? d r3 Hd H3| | | | | | |]; subst.
      inversion H3 as [|? ? pt t Hpt Ht| | | | | | |]; subst.
      inversion Hat as [? c Hc| | | | | | | |]; subst.
      inversion Hpt as [? c' Hc'| | | | | | | |]; subst.
      cbn in Hc, Hc'. apply N.eqb_eq in Hc as ->. apply N.eqb_eq in Hc' as ->.
      apply lang_plus_atoms in Hl as [? ?].
      apply lang_plus_atoms in Hd as [? ?].
      apply lang_plus_atoms in Ht as [? ?].
      exists l, d, t. repeat split; assumption.
    - intros (l & d & t & -> & Hl & Hd & Ht & Hel & Hed & Het).
      apply lang_seq; [apply lang_plus_atoms; split; assumption|].
      apply (lang_seq _ _ [64%N]); [apply lang_one; reflexivity|].
      apply lang_seq; [apply lang_plus_atoms; split; assumption|].
      apply (lang_seq _ _ [46%N]); [apply lang_one; reflexivity|].
      apply lang_plus_atoms; split; assumption. }
  split; [exact Hshape|].
  intros H. apply Hshape in H as (l & d & t & -> & _ & _ & _ & Hl & Hd & Ht).
  assert (Hnone : ∀ p, every email_char p -> List.filter (N.eqb 64) p = []).
  { intros p Hp. induction Hp as [|c p Hc _ IH]; [reflexivity|].
    cbn [List.filter]. apply email_char_has in Hc as [_ Hne].
    destruct (N.eqb_spec 64 c); [congruence | exact IH]. }
  assert (Hpoint : atom_has email_char 46 = true) by reflexivity.
  split.
  - rewrite List.filter_app. cbn [List.filter]. change (64 =? 64)%N with true.
    cbv iota. rewrite List.filter_app. cbn [List.filter].
    change (64 =? 46)%N with false. cbv iota.
    rewrite (Hnone _ Hl), (Hnone _ Hd), (Hnone _ Ht). reflexivity.
  - apply Forall_app. split.
    { eapply Forall_impl; [exact Hl|]. intros c Hc. apply email_char_has, Hc. }
    constructor; [reflexivity|]. apply Forall_app. split.
    { eapply Forall_impl; [exact Hd|]. intros c Hc. apply email_char_has, Hc. }
    constructor; [reflexivity|].
    eapply Forall_impl; [exact Ht|]. intros c Hc. apply email_char_has, Hc.
Qed.

(** *** Passwords *)

Lemma password_char_not_terminator c :
  atom_has password_char c = true -> atom_has Dot c = true.
Proof.
  intros H. cbn [atom_has]. apply negb_true_iff. unfold is_line_terminator.
  apply bool_decide_eq_false. intros Hin.
  repeat (apply elem_of_cons in Hin as [->|Hin]; [vm_compute in H; discriminate H|]).
  apply elem_of_nil in Hin. contradiction.
Qed.

(** A lookahead [(?=.*a)] succeeds when a character of [a] follows on
    the same line. *)
Lemma ahead_matches a s k :
  matches (ahead a) s k = true
  <-> (∃ pre c post, s = pre ++ c :: post ∧ every Dot pre ∧ atom_has a c = true)
      ∧ k s = true.
Proof.
  unfold ahead. cbn [matches]. rewrite andb_true_iff.
  pose proof (matches_agrees (Seq (Star (One Dot)) (One a)) eq_refl s (λ _, true))
    as Hm. cbn [matches] in Hm. rewrite Hm. clear Hm.
  split; intros [H Hk]; (split; [|exact Hk]).
  - destruct H as (s1 & s2 & -> & Hl & _).
    inversion Hl as [|? ? pre one Hpre Hone| | | | | | |]; subst.
    inversion Hone as [? c Hc| | | | | | | |]; subst.
    exists pre, c, s2. rewrite <- app_assoc. repeat split; [|exact Hc].
    apply lang_star_atoms, Hpre.
  - destruct H as (pre & c & post & -> & Hpre & Hc).
    exists (pre ++ [c]), post. rewrite <- app_assoc. repeat split.
    apply lang_seq; [apply lang_star_atoms, Hpre | apply lang_one, Hc].
Qed.

Lemma ahead_in_password a s :
  every password_char s ->
  ((∃ pre c post, s = pre ++ c :: post ∧ every Dot pre ∧ atom_has a c = true)
   <-> some a s).
Proof.
  intros Hall. split.
  - intros (pre & c & post & -> & _ & Hc). exists c. split; [|exact Hc].
    apply elem_of_app. right. apply list_elem_of_here.
  - intros (c & Hin & Hc). apply list_elem_of_split in Hin as (pre & post & ->).
    exists pre, c, post. repeat split; [|exact Hc].
    apply Forall_app in Hall as [Hpre _].
    eapply Forall_impl; [exact Hpre|]. apply password_char_not_terminator.
Qed.

(** X21. [PASSWORD] accepts exactly the strings of eight or more
    characters, all of them letters, digits or one of [@$!%*?&], that hold
    a lower-case letter, an upper-case letter and a digit; a special
    character is allowed but not required.  Every password it accepts
    passes the length rule of [registerSchema] (at least 8) and that of
    [loginSchema] (at least 6). *)
Theorem password_pattern_shape :
  (∀ s, test PASSWORD s = true
        <-> (8 <= length s)%nat ∧ every password_char s
            ∧ some lower_case s ∧ some upper_case s ∧ some digit s)
  ∧ (∀ is_cuid p (s : string),
       test PASSWORD (units s) = true ->
       Schema.parse_value is_cuid p register_password (JStr s) = []
       ∧ Schema.parse_value is_cuid p login_password (JStr s) = []).
Proof.
  assert (Hshape : ∀ s, test PASSWORD s = true
                        <-> (8 <= length s)%nat ∧ every password_char s
                            ∧ some lower_case s ∧ some upper_case s
                            ∧ some digit s).
  { intros s. unfold test, PASSWORD. cbn [matches].
    rewrite ahead_matches. cbv beta. rewrite ahead_matches. cbv beta.
    rewrite ahead_matches. cbv beta.
    change (at_least (matches (One password_char)) 8 s at_end)
      with (test (AtLeast 8 (One password_char)) s).
    rewrite (test_lang (AtLeast 8 (One password_char)) s eq_refl).
    rewrite lang_at_least_atoms. fold (every password_char s).
    split.
    - intros (Hl & Hu & Hd & Hlen & Hall).
      split; [exact Hlen|]. split; [exact Hall|].
      split; [apply (ahead_in_password _ _ Hall), Hl|].
      split; [apply (ahead_in_password _ _ Hall), Hu|].
      apply (ahead_in_password _ _ Hall), Hd.
    - intros (Hlen & Hall & Hl & Hu & Hd).
      split; [apply (ahead_in_password _ _ Hall), Hl|].
      split; [apply (ahead_in_password _ _ Hall), Hu|].
      split; [apply (ahead_in_password _ _ Hall), Hd|].
      split; assumption. }
  split; [exact Hshape|].
  intros is_cuid p s H. apply Hshape in H as (Hlen & _).
  assert (Hunits : length (units s) = String.length s).
  { unfold units. rewrite length_map. clear.
    induction s as [|c s IH]; [reflexivity|]. cbn. rewrite IH. reflexivity. }
  rewrite Hunits in Hlen.
  unfold register_password, login_password.
  cbn [Schema.parse_value map concat Schema.string_check app].
  destruct (Nat.ltb_spec (String.length s) 8); [lia|].
  destruct (Nat.ltb_spec (String.length s) 6); [lia|].
  split; reflexivity.
Qed.
End PatternFacts.

(* ===================================================================== *)
(** ** The shared validation package: cost items and categories *)
(* ===================================================================== *)

Module Schemas.
Import Schema.

(** [schema.partial()]: every field becomes optional. *)
Definition partial (schema : list ZodField) : list ZodField :=
  map (λ f, mkField (key f) (type_of f) true) schema.

(** [updateCostItemSchema = createCostItemSchema.partial()] *)
Definition updateCostItemSchema : list ZodField := partial createCostItemSchema.

(** [createCategorySchema = z.object({ ... })] *)
Definition createCategorySchema : list ZodField :=
  [ required "name" (ZString [Min 1 "Category name is required"]);
    required "code" (ZString [Min 1 "Category code is required"]);
    opt "description" (ZString []);
    opt "parentId" (ZString [Cuid "Invalid parent category ID"]) ].

(** [updateCategorySchema = createCategorySchema.partial()] *)
Definition updateCategorySchema : list ZodField := partial createCategorySchema.
End Schemas.

Module SchemaFacts.
Import Schema Schemas.

Section Parse.
Variable is_cuid : string -> bool.

Local Abbreviation issues := (issues_of is_cuid).
Local Abbreviation accepts := (safeParse_success is_cuid).
Local Abbreviation field_issues := (parse_field is_cuid).

(** The value a field reads: [undefined] for a missing key. *)
Definition read (input : JsObject) (k : string) : JsValue :=
  default JUndefined (input !! k).

Lemma accepts_fields schema input :
  accepts schema input = true <-> Forall (λ f, field_issues input f = []) schema.
Proof.
  unfold safeParse_success, issues_of. rewrite bool_decide_eq_true.
  induction schema as [|f schema IH]; cbn [map concat].
  - split; [constructor | reflexivity].
  - split.
    + intros H. apply app_eq_nil in H as [Hf Hrest].
      constructor; [exact Hf | apply IH, Hrest].
    + intros H. inversion H as [|? ? Hf Hrest]; subst.
      rewrite Hf. apply IH, Hrest.
Qed.

(** A field made optional reports what it reported before, or nothing. *)
Lemma optional_field input f :
  field_issues input (mkField (key f) (type_of f) true) = field_issues input f
  ∨ (field_issues input (mkField (key f) (type_of f) true) = []
     ∧ read input (key f) = JUndefined).
Proof.
  unfold parse_field, read. cbn [key type_of optional].
  destruct (default JUndefined (input !! key f)); auto.
Qed.

(** X22. A schema made [partial] is weaker than the schema it was made
    from and differs from it on missing fields only: it reports a sublist
    of the issues, accepts every input the full schema accepts, accepts the
    empty object, and still reports every issue of a field that is present.
    So [updateCostItemSchema] rejects a quantity that is not positive like
    [createCostItemSchema] does, and [updateCategorySchema] accepts an
    update of the description alone. *)
Theorem partial_schema_is_weaker_on_missing_fields_only :
  (∀ schema input,
     issues (partial schema) input `sublist_of` issues schema input
     ∧ (accepts schema input = true -> accepts (partial schema) input = true))
  ∧ (∀ schema, accepts (partial schema) ∅ = true)
  ∧ (∀ schema input,
       (∀ f, f ∈ schema -> read input (key f) ≠ JUndefined) ->
       issues (partial schema) input = issues schema input)
  ∧ (∀ input n,
       input !! "quantity" = Some (JNum n) -> num_le_zero n = true ->
       mkZodIssue "too_small" ["quantity"] "Quantity must be positive"
         ∈ issues updateCostItemSchema input)
  ∧ (∀ s, accepts updateCategorySchema {[ "description" := JStr s ]} = true).
Proof.
  assert (Hsub : ∀ schema input,
             issues (partial schema) input `sublist_of` issues schema input).
  { intros schema input. unfold issues_of, partial.
    induction schema as [|f schema IH]; [constructor|].
    cbn [map concat]. apply sublist_app; [|exact IH].
    destruct (optional_field input f) as [->|[-> _]];
      [reflexivity | apply sublist_nil_l]. }
  split; [|split; [|split; [|split]]].
  - intros schema input. split; [apply Hsub|].
    unfold safeParse_success. rewrite !bool_decide_eq_true. intros Hok.
    specialize (Hsub schema input). rewrite Hok in Hsub.
    apply sublist_nil_r in Hsub. exact Hsub.
  - intros schema. apply accepts_fields. unfold partial.
    apply Forall_map, Forall_forall. intros f _. reflexivity.
  - intros schema input Hpresent. unfold issues_of, partial.
    induction schema as [|f schema IH]; [reflexivity|].
    cbn [map concat]. rewrite IH.
    + destruct (optional_field input f) as [->|[_ Hundef]]; [reflexivity|].
      exfalso. apply (Hpresent f); [apply list_elem_of_here | exact Hundef].
    + intros f' Hf'. apply Hpresent, list_elem_of_further, Hf'.
  - intros input n Hq Hn. unfold updateCostItemSchema, partial, issues_of.
    cbn [createCostItemSchema map concat].
    do 4 (apply elem_of_app; right). apply elem_of_app. left.
    unfold parse_field. cbn [key type_of optional required]. rewrite Hq.
    cbn [default]. destruct n as [|neg|q]; try discriminate Hn.
    + cbn. cbn in Hn. rewrite Hn. apply list_elem_of_here.
    + cbn. cbn in Hn. rewrite Hn. apply list_elem_of_here.
  - intros s. apply accepts_fields. unfold updateCategorySchema, partial.
    cbn [createCategorySchema map].
    repeat (constructor; [reflexivity|]). constructor.
Qed.

(** *** What the cost-item schema accepts *)

(** A required string field of at least [n] characters. *)
Definition is_string_of (n : nat) (v : JsValue) : Prop :=
  ∃ s, v = JStr s ∧ (n <= String.length s)%nat.

(** An optional string field: missing, or any string. *)
Definition is_optional_string (v : JsValue) : Prop :=
  v = JUndefined ∨ ∃ s, v = JStr s.

(** A number that is neither NaN nor [<= 0]. *)
Definition is_positive (v : JsValue) : Prop :=
  ∃ n, v = JNum n ∧ n ≠ NaN ∧ num_le_zero n = false.

Definition is_one_of (values : list string) (v : JsValue) : Prop :=
  ∃ s, v = JStr s ∧ s ∈ values.

Definition is_cuid_string (v : JsValue) : Prop :=
  ∃ s, v = JStr s ∧ is_cuid s = true.

Lemma required_min k n msg input :
  field_issues input (required k (ZString [Min n msg])) = []
  <-> is_string_of n (read input k).
Proof.
  unfold parse_field, read, is_string_of. cbn [key type_of optional required].
  destruct (default JUndefined (input !! k)) as [| | | |s];
    try (split; [intros H; discriminate H | intros (s' & H & _); discriminate H]).
  cbn [parse_value map concat string_check]. rewrite app_nil_r.
  destruct (Nat.ltb_spec (String.length s) n) as [Hlt|Hge].
  - split; [intros H; discriminate H|]. intros (s' & [= <-] & Hle). lia.
  - split; [|reflexivity]. intros _. exists s. split; [reflexivity | assumption].
Qed.

Lemma optional_string k input :
  field_issues input (opt k (ZString [])) = []
  <-> is_optional_string (read input k).
Proof.
  unfold parse_field, read, is_optional_string. cbn [key type_of optional opt].
  destruct (default JUndefined (input !! k)) as [| | | |s]; cbn.
  - split; [left; reflexivity | reflexivity].
  - split; [intros H; discriminate H | intros [H|(s' & H)]; discriminate H].
  - split; [intros H; discriminate H | intros [H|(s' & H)]; discriminate H].
  - split; [intros H; discriminate H | intros [H|(s' & H)]; discriminate H].
  - split; [right; eexists; reflexivity | reflexivity].
Qed.

Lemma required_enum k values input :
  field_issues input (required k (ZEnum values)) = []
  <-> is_one_of values (read input k).
Proof.
  unfold parse_field, read, is_one_of. cbn [key type_of optional required].
  destruct (default JUndefined (input !! k)) as [| | | |s];
    try (split; [intros H; discriminate H | intros (s' & H & _); discriminate H]).
  cbn. destruct (decide (s ∈ values)) as [Hin|Hout].
  - rewrite bool_decide_eq_true_2 by exact Hin.
    split; [|reflexivity]. intros _. exists s. split; [reflexivity | exact Hin].
  - rewrite bool_decide_eq_false_2 by exact Hout.
    split; [intros H; discriminate H|]. intros (s' & [= <-] & Hin). contradiction.
Qed.

Lemma required_positive k msg input :
  field_issues input (required k (ZNumber [Positive msg])) = []
  <-> is_positive (read input k).
Proof.
  unfold parse_field, read, is_positive. cbn [key type_of optional required].
  destruct (default JUndefined (input !! k)) as [| | |n|];
    try (split; [intros H; discriminate H | intros (n' & H & _); discriminate H]).
  destruct n as [|neg|q]; cbn.
  - split; [intros H; discriminate H|]. intros (n' & [= <-] & Hn & _). congruence.
  - destruct neg; cbn.
    + split; [intros H; discriminate H|].
      intros (n' & [= <-] & _ & Hn). discriminate Hn.
    + split; [|reflexivity]. intros _. eexists. repeat split. discriminate.
  - destruct (Qle_bool q 0) eqn:Hq; cbn.
    + split; [intros H; discriminate H|].
      intros (n' & [= <-] & _ & Hn). cbn in Hn. congruence.
    + split; [|reflexivity]. intros _. eexists. repeat split; [discriminate|].
      cbn. exact Hq.
Qed.

Lemma required_cuid k msg input :
  field_issues input (required k (ZString [Cuid msg])) = []
  <-> is_cuid_string (read input k).
Proof.
  unfold parse_field, read, is_cuid_string. cbn [key type_of optional required].
  destruct (default JUndefined (input !! k)) as [| | | |s];
    try (split; [intros H; discriminate H | intros (s' & H & _); discriminate H]).
  cbn. destruct (is_cuid s) eqn:Hc; cbn.
  - split; [|reflexivity]. intros _. exists s. split; [reflexivity | exact Hc].
  - split; [intros H; discriminate H|]. intros (s' & [= <-] & Hc'). congruence.
Qed.

Lemma optional_cuid k msg input :
  field_issues input (opt k (ZString [Cuid msg])) = []
  <-> read input k = JUndefined ∨ is_cuid_string (read input k).
Proof.
  unfold parse_field, read, is_cuid_string. cbn [key type_of optional opt].
  destruct (default JUndefined (input !! k)) as [| | | |s]; cbn.
  - split; [left; reflexivity | reflexivity].
  - split; [intros H; discriminate H|]. intros [H|(s' & H & _)]; discriminate H.
  - split; [intros H; discriminate H|]. intros [H|(s' & H & _)]; discriminate H.
  - split; [intros H; discriminate H|]. intros [H|(s' & H & _)]; discriminate H.
  - destruct (is_cuid s) eqn:Hc; cbn.
    + split; [|reflexivity]. intros _. right. exists s. split; [reflexivity | exact Hc].
    + split; [intros H; discriminate H|].
      intros [H|(s' & [= <-] & Hc')]; [discriminate H | congruence].
Qed.

(** X23. [createCostItemSchema] accepts an object exactly when its name
    and unit are non-empty strings, its type is one of the five cost types,
    its quantity and unit cost are numbers greater than 0, its category id
    is a cuid, its phase id is missing or a cuid, and its description, code
    and notes are missing or strings.  [null] is accepted for no field, and
    keys the schema does not name are not looked at. *)
Theorem createCostItemSchema_accepts (input : JsObject) :
  accepts createCostItemSchema input = true
  <-> is_string_of 1 (read input "name")
      ∧ is_optional_string (read input "description")
      ∧ is_optional_string (read input "code")
      ∧ is_one_of ["MATERIAL"; "LABOR"; "EQUIPMENT"; "SUBCONTRACTOR"; "OTHER"]
                  (read input "type")
      ∧ is_positive (read input "quantity")
      ∧ is_string_of 1 (read input "unit")
      ∧ is_positive (read input "unitCost")
      ∧ is_cuid_string (read input "categoryId")
      ∧ (read input "phaseId" = JUndefined ∨ is_cuid_string (read input "phaseId"))
      ∧ is_optional_string (read input "notes").
Proof.
  rewrite accepts_fields. unfold createCostItemSchema.
  rewrite !Forall_cons, Forall_nil.
  rewrite !required_min, !optional_string, required_enum, !required_positive,
    required_cuid, optional_cuid.
  tauto.
Qed.
End Parse.
End SchemaFacts.

(* ===================================================================== *)
(** ** MigrationMonitor: the migration report *)
(* ===================================================================== *)

Module Report.

(** What [getMigration] resolves to, as far as the report reads it. *)
Record Migration (Status Time Resource : Type) : Type := mkMigration {
  status : Status;
  startTime : Time;
  endTime : Time;
  estimatedRecords : JsValue;
  processedRecords : JsValue;
  successfulRecords : JsValue;
  failedRecords : JsValue;
  warningCount : JsValue;
  peakMemoryUsage : Resource;
  totalCpuTime : Resource
}.
Arguments mkMigration {Status Time Resource}.
Arguments status {Status Time Resource}.
Arguments startTime {Status Time Resource}.
Arguments endTime {Status Time Resource}.
Arguments estimatedRecords {Status Time Resource}.
Arguments processedRecords {Status Time Resource}.
Arguments successfulRecords {Status Time Resource}.
Arguments failedRecords {Status Time Resource}.
Arguments warningCount {Status Time Resource}.
Arguments peakMemoryUsage {Status Time Resource}.
Arguments totalCpuTime {Status Time Resource}.

(** One entry of the migration log. *)
Record LogEntry (Payload : Type) : Type := mkLog {
  level : string;
  payload : Payload
}.
Arguments mkLog {Payload}.
Arguments level {Payload}.
Arguments payload {Payload}.

Record Summary : Type := mkSummary {
  totalRecords : JsValue;
  summary_processedRecords : JsValue;
  summary_successfulRecords : JsValue;
  summary_failedRecords : JsValue;
  summary_warningCount : JsValue
}.

Record Performance (Rate Resource : Type) : Type := mkPerformance {
  avgRecordsPerSecond : Rate;
  perf_peakMemoryUsage : Resource;
  perf_totalCpuTime : Resource
}.
Arguments mkPerformance {Rate Resource}.
Arguments avgRecordsPerSecond {Rate Resource}.
Arguments perf_peakMemoryUsage {Rate Resource}.
Arguments perf_totalCpuTime {Rate Resource}.

Record MigrationReport (Status Time Duration Resource Rate Payload : Type)
  : Type := mkReport {
  migrationId : string;
  report_status : Status;
  report_startTime : Time;
  report_endTime : Time;
  duration : Duration;
  summary : Summary;
  errors : list (LogEntry Payload);
  warnings : list (LogEntry Payload);
  performance : Performance Rate Resource
}.
Arguments mkReport {Status Time Duration Resource Rate Payload}.
Arguments migrationId {Status Time Duration Resource Rate Payload}.
Arguments report_status {Status Time Duration Resource Rate Payload}.
Arguments report_startTime {Status Time Duration Resource Rate Payload}.
Arguments report_endTime {Status Time Duration Resource Rate Payload}.
Arguments duration {Status Time Duration Resource Rate Payload}.
Arguments summary {Status Time Duration Resource Rate Payload}.
Arguments errors {Status Time Duration Resource Rate Payload}.
Arguments warnings {Status Time Duration Resource Rate Payload}.
Arguments performance {Status Time Duration Resource Rate Payload}.

Section Monitor.
Context {W Status Time Duration Resource Rate Payload : Type}.
(** Methods the sources call but do not define. *)
Variable getMigration : string -> Async W (Migration Status Time Resource).
Variable getMigrationLogs : string -> Async W (list (LogEntry Payload)).
Variable calculateProcessingRate : Migration Status Time Resource -> Rate.
(** [migration.endTime - migration.startTime], the language's subtraction. *)
Variable minus : Time -> Time -> Duration.

Inductive Call : Type :=
  | GetMigration (migrationId : string)
                 (o : Outcome (Migration Status Time Resource))
  | GetMigrationLogs (migrationId : string)
                     (o : Outcome (list (LogEntry Payload))).

(** [logs.filter(log => log.level === l)] *)
Definition with_level (l : string) (logs : list (LogEntry Payload))
  : list (LogEntry Payload) :=
  List.filter (λ log, String.eqb (level log) l) logs.

Definition generateMigrationReport (migrationId : string)
  : Eff W Call (MigrationReport Status Time Duration Resource Rate Payload) :=
  let! migration := call (GetMigration migrationId) (getMigration migrationId) in
  let! logs := call (GetMigrationLogs migrationId) (getMigrationLogs migrationId) in
  ret (mkReport migrationId
         (status migration)
         (startTime migration)
         (endTime migration)
         (minus (endTime migration) (startTime migration))
         (mkSummary (estimatedRecords migration) (processedRecords migration)
                    (successfulRecords migration) (failedRecords migration)
                    (warningCount migration))
         (with_level "error" logs)
         (with_level "warning" logs)
         (mkPerformance (calculateProcessingRate migration)
                        (peakMemoryUsage migration) (totalCpuTime migration))).
End Monitor.
End Report.

Module ReportFacts.
Import Report.

Section Monitor.
Context {W Status Time Duration Resource Rate Payload : Type}.
Variable getMigration : string -> Async W (Migration Status Time Resource).
Variable getMigrationLogs : string -> Async W (list (LogEntry Payload)).
Variable calculateProcessingRate : Migration Status Time Resource -> Rate.
Variable minus : Time -> Time -> Duration.

Local Abbreviation report :=
  (generateMigrationReport getMigration getMigrationLogs
     calculateProcessingRate minus).

Lemma with_level_elem l (logs : list (LogEntry Payload)) log :
  log ∈ with_level l logs <-> log ∈ logs ∧ level log = l.
Proof.
  unfold with_level. rewrite list_elem_of_In, filter_In, <- list_elem_of_In.
  rewrite String.eqb_eq. reflexivity.
Qed.

Lemma with_level_sublist l (logs : list (LogEntry Payload)) :
  with_level l logs `sublist_of` logs.
Proof.
  unfold with_level. induction logs as [|log logs IH]; [constructor|].
  cbn [List.filter]. destruct (String.eqb _ _); constructor; exact IH.
Qed.

Lemma levels_length (logs : list (LogEntry Payload)) :
  (length (with_level "error" logs) + length (with_level "warning" logs)
   + length (List.filter (λ log, negb (String.eqb (level log) "error")
                                 && negb (String.eqb (level log) "warning")) logs)
   = length logs)%nat.
Proof.
  unfold with_level. induction logs as [|log logs IH]; [reflexivity|].
  cbn [List.filter].
  destruct (String.eqb_spec (level log) "error") as [He|He].
  - rewrite He. cbn. lia.
  - destruct (String.eqb_spec (level log) "warning"); cbn; lia.
Qed.

(** X24. A migration report is built from the migration record and its
    log, fetched in this order; when one of the two cannot be fetched the
    report rejects with that error, and the log is not fetched when the
    record could not be.  The report lists the log entries of level
    'error' and those of level 'warning', each list in log order; an entry
    of any other level is in neither list and no entry is in both.  The
    total of the summary is the estimated record count of the migration,
    and the failure count is the migration's own counter, not the number
    of error entries. *)
Theorem migration_report_splits_the_log_by_level (mid : string) (w : W) :
  let run := report mid w in
  (∀ r, outcome_of run = Resolved r ->
     ∃ migration logs,
       trace_of run = [GetMigration mid (Resolved migration);
                       GetMigrationLogs mid (Resolved logs)]
       ∧ migrationId r = mid
       ∧ duration r = minus (endTime migration) (startTime migration)
       ∧ totalRecords (summary r) = estimatedRecords migration
       ∧ summary_failedRecords (summary r) = failedRecords migration
       ∧ (∀ log, log ∈ errors r <-> log ∈ logs ∧ level log = "error")
       ∧ (∀ log, log ∈ warnings r <-> log ∈ logs ∧ level log = "warning")
       ∧ errors r `sublist_of` logs
       ∧ warnings r `sublist_of` logs
       ∧ (∀ log, ¬ (log ∈ errors r ∧ log ∈ warnings r))
       ∧ (length (errors r) + length (warnings r) <= length logs)%nat)
  ∧ (∀ e, outcome_of run = Rejected e ->
          trace_of run = [GetMigration mid (Rejected e)]
          ∨ ∃ migration,
              trace_of run = [GetMigration mid (Resolved migration);
                              GetMigrationLogs mid (Rejected e)]).
Proof.
  intros run. unfold run, generateMigrationReport.
  destruct (getMigration mid w) as [[migration|e] w1] eqn:Hm.
  2:{ erewrite bind_call_rejected by exact Hm. run_simpl. split.
      - intros r Hr. discriminate Hr.
      - intros e' [= <-]. left. reflexivity. }
  erewrite bind_call_resolved by exact Hm. run_simpl.
  destruct (getMigrationLogs mid w1) as [[logs|e] w2] eqn:Hl.
  2:{ erewrite bind_call_rejected by exact Hl. run_simpl. split.
      - intros r Hr. discriminate Hr.
      - intros e' [= <-]. right. exists migration. reflexivity. }
  erewrite bind_call_resolved by exact Hl. run_simpl. split.
  - intros r [= <-]. exists migration, logs. cbn.
    split; [reflexivity|]. split; [reflexivity|]. split; [reflexivity|].
    split; [reflexivity|]. split; [reflexivity|].
    split; [apply with_level_elem|]. split; [apply with_level_elem|].
    split; [apply with_level_sublist|]. split; [apply with_level_sublist|].
    split.
    + intros log [He Hw]. apply with_level_elem in He as [_ He].
      apply with_level_elem in Hw as [_ Hw]. congruence.
    + pose proof (levels_length logs). lia.
  - intros e Hr. discriminate Hr.
Qed.
End Monitor.
End ReportFacts.

(* ===================================================================== *)
(** ** WebhookHandler *)
(* ===================================================================== *)

Module Webhook.

(** A [WebhookConfig]: what the handler reads of it, with the two fields
    that [registerWebhook] sets. *)
Record WebhookConfig (Secret Mapping Entity : Type) : Type := mkConfig {
  sourceSystem : string;
  dataMapping : Mapping;
  targetEntity : Entity;
  endpoint : option string;
  secret : option Secret
}.
Arguments mkConfig {Secret Mapping Entity}.
Arguments sourceSystem {Secret Mapping Entity}.
Arguments dataMapping {Secret Mapping Entity}.
Arguments targetEntity {Secret Mapping Entity}.
Arguments endpoint {Secret Mapping Entity}.
Arguments secret {Secret Mapping Entity}.

(** The object handed to [logWebhookEvent]. *)
Record WebhookEvent (EventType Date : Type) : Type := mkEvent {
  webhookId : string;
  event_sourceSystem : string;
  eventType : EventType;
  recordsProcessed : nat;
  timestamp : Date
}.
Arguments mkEvent {EventType Date}.
Arguments webhookId {EventType Date}.
Arguments event_sourceSystem {EventType Date}.
Arguments eventType {EventType Date}.
Arguments recordsProcessed {EventType Date}.
Arguments timestamp {EventType Date}.

(** The handler's state: the private map [webhookEndpoints], and the rest
    of the world, which is all that the other methods see. *)
Record State (W Secret Mapping Entity : Type) : Type := mkState {
  world : W;
  webhookEndpoints : gmap string (WebhookConfig Secret Mapping Entity)
}.
Arguments mkState {W Secret Mapping Entity}.
Arguments world {W Secret Mapping Entity}.
Arguments webhookEndpoints {W Secret Mapping Entity}.

Section Handler.
Context {W Secret Mapping Entity Payload Signature Rec EventType Date : Type}.
Local Abbreviation Config := (WebhookConfig Secret Mapping Entity).
Local Abbreviation St := (State W Secret Mapping Entity).
(** Collaborators the sources call but do not define. *)
Variable generateId : W -> string * W.
Variable generateWebhookSecret : W -> Secret * W.
Variable verifySignature : Payload -> Signature -> option Secret -> bool.
Variable transformWebhookData : Payload -> Mapping -> Async W (list Rec).
Variable applyWebhookChanges : list Rec -> Entity -> Async W unit.
Variable logWebhookEvent : WebhookEvent EventType Date -> Async W unit.
(** [payload.eventType], of a payload that is an object. *)
Variable payload_eventType : Payload -> EventType.
(** [new Date()]. *)
Variable now : W -> Date.

Inductive Call : Type :=
  | TransformWebhookData (payload : Payload) (mapping : Mapping)
                         (o : Outcome (list Rec))
  | ApplyWebhookChanges (data : list Rec) (entity : Entity) (o : Outcome unit)
  | LogWebhookEvent (event : WebhookEvent EventType Date) (o : Outcome unit).

(** A synchronous method, run on the world part of the state. *)
Definition on_world {A} (f : W -> A * W) : St -> A * St :=
  λ st, let '(a, w) := f (world st) in (a, mkState w (webhookEndpoints st)).

(** An awaited method, run on the world part of the state. *)
Definition awaited {A} (h : Async W A) : Async St A :=
  λ st, let '(o, w) := h (world st) in (o, mkState w (webhookEndpoints st)).

(** [this.webhookEndpoints.set(id, config)] *)
Definition set_endpoint (id : string) (config : Config) : St -> unit * St :=
  λ st, (tt, mkState (world st) (<[ id := config ]> (webhookEndpoints st))).

Definition registerWebhook (config : Config) : Eff St Call string :=
  let! webhookId := sync (on_world generateId) in
  let endpoint := "/webhooks/" +:+ webhookId in
  let! secret := sync (on_world generateWebhookSecret) in
  sync (set_endpoint webhookId
          (mkConfig (sourceSystem config) (dataMapping config)
                    (targetEntity config) (Some endpoint) (Some secret))) ;;!
  ret endpoint.

Definition handleWebhook (webhookId : string) (payload : Payload)
    (signature : Signature) : Eff St Call unit :=
  let! found := peek (λ st, webhookEndpoints st !! webhookId) in
  match found with
  | None => throw (mkError "Invalid webhook endpoint" [])
  | Some config =>
      (* Verify signature *)
      if negb (verifySignature payload signature (secret config))
      then throw (mkError "Invalid webhook signature" [])
      else
        (* Process webhook data *)
        let! transformedData :=
          call (TransformWebhookData payload (dataMapping config))
               (awaited (transformWebhookData payload (dataMapping config))) in
        (* Apply to local system *)
        call (ApplyWebhookChanges transformedData (targetEntity config))
             (awaited (applyWebhookChanges transformedData (targetEntity config))) ;;!
        (* Log webhook event *)
        let! timestamp := peek (λ st, now (world st)) in
        let event := mkEvent webhookId (sourceSystem config)
                             (payload_eventType payload)
                             (length transformedData) timestamp in
        call (LogWebhookEvent event) (awaited (logWebhookEvent event))
  end.
End Handler.
End Webhook.

Module WebhookFacts.
Import Webhook.

Section Handler.
Context {W Secret Mapping Entity Payload Signature Rec EventType Date : Type}.
Local Abbreviation Config := (WebhookConfig Secret Mapping Entity).
Local Abbreviation St := (State W Secret Mapping Entity).
Variable generateId : W -> string * W.
Variable generateWebhookSecret : W -> Secret * W.
Variable verifySignature : Payload -> Signature -> option Secret -> bool.
Variable transformWebhookData : Payload -> Mapping -> Async W (list Rec).
Variable applyWebhookChanges : list Rec -> Entity -> Async W unit.
Variable logWebhookEvent : WebhookEvent EventType Date -> Async W unit.
Variable payload_eventType : Payload -> EventType.
Variable now : W -> Date.

Local Abbreviation Ev :=
  (Call (Mapping := Mapping) (Entity := Entity) (Payload := Payload)
        (Rec := Rec) (EventType := EventType) (Date := Date)).
Local Abbreviation register :=
  (registerWebhook (Payload := Payload) (Rec := Rec) (EventType := EventType)
     (Date := Date) generateId generateWebhookSecret).
Local Abbreviation handle :=
  (handleWebhook verifySignature transformWebhookData applyWebhookChanges
     logWebhookEvent payload_eventType now).

(** What a run of [registerWebhook] is. *)
Lemma registerWebhook_run (config : Config) (st : St) id w1 sec w2 :
  generateId (world st) = (id, w1) ->
  generateWebhookSecret w1 = (sec, w2) ->
  register config st
  = (Resolved ("/webhooks/" +:+ id),
     mkState w2
       (<[ id := mkConfig (sourceSystem config) (dataMapping config)
                          (targetEntity config) (Some ("/webhooks/" +:+ id))
                          (Some sec) ]> (webhookEndpoints st)),
     []).
Proof.
  intros Hid Hs. unfold registerWebhook.
  erewrite bind_sync by (unfold on_world; rewrite Hid; reflexivity).
  erewrite bind_sync by (unfold on_world; cbn [world]; rewrite Hs; reflexivity).
  erewrite bind_sync by reflexivity. reflexivity.
Qed.


(** The shapes a run of [handleWebhook] can take. *)
Inductive run_shape (st : St) (id : string) (payload : Payload)
    (signature : Signature) : Outcome unit -> list Ev -> Prop :=
  | unknown_endpoint :
      webhookEndpoints st !! id = None ->
      run_shape st id payload signature
        (Rejected (mkError "Invalid webhook endpoint" [])) []
  | invalid_signature config :
      webhookEndpoints st !! id = Some config ->
      verifySignature payload signature (secret config) = false ->
      run_shape st id payload signature
        (Rejected (mkError "Invalid webhook signature" [])) []
  | transform_rejects config e :
      webhookEndpoints st !! id = Some config ->
      verifySignature payload signature (secret config) = true ->
      run_shape st id payload signature (Rejected e)
        [TransformWebhookData payload (dataMapping config) (Rejected e)]
  | apply_rejects config data e :
      webhookEndpoints st !! id = Some config ->
      verifySignature payload signature (secret config) = true ->
      run_shape st id payload signature (Rejected e)
        [TransformWebhookData payload (dataMapping config) (Resolved data);
         ApplyWebhookChanges data (targetEntity config) (Rejected e)]
  | handled config data date o :
      webhookEndpoints st !! id = Some config ->
      verifySignature payload signature (secret config) = true ->
      run_shape st id payload signature o
        [TransformWebhookData payload (dataMapping config) (Resolved data);
         ApplyWebhookChanges data (targetEntity config) (Resolved tt);
         LogWebhookEvent
           (mkEvent id (sourceSystem config) (payload_eventType payload)
                    (length data) date) o].

Lemma webhook_awaited_run {A} (h : Async W A) (st : St) :
  awaited h st
  = ((h (world st)).1, mkState (h (world st)).2 (webhookEndpoints st)).
Proof. unfold awaited. destruct (h (world st)). reflexivity. Qed.

Lemma handleWebhook_run_shape id payload signature (st : St) :
  run_shape st id payload signature
    (outcome_of (handle id payload signature st))
    (trace_of (handle id payload signature st))
  ∧ webhookEndpoints (world_of (handle id payload signature st))
    = webhookEndpoints st.
Proof.
  unfold handleWebhook. rewrite bind_peek.
  destruct (webhookEndpoints st !! id) as [config|] eqn:Hget.
  2:{ split; [apply unknown_endpoint; exact Hget | reflexivity]. }
  destruct (verifySignature payload signature (secret config)) eqn:Hsig;
    cbn [negb].
  2:{ split; [eapply invalid_signature; eassumption | reflexivity]. }
  pose proof (webhook_awaited_run (transformWebhookData payload (dataMapping config)) st)
    as Ht.
  destruct (transformWebhookData payload (dataMapping config) (world st))
    as [[data|e] w1]; cbn [fst snd] in Ht.
  2:{ erewrite bind_call_rejected by exact Ht. run_simpl.
      split; [eapply transform_rejects; eassumption | reflexivity]. }
  erewrite bind_call_resolved by exact Ht. run_simpl.
  set (st1 := mkState w1 (webhookEndpoints st)).
  pose proof (webhook_awaited_run (applyWebhookChanges data (targetEntity config)) st1)
    as Ha.
  destruct (applyWebhookChanges data (targetEntity config) (world st1))
    as [[[]|e] w2]; cbn [fst snd] in Ha.
  2:{ erewrite bind_call_rejected by exact Ha. run_simpl.
      split; [eapply apply_rejects; eassumption | reflexivity]. }
  erewrite bind_call_resolved by exact Ha. run_simpl.
  rewrite bind_peek. cbn [world webhookEndpoints].
  set (event := mkEvent _ _ _ _ _).
  unfold call. rewrite webhook_awaited_run. cbn [world webhookEndpoints]. run_simpl.
  split; [eapply handled; eassumption | reflexivity].
Qed.

Lemma handle_unknown id payload signature (st : St) :
  webhookEndpoints st !! id = None ->
  handle id payload signature st
  = (Rejected (mkError "Invalid webhook endpoint" []), st, []).
Proof.
  intros Hget. unfold handleWebhook. rewrite bind_peek, Hget.
  destruct st. reflexivity.
Qed.

Lemma handle_invalid id payload signature (st : St) config :
  webhookEndpoints st !! id = Some config ->
  verifySignature payload signature (secret config) = false ->
  handle id payload signature st
  = (Rejected (mkError "Invalid webhook signature" []), st, []).
Proof.
  intros Hget Hsig. unfold handleWebhook. rewrite bind_peek, Hget, Hsig.
  destruct st. reflexivity.
Qed.

(** X26. A webhook call changes nothing unless it names a registered
    endpoint and carries a signature that verifies against the secret
    stored for that endpoint.  For an unknown id it rejects with 'Invalid
    webhook endpoint', for a signature that does not verify with 'Invalid
    webhook signature', in both cases before any helper is called.
    Changes are applied only to the target entity of the stored
    configuration and only with the data that [transformWebhookData]
    resolved to for the stored mapping; the logged event counts those
    records.  Handling a call never alters the registered endpoints. *)
Theorem webhook_changes_need_a_registered_endpoint_and_a_valid_signature
    (id : string) (payload : Payload) (signature : Signature) (st : St) :
  let run := handle id payload signature st in
  (webhookEndpoints st !! id = None ->
   run = (Rejected (mkError "Invalid webhook endpoint" []), st, []))
  ∧ (∀ config,
       webhookEndpoints st !! id = Some config ->
       verifySignature payload signature (secret config) = false ->
       run = (Rejected (mkError "Invalid webhook signature" []), st, []))
  ∧ (∀ data entity o,
       ApplyWebhookChanges data entity o ∈ trace_of run ->
       ∃ config,
         webhookEndpoints st !! id = Some config
         ∧ verifySignature payload signature (secret config) = true
         ∧ entity = targetEntity config
         ∧ TransformWebhookData payload (dataMapping config) (Resolved data)
             ∈ trace_of run)
  ∧ (∀ event o,
       LogWebhookEvent event o ∈ trace_of run ->
       outcome_of run = o
       ∧ webhookId event = id
       ∧ ∃ data entity,
           ApplyWebhookChanges data entity (Resolved tt) ∈ trace_of run
           ∧ recordsProcessed event = length data)
  ∧ webhookEndpoints (world_of run) = webhookEndpoints st.
Proof.
  intros run. split; [|split].
  - apply handle_unknown.
  - apply handle_invalid.
  - destruct (handleWebhook_run_shape id payload signature st) as [Hs Hmap].
    fold run in Hs, Hmap. split; [|split; [|exact Hmap]].
    + intros data entity o Hin.
      destruct Hs as [Hget|config Hget Hsig|config e Hget Hsig
                     |config d e Hget Hsig|config d date o' Hget Hsig];
        mem_cases Hin; injection Hin as -> -> ->;
        exists config; repeat split; try assumption; in_list.
    + intros event o Hin.
      destruct Hs as [Hget|config Hget Hsig|config e Hget Hsig
                     |config d e Hget Hsig|config d date o' Hget Hsig];
        mem_cases Hin. injection Hin as -> ->.
      split; [reflexivity|]. split; [reflexivity|].
      exists d, (targetEntity config). split; [in_list | reflexivity].
Qed.

(** X27. Registration and handling fit together: after a webhook has been
    registered, a call for the id of the returned endpoint is checked
    against the secret generated at registration, and when that signature
    verifies and the helpers resolve, the payload is transformed with the
    mapping of the registered configuration and applied to its target
    entity. *)
Theorem registered_webhook_is_handled_with_its_own_secret
    (config : Config) (payload : Payload) (signature : Signature) (st : St) :
  let id := (generateId (world st)).1 in
  let sec := (generateWebhookSecret (generateId (world st)).2).1 in
  let st' := world_of (register config st) in
  (verifySignature payload signature (Some sec) = false ->
   handle id payload signature st'
   = (Rejected (mkError "Invalid webhook signature" []), st', []))
  ∧ (verifySignature payload signature (Some sec) = true ->
     ∃ o, head (trace_of (handle id payload signature st'))
          = Some (TransformWebhookData payload (dataMapping config) o)
          ∧ ∀ data entity o',
              ApplyWebhookChanges data entity o'
                ∈ trace_of (handle id payload signature st') ->
              entity = targetEntity config).
Proof.
  intros id sec st'. subst id sec st'.
  destruct (generateId (world st)) as [id w1] eqn:Hid. cbn [fst snd].
  destruct (generateWebhookSecret w1) as [sec w2] eqn:Hs. cbn [fst].
  rewrite (registerWebhook_run config st id w1 sec w2 Hid Hs).
  rewrite world_of_triple. set (st' := mkState w2 _).
  assert (Hget : webhookEndpoints st' !! id
                 = Some (mkConfig (sourceSystem config) (dataMapping config)
                           (targetEntity config) (Some ("/webhooks/" +:+ id))
                           (Some sec))).
  { apply lookup_insert_eq. }
  split.
  - intros Hsig. eapply handle_invalid; [exact Hget | exact Hsig].
  - intros Hsig.
    destruct (handleWebhook_run_shape id payload signature st') as [Hshape _].
    destruct Hshape as [Hget'|c Hget' Hsig'|c e Hget' Hsig'
                   |c d e Hget' Hsig'|c d date o' Hget' Hsig'];
      rewrite Hget in Hget'; try discriminate Hget';
      injection Hget' as <-; cbn [secret dataMapping targetEntity] in *;
      try congruence;
      (eexists; split; [reflexivity|]);
      intros data entity o'' Hin; mem_cases Hin; injection Hin as -> -> ->;
      reflexivity.
Qed.
End Handler.
End WebhookFacts.

(* ===================================================================== *)
(** ** DataSynchronizationEngine *)
(* ===================================================================== *)

Module Sync.

(** A [DatabaseChange], as far as the engine reads it. *)
Record DatabaseChange (Body : Type) : Type := mkChange {
  change_type : string;
  entityType : string;
  entityId : string;
  change_body : Body
}.
Arguments mkChange {Body}.
Arguments change_type {Body}.
Arguments entityType {Body}.
Arguments entityId {Body}.
Arguments change_body {Body}.

(** The object handed to [logSyncEvent]. *)
Record SyncEvent (Date : Type) : Type := mkSyncEvent {
  connectionId : string;
  changeType : string;
  event_entityType : string;
  event_entityId : string;
  event_status : string;
  timestamp : Date
}.
Arguments mkSyncEvent {Date}.
Arguments connectionId {Date}.
Arguments changeType {Date}.
Arguments event_entityType {Date}.
Arguments event_entityId {Date}.
Arguments event_status {Date}.
Arguments timestamp {Date}.

(** A [SyncConfiguration], as far as the engine reads it. *)
Record SyncConfiguration (Rules : Type) : Type := mkSyncConfig {
  config_id : string;
  bidirectional : bool;
  pollInterval : Z;
  rules : Rules
}.
Arguments mkSyncConfig {Rules}.
Arguments config_id {Rules}.
Arguments bidirectional {Rules}.
Arguments pollInterval {Rules}.
Arguments rules {Rules}.

(** The engine's state: the private map [syncConnections], and the rest of
    the world, which is all that the other methods see. *)
Record State (W Connection : Type) : Type := mkState {
  world : W;
  syncConnections : gmap string Connection
}.
Arguments mkState {W Connection}.
Arguments world {W Connection}.
Arguments syncConnections {W Connection}.

Section Engine.
Context {W Connection Rules Body SyncPayload Date : Type}.
Local Abbreviation Config := (SyncConfiguration Rules).
Local Abbreviation Change := (DatabaseChange Body).
Local Abbreviation St := (State W Connection).
(** The class [SyncConnection], which the sources use but do not define. *)
Variable newSyncConnection : Config -> Connection.
Variable connection_id : Connection -> string.
Variable connection_config : Connection -> Config.
Variable initialize : Connection -> Async W unit.
Variable sendUpdate : Connection -> SyncPayload -> Async W unit.
(** Methods of the engine that the sources call but do not define. *)
Variable transformChangeForSync : Change -> Config -> Async W SyncPayload.
Variable logSyncEvent : SyncEvent Date -> Async W unit.
Variable handleSyncError : JsError -> Change -> Connection -> Async W unit.
Variable now : W -> Date.

(** The awaited calls, and the two registrations with the runtime:
    [this.database.on('change', listener)] with the connection its
    listener closes over, and [setInterval(poll, ms)] likewise. *)
Inductive Call : Type :=
  | Initialize (connection : Connection) (o : Outcome unit)
  | TransformChangeForSync (change : Change) (config : Config)
                           (o : Outcome SyncPayload)
  | SendUpdate (connection : Connection) (payload : SyncPayload)
               (o : Outcome unit)
  | LogSyncEvent (event : SyncEvent Date) (o : Outcome unit)
  | HandleSyncError (error : JsError) (change : Change)
                    (connection : Connection) (o : Outcome unit)
  | OnChange (connection : Connection)
  | SetInterval (connection : Connection) (ms : Z).

Definition awaited {A} (h : Async W A) : Async St A :=
  λ st, let '(o, w) := h (world st) in (o, mkState w (syncConnections st)).

(** A call that registers a callback and returns. *)
Definition register (ev : Call) : Eff St Call unit :=
  λ st, (Resolved tt, st, [ev]).

Definition processSyncChange (change : Change) (connection : Connection)
  : Eff St Call unit :=
  try_catch
    (let! syncPayload :=
       call (TransformChangeForSync change (connection_config connection))
            (awaited (transformChangeForSync change
                        (connection_config connection))) in
     call (SendUpdate connection syncPayload)
          (awaited (sendUpdate connection syncPayload)) ;;!
     let! timestamp := peek (λ st, now (world st)) in
     let event := mkSyncEvent (connection_id connection) (change_type change)
                              (entityType change) (entityId change)
                              "success" timestamp in
     call (LogSyncEvent event) (awaited (logSyncEvent event)))
    (λ error,
       call (HandleSyncError error change connection)
            (awaited (handleSyncError error change connection))).

Definition startChangeDetection (syncId : string) : Eff St Call unit :=
  let! connection := peek (λ st, syncConnections st !! syncId) in
  match connection with
  | None => ret tt
  | Some connection =>
      (* Listen to database changes *)
      register (OnChange connection) ;;!
      (* Poll external system for changes *)
      if bidirectional (connection_config connection)
      then register (SetInterval connection
                       (pollInterval (connection_config connection)))
      else ret tt
  end.

Definition setupSync (config : Config) : Eff St Call Connection :=
  let connection := newSyncConnection config in
  call (Initialize connection) (awaited (initialize connection)) ;;!
  sync (λ st, (tt, mkState (world st)
                     (<[ config_id config := connection ]> (syncConnections st)))) ;;!
  (* Start monitoring for changes *)
  startChangeDetection (config_id config) ;;!
  ret connection.
End Engine.
End Sync.

Module SyncFacts.
Import Sync.

Section Engine.
Context {W Connection Rules Body SyncPayload Date : Type}.
Local Abbreviation Config := (SyncConfiguration Rules).
Local Abbreviation Change := (DatabaseChange Body).
Local Abbreviation St := (State W Connection).
Variable newSyncConnection : Config -> Connection.
Variable connection_id : Connection -> string.
Variable connection_config : Connection -> Config.
Variable initialize : Connection -> Async W unit.
Variable sendUpdate : Connection -> SyncPayload -> Async W unit.
Variable transformChangeForSync : Change -> Config -> Async W SyncPayload.
Variable logSyncEvent : SyncEvent Date -> Async W unit.
Variable handleSyncError : JsError -> Change -> Connection -> Async W unit.
Variable now : W -> Date.

Local Abbreviation Ev :=
  (Call (Connection := Connection) (Rules := Rules) (Body := Body)
        (SyncPayload := SyncPayload) (Date := Date)).
Local Abbreviation process :=
  (processSyncChange connection_id connection_config sendUpdate
     transformChangeForSync logSyncEvent handleSyncError now).
Local Abbreviation setup :=
  (setupSync (Body := Body) (SyncPayload := SyncPayload) (Date := Date)
     newSyncConnection connection_config initialize).

Lemma sync_awaited_run {A} (h : Async W A) (st : St) :
  awaited h st
  = ((h (world st)).1, mkState (h (world st)).2 (syncConnections st)).
Proof. unfold awaited. destruct (h (world st)). reflexivity. Qed.

(** The event logged for a change that was sent over a connection. *)
Definition success_event (change : Change) (connection : Connection) (date : Date)
  : SyncEvent Date :=
  mkSyncEvent (connection_id connection) (change_type change)
    (entityType change) (entityId change) "success" date.

(** The shapes a run of [processSyncChange] can take. *)
Inductive run_shape (change : Change) (connection : Connection)
  : Outcome unit -> list Ev -> Prop :=
  | transform_rejects e o :
      run_shape change connection o
        [TransformChangeForSync change (connection_config connection) (Rejected e);
         HandleSyncError e change connection o]
  | send_rejects p e o :
      run_shape change connection o
        [TransformChangeForSync change (connection_config connection) (Resolved p);
         SendUpdate connection p (Rejected e);
         HandleSyncError e change connection o]
  | log_rejects p date e o :
      run_shape change connection o
        [TransformChangeForSync change (connection_config connection) (Resolved p);
         SendUpdate connection p (Resolved tt);
         LogSyncEvent (success_event change connection date) (Rejected e);
         HandleSyncError e change connection o]
  | synced p date :
      run_shape change connection (Resolved tt)
        [TransformChangeForSync change (connection_config connection) (Resolved p);
         SendUpdate connection p (Resolved tt);
         LogSyncEvent (success_event change connection date) (Resolved tt)].

Lemma processSyncChange_run_shape change connection (st : St) :
  run_shape change connection
    (outcome_of (process change connection st))
    (trace_of (process change connection st))
  ∧ syncConnections (world_of (process change connection st))
    = syncConnections st.
Proof.
  unfold processSyncChange.
  pose proof (sync_awaited_run (transformChangeForSync change
                             (connection_config connection)) st) as Ht.
  destruct (transformChangeForSync change (connection_config connection) (world st))
    as [[p|e] w1]; cbn [fst snd] in Ht.
  2:{ erewrite try_catch_rejected
        by (erewrite bind_call_rejected by exact Ht; reflexivity).
      cbv beta. unfold call. rewrite sync_awaited_run. run_simpl.
      split; [apply transform_rejects | reflexivity]. }
  set (st1 := mkState w1 (syncConnections st)) in *.
  pose proof (sync_awaited_run (sendUpdate connection p) st1) as Hs.
  destruct (sendUpdate connection p (world st1)) as [[[]|e] w2];
    cbn [fst snd] in Hs.
  2:{ erewrite try_catch_rejected.
      2:{ erewrite bind_call_resolved by exact Ht.
          erewrite bind_call_rejected by exact Hs. run_simpl. reflexivity. }
      cbv beta. unfold call. rewrite sync_awaited_run. run_simpl.
      split; [apply send_rejects | reflexivity]. }
  set (st2 := mkState w2 (syncConnections st1)) in *.
  pose proof (sync_awaited_run
                (logSyncEvent (success_event change connection (now (world st2))))
                st2) as Hl.
  destruct (logSyncEvent (success_event change connection (now (world st2)))
              (world st2)) as [[[]|e] w3]; cbn [fst snd] in Hl.
  - erewrite try_catch_resolved.
    2:{ erewrite bind_call_resolved by exact Ht.
        erewrite bind_call_resolved by exact Hs. run_simpl.
        rewrite bind_peek. unfold success_event in Hl.
        erewrite call_run by exact Hl. reflexivity. }
    run_simpl. split; [apply synced | reflexivity].
  - erewrite try_catch_rejected.
    2:{ erewrite bind_call_resolved by exact Ht.
        erewrite bind_call_resolved by exact Hs. run_simpl.
        rewrite bind_peek. unfold success_event in Hl.
        erewrite call_run by exact Hl. reflexivity. }
    cbv beta. unfold call. rewrite sync_awaited_run. run_simpl.
    split; [apply log_rejects | reflexivity].
Qed.

(** The three calls of the [try] block that rejected with [e]. *)
Definition failed_with (e : JsError) (ev : Ev) : Prop :=
  (∃ c cfg, ev = TransformChangeForSync c cfg (Rejected e))
  ∨ (∃ k p, ev = SendUpdate k p (Rejected e))
  ∨ ∃ event, ev = LogSyncEvent event (Rejected e).

(** X28. [processSyncChange] hands every failure to [handleSyncError]:
    it rejects only when that handler rejects, and the handler is called
    exactly when the transformation, the update or the logging of the
    success event rejected, with that error, as the last call.  In the
    other direction, whenever one of these three calls rejects, whatever
    the value it rejects with, the next and last call is [handleSyncError]
    with that value, the change and the connection, and the method settles
    as the handler does: the caught value is handed on as it is, no
    property of it is read.  'success' is logged only after the update was
    sent; but when logging it fails, the error handler runs although the
    update was sent.  The registered connections stay as they were. *)
Theorem sync_failures_go_to_the_error_handler
    (change : Change) (connection : Connection) (st : St) :
  let run := process change connection st in
  (∀ e, outcome_of run = Rejected e ->
        ∃ e0, last (trace_of run)
              = Some (HandleSyncError e0 change connection (Rejected e)))
  ∧ (∀ e0 c k o,
       HandleSyncError e0 c k o ∈ trace_of run ->
       c = change ∧ k = connection ∧ outcome_of run = o
       ∧ ∃ t0 failed,
           trace_of run = t0 ++ [failed; HandleSyncError e0 change connection o]
           ∧ (failed = TransformChangeForSync change (connection_config connection)
                         (Rejected e0)
              ∨ (∃ p, failed = SendUpdate connection p (Rejected e0))
              ∨ ∃ ev, failed = LogSyncEvent ev (Rejected e0)))
  ∧ (∀ ev o,
       LogSyncEvent ev o ∈ trace_of run ->
       event_status ev = "success"
       ∧ connectionId ev = connection_id connection
       ∧ ∃ p, SendUpdate connection p (Resolved tt) ∈ trace_of run)
  ∧ (∀ ev e,
       LogSyncEvent ev (Rejected e) ∈ trace_of run ->
       ∃ o, HandleSyncError e change connection o ∈ trace_of run)
  ∧ (∀ failed e,
       failed ∈ trace_of run -> failed_with e failed ->
       ∃ t0 o,
         trace_of run = t0 ++ [failed; HandleSyncError e change connection o]
         ∧ outcome_of run = o)
  ∧ syncConnections (world_of run) = syncConnections st.
Proof.
  intros run.
  destruct (processSyncChange_run_shape change connection st) as [Hs Hmap].
  fold run in Hs, Hmap. clearbody run. destruct run as [[o wf] t].
  unfold outcome_of, trace_of, world_of in *. cbn [fst snd] in *.
  split; [|split; [|split; [|split; [|split; [|exact Hmap]]]]].
  - intros e He. destruct Hs as [e0 o|p e0 o|p date e0 o|p date];
      try discriminate He; subst o; eexists; reflexivity.
  - intros e1 c k o1 Hin.
    destruct Hs as [e0 o|p e0 o|p date e0 o|p date];
      mem_cases Hin; injection Hin as -> -> -> ->;
      (split; [reflexivity|]); (split; [reflexivity|]); (split; [reflexivity|]).
    + exists []. eexists. split; [reflexivity|]. left. reflexivity.
    + eexists [_]. eexists. split; [reflexivity|]. right. left. eexists. reflexivity.
    + eexists [_; _]. eexists. split; [reflexivity|].
      right. right. eexists. reflexivity.
  - intros ev o1 Hin.
    destruct Hs as [e0 o|p e0 o|p date e0 o|p date];
      mem_cases Hin; injection Hin as -> ->;
      (split; [reflexivity|]); (split; [reflexivity|]); exists p; in_list.
  - intros ev e Hin.
    destruct Hs as [e0 o|p e0 o|p date e0 o|p date];
      mem_cases Hin. injection Hin as -> ->. exists o. in_list.
  - intros failed e Hin Hfailed.
    assert (Herr : ∀ ev' : Ev, failed_with e ev' ->
              match ev' with
              | TransformChangeForSync _ _ o' | SendUpdate _ _ o'
              | LogSyncEvent _ o' => o' = Rejected e
              | _ => False
              end).
    { intros ev' [(c & cfg & ->)|[(k & p & ->)|(event & ->)]]; reflexivity. }
    destruct Hs as [e0 o|p e0 o|p date e0 o|p date];
      mem_cases Hin; subst failed; apply Herr in Hfailed;
      try discriminate Hfailed; try contradiction;
      injection Hfailed as ->.
    + exists [], o. split; reflexivity.
    + eexists [_], o. split; reflexivity.
    + eexists [_; _], o. split; reflexivity.
Qed.

(** X29. [setupSync] registers a connection only after it has been
    initialized: when [initialize] rejects, [setupSync] rejects with that
    error, the connection is not stored, and neither a change listener nor
    a poll timer is registered.  Otherwise the connection is stored under
    the id of the configuration, replacing a connection stored there
    before, one change listener is registered for it, and a poll timer is
    registered exactly when the connection is bidirectional, with its poll
    interval. *)
Theorem connections_are_registered_after_initialization
    (config : Config) (st : St) :
  let connection := newSyncConnection config in
  let run := setup config st in
  (∀ e, Initialize connection (Rejected e) ∈ trace_of run ->
        outcome_of run = Rejected e
        ∧ trace_of run = [Initialize connection (Rejected e)]
        ∧ syncConnections (world_of run) = syncConnections st)
  ∧ (Initialize connection (Resolved tt) ∈ trace_of run ->
     outcome_of run = Resolved connection
     ∧ syncConnections (world_of run)
       = <[ config_id config := connection ]> (syncConnections st)
     ∧ trace_of run
       = [Initialize connection (Resolved tt); OnChange connection]
         ++ (if bidirectional (connection_config connection)
             then [SetInterval connection
                     (pollInterval (connection_config connection))]
             else []))
  ∧ ∃ o, head (trace_of run) = Some (Initialize connection o).
Proof.
  intros connection run. unfold run, setupSync. fold connection.
  pose proof (sync_awaited_run (initialize connection) st) as Hi.
  destruct (initialize connection (world st)) as [[[]|e] w1]; cbn [fst snd] in Hi.
  - erewrite bind_call_resolved by exact Hi. run_simpl.
    erewrite bind_sync by reflexivity.
    unfold startChangeDetection. rewrite <- bind_assoc, bind_peek.
    cbn [syncConnections]. rewrite lookup_insert_eq.
    unfold register, bind, ret.
    destruct (bidirectional (connection_config connection)); cbn.
    + split; [|split; [|eexists; reflexivity]].
      * intros e Hin. mem_cases Hin.
      * intros _. repeat split.
    + split; [|split; [|eexists; reflexivity]].
      * intros e Hin. mem_cases Hin.
      * intros _. repeat split.
  - erewrite bind_call_rejected by exact Hi. run_simpl.
    split; [|split; [|eexists; reflexivity]].
    + intros e' Hin. mem_cases Hin. injection Hin as <-. repeat split.
    + intros Hin. mem_cases Hin.
Qed.
End Engine.
End SyncFacts.

(* ===================================================================== *)
(** ** ResourceLibraryMigrator *)
(* ===================================================================== *)

Module ResourceLibrary.

(** The two SQL statements of [migrateResourceLibrary], by the table they
    select from: [master_resources] of the organization, ordered by
    [resource_code], and [composite_resource_components] of its composite
    resources. *)
Inductive Query : Type := resourcesQuery | compositeResourcesQuery.

Section Migrator.
Context {W Transformed Result : Type}.
(** Collaborators the sources call but do not define. *)
Variable ribCandyDb_query : Query -> string -> Async W (list JsObject).
Variable transformResourceHierarchy :
  list JsObject -> list JsObject -> Async W Transformed.
Variable importResourceLibrary : string -> Transformed -> Async W Result.

Inductive Call : Type :=
  | DbQuery (q : Query) (param : string) (o : Outcome (list JsObject))
  | TransformResourceHierarchy (resources compositeComponents : list JsObject)
                               (o : Outcome Transformed)
  | ImportResourceLibrary (organizationId : string) (resources : Transformed)
                          (o : Outcome Result).

Definition migrateResourceLibrary (organizationId : string)
  : Eff W Call Result :=
  let run q := call (DbQuery q organizationId)
                    (ribCandyDb_query q organizationId) in
  let! results := promise_all [run resourcesQuery; run compositeResourcesQuery] in
  match results with
  | [resources; compositeComponents] =>
      (* Transform and create hierarchical structure *)
      let! transformedResources :=
        call (TransformResourceHierarchy resources compositeComponents)
             (transformResourceHierarchy resources compositeComponents) in
      (* Import into MVLBIM *)
      call (ImportResourceLibrary organizationId transformedResources)
           (importResourceLibrary organizationId transformedResources)
  (* [Promise.all] resolves to an array as long as the one it was given,
     here two: the destructuring never sees another length. *)
  | _ => throw (mkError "unreachable" [])
  end.
End Migrator.
End ResourceLibrary.

Module ResourceLibraryFacts.
Import ResourceLibrary.

Section Migrator.
Context {W Transformed Result : Type}.
Variable ribCandyDb_query : Query -> string -> Async W (list JsObject).
Variable transformResourceHierarchy :
  list JsObject -> list JsObject -> Async W Transformed.
Variable importResourceLibrary : string -> Transformed -> Async W Result.

Local Abbreviation Ev := (Call (Transformed := Transformed) (Result := Result)).
Local Abbreviation migrate :=
  (migrateResourceLibrary ribCandyDb_query transformResourceHierarchy
     importResourceLibrary).

(** X30. [migrateResourceLibrary] issues both of its queries with the
    organization id, the resources first, also when one of them fails.
    The hierarchy is transformed only when both queries resolved, from the
    rows they returned, and imported only when the transformation
    resolved, for the same organization; the migration settles as the
    import does.  There is no [catch]: a query, a transformation or an
    import that rejects makes the migration reject, and nothing is
    imported then. *)
Theorem resource_library_is_imported_after_both_queries (org : string) (w : W) :
  let run := migrate org w in
  ∃ o1 o2 rest,
    trace_of run
    = DbQuery resourcesQuery org o1 :: DbQuery compositeResourcesQuery org o2 :: rest
    ∧ (∀ e, Rejected e ∈ [o1; o2] ->
            rest = [] ∧ ∃ e', outcome_of run = Rejected e' ∧ Rejected e' ∈ [o1; o2])
    ∧ (∀ resources components,
         o1 = Resolved resources -> o2 = Resolved components ->
         ∃ ot,
           (∀ e, ot = Rejected e ->
                 rest = [TransformResourceHierarchy resources components ot]
                 ∧ outcome_of run = Rejected e)
           ∧ (∀ transformed, ot = Resolved transformed ->
                rest = [TransformResourceHierarchy resources components ot;
                        ImportResourceLibrary org transformed (outcome_of run)]))
    ∧ (∀ org' transformed o,
         ImportResourceLibrary org' transformed o ∈ trace_of run ->
         org' = org ∧ o = outcome_of run
         ∧ ∃ resources components,
             o1 = Resolved resources ∧ o2 = Resolved components
             ∧ TransformResourceHierarchy resources components (Resolved transformed)
                 ∈ trace_of run).
Proof.
  intros run. unfold run, migrateResourceLibrary.
  destruct (ribCandyDb_query resourcesQuery org w) as [o1 w1] eqn:H1.
  destruct (ribCandyDb_query compositeResourcesQuery org w1) as [o2 w2] eqn:H2.
  exists o1, o2.
  assert (Hall : promise_all (Ev := Ev)
                   [call (DbQuery resourcesQuery org)
                         (ribCandyDb_query resourcesQuery org);
                    call (DbQuery compositeResourcesQuery org)
                         (ribCandyDb_query compositeResourcesQuery org)] w
                 = (collect [o1; o2], w2,
                    [DbQuery resourcesQuery org o1;
                     DbQuery compositeResourcesQuery org o2])).
  { unfold promise_all, start_all, bind, start, call, ret. rewrite H1, H2.
    cbn -[collect]. destruct (collect [o1; o2]); reflexivity. }
  destruct o1 as [resources|e1], o2 as [components|e2]; cbn [collect] in Hall.
  2,3,4: (erewrite bind_rejected by exact Hall; run_simpl;
          eexists []; split; [reflexivity|]; split; [|split];
          [intros e _; split; [reflexivity|]; eexists; split; [reflexivity | in_list]
          |intros ? ? Hr1 Hr2; first [discriminate Hr1 | discriminate Hr2]
          |intros ? ? ? Hin; mem_cases Hin]).
  erewrite bind_resolved by exact Hall. run_simpl.
  destruct (transformResourceHierarchy resources components w2)
    as [[transformed|e] w3] eqn:Ht.
  - erewrite bind_call_resolved by exact Ht. run_simpl.
    destruct (importResourceLibrary org transformed w3) as [o w4] eqn:Hi.
    erewrite call_run by exact Hi. run_simpl. cbn [app].
    eexists. split; [reflexivity|]. split; [|split].
    + intros e Hin. mem_cases Hin.
    + intros r c [= <-] [= <-]. exists (Resolved transformed). split.
      * intros e He. discriminate He.
      * intros t [= <-]. reflexivity.
    + intros org' t o' Hin. mem_cases Hin. injection Hin as -> -> ->.
      repeat split. exists resources, components. repeat split. in_list.
  - erewrite bind_call_rejected by exact Ht. run_simpl. cbn [app].
    eexists. split; [reflexivity|]. split; [|split].
    + intros e' Hin. mem_cases Hin.
    + intros r c [= <-] [= <-]. exists (Rejected e). split.
      * intros e' [= <-]. split; reflexivity.
      * intros t Ht'. discriminate Ht'.
    + intros org' t o' Hin. mem_cases Hin.
Qed.
End Migrator.
End ResourceLibraryFacts.

(* ===================================================================== *)
(** ** Runs of the properties above *)
(* ===================================================================== *)

Module PropertyRuns.
Import TransformProperties.

(** *** The Excel engine *)

(** A loader that cannot read the file. *)
Definition unreadable (_ : string) : Async Scenario.World Datatypes.unit :=
  λ w, (Rejected (mkError "unreadable" []), w).

Local Abbreviation migrate_unreadable :=
  (Excel.migrateExcelWorkbook Scenario.worksheets Scenario.sheet_name
     Scenario.findHeaderRow Scenario.identifyDataRange
     Scenario.calculateMappingConfidence Scenario.generateMappingSuggestions
     Scenario.generateImportSummary Scenario.inferDataType
     Excel.edit_similarity Excel.DEFAULT_MIN_CONFIDENCE
     unreadable Scenario.getTemplate
     (Scenario.extractDataFromExcel Scenario.good_items)
     Scenario.validateExtractedData Scenario.importData
     "boq.xlsx" "standard_boq" Scenario.empty_world).


(** *** The batch processor *)

Local Abbreviation reporting_job :=
  (Batch.processMigrationJob (λ _ _ d, BatchScenario.resolves d)
     (BatchScenario.getDataBatch Scenario.three_items)
     BatchScenario.processBatch_reporting
     (λ _ p, BatchScenario.resolves p) BatchScenario.resolves
     10 BatchScenario.job Scenario.empty_world).

(** With a batch size of 1, the third batch of the three records is
    fetched at offset 2. *)
Lemma third_batch_starts_at_twice_the_batch_size :
  ∃ off size,
    BatchProperties.fetch_args (trace_of reporting_job) !! 2 = Some (off, size)
    ∧ off = 2%Z ∧ size = 1%Z.
Proof.
  assert (Hfetch : ∃ off size,
             BatchProperties.fetch_args (trace_of reporting_job) !! 2
             = Some (off, size))
    by (vm_compute; do 2 eexists; reflexivity).
  destruct Hfetch as (off & size & Hlook).
  destruct (BatchProperties.batches_are_fetched_at_multiples_of_the_batch_size
              (λ _ _ d, BatchScenario.resolves d)
              (BatchScenario.getDataBatch Scenario.three_items)
              BatchScenario.processBatch_reporting
              (λ _ p, BatchScenario.resolves p) BatchScenario.resolves
              10 BatchScenario.job Scenario.empty_world)
    as (_ & _ & _ & Hoff).
  destruct (Hoff 2%nat off size Hlook) as [-> ->].
  exists (Z.of_nat 2 * BatchFacts.batch_size (Batch.config BatchScenario.job))%Z,
         (BatchFacts.batch_size (Batch.config BatchScenario.job)).
  split; [exact Hlook|]. split; reflexivity.
Defined.

(** Of the three records the second is reported as an error: the third
    progress report counts two successes and lists no error of its own. *)
Lemma third_report_adds_up_the_successes :
  ∃ p, BatchProperties.progress_reports (trace_of reporting_job) !! 2 = Some p
       ∧ Batch.processed p = 2%Z
       ∧ Batch.progress_errors p = [].
Proof.
  assert (Hp : ∃ p, BatchProperties.progress_reports (trace_of reporting_job) !! 2
                    = Some p)
    by (vm_compute; eexists; reflexivity).
  destruct Hp as [p Hlook].
  destruct (BatchProperties.progress_is_cumulative_but_errors_are_per_batch
              (λ _ _ d, BatchScenario.resolves d)
              (BatchScenario.getDataBatch Scenario.three_items)
              BatchScenario.processBatch_reporting
              (λ _ p, BatchScenario.resolves p) BatchScenario.resolves
              10 BatchScenario.job Scenario.empty_world)
    as (_ & Hreports).
  destruct (Hreports 2%nat p Hlook) as (r & Hr & Hsum & _ & Herr).
  exists p. split; [exact Hlook|]. split.
  - rewrite Hsum. vm_compute. reflexivity.
  - rewrite Herr. vm_compute in Hr. injection Hr as <-. reflexivity.
Defined.

Local Abbreviation timed_out_job :=
  (Batch.processMigrationJob (λ _ _ d, BatchScenario.resolves d)
     (BatchScenario.getDataBatch [Scenario.cost_item "A1" 5])
     BatchScenario.processBatch_transient
     (λ _ p, BatchScenario.resolves p) BatchScenario.resolves
     10 BatchScenario.job Scenario.empty_world).

(** A job whose first batch times out rejects, and its last two calls are
    the rejected one and the 'failed' status write. *)
Lemma failed_batch_marks_the_job_failed :
  ∃ t0 ev e0 o,
    trace_of timed_out_job = t0 ++ [ev; BatchFacts.failed_write "job-1" e0 o]
    ∧ BatchFacts.rejection ev = Some e0.
Proof.
  assert (Ho : ∃ e, outcome_of timed_out_job = Rejected e)
    by (vm_compute; eexists; reflexivity).
  destruct Ho as [e Ho].
  assert (Hlast : ∃ ev, last (trace_of timed_out_job) = Some ev
                        ∧ BatchFacts.rejection ev = None)
    by (vm_compute; eexists; split; reflexivity).
  destruct (BatchProperties.any_rejected_call_fails_the_job
              (λ _ _ d, BatchScenario.resolves d)
              (BatchScenario.getDataBatch [Scenario.cost_item "A1" 5])
              BatchScenario.processBatch_transient
              (λ _ p, BatchScenario.resolves p) BatchScenario.resolves
              10 BatchScenario.job Scenario.empty_world)
    as (Hrej & _).
  destruct (Hrej e Ho) as (t0 & ev & e0 & Hev & _ & Hend).
  destruct (nullish e0).
  - exfalso. destruct Hend as [Ht _]. destruct Hlast as (ev' & Hlast & Hnone).
    rewrite Ht, last_snoc in Hlast. injection Hlast as <-. congruence.
  - destruct Hend as (o & Ht & _).
    exists t0, ev, e0, o. split; [exact Ht | exact Hev].
Defined.

(** A job queued without a priority is added once, with priority 5. *)
Lemma job_without_priority_is_queued_with_five :
  ∃ data opts o,
    trace_of (Batch.queueMigrationJob (Queue := Datatypes.unit)
                (λ w : Scenario.World, ("job-1", w)) (λ _ w, (tt, w)) (λ _, tt)
                (λ _ _ _ _ w, (Resolved tt, w))
                (Batch.config BatchScenario.job) Scenario.empty_world)
    = [Batch.QueueAdd "migration-job" data opts o]
    ∧ Batch.jobId data = "job-1"
    ∧ Batch.opt_priority opts = 5%Z.
Proof.
  destruct (BatchProperties.queued_job_carries_the_returned_id
              (Queue := Datatypes.unit)
              (λ w : Scenario.World, ("job-1", w)) (λ _ w, (tt, w)) (λ _, tt)
              (λ _ _ _ _ w, (Resolved tt, w))
              (Batch.config BatchScenario.job) Scenario.empty_world)
    as (data & opts & o & Ht & Hid & _ & _ & _ & _ & Hfive & _).
  exists data, opts, o. split; [exact Ht|]. split; [exact Hid|].
  apply Hfive. left. reflexivity.
Defined.

(** *** Patterns and schemas *)

(** A string that is a slug and a project code at once. *)
Lemma dated_code_holds_digits_and_dashes :
  Forall (λ c, Regex.is_digit c = true ∨ c = 45%N) (Regex.units "2024-01").
Proof.
  destruct (PatternFacts.slugs_and_project_codes (Regex.units "2024-01"))
    as (_ & _ & Hboth).
  apply Hboth; vm_compute; reflexivity.
Defined.

Lemma accepted_address_holds_one_at_sign :
  length (List.filter (N.eqb 64) (Regex.units "site@example.org")) = 1%nat.
Proof.
  destruct (PatternFacts.email_pattern_shape (Regex.units "site@example.org"))
    as [_ Hone].
  apply Hone. vm_compute. reflexivity.
Defined.

Lemma accepted_password_can_be_registered :
  Schema.parse_value Scenario.cuid_pattern ["password"]
    Patterns.register_password (JStr "Passw0rd") = [].
Proof.
  destruct PatternFacts.password_pattern_shape as [_ Hlen].
  apply (Hlen Scenario.cuid_pattern ["password"] "Passw0rd").
  vm_compute. reflexivity.
Defined.

(** An update that sets the quantity to -2, and nothing else. *)
Lemma negative_quantity_fails_an_update :
  Schema.mkZodIssue "too_small" ["quantity"] "Quantity must be positive"
  ∈ Schema.issues_of Scenario.cuid_pattern Schemas.updateCostItemSchema
      {[ "quantity" := JNum (num_of_Z (-2)) ]}.
Proof.
  destruct (SchemaFacts.partial_schema_is_weaker_on_missing_fields_only
              Scenario.cuid_pattern) as (_ & _ & _ & Hquantity & _).
  apply (Hquantity _ (num_of_Z (-2))); reflexivity.
Defined.

(** The cost item of the runs is accepted: its quantity is positive and
    its category id is a cuid. *)
Lemma accepted_cost_item_has_a_positive_quantity :
  SchemaFacts.is_positive (SchemaFacts.read (Scenario.cost_item "A1" 5) "quantity")
  ∧ SchemaFacts.is_cuid_string Scenario.cuid_pattern
      (SchemaFacts.read (Scenario.cost_item "A1" 5) "categoryId").
Proof.
  destruct (SchemaFacts.createCostItemSchema_accepts Scenario.cuid_pattern
              (Scenario.cost_item "A1" 5)) as [Hshape _].
  destruct Hshape as (_ & _ & _ & _ & Hq & _ & _ & Hc & _).
  - vm_compute. reflexivity.
  - split; [exact Hq | exact Hc].
Defined.

(** *** Sheets *)

(** The sheet of the runs has the two header cells "Code" and "QTY " and
    the data rows 2 to 4. *)
Lemma sheet_of_two_columns_and_three_records :
  ∃ mapping,
    Excel.analyzeSheet (Workbook := Datatypes.unit) (Extracted := list JsObject)
      Scenario.sheet_name Scenario.findHeaderRow Scenario.identifyDataRange
      Scenario.inferDataType Excel.edit_similarity Excel.DEFAULT_MIN_CONFIDENCE
      tt Excel.boqTemplate Scenario.empty_world
    = (Resolved mapping, Scenario.empty_world, [])
    ∧ map Excel.excelHeader (Excel.columnMappings mapping) = ["Code"; "QTY "]
    ∧ map Excel.excelColumn (Excel.columnMappings mapping) = [0; 1]%nat
    ∧ Excel.recordCount mapping = 3%Z.
Proof.
  destruct (ExcelProperties.analyzeSheet_maps_every_column
              (Workbook := Datatypes.unit) (Extracted := list JsObject)
              Scenario.sheet_name Scenario.findHeaderRow Scenario.identifyDataRange
              Scenario.inferDataType Excel.edit_similarity
              Excel.DEFAULT_MIN_CONFIDENCE tt Excel.boqTemplate Scenario.empty_world)
    as (mapping & Hrun & _ & _ & _ & Hheaders & Hcolumns & _ & _ & Hcount & _).
  exists mapping. split; [exact Hrun|]. split; [exact Hheaders|].
  split; [exact Hcolumns | exact Hcount].
Defined.

(** The workbook of the runs has the one sheet "BOQ". *)
Lemma workbook_of_one_sheet :
  ∃ mapping,
    Excel.detectDataStructure (Extracted := list JsObject)
      Scenario.worksheets Scenario.sheet_name Scenario.findHeaderRow
      Scenario.identifyDataRange Scenario.calculateMappingConfidence
      Scenario.inferDataType Excel.edit_similarity Excel.DEFAULT_MIN_CONFIDENCE
      tt Excel.boqTemplate Scenario.empty_world
    = (Resolved mapping, Scenario.empty_world, [])
    ∧ map Excel.sheetName (Excel.sheets mapping) = ["BOQ"].
Proof.
  destruct (ExcelProperties.detectDataStructure_covers_every_sheet
              (Extracted := list JsObject)
              Scenario.worksheets Scenario.sheet_name Scenario.findHeaderRow
              Scenario.identifyDataRange Scenario.calculateMappingConfidence
              Scenario.inferDataType Excel.edit_similarity
              Excel.DEFAULT_MIN_CONFIDENCE tt Excel.boqTemplate Scenario.empty_world)
    as (mapping & Hrun & _ & Hnames & _).
  exists mapping. split; [exact Hrun | exact Hnames].
Defined.

(** *** Extraction *)

(** Against the database of the runs the extraction resolves to the one
    header row and the item rows. *)
Lemma extraction_reads_the_header_row :
  outcome_of (RIBCandy.extractBOQFromRIBCandy (Log := nat)
                (Boq := list JsObject)
                (Scenario.ribCandyDb_query Scenario.boq_all_positive)
                "P-7" Scenario.empty_world)
  = Resolved (RIBCandy.mkSourceBoq (Some Scenario.header_row)
                Scenario.boq_all_positive []).
Proof.
  destruct (extractBOQFromRIBCandy_issues_three_queries (Log := nat)
              (Boq := list JsObject)
              (Scenario.ribCandyDb_query Scenario.boq_all_positive)
              "P-7" Scenario.empty_world)
    as (o1 & o2 & o3 & Ht & Hres & _).
  injection Ht as <- <- <-.
  apply (Hres [Scenario.header_row] Scenario.boq_all_positive []); reflexivity.
Defined.

(** *** The migration report *)

Definition finished_migration : Report.Migration string Z Z :=
  Report.mkMigration "completed" 100%Z 160%Z
    (JNum (num_of_Z 3)) (JNum (num_of_Z 3)) (JNum (num_of_Z 2))
    (JNum (num_of_Z 1)) (JNum (num_of_Z 1)) 512%Z 40%Z.

Definition migration_log : list (Report.LogEntry string) :=
  [ Report.mkLog "info" "started";
    Report.mkLog "error" "quantity of B2 is negative";
    Report.mkLog "warning" "rate of C3 was rounded";
    Report.mkLog "info" "finished" ].

Local Abbreviation report_of_the_run :=
  (Report.generateMigrationReport
     (λ _ (w : Datatypes.unit), (Resolved finished_migration, w))
     (λ _ (w : Datatypes.unit), (Resolved migration_log, w))
     (λ _, 0%Z) Z.sub "m-1" tt).

(** The report of the log of four entries lists its one error entry, and
    its duration is the difference of the two times. *)
Lemma report_lists_the_error_entry :
  ∃ r, outcome_of report_of_the_run = Resolved r
       ∧ Report.mkLog "error" "quantity of B2 is negative" ∈ Report.errors r
       ∧ Report.duration r = 60%Z.
Proof.
  destruct (ReportFacts.migration_report_splits_the_log_by_level
              (λ _ (w : Datatypes.unit), (Resolved finished_migration, w))
              (λ _ (w : Datatypes.unit), (Resolved migration_log, w))
              (λ _, 0%Z) Z.sub "m-1" tt) as [Hres _].
  destruct (outcome_of report_of_the_run) as [r|e] eqn:Ho;
    [|discriminate Ho].
  destruct (Hres r eq_refl)
    as (migration & logs & Ht & _ & Hd & _ & _ & Herrors & _).
  injection Ht as <- <-.
  exists r. split; [reflexivity|]. split; [|exact Hd].
  apply Herrors. split; [|reflexivity].
  apply (list_elem_of_lookup_2 _ 1). reflexivity.
Defined.

(** *** The resource library *)

(** A legacy database whose composite components cannot be read. *)
Definition components_unreadable (q : ResourceLibrary.Query) (_ : string)
  : Async Datatypes.unit (list JsObject) :=
  λ w, (match q with
        | ResourceLibrary.resourcesQuery => Resolved []
        | ResourceLibrary.compositeResourcesQuery =>
            Rejected (mkError "no such table" [])
        end, w).

Local Abbreviation library_migration :=
  (ResourceLibrary.migrateResourceLibrary components_unreadable
     (λ resources _ (w : Datatypes.unit), (Resolved resources, w))
     (λ _ transformed (w : Datatypes.unit), (Resolved (length transformed), w))
     "org-1" tt).

(** When the second query fails, both queries were issued and nothing
    else. *)
Lemma failed_query_rejects_the_library_migration :
  ∃ e, outcome_of library_migration = Rejected e
       ∧ length (trace_of library_migration) = 2%nat.
Proof.
  destruct (ResourceLibraryFacts.resource_library_is_imported_after_both_queries
              components_unreadable
              (λ resources _ (w : Datatypes.unit), (Resolved resources, w))
              (λ _ transformed (w : Datatypes.unit),
                 (Resolved (length transformed), w))
              "org-1" tt)
    as (o1 & o2 & rest & Ht & Hrej & _).
  assert (Ho2 : o2 = Rejected (mkError "no such table" [])).
  { assert (Hl : trace_of library_migration !! 1
                 = Some (ResourceLibrary.DbQuery
                           ResourceLibrary.compositeResourcesQuery "org-1"
                           (Rejected (mkError "no such table" []))))
      by reflexivity.
    rewrite Ht in Hl. injection Hl as ->. reflexivity. }
  destruct (Hrej (mkError "no such table" [])) as (Hrest & e & He & _).
  { rewrite Ho2. apply (list_elem_of_lookup_2 _ 1). reflexivity. }
  exists e. split; [exact He|]. rewrite Ht, Hrest. reflexivity.
Defined.

(** *** Webhooks *)

(** A handler whose ids are counted up from the world, whose secret is
    derived from the id counter, and whose signature check compares the
    signature with the secret. *)
Definition next_id (w : nat) : string * nat :=
  (if (w =? 0)%nat then "wh-0" else "wh-n", S w).
Definition next_secret (w : nat) : string * nat :=
  (if (w =? 1)%nat then "s3cret" else "other", w).
Definition signed_with (_ : string) (signature : string) (secret : option string)
  : bool :=
  match secret with
  | Some s => String.eqb signature s
  | None => false
  end.
Definition to_records (payload : string) (_ : string) : Async nat (list string) :=
  λ w, (Resolved [payload], w).
Definition quietly {A} (_ : A) : Async nat Datatypes.unit := λ w, (Resolved tt, w).

Definition erp_hook : Webhook.WebhookConfig string string string :=
  Webhook.mkConfig "erp" "erp-to-boq" "cost_items" (Some "/custom") None.

Definition no_hooks : Webhook.State nat string string string :=
  Webhook.mkState 0%nat ∅.

Local Abbreviation register_erp :=
  (Webhook.registerWebhook (Payload := string) (Rec := string)
     (EventType := string) (Date := nat)
     next_id next_secret erp_hook no_hooks).

Local Abbreviation handle_from st id signature :=
  (Webhook.handleWebhook signed_with to_records (λ data _, quietly data)
     quietly (λ _, "updated") (λ w, w) id "payload" signature st).


(** Without a registered webhook a call is rejected as it arrives. *)
Lemma call_for_an_unknown_webhook_is_rejected :
  handle_from no_hooks "wh-0" "s3cret"
  = (Rejected (mkError "Invalid webhook endpoint" []), no_hooks, []).
Proof.
  destruct (WebhookFacts.webhook_changes_need_a_registered_endpoint_and_a_valid_signature
              signed_with to_records (λ data _, quietly data)
              quietly (λ _, "updated") (λ w, w) "wh-0" "payload" "s3cret"
              no_hooks) as [Hunknown _].
  apply Hunknown. reflexivity.
Defined.

(** After the registration, a call signed with the generated secret is
    transformed with the registered mapping; one signed otherwise is
    rejected. *)
Lemma registered_webhook_checks_the_generated_secret :
  (∃ o, head (trace_of (handle_from (world_of register_erp) "wh-0" "s3cret"))
        = Some (Webhook.TransformWebhookData "payload" "erp-to-boq" o))
  ∧ outcome_of (handle_from (world_of register_erp) "wh-0" "guess")
    = Rejected (mkError "Invalid webhook signature" []).
Proof.
  split.
  - destruct (WebhookFacts.registered_webhook_is_handled_with_its_own_secret
                next_id next_secret signed_with to_records
                (λ data _, quietly data) quietly (λ _, "updated") (λ w, w)
                erp_hook "payload" "s3cret" no_hooks) as [_ Hvalid].
    destruct (Hvalid eq_refl) as (o & Hhead & _).
    exists o. exact Hhead.
  - destruct (WebhookFacts.registered_webhook_is_handled_with_its_own_secret
                next_id next_secret signed_with to_records
                (λ data _, quietly data) quietly (λ _, "updated") (λ w, w)
                erp_hook "payload" "guess" no_hooks) as [Hinvalid _].
    exact (f_equal outcome_of (Hinvalid eq_refl)).
Defined.

(** *** Synchronization *)

(** A connection is modelled by its configuration. *)
Definition erp_sync : Sync.SyncConfiguration Datatypes.unit :=
  Sync.mkSyncConfig "sync-1" true 5000 tt.

Definition price_change : Sync.DatabaseChange Datatypes.unit :=
  Sync.mkChange "update" "cost_item" "A1" tt.

Definition no_connections
  : Sync.State Datatypes.unit (Sync.SyncConfiguration Datatypes.unit) :=
  Sync.mkState tt ∅.

Definition offline {A B} (_ : A) : Async Datatypes.unit B :=
  λ w, (Rejected (mkError "offline" []), w).
Definition done {A} (_ : A) : Async Datatypes.unit Datatypes.unit :=
  λ w, (Resolved tt, w).

Local Abbreviation sync_while_offline :=
  (Sync.processSyncChange (Date := nat) Sync.config_id (λ c, c)
     (λ _ (p : string), offline p)
     (λ _ _ (w : Datatypes.unit), (Resolved "payload", w))
     done (λ _ _ c, done c) (λ _, 0%nat)
     price_change erp_sync no_connections).

(** An update that cannot be sent is handed to the error handler, and the
    change settles as the handler does. *)
Lemma failed_update_is_handled :
  ∃ o, Sync.HandleSyncError (mkError "offline" []) price_change erp_sync o
         ∈ trace_of sync_while_offline
       ∧ outcome_of sync_while_offline = o.
Proof.
  destruct (SyncFacts.sync_failures_go_to_the_error_handler (Date := nat)
              Sync.config_id (λ c, c)
              (λ _ (p : string), offline p)
              (λ _ _ (w : Datatypes.unit), (Resolved "payload", w))
              done (λ _ _ c, done c) (λ _, 0%nat)
              price_change erp_sync no_connections)
    as (_ & _ & _ & _ & Hfailed & _).
  destruct (Hfailed (Sync.SendUpdate erp_sync "payload"
                       (Rejected (mkError "offline" [])))
              (mkError "offline" [])) as (t0 & o & Ht & Ho).
  - apply (list_elem_of_lookup_2 _ 1). reflexivity.
  - right. left. eexists _, _. reflexivity.
  - exists o. split; [|exact Ho].
    change (trace_of sync_while_offline) with
      (trace_of (Sync.processSyncChange (Date := nat) Sync.config_id (λ c, c)
                   (λ _ (p : string), offline p)
                   (λ _ _ (w : Datatypes.unit), (Resolved "payload", w))
                   done (λ _ _ c, done c) (λ _, 0%nat)
                   price_change erp_sync no_connections)).
    rewrite Ht. apply elem_of_app. right. in_list.
Defined.

Local Abbreviation setup_while_offline :=
  (Sync.setupSync (Body := Datatypes.unit) (SyncPayload := string) (Date := nat)
     (λ c, c) (λ c, c) offline erp_sync no_connections).

(** A connection that cannot be initialized is not registered. *)
Lemma uninitialized_connection_is_not_registered :
  outcome_of setup_while_offline = Rejected (mkError "offline" [])
  ∧ Sync.syncConnections (world_of setup_while_offline) = ∅.
Proof.
  destruct (SyncFacts.connections_are_registered_after_initialization
              (Body := Datatypes.unit) (SyncPayload := string) (Date := nat)
              (λ c, c) (λ c, c) offline erp_sync no_connections)
    as (Hrejected & _).
  destruct (Hrejected (mkError "offline" [])) as (Ho & _ & Hstate).
  - apply (list_elem_of_lookup_2 _ 0). reflexivity.
  - split; [exact Ho | exact Hstate].
Defined.
End PropertyRuns.
